(** * hsd name records: wire codec, JSON form and DNS synthesis

    A shallow embedding of [lib/covenants/record.js]: the leaf record
    types ([Extra], [Addr], [SSH], [PGP], [TLS], [DS], [Magnet],
    [Service], [Location], [Target]) and the aggregate [HSKRecord] with
    its binary encoding ([toWriter] / [fromReader]), its JSON form
    ([toJSON] / [fromJSON]) and the DNS synthesizer ([toDNS]).

    JavaScript numbers that the code treats as integers are [Z]; the 32-bit
    operators ([>>>], [<<], [&]) are written out with their wrap-around.
    Buffers are [list byte], strings are [string].  Code that can throw
    returns a [result]. *)

From Stdlib Require Import ZArith List String Ascii Bool Lia.
From Stdlib Require Import Strings.Byte DecimalString.
Import ListNotations.

Local Open Scope string_scope.
Local Open Scope list_scope.
Local Open Scope Z_scope.

Set Implicit Arguments.
Set Warnings "-register-all".

(* ===================================================================== *)
(** ** Exceptions *)
(* ===================================================================== *)

(** What a [throw] carries.  [assert(...)] failures are
    [AssertionError]; reads past the end of a buffer are [OutOfBounds]
    (bufio's EncodingError); [new Error(msg)] is [Error]; [Thrown lib] is
    an exception raised inside a collaborating library. *)
Inductive exn : Type :=
| AssertionError
| OutOfBounds
| Error (msg : string)
| Thrown (lib : string).

Definition result (A : Type) : Type := (exn + A)%type.

Definition ret {A} (a : A) : result A := inr a.
Definition throw {A} (e : exn) : result A := inl e.

Definition bind {A B} (m : result A) (k : A -> result B) : result B :=
  match m with
  | inl e => inl e
  | inr a => k a
  end.

Declare Scope js_scope.
Delimit Scope js_scope with js.
Notation "x <- m ;; k" := (bind m (fun x => k))
  (at level 61, m at next level, right associativity) : js_scope.
Notation "' pat <- m ;; k" := (bind m (fun x => match x with pat => k end))
  (at level 61, pat pattern, m at next level, right associativity) : js_scope.
Notation "m ;;; k" := (bind m (fun _ => k))
  (at level 61, right associativity) : js_scope.
Local Open Scope js_scope.

(** [assert(b)] *)
Definition assert (b : bool) : result unit :=
  if b then ret tt else throw AssertionError.

Definition is_ok {A} (m : result A) : bool :=
  match m with inr _ => true | inl _ => false end.

(** A [for (const x of xs)] loop whose body can throw and pushes one
    value per iteration. *)
Fixpoint mapM {A B} (f : A -> result B) (xs : list A) : result (list B) :=
  match xs with
  | [] => ret []
  | x :: xs' => y <- f x ;; ys <- mapM f xs' ;; ret (y :: ys)
  end.

(* ===================================================================== *)
(** ** 32-bit integer operators of JavaScript *)
(* ===================================================================== *)

Module JS.

(** ToUint32 and ToInt32 on an integer-valued number. *)
Definition toUint32 (x : Z) : Z := x mod 2 ^ 32.
Definition toInt32 (x : Z) : Z :=
  let u := x mod 2 ^ 32 in if u <? 2 ^ 31 then u else u - 2 ^ 32.

(** [x >>> n] *)
Definition ushr (x n : Z) : Z := Z.shiftr (toUint32 x) (n mod 32).
(** [x << n] *)
Definition shl (x n : Z) : Z := toInt32 (Z.shiftl (toInt32 x) (n mod 32)).
(** [x & y] *)
Definition and (x y : Z) : Z := toInt32 (Z.land (toInt32 x) (toInt32 y)).

(** [s.slice(0, -n)] for [n > 0]: the string without its last [n]
    characters (empty when it has no more than [n]). *)
Definition slice_to_minus (n : nat) (s : string) : string :=
  substring 0 (String.length s - n) s.

(** [s.endsWith(t)] *)
Definition endsWith (s t : string) : bool :=
  (String.length t <=? String.length s)%nat &&
  String.eqb (substring (String.length s - String.length t) (String.length t) s) t.

(** [String(n)] for an integer: decimal digits, with a minus sign. *)
Definition num_string (z : Z) : string :=
  NilZero.string_of_int (Z.to_int z).

(** Truthiness of a string-or-null value: [null] and [''] are falsy. *)
Definition truthy (s : option string) : bool :=
  match s with
  | None => false
  | Some s => negb (String.eqb s "")
  end.

End JS.

(* ===================================================================== *)
(** ** Bytes *)
(* ===================================================================== *)

(** The byte holding the low eight bits of [z]. *)
Definition u8 (z : Z) : byte :=
  match Byte.of_N (Z.to_N (z mod 256)) with
  | Some b => b
  | None => x00
  end.

Definition byte_val (b : byte) : Z := Z.of_N (Byte.to_N b).

(* ===================================================================== *)
(** ** bufio: buffered writer and reader

    The writer is modelled by the bytes it emits, the reader by the
    bytes it has left.  In bufio [writeU16]/[readU16] and
    [writeU32]/[readU32] are little-endian; the big-endian variants carry
    the [BE] suffix.  A number written into a narrower field keeps its low
    bits. *)
(* ===================================================================== *)

Module Bufio.

Definition writeU8 (v : Z) : list byte := [u8 v].

Definition writeU16 (v : Z) : list byte := [u8 v; u8 (Z.shiftr v 8)].

Definition writeU16BE (v : Z) : list byte := [u8 (Z.shiftr v 8); u8 v].

Definition writeU32 (v : Z) : list byte :=
  [u8 v; u8 (Z.shiftr v 8); u8 (Z.shiftr v 16); u8 (Z.shiftr v 24)].

Definition writeBytes (bs : list byte) : list byte := bs.

(** A reader computation: consumes a prefix of the remaining bytes. *)
Definition reader (A : Type) : Type := list byte -> result (A * list byte).

Definition rret {A} (a : A) : reader A := fun bs => ret (a, bs).
Definition rthrow {A} (e : exn) : reader A := fun _ => throw e.
Definition rbind {A B} (m : reader A) (k : A -> reader B) : reader B :=
  fun bs => match m bs with
            | inl e => inl e
            | inr (a, bs') => k a bs'
            end.
Definition rlift {A} (m : result A) : reader A :=
  fun bs => match m with inl e => inl e | inr a => inr (a, bs) end.

(** [br.left()] *)
Definition left (bs : list byte) : Z := Z.of_nat (List.length bs).

Definition readU8 : reader Z :=
  fun bs => match bs with
            | b :: bs' => ret (byte_val b, bs')
            | [] => throw OutOfBounds
            end.

Definition readU16 : reader Z :=
  fun bs => match bs with
            | b0 :: b1 :: bs' => ret (byte_val b0 + 256 * byte_val b1, bs')
            | _ => throw OutOfBounds
            end.

Definition readU16BE : reader Z :=
  fun bs => match bs with
            | b0 :: b1 :: bs' => ret (256 * byte_val b0 + byte_val b1, bs')
            | _ => throw OutOfBounds
            end.

Definition readU32 : reader Z :=
  fun bs => match bs with
            | b0 :: b1 :: b2 :: b3 :: bs' =>
                ret (byte_val b0 + 256 * byte_val b1
                     + 65536 * byte_val b2 + 16777216 * byte_val b3, bs')
            | _ => throw OutOfBounds
            end.

(** [br.readBytes(n)] *)
Definition readBytes (n : Z) : reader (list byte) :=
  fun bs => let k := Z.to_nat n in
            if (k <=? List.length bs)%nat
            then ret (firstn k bs, skipn k bs)
            else throw OutOfBounds.

End Bufio.

Declare Scope reader_scope.
Delimit Scope reader_scope with reader.
Notation "x <- m ;; k" := (Bufio.rbind m (fun x => k))
  (at level 61, m at next level, right associativity) : reader_scope.
Notation "' pat <- m ;; k" :=
  (Bufio.rbind m (fun x => match x with pat => k end))
  (at level 61, pat pattern, m at next level, right associativity) : reader_scope.

(* ===================================================================== *)
(** ** Strings as bytes: the [ascii] and [hex] encodings of Node buffers *)
(* ===================================================================== *)

Module Enc.

(** [Buffer.from(s, 'ascii')]: one byte per character. *)
Definition ascii_bytes (s : string) : list byte := list_byte_of_string s.

(** [buf.toString('ascii')]: Node clears the high bit of every byte. *)
Definition ascii_string (bs : list byte) : string :=
  string_of_list_byte (map (fun b => u8 (Z.land (byte_val b) 127)) bs).

(** [buf.toString('latin1')]: one character per byte, as it is. *)
Definition raw_string (bs : list byte) : string := string_of_list_byte bs.

Definition hex_digit (n : Z) : ascii :=
  ascii_of_nat (Z.to_nat (if n <? 10 then 48 + n else 87 + n)).

(** [buf.toString('hex')]: two lowercase digits per byte. *)
Fixpoint hex_string (bs : list byte) : string :=
  match bs with
  | [] => EmptyString
  | b :: bs' =>
      String (hex_digit (byte_val b / 16))
        (String (hex_digit (byte_val b mod 16)) (hex_string bs'))
  end.

Definition hex_value (c : ascii) : option Z :=
  let n := Z.of_nat (nat_of_ascii c) in
  if (48 <=? n) && (n <=? 57) then Some (n - 48)
  else if (97 <=? n) && (n <=? 102) then Some (n - 87)
  else if (65 <=? n) && (n <=? 70) then Some (n - 55)
  else None.

(** [Buffer.from(s, 'hex')]: pairs of digits are decoded until the first
    pair that is not hexadecimal; a trailing single character is
    dropped. *)
Fixpoint hex_bytes (s : string) : list byte :=
  match s with
  | String c1 (String c2 s') =>
      match hex_value c1, hex_value c2 with
      | Some h, Some l => u8 (16 * h + l) :: hex_bytes s'
      | _, _ => []
      end
  | _ => []
  end.

(** [bw.writeString(s, 'hex')]: the writer advances by
    [s.length >>> 1] bytes, of which the decoded ones are filled in; the
    writer's buffer is not cleared first, and the model takes the bytes
    left over as zero. *)
Definition write_hex (s : string) : list byte :=
  let n := Nat.div2 (String.length s) in
  let bs := hex_bytes s in
  bs ++ repeat x00 (n - List.length bs).

End Enc.

(* ===================================================================== *)
(** ** Collaborators outside the file

    [record.js] calls into binet ([IP], [onion]), bstring ([base58]),
    bns ([util]) and the address primitive.  Their text formats do not
    matter to the codec's structure, so the development is parametric in
    them; [Thrown] results stand for the exceptions they raise on
    malformed input. *)
(* ===================================================================== *)

(** The classes of [IP.getStringType]. *)
Inductive StringType : Type :=
| ST_INET4 | ST_INET6 | ST_ONION | ST_NAME | ST_OTHER.

Class Collaborators : Type := {
  (** binet: [IP.decode], [IP.encode], [IP.getStringType], [IP.normalize] *)
  IP_decode : string -> result (list byte);
  IP_encode : list byte -> result string;
  IP_getStringType : string -> StringType;
  IP_normalize : string -> result string;
  (** binet: [onion.decode], [onion.encode] and the [NG] variants *)
  onion_decode : string -> result (list byte);
  onion_encode : list byte -> result string;
  onion_decodeNG : string -> result (list byte);
  onion_encodeNG : list byte -> result string;
  onion_isNGString : string -> bool;
  (** bstring: [base58.encode] *)
  base58_encode : list byte -> string;
  (** bns: [util.isFQDN], [util.isName], [util.trimFQDN], [util.split],
      [util.from(name, labels, index)] and [util.from(name, index)] *)
  util_isFQDN : string -> bool;
  util_isName : string -> bool;
  util_trimFQDN : string -> string;
  util_split : string -> list Z;
  util_from : string -> list Z -> Z -> string;
  util_from2 : string -> Z -> string;
  (** primitives/address: [Address.fromString] giving the version and the
      hash, and [addr.toString(network)] *)
  Address_fromString : string -> result (Z * list byte);
  Address_toString : Z -> list byte -> string -> result string;
  (** ECMAScript: the unsigned 32-bit value of a string operand of
      [>>>], that is ToUint32(ToNumber(s)) *)
  JS_stringToUint32 : string -> Z
}.

(* ===================================================================== *)
(** ** compress.js: the string dictionary and the IPv6 packing *)
(* ===================================================================== *)

Module Compress.
Import Bufio.

(** Modelled from the spec: [lib/covenants/compress.js] ([Compressor],
    [Decompressor]) is not among the sources.  The compressor is a symbol
    table of strings in insertion order; [add] gives a new string the
    next index and ignores duplicates.  The table is emitted as a
    length-prefixed section (a count byte, then each string with a
    length byte); a compressed string is either a reference to a table
    index (byte 1, then the index) or an inline literal (byte 0, then
    a length byte and the characters).  The single-byte count and
    lengths bound the table at 255 entries of at most 255 bytes; a
    longer literal cannot be written. *)
Definition Compressor : Type := list string.

(** Modelled from the spec: a new compressor has an empty table. *)
Definition empty : Compressor := [].

(** Modelled from the spec: the index a string was given, if it is in
    the table. *)
Fixpoint index_of (s : string) (tbl : list string) : option nat :=
  match tbl with
  | [] => None
  | w :: tbl' =>
      if String.eqb w s then Some O
      else option_map S (index_of s tbl')
  end.

(** Modelled from the spec: membership in the table. *)
Definition has (c : Compressor) (s : string) : bool :=
  match index_of s c with Some _ => true | None => false end.

(** Modelled from the spec: [add] ignores a string the table holds, and
    one the one-byte fields cannot carry. *)
Definition add (c : Compressor) (s : string) : Compressor :=
  if has c s then c
  else if (255 <? Z.of_nat (String.length s)) then c
  else if (255 <=? Z.of_nat (List.length c)) then c
  else c ++ [s].

(** Modelled from the spec: [size] is two bytes for a reference, two
    bytes and the characters for a literal. *)
Definition size (c : Compressor) (s : string) : Z :=
  match index_of s c with
  | Some _ => 2
  | None => 2 + Z.of_nat (String.length s)
  end.

(** Modelled from the spec: [write] emits a reference when the string
    is in the table and a literal otherwise. *)
Definition write (c : Compressor) (s : string) : result (list byte) :=
  match index_of s c with
  | Some i => ret (writeU8 1 ++ writeU8 (Z.of_nat i))
  | None =>
      if Z.of_nat (String.length s) <=? 255
      then ret (writeU8 0 ++ writeU8 (Z.of_nat (String.length s))
                ++ Enc.ascii_bytes s)
      else throw (Error "Invalid field length.")
  end.

(** Modelled from the spec: one entry of the table section. *)
Definition entry_bytes (s : string) : list byte :=
  writeU8 (Z.of_nat (String.length s)) ++ Enc.ascii_bytes s.

(** Modelled from the spec: the byte count of the table section. *)
Definition getSize (c : Compressor) : Z :=
  1 + fold_right (fun s acc => 1 + Z.of_nat (String.length s) + acc) 0 c.

(** Modelled from the spec: the table section, a count byte and the
    entries. *)
Definition toWriter (c : Compressor) : list byte :=
  writeU8 (Z.of_nat (List.length c)) ++ List.concat (map entry_bytes c).

(** Modelled from the spec: the decompressor is read once at the head
    of a decode and holds the table. *)
Definition Decompressor : Type := list string.

(** Modelled from the spec: the entries of the table section. *)
Fixpoint read_entries (n : nat) : reader (list string) :=
  match n with
  | O => rret []
  | S n' =>
      (len <- readU8 ;;
       bs <- readBytes len ;;
       ws <- read_entries n' ;;
       rret (Enc.raw_string bs :: ws))%reader
  end.

(** Modelled from the spec: [Decompressor.fromReader]. *)
Definition fromReader : reader Decompressor :=
  (count <- readU8 ;; read_entries (Z.to_nat count))%reader.

(** Modelled from the spec: [read] resolves a reference against the
    table and takes a literal as it is. *)
Definition read (d : Decompressor) : reader string :=
  (tag <- readU8 ;;
   if tag =? 0 then
     (len <- readU8 ;;
      bs <- readBytes len ;;
      rret (Enc.raw_string bs))
   else if tag =? 1 then
     (i <- readU8 ;;
      match nth_error d (Z.to_nat i) with
      | Some w => rret w
      | None => rthrow (Error "Invalid symbol reference.")
      end)
   else rthrow (Error "Invalid string marker."))%reader.

(** Modelled from the spec: [ipSize], [ipWrite] and [ipRead] are in
    the missing [compress.js].  An IPv6 address is a length byte (the
    count of data bytes), a 16-bit mask of the positions that hold
    nonzero data, and the nonzero bytes in order. *)
Fixpoint ip_mask (ip : list byte) : Z :=
  match ip with
  | [] => 0
  | b :: ip' => (if byte_val b =? 0 then 0 else 1) + 2 * ip_mask ip'
  end.

(** Modelled from the spec: the nonzero bytes of an address. *)
Definition ip_data (ip : list byte) : list byte :=
  filter (fun b => negb (byte_val b =? 0)) ip.

(** Modelled from the spec: [ipSize]. *)
Definition ipSize (ip : list byte) : Z :=
  3 + Z.of_nat (List.length (ip_data ip)).

(** Modelled from the spec: [ipWrite]. *)
Definition ipWrite (ip : list byte) : list byte :=
  writeU8 (Z.of_nat (List.length (ip_data ip)))
  ++ writeU16 (ip_mask ip) ++ ip_data ip.

(** Modelled from the spec: the sixteen bytes rebuilt from the mask. *)
Fixpoint ip_fill (n : nat) (mask : Z) : reader (list byte) :=
  match n with
  | O => rret []
  | S n' =>
      if Z.odd mask then
        (b <- readU8 ;;
         bs <- ip_fill n' (Z.div2 mask) ;;
         rret (u8 b :: bs))%reader
      else
        (bs <- ip_fill n' (Z.div2 mask) ;;
         rret (x00 :: bs))%reader
  end.

(** Modelled from the spec: [ipRead]. *)
Definition ipRead : reader (list byte) :=
  (len <- readU8 ;;
   mask <- readU16 ;;
   ip_fill 16 mask)%reader.

End Compress.

(* ===================================================================== *)
(** ** JSON values *)
(* ===================================================================== *)

(** A value handed to [fromJSON] or built by [toJSON].  Numbers are the
    integer-valued ones; an object is its properties in insertion
    order. *)
Inductive json : Type :=
| JUndefined
| JNull
| JBool (b : bool)
| JNum (n : Z)
| JStr (s : string)
| JArr (xs : list json)
| JObj (fields : list (string * json)).

Module Json.

Fixpoint lookup (key : string) (fields : list (string * json)) : json :=
  match fields with
  | [] => JUndefined
  | (k, v) :: fields' => if String.eqb k key then v else lookup key fields'
  end.

(** [json.key] for the property names this file reads. *)
Definition get (j : json) (key : string) : json :=
  match j with
  | JObj fields => lookup key fields
  | _ => JUndefined
  end.

(** [obj.key = v] *)
Fixpoint set (key : string) (v : json) (fields : list (string * json))
    : list (string * json) :=
  match fields with
  | [] => [(key, v)]
  | (k, w) :: fields' =>
      if String.eqb k key then (k, v) :: fields'
      else (k, w) :: set key v fields'
  end.

(** [json && typeof json === 'object'] *)
Definition is_object (j : json) : bool :=
  match j with
  | JObj _ | JArr _ => true
  | _ => false
  end.

(** [typeof j === 'object'] *)
Definition typeof_object (j : json) : bool :=
  match j with
  | JObj _ | JArr _ | JNull => true
  | _ => false
  end.

(** [typeof j === 'string'] *)
Definition typeof_string (j : json) : bool :=
  match j with
  | JStr _ => true
  | _ => false
  end.

(** [j != null] *)
Definition present (j : json) : bool :=
  match j with
  | JUndefined | JNull => false
  | _ => true
  end.

(** [(j & mask) === j] *)
Definition masked (mask : Z) (j : json) : bool :=
  match j with
  | JNum n => JS.and n mask =? n
  | _ => false
  end.

(** [(j >>> 0) === j] *)
Definition is_u32 (j : json) : bool :=
  match j with
  | JNum n => JS.ushr n 0 =? n
  | _ => false
  end.

(** The number or string a checked property holds. *)
Definition num (j : json) : Z :=
  match j with JNum n => n | _ => 0 end.
Definition str (j : json) : string :=
  match j with JStr s => s | _ => "" end.

(** [Array.isArray(j)] and the elements iterated by [for ... of]. *)
Definition isArray (j : json) : bool :=
  match j with JArr _ => true | _ => false end.
Definition elements (j : json) : list json :=
  match j with JArr xs => xs | _ => [] end.

(** [Buffer.from(j, 'hex')]: a string is decoded, an array gives its
    elements as bytes, anything else is a TypeError. *)
Definition buffer_from_hex (j : json) : result (list byte) :=
  match j with
  | JStr s => ret (Enc.hex_bytes s)
  | JArr xs => ret (map (fun x => u8 (num x)) xs)
  | _ => throw (Thrown "TypeError")
  end.

(** [s.indexOf(t)], or [-1]. *)
Fixpoint indexOf_from (i : Z) (t s : string) : Z :=
  if String.prefix t s then i
  else match s with
       | EmptyString => -1
       | String _ s' => indexOf_from (i + 1) t s'
       end.
Definition indexOf (s t : string) : Z := indexOf_from 0 t s.

(** [s.substring(i)] for [0 <= i]. *)
Definition substring_from (i : Z) (s : string) : string :=
  substring (Z.to_nat i) (String.length s - Z.to_nat i) s.

(** [s.split(sep)] where [sep] matches single characters. *)
Fixpoint split (sep : ascii -> bool) (s : string) : list string :=
  match s with
  | EmptyString => [EmptyString]
  | String c s' =>
      if sep c then EmptyString :: split sep s'
      else match split sep s' with
           | w :: ws => String c w :: ws
           | [] => [String c EmptyString]
           end
  end.

End Json.

(* ===================================================================== *)
(** ** Constants *)
(* ===================================================================== *)

Definition ICANN : string := "i".
Definition HSK : string := "h".
Definition ICANNP : string := "." ++ ICANN.
Definition ICANNS : string := ICANN ++ ".".
Definition HSKP : string := "." ++ HSK.
Definition HSKS : string := HSK ++ ".".

Module rtypes.
Definition INET4 : Z := 1.
Definition INET6 : Z := 2.
Definition ONION : Z := 3.
Definition ONIONNG : Z := 5.
Definition INAME : Z := 6.
Definition HNAME : Z := 7.
Definition CANONICAL : Z := 8.
Definition DELEGATE : Z := 9.
Definition NS : Z := 10.
Definition SERVICE : Z := 11.
Definition URL : Z := 12.
Definition EMAIL : Z := 13.
Definition TEXT : Z := 14.
Definition LOCATION : Z := 15.
Definition MAGNET : Z := 16.
Definition DS : Z := 17.
Definition TLS : Z := 18.
Definition SSH : Z := 19.
Definition PGP : Z := 20.
Definition ADDR : Z := 21.

(** The tag values the reader loop of [HSKRecord.fromReader] has a
    [case] for. *)
Definition known (tag : Z) : bool :=
  ((1 <=? tag) && (tag <=? 3)) || ((5 <=? tag) && (tag <=? 21)).
End rtypes.

Definition len8 (bs : list byte) : Z := Z.of_nat (List.length bs).
Definition slen (s : string) : Z := Z.of_nat (String.length s).

(* ===================================================================== *)
(** ** Leaf records: wire form *)
(* ===================================================================== *)

Module Extra.
Import Bufio.

Record t : Type := mk { type : Z; data : list byte }.

Definition new : t := mk 0 [].

Definition compress (x : t) (c : Compress.Compressor) := c.

Definition getSize (x : t) : Z := 2 + len8 (data x).

Definition toWriter (x : t) : list byte :=
  writeU8 (type x) ++ writeU8 (len8 (data x)) ++ writeBytes (data x).

Definition fromReader : reader t :=
  (ty <- readU8 ;;
   n <- readU8 ;;
   bs <- readBytes n ;;
   rret (mk ty bs))%reader.

Definition toJSON (x : t) : json :=
  JObj [("type", JNum (type x)); ("data", JStr (Enc.hex_string (data x)))].

Definition fromJSON {W : Collaborators} (j : json) : result t :=
  assert (Json.is_object j) ;;;
  assert (Json.masked 255 (Json.get j "type")) ;;;
  assert (Json.typeof_string (Json.get j "data")) ;;;
  assert (JS.ushr (JS_stringToUint32 (Json.str (Json.get j "data"))) 1
          <=? 255) ;;;
  bs <- Json.buffer_from_hex (Json.get j "data") ;;
  ret (mk (Json.num (Json.get j "type")) bs).
End Extra.

Module SSH.
Import Bufio.

Record t : Type := mk { algorithm : Z; type : Z; fingerprint : list byte }.

Definition new : t := mk 0 0 [].

Definition compress (x : t) (c : Compress.Compressor) := c.

Definition getSize (x : t) : Z := 2 + 1 + len8 (fingerprint x).

Definition toWriter (x : t) : list byte :=
  writeU8 (algorithm x) ++ writeU8 (type x)
  ++ writeU8 (len8 (fingerprint x)) ++ writeBytes (fingerprint x).

Definition fromReader : reader t :=
  (a <- readU8 ;;
   ty <- readU8 ;;
   n <- readU8 ;;
   fp <- readBytes n ;;
   rret (mk a ty fp))%reader.

(** [RecordData.toRaw] for a record that takes no compressor: a writer
    of [getSize()] bytes filled by [toWriter]. *)
Definition toRaw (x : t) : list byte := toWriter x.

Definition toJSON (x : t) : json :=
  JObj [("algorithm", JNum (algorithm x)); ("type", JNum (type x));
        ("fingerprint", JStr (Enc.hex_string (fingerprint x)))].

Definition fromJSON {W : Collaborators} (j : json) : result t :=
  assert (Json.is_object j) ;;;
  assert (Json.masked 255 (Json.get j "algorithm")) ;;;
  assert (Json.masked 255 (Json.get j "type")) ;;;
  assert (Json.typeof_string (Json.get j "fingerprint")) ;;;
  assert (JS.ushr (JS_stringToUint32
                     (Json.str (Json.get j "fingerprint"))) 1 <=? 255) ;;;
  bs <- Json.buffer_from_hex (Json.get j "fingerprint") ;;
  ret (mk (Json.num (Json.get j "algorithm"))
          (Json.num (Json.get j "type")) bs).
End SSH.

(** [class PGP extends SSH] adds nothing. *)
Module PGP := SSH.

Module TLS.
Import Bufio.

Record t : Type := mk {
  protocol : string;
  port : Z;
  usage : Z;
  selector : Z;
  matchingType : Z;
  certificate : list byte
}.

Definition new : t := mk "" 0 0 0 0 [].

Definition compress (x : t) (c : Compress.Compressor) :=
  Compress.add c (protocol x).

Definition getSize (x : t) (c : Compress.Compressor) : Z :=
  Compress.size c (protocol x) + 6 + len8 (certificate x).

Definition toWriter (x : t) (c : Compress.Compressor) : result (list byte) :=
  p <- Compress.write c (protocol x) ;;
  ret (p ++ writeU16 (port x) ++ writeU8 (usage x) ++ writeU8 (selector x)
       ++ writeU8 (matchingType x) ++ writeU8 (len8 (certificate x))
       ++ writeBytes (certificate x)).

Definition fromReader (d : Compress.Decompressor) : reader t :=
  (p <- Compress.read d ;;
   po <- readU16 ;;
   u <- readU8 ;;
   s <- readU8 ;;
   m <- readU8 ;;
   n <- readU8 ;;
   cert <- readBytes n ;;
   rret (mk p po u s m cert))%reader.

Definition toJSON (x : t) : json :=
  JObj [("protocol", JStr (protocol x)); ("port", JNum (port x));
        ("usage", JNum (usage x)); ("selector", JNum (selector x));
        ("matchingType", JNum (matchingType x));
        ("certificate", JStr (Enc.hex_string (certificate x)))].

Definition fromJSON (j : json) : result t :=
  assert (Json.is_object j) ;;;
  assert (Json.typeof_string (Json.get j "protocol")) ;;;
  assert (slen (Json.str (Json.get j "protocol")) <=? 255) ;;;
  assert (Json.masked 65535 (Json.get j "port")) ;;;
  assert (Json.masked 255 (Json.get j "usage")) ;;;
  assert (Json.masked 255 (Json.get j "selector")) ;;;
  assert (Json.masked 255 (Json.get j "matchingType")) ;;;
  assert (Json.typeof_string (Json.get j "fingerprint")) ;;;
  assert (JS.ushr (slen (Json.str (Json.get j "fingerprint"))) 1
          <=? 255) ;;;
  cert <- Json.buffer_from_hex (Json.get j "certificate") ;;
  ret (mk (Json.str (Json.get j "protocol"))
          (Json.num (Json.get j "port"))
          (Json.num (Json.get j "usage"))
          (Json.num (Json.get j "selector"))
          (Json.num (Json.get j "matchingType"))
          cert).
End TLS.

Module DS.
Import Bufio.

Record t : Type := mk {
  keyTag : Z;
  algorithm : Z;
  digestType : Z;
  digest : list byte
}.

Definition new : t := mk 0 0 0 [].

Definition compress (x : t) (c : Compress.Compressor) := c.

Definition getSize (x : t) : Z := 4 + 1 + len8 (digest x).

Definition toWriter (x : t) : list byte :=
  writeU16 (keyTag x) ++ writeU8 (algorithm x) ++ writeU8 (digestType x)
  ++ writeU8 (len8 (digest x)) ++ writeBytes (digest x).

Definition fromReader : reader t :=
  (k <- readU16BE ;;
   a <- readU8 ;;
   dt <- readU8 ;;
   n <- readU8 ;;
   dg <- readBytes n ;;
   rret (mk k a dt dg))%reader.

Definition toJSON (x : t) : json :=
  JObj [("keyTag", JNum (keyTag x)); ("algorithm", JNum (algorithm x));
        ("digestType", JNum (digestType x));
        ("digest", JStr (Enc.hex_string (digest x)))].

Definition fromJSON (j : json) : result t :=
  assert (Json.is_object j) ;;;
  assert (Json.masked 65535 (Json.get j "keyTag")) ;;;
  assert (Json.masked 255 (Json.get j "algorithm")) ;;;
  assert (Json.masked 255 (Json.get j "digestType")) ;;;
  assert (Json.typeof_string (Json.get j "digest")) ;;;
  assert (JS.ushr (slen (Json.str (Json.get j "digest"))) 1 <=? 255) ;;;
  dg <- Json.buffer_from_hex (Json.get j "digest") ;;
  ret (mk (Json.num (Json.get j "keyTag"))
          (Json.num (Json.get j "algorithm"))
          (Json.num (Json.get j "digestType")) dg).
End DS.

Module Magnet.
Import Bufio.

Record t : Type := mk { nid : string; nin : string }.

Definition new : t := mk "" "".

Definition compress (x : t) (c : Compress.Compressor) :=
  Compress.add c (nid x).

Definition getSize (x : t) (c : Compress.Compressor) : Z :=
  Compress.size c (nid x) + (1 + JS.ushr (slen (nin x)) 1).

Definition toWriter (x : t) (c : Compress.Compressor) : result (list byte) :=
  p <- Compress.write c (nid x) ;;
  ret (p ++ writeU8 (JS.ushr (slen (nin x)) 1) ++ Enc.write_hex (nin x)).

Definition fromReader (d : Compress.Decompressor) : reader t :=
  (id <- Compress.read d ;;
   n <- readU8 ;;
   bs <- readBytes n ;;
   rret (mk id (Enc.hex_string bs)))%reader.

(** [toString] *)
Definition toString (x : t) : string :=
  ("magnet:?xt=urn:" ++ nid x ++ ":" ++ nin x)%string.

Definition fromString (j : json) : result t :=
  assert (Json.typeof_string j) ;;;
  let str := Json.str j in
  assert (slen str <=? 1024) ;;;
  let index := Json.indexOf str "xt=urn:" in
  assert (negb (index =? -1)) ;;;
  assert (negb (index =? 0)) ;;;
  assert (match String.get (Z.to_nat (index - 1)) str with
          | Some ch => Ascii.eqb ch "?"%char || Ascii.eqb ch "&"%char
          | None => false
          end) ;;;
  let str := Json.substring_from (index + 7) str in
  let parts := Json.split (fun ch => Ascii.eqb ch ":"%char
                                     || Ascii.eqb ch "&"%char) str in
  match parts with
  | id :: n :: _ =>
      assert (slen id <=? 255) ;;;
      assert (slen n <=? 255) ;;;
      ret (mk id n)
  | _ => throw AssertionError
  end.

Definition toJSON (x : t) : json := JStr (toString x).
Definition fromJSON (j : json) : result t := fromString j.
End Magnet.

Module Location.
Import Bufio.

Record t : Type := mk {
  version : Z;
  size : Z;
  horizPre : Z;
  vertPre : Z;
  latitude : Z;
  longitude : Z;
  altitude : Z
}.

Definition new : t := mk 0 0 0 0 0 0 0.

Definition compress (x : t) (c : Compress.Compressor) := c.

Definition getSize (x : t) : Z := 16.

Definition toWriter (x : t) : list byte :=
  writeU8 (version x) ++ writeU8 (size x) ++ writeU8 (horizPre x)
  ++ writeU8 (vertPre x) ++ writeU32 (latitude x)
  ++ writeU32 (longitude x) ++ writeU32 (altitude x).

Definition fromReader : reader t :=
  (v <- readU8 ;;
   s <- readU8 ;;
   h <- readU8 ;;
   vp <- readU8 ;;
   la <- readU32 ;;
   lo <- readU32 ;;
   al <- readU32 ;;
   rret (mk v s h vp la lo al))%reader.

Definition toJSON (x : t) : json :=
  JObj [("version", JNum (version x)); ("size", JNum (size x));
        ("horizPre", JNum (horizPre x)); ("vertPre", JNum (vertPre x));
        ("latitude", JNum (latitude x)); ("longitude", JNum (longitude x));
        ("altitude", JNum (altitude x))].

(** [if (json.key != null) { assert(check); this.key = json.key; }] *)
Definition field (j : json) (key : string) (check : json -> bool)
    (old : Z) : result Z :=
  let v := Json.get j key in
  if Json.present v then assert (check v) ;;; ret (Json.num v)
  else ret old.

Definition fromJSON (j : json) : result t :=
  assert (Json.is_object j) ;;;
  v <- field j "version" (Json.masked 255) (version new) ;;
  s <- field j "size" (Json.masked 255) (size new) ;;
  h <- field j "horizPre" (Json.masked 255) (horizPre new) ;;
  vp <- field j "vertPre" (Json.masked 255) (vertPre new) ;;
  la <- field j "latitude" Json.is_u32 (latitude new) ;;
  lo <- field j "longitude" Json.is_u32 (longitude new) ;;
  al <- field j "altitude" Json.is_u32 (altitude new) ;;
  ret (mk v s h vp la lo al).
End Location.

(* ===================================================================== *)
(** ** Targets *)
(* ===================================================================== *)

Section TargetCodec.
Context {W : Collaborators}.
Import Bufio.

Definition compressTarget (type : Z) (target : string)
    (c : Compress.Compressor) : Compress.Compressor :=
  if type =? rtypes.INAME then
    Compress.add c (JS.slice_to_minus (String.length ICANNP) target)
  else if type =? rtypes.HNAME then
    Compress.add c (JS.slice_to_minus (String.length HSKP) target)
  else c.

Definition sizeTarget (type : Z) (target : string)
    (c : Compress.Compressor) : result Z :=
  if type =? rtypes.INET4 then ret 4
  else if type =? rtypes.INET6 then
    ip <- IP_decode target ;; ret (Compress.ipSize ip)
  else if type =? rtypes.ONION then ret 10
  else if type =? rtypes.ONIONNG then ret 33
  else if type =? rtypes.INAME then
    ret (Compress.size c (JS.slice_to_minus (String.length ICANNP) target))
  else if type =? rtypes.HNAME then
    ret (Compress.size c (JS.slice_to_minus (String.length HSKP) target))
  else ret 0.

Definition writeTarget (type : Z) (target : string)
    (c : Compress.Compressor) : result (list byte) :=
  if type =? rtypes.INET4 then
    ip <- IP_decode target ;;
    assert (len8 ip =? 4) ;;;
    ret (writeBytes ip)
  else if type =? rtypes.INET6 then
    ip <- IP_decode target ;;
    assert (len8 ip =? 16) ;;;
    ret (Compress.ipWrite ip)
  else if type =? rtypes.ONION then
    on <- onion_decode target ;; ret (writeBytes on)
  else if type =? rtypes.ONIONNG then
    key <- onion_decodeNG target ;; ret (writeBytes key)
  else if type =? rtypes.INAME then
    Compress.write c (JS.slice_to_minus (String.length ICANNP) target)
  else if type =? rtypes.HNAME then
    Compress.write c (JS.slice_to_minus (String.length HSKP) target)
  else throw (Error "Unknown target type.").

Definition readTarget (type : Z) (d : Compress.Decompressor)
    : reader string :=
  if type =? rtypes.INET4 then
    (bs <- readBytes 4 ;; rlift (IP_encode bs))%reader
  else if type =? rtypes.INET6 then
    (ip <- Compress.ipRead ;; rlift (IP_encode ip))%reader
  else if type =? rtypes.ONION then
    (bs <- readBytes 10 ;; rlift (onion_encode bs))%reader
  else if type =? rtypes.ONIONNG then
    (bs <- readBytes 33 ;; rlift (onion_encodeNG bs))%reader
  else if type =? rtypes.INAME then
    (s <- Compress.read d ;; rret (s ++ ICANNP)%string)%reader
  else if type =? rtypes.HNAME then
    (s <- Compress.read d ;; rret (s ++ HSKP)%string)%reader
  else rthrow (Error "Unknown target type.").

End TargetCodec.

Module Target.
Import Bufio.

Record t : Type := mk { type : Z; target : string }.

(** [new Target()] *)
Definition new : t := mk rtypes.INET4 "0.0.0.0".

Definition isINET4 (x : t) : bool := type x =? rtypes.INET4.
Definition isINET6 (x : t) : bool := type x =? rtypes.INET6.
Definition isOnion (x : t) : bool := type x =? rtypes.ONION.
Definition isOnionNG (x : t) : bool := type x =? rtypes.ONIONNG.
Definition isHSK (x : t) : bool := type x =? rtypes.HNAME.
Definition isICANN (x : t) : bool := type x =? rtypes.INAME.
Definition isINET (x : t) : bool := type x <=? rtypes.INET6.
Definition isName (x : t) : bool := rtypes.ONIONNG <? type x.
Definition isTor (x : t) : bool := isOnion x || isOnionNG x.

Definition toString (x : t) : string := target x.

Definition toDNS (x : t) : string :=
  if isHSK x then (target x ++ ".")%string
  else if isICANN x then
    (JS.slice_to_minus (String.length ICANNP) (target x) ++ ".")%string
  else target x.

Section WithCollaborators.
Context {W : Collaborators}.

Definition compress (x : t) (c : Compress.Compressor) :=
  compressTarget (type x) (target x) c.

Definition toPointer (x : t) (name : string) : result string :=
  assert (isINET x) ;;;
  ip <- IP_decode (target x) ;;
  ret ("_" ++ base58_encode ip ++ "." ++ name)%string.

Definition getSize (x : t) (c : Compress.Compressor) : result Z :=
  n <- sizeTarget (type x) (target x) c ;; ret (1 + n).

Definition toWriter (x : t) (c : Compress.Compressor)
    : result (list byte) :=
  body <- writeTarget (type x) (target x) c ;;
  ret (writeU8 (type x) ++ body).

Definition fromReader (d : Compress.Decompressor) : reader t :=
  (ty <- readU8 ;;
   tg <- readTarget ty d ;;
   rret (mk ty tg))%reader.

(** [fromString], on the target [x] it is called on. *)
Definition fromString (x : t) (str : string) : result t :=
  match IP_getStringType str with
  | ST_INET4 => s <- IP_normalize str ;; ret (mk rtypes.INET4 s)
  | ST_INET6 => s <- IP_normalize str ;; ret (mk rtypes.INET6 s)
  | ST_ONION => ret (mk rtypes.ONION str)
  | ST_NAME =>
      assert (util_isName str) ;;;
      if onion_isNGString str then ret (mk rtypes.ONIONNG str)
      else
        let str := util_trimFQDN str in
        if JS.endsWith str HSKP then ret (mk rtypes.HNAME str)
        else if negb (JS.endsWith str ICANNP)
             then ret (mk rtypes.INAME (str ++ ICANNP)%string)
             else ret (mk rtypes.INAME str)
  | ST_OTHER => ret x
  end.

Definition toJSON (x : t) : json := JStr (toString x).

(** [fromJSON(json)] is [fromString(json)], which asserts that its
    argument is a string. *)
Definition fromJSON (x : t) (j : json) : result t :=
  assert (Json.typeof_string j) ;;;
  fromString x (Json.str j).
End WithCollaborators.
End Target.

Module Service.
Import Bufio.

Record t : Type := mk {
  service : string;
  protocol : string;
  priority : Z;
  weight : Z;
  target : Target.t;
  port : Z
}.

Definition new : t := mk "" "" 0 0 Target.new 0.

Definition isSMTP (x : t) : bool :=
  String.eqb (service x) "smtp" && String.eqb (protocol x) "tcp".

Definition compress (x : t) (c : Compress.Compressor) :=
  Compress.add (Compress.add c (service x)) (protocol x).

Section WithCollaborators.
Context {W : Collaborators}.

Definition getSize (x : t) (c : Compress.Compressor) : result Z :=
  ts <- Target.getSize (target x) c ;;
  ret (Compress.size c (service x) + Compress.size c (protocol x)
       + 1 + 1 + ts + 2).

Definition toWriter (x : t) (c : Compress.Compressor)
    : result (list byte) :=
  s <- Compress.write c (service x) ;;
  p <- Compress.write c (protocol x) ;;
  tg <- Target.toWriter (target x) c ;;
  ret (s ++ p ++ writeU8 (priority x) ++ writeU8 (weight x)
       ++ tg ++ writeU16 (port x)).

Definition fromReader (d : Compress.Decompressor) : reader t :=
  (s <- Compress.read d ;;
   p <- Compress.read d ;;
   pr <- readU8 ;;
   w <- readU8 ;;
   tg <- Target.fromReader d ;;
   po <- readU16 ;;
   rret (mk s p pr w tg po))%reader.

Definition toJSON (x : t) : json :=
  JObj [("service", JStr (service x)); ("protocol", JStr (protocol x));
        ("priority", JNum (priority x)); ("weight", JNum (weight x));
        ("target", Target.toJSON (target x)); ("port", JNum (port x))].

Definition fromJSON (j : json) : result t :=
  assert (Json.is_object j) ;;;
  s <- (let v := Json.get j "service" in
        if Json.present v
        then assert (Json.typeof_string v) ;;; ret (Json.str v)
        else ret (service new)) ;;
  p <- (let v := Json.get j "protocol" in
        if Json.present v
        then assert (Json.typeof_string v) ;;; ret (Json.str v)
        else ret (protocol new)) ;;
  pr <- (let v := Json.get j "priority" in
         if Json.present v
         then assert (Json.masked 255 v) ;;; ret (Json.num v)
         else ret (priority new)) ;;
  w <- (let v := Json.get j "weight" in
        if Json.present v
        then assert (Json.masked 255 v) ;;; ret (Json.num v)
        else ret (weight new)) ;;
  tg <- (let v := Json.get j "target" in
         if Json.present v
         then assert (Json.typeof_object v) ;;;
              Target.fromJSON (target new) v
         else ret (target new)) ;;
  po <- (let v := Json.get j "port" in
         if Json.present v
         then assert (Json.masked 65535 v) ;;; ret (Json.num v)
         else ret (port new)) ;;
  ret (mk s p pr w tg po).
End WithCollaborators.
End Service.

Module Addr.
Import Bufio.

Record t : Type := mk { currency : string; address : string }.

Definition new : t := mk "" "".

Definition compress (x : t) (c : Compress.Compressor) :=
  Compress.add c (currency x).

Definition toString (x : t) : string :=
  (currency x ++ ":" ++ address x)%string.

(** [this.address[0] === 't'] *)
Definition starts_with_t (s : string) : bool :=
  match s with
  | String ch _ => Ascii.eqb ch "t"%char
  | EmptyString => false
  end.

Section WithCollaborators.
Context {W : Collaborators}.

Definition getSize (x : t) (c : Compress.Compressor) : result Z :=
  if String.eqb (currency x) "hsk" then
    '(_, hash) <- Address_fromString (address x) ;;
    ret (2 + len8 hash)
  else ret (Compress.size c (currency x) + 1 + slen (address x)).

Definition toWriter (x : t) (c : Compress.Compressor)
    : result (list byte) :=
  if String.eqb (currency x) "hsk" then
    '(version, hash) <- Address_fromString (address x) ;;
    let mid := if starts_with_t (address x) then 64 else 0 in
    ret (writeU8 (Z.lor (Z.lor 128 mid) (len8 hash))
         ++ writeU8 version ++ writeBytes hash)
  else
    cur <- Compress.write c (currency x) ;;
    ret (cur ++ writeU8 (slen (address x))
         ++ Enc.ascii_bytes (address x)).

Definition fromReader (d : Compress.Decompressor) : reader t :=
  (len <- readU8 ;;
   let hsk := negb (JS.and len 128 =? 0) in
   let test := negb (JS.and len 64 =? 0) in
   if hsk then
     (let len := JS.and len 63 in
      version <- readU8 ;;
      hash <- readBytes len ;;
      a <- rlift (Address_toString version hash
                    (if test then "testnet" else "main")) ;;
      rret (mk "hsk" a))
   else
     (cur <- Compress.read d ;;
      n <- readU8 ;;
      bs <- readBytes n ;;
      rret (mk cur (Enc.ascii_string bs))))%reader.
End WithCollaborators.

Definition fromString (j : json) : result t :=
  assert (Json.typeof_string j) ;;;
  let str := Json.str j in
  assert (slen str <=? 512) ;;;
  match Json.split (fun ch => Ascii.eqb ch ":"%char) str with
  | [cur; a] =>
      assert (slen cur <=? 63) ;;;
      assert (slen a <=? 255) ;;;
      ret (mk cur a)
  | _ => throw AssertionError
  end.

Definition toJSON (x : t) : json := JStr (toString x).
Definition fromJSON (j : json) : result t := fromString j.
End Addr.

(* ===================================================================== *)
(** ** The record set: wire form *)
(* ===================================================================== *)

Module HSKRecord.
Import Bufio.

Record t : Type := mk {
  version : Z;
  ttl : Z;
  hosts : list Target.t;
  canonical : option Target.t;
  delegate : option Target.t;
  ns : list Target.t;
  service : list Service.t;
  url : list string;
  email : list string;
  text : list string;
  location : list Location.t;
  magnet : list Magnet.t;
  ds : list DS.t;
  tls : list TLS.t;
  ssh : list SSH.t;
  pgp : list PGP.t;
  addr : list Addr.t;
  extra : list Extra.t
}.

(** [new HSKRecord()] *)
Definition new : t :=
  mk 0 0 [] None None [] [] [] [] [] [] [] [] [] [] [] [] [].

(** Field updates, as the assignments and [push] calls of the reader. *)
Definition set_ttl v (r : t) : t :=
  mk (version r) v (hosts r) (canonical r) (delegate r) (ns r) (service r)
     (url r) (email r) (text r) (location r) (magnet r) (ds r) (tls r)
     (ssh r) (pgp r) (addr r) (extra r).
Definition set_version v (r : t) : t :=
  mk v (ttl r) (hosts r) (canonical r) (delegate r) (ns r) (service r)
     (url r) (email r) (text r) (location r) (magnet r) (ds r) (tls r)
     (ssh r) (pgp r) (addr r) (extra r).
Definition push_hosts x (r : t) : t :=
  mk (version r) (ttl r) (hosts r ++ [x]) (canonical r) (delegate r) (ns r)
     (service r) (url r) (email r) (text r) (location r) (magnet r) (ds r)
     (tls r) (ssh r) (pgp r) (addr r) (extra r).
Definition set_canonical x (r : t) : t :=
  mk (version r) (ttl r) (hosts r) x (delegate r) (ns r)
     (service r) (url r) (email r) (text r) (location r) (magnet r) (ds r)
     (tls r) (ssh r) (pgp r) (addr r) (extra r).
Definition set_delegate x (r : t) : t :=
  mk (version r) (ttl r) (hosts r) (canonical r) x (ns r)
     (service r) (url r) (email r) (text r) (location r) (magnet r) (ds r)
     (tls r) (ssh r) (pgp r) (addr r) (extra r).
Definition push_ns x (r : t) : t :=
  mk (version r) (ttl r) (hosts r) (canonical r) (delegate r) (ns r ++ [x])
     (service r) (url r) (email r) (text r) (location r) (magnet r) (ds r)
     (tls r) (ssh r) (pgp r) (addr r) (extra r).
Definition push_service x (r : t) : t :=
  mk (version r) (ttl r) (hosts r) (canonical r) (delegate r) (ns r)
     (service r ++ [x]) (url r) (email r) (text r) (location r) (magnet r)
     (ds r) (tls r) (ssh r) (pgp r) (addr r) (extra r).
Definition push_url x (r : t) : t :=
  mk (version r) (ttl r) (hosts r) (canonical r) (delegate r) (ns r)
     (service r) (url r ++ [x]) (email r) (text r) (location r) (magnet r)
     (ds r) (tls r) (ssh r) (pgp r) (addr r) (extra r).
Definition push_email x (r : t) : t :=
  mk (version r) (ttl r) (hosts r) (canonical r) (delegate r) (ns r)
     (service r) (url r) (email r ++ [x]) (text r) (location r) (magnet r)
     (ds r) (tls r) (ssh r) (pgp r) (addr r) (extra r).
Definition push_text x (r : t) : t :=
  mk (version r) (ttl r) (hosts r) (canonical r) (delegate r) (ns r)
     (service r) (url r) (email r) (text r ++ [x]) (location r) (magnet r)
     (ds r) (tls r) (ssh r) (pgp r) (addr r) (extra r).
Definition push_location x (r : t) : t :=
  mk (version r) (ttl r) (hosts r) (canonical r) (delegate r) (ns r)
     (service r) (url r) (email r) (text r) (location r ++ [x]) (magnet r)
     (ds r) (tls r) (ssh r) (pgp r) (addr r) (extra r).
Definition push_magnet x (r : t) : t :=
  mk (version r) (ttl r) (hosts r) (canonical r) (delegate r) (ns r)
     (service r) (url r) (email r) (text r) (location r) (magnet r ++ [x])
     (ds r) (tls r) (ssh r) (pgp r) (addr r) (extra r).
Definition push_ds x (r : t) : t :=
  mk (version r) (ttl r) (hosts r) (canonical r) (delegate r) (ns r)
     (service r) (url r) (email r) (text r) (location r) (magnet r)
     (ds r ++ [x]) (tls r) (ssh r) (pgp r) (addr r) (extra r).
Definition push_tls x (r : t) : t :=
  mk (version r) (ttl r) (hosts r) (canonical r) (delegate r) (ns r)
     (service r) (url r) (email r) (text r) (location r) (magnet r)
     (ds r) (tls r ++ [x]) (ssh r) (pgp r) (addr r) (extra r).
Definition push_ssh x (r : t) : t :=
  mk (version r) (ttl r) (hosts r) (canonical r) (delegate r) (ns r)
     (service r) (url r) (email r) (text r) (location r) (magnet r)
     (ds r) (tls r) (ssh r ++ [x]) (pgp r) (addr r) (extra r).
Definition push_pgp x (r : t) : t :=
  mk (version r) (ttl r) (hosts r) (canonical r) (delegate r) (ns r)
     (service r) (url r) (email r) (text r) (location r) (magnet r)
     (ds r) (tls r) (ssh r) (pgp r ++ [x]) (addr r) (extra r).
Definition push_addr x (r : t) : t :=
  mk (version r) (ttl r) (hosts r) (canonical r) (delegate r) (ns r)
     (service r) (url r) (email r) (text r) (location r) (magnet r)
     (ds r) (tls r) (ssh r) (pgp r) (addr r ++ [x]) (extra r).
Definition push_extra x (r : t) : t :=
  mk (version r) (ttl r) (hosts r) (canonical r) (delegate r) (ns r)
     (service r) (url r) (email r) (text r) (location r) (magnet r)
     (ds r) (tls r) (ssh r) (pgp r) (addr r) (extra r ++ [x]).

(** [if (this.canonical)]: a target object is truthy, [null] is not. *)
Definition is_set {A} (o : option A) : bool :=
  match o with Some _ => true | None => false end.

Section Wire.
Context {W : Collaborators}.

(** [compress()]: the learn phase, in the field order of the source. *)
Definition compress (r : t) : Compress.Compressor :=
  let c := Compress.empty in
  let c := fold_left (fun c x => Target.compress x c) (hosts r) c in
  let c := match canonical r with
           | Some x => Target.compress x c | None => c end in
  let c := match delegate r with
           | Some x => Target.compress x c | None => c end in
  let c := fold_left (fun c x => Target.compress x c) (ns r) c in
  let c := fold_left (fun c x => Service.compress x c) (service r) c in
  let c := fold_left Compress.add (url r) c in
  let c := fold_left Compress.add (email r) c in
  let c := fold_left Compress.add (text r) c in
  let c := fold_left (fun c x => Location.compress x c) (location r) c in
  let c := fold_left (fun c x => Magnet.compress x c) (magnet r) c in
  let c := fold_left (fun c x => DS.compress x c) (ds r) c in
  let c := fold_left (fun c x => TLS.compress x c) (tls r) c in
  let c := fold_left (fun c x => SSH.compress x c) (ssh r) c in
  let c := fold_left (fun c x => PGP.compress x c) (pgp r) c in
  let c := fold_left (fun c x => Addr.compress x c) (addr r) c in
  let c := fold_left (fun c x => Extra.compress x c) (extra r) c in
  c.

(** [size += f(x)] over a list, where [f] can throw. *)
Fixpoint sumM {A} (f : A -> result Z) (xs : list A) : result Z :=
  match xs with
  | [] => ret 0
  | x :: xs' => n <- f x ;; m <- sumM f xs' ;; ret (n + m)
  end.

Definition optM {A} (f : A -> result Z) (o : option A) : result Z :=
  match o with
  | Some x => f x
  | None => ret 0
  end.

Definition getSize (r : t) (c : Compress.Compressor) : result Z :=
  s_hosts <- sumM (fun x => Target.getSize x c) (hosts r) ;;
  s_canon <- optM (fun x => n <- Target.getSize x c ;; ret (1 + n))
                  (canonical r) ;;
  s_deleg <- optM (fun x => n <- Target.getSize x c ;; ret (1 + n))
                  (delegate r) ;;
  s_ns <- sumM (fun x => n <- Target.getSize x c ;; ret (1 + n)) (ns r) ;;
  s_srv <- sumM (fun x => n <- Service.getSize x c ;; ret (1 + n))
                (service r) ;;
  s_url <- sumM (fun x => ret (1 + Compress.size c x)) (url r) ;;
  s_email <- sumM (fun x => ret (1 + Compress.size c x)) (email r) ;;
  s_text <- sumM (fun x => ret (1 + Compress.size c x)) (text r) ;;
  s_loc <- sumM (fun x => ret (1 + Location.getSize x)) (location r) ;;
  s_mag <- sumM (fun x => ret (1 + Magnet.getSize x c)) (magnet r) ;;
  s_ds <- sumM (fun x => ret (1 + DS.getSize x)) (ds r) ;;
  s_tls <- sumM (fun x => ret (1 + TLS.getSize x c)) (tls r) ;;
  s_ssh <- sumM (fun x => ret (1 + SSH.getSize x)) (ssh r) ;;
  s_pgp <- sumM (fun x => ret (1 + PGP.getSize x)) (pgp r) ;;
  s_addr <- sumM (fun x => n <- Addr.getSize x c ;; ret (1 + n))
                 (addr r) ;;
  s_extra <- sumM (fun x => ret (1 + Extra.getSize x)) (extra r) ;;
  ret (1 + 2 + Compress.getSize c + s_hosts + s_canon + s_deleg + s_ns
       + s_srv + s_url + s_email + s_text + s_loc + s_mag + s_ds
       + s_tls + s_ssh + s_pgp + s_addr + s_extra).

(** A [for] loop of writes: the bytes of every item, in order. *)
Fixpoint writeAll {A} (f : A -> result (list byte)) (xs : list A)
    : result (list byte) :=
  match xs with
  | [] => ret []
  | x :: xs' => b <- f x ;; bs <- writeAll f xs' ;; ret (b ++ bs)
  end.

Definition writeOpt {A} (f : A -> result (list byte)) (o : option A)
    : result (list byte) :=
  match o with
  | Some x => f x
  | None => ret []
  end.

(** [tag] followed by the item's own bytes. *)
Definition tagged (tag : Z) (body : result (list byte))
    : result (list byte) :=
  b <- body ;; ret (writeU8 tag ++ b).

Definition toWriter (r : t) (c : Compress.Compressor)
    : result (list byte) :=
  b_hosts <- writeAll (fun x => Target.toWriter x c) (hosts r) ;;
  b_canon <- writeOpt (fun x => tagged rtypes.CANONICAL
                                  (Target.toWriter x c)) (canonical r) ;;
  b_deleg <- writeOpt (fun x => tagged rtypes.DELEGATE
                                  (Target.toWriter x c)) (delegate r) ;;
  b_ns <- writeAll (fun x => tagged rtypes.NS (Target.toWriter x c))
                   (ns r) ;;
  b_srv <- writeAll (fun x => tagged rtypes.SERVICE
                                (Service.toWriter x c)) (service r) ;;
  b_url <- writeAll (fun x => tagged rtypes.URL (Compress.write c x))
                    (url r) ;;
  b_email <- writeAll (fun x => tagged rtypes.EMAIL (Compress.write c x))
                      (email r) ;;
  b_text <- writeAll (fun x => tagged rtypes.TEXT (Compress.write c x))
                     (text r) ;;
  b_loc <- writeAll (fun x => tagged rtypes.LOCATION
                                (ret (Location.toWriter x)))
                    (location r) ;;
  b_mag <- writeAll (fun x => tagged rtypes.MAGNET (Magnet.toWriter x c))
                    (magnet r) ;;
  b_ds <- writeAll (fun x => tagged rtypes.DS (ret (DS.toWriter x)))
                   (ds r) ;;
  b_tls <- writeAll (fun x => tagged rtypes.TLS (TLS.toWriter x c))
                    (tls r) ;;
  b_ssh <- writeAll (fun x => tagged rtypes.SSH (ret (SSH.toWriter x)))
                    (ssh r) ;;
  b_pgp <- writeAll (fun x => tagged rtypes.PGP (ret (PGP.toWriter x)))
                    (pgp r) ;;
  b_addr <- writeAll (fun x => tagged rtypes.ADDR (Addr.toWriter x c))
                     (addr r) ;;
  b_extra <- writeAll (fun x => tagged (Extra.type x)
                                  (ret (Extra.toWriter x))) (extra r) ;;
  ret (writeU8 (version r) ++ writeU16 (JS.ushr (ttl r) 6)
       ++ Compress.toWriter c
       ++ b_hosts ++ b_canon ++ b_deleg ++ b_ns ++ b_srv ++ b_url
       ++ b_email ++ b_text ++ b_loc ++ b_mag ++ b_ds ++ b_tls
       ++ b_ssh ++ b_pgp ++ b_addr ++ b_extra).

(** [toRaw()]: the compressor is built, a writer of [getSize(c)]
    bytes is allocated and filled by [toWriter]; bufio refuses a write
    past the end and a render of a writer that is not full. *)
Definition toRaw (r : t) : result (list byte) :=
  let c := compress r in
  size <- getSize r c ;;
  bs <- toWriter r c ;;
  if len8 bs =? size then ret bs
  else if size <? len8 bs then throw OutOfBounds
  else throw AssertionError.

(** One turn of the [while (br.left())] loop after the tag byte has
    been read: the [switch (type)]. *)
Definition readItem (d : Compress.Decompressor) (r : t) (type : Z)
    : reader t :=
  (if (type =? rtypes.INET4) || (type =? rtypes.INET6)
      || (type =? rtypes.ONION) || (type =? rtypes.ONIONNG) then
     target <- readTarget type d ;;
     rret (push_hosts (Target.mk type target) r)
   else if (type =? rtypes.INAME) || (type =? rtypes.HNAME) then
     _ <- rlift (assert (negb (is_set (canonical r)))) ;;
     target <- readTarget type d ;;
     rret (set_canonical (Some (Target.mk type target)) r)
   else if type =? rtypes.CANONICAL then
     _ <- rlift (assert (negb (is_set (canonical r)))) ;;
     x <- Target.fromReader d ;;
     rret (set_canonical (Some x) r)
   else if type =? rtypes.DELEGATE then
     _ <- rlift (assert (negb (is_set (delegate r)))) ;;
     x <- Target.fromReader d ;;
     rret (set_delegate (Some x) r)
   else if type =? rtypes.NS then
     x <- Target.fromReader d ;; rret (push_ns x r)
   else if type =? rtypes.SERVICE then
     x <- Service.fromReader d ;; rret (push_service x r)
   else if type =? rtypes.URL then
     x <- Compress.read d ;; rret (push_url x r)
   else if type =? rtypes.EMAIL then
     x <- Compress.read d ;; rret (push_email x r)
   else if type =? rtypes.TEXT then
     x <- Compress.read d ;; rret (push_text x r)
   else if type =? rtypes.LOCATION then
     x <- Location.fromReader ;; rret (push_location x r)
   else if type =? rtypes.MAGNET then
     x <- Magnet.fromReader d ;; rret (push_magnet x r)
   else if type =? rtypes.DS then
     x <- DS.fromReader ;; rret (push_ds x r)
   else if type =? rtypes.TLS then
     x <- TLS.fromReader d ;; rret (push_tls x r)
   else if type =? rtypes.SSH then
     x <- SSH.fromReader ;; rret (push_ssh x r)
   else if type =? rtypes.PGP then
     x <- PGP.fromReader ;; rret (push_pgp x r)
   else if type =? rtypes.ADDR then
     x <- Addr.fromReader d ;; rret (push_addr x r)
   else
     x <- Extra.fromReader ;; rret (push_extra x r))%reader.

(** The body of the loop: read the tag byte, then dispatch. *)
Definition step (d : Compress.Decompressor) (r : t) : reader t :=
  (type <- readU8 ;; readItem d r type)%reader.

(** [while (br.left()) { ... }].  Every turn consumes at least the tag
    byte, so a [fuel] of the number of bytes left is enough
    ([loop_total] below); [None] is a loop cut short by the fuel. *)
Fixpoint loop (fuel : nat) (d : Compress.Decompressor) (r : t)
    (bs : list byte) : option (result t) :=
  if left bs =? 0 then Some (ret r)
  else
    match fuel with
    | O => None
    | S fuel' =>
        match step d r bs with
        | inl e => Some (inl e)
        | inr (r', bs') => loop fuel' d r' bs'
        end
    end.

(** The head of [fromReader]: version, TTL and symbol table. *)
Definition header (r : t) : reader (t * Compress.Decompressor) :=
  (version <- readU8 ;;
   if negb (version =? 0)
   then rthrow (Error ("Unknown serialization version: "
                       ++ JS.num_string version ++ "."))
   else
     w <- readU16 ;;
     d <- Compress.fromReader ;;
     rret (set_ttl (JS.shl w 6) r, d))%reader.

(** [fromReader(br)] on the record [r] it is called on. *)
Definition fromReader (r : t) (bs : list byte) : result t :=
  match header r bs with
  | inl e => inl e
  | inr ((r1, d), bs1) =>
      match loop (List.length bs1) d r1 bs1 with
      | Some res => res
      | None => throw (Error "fuel")
      end
  end.

(** [HSKRecord.fromRaw(data)] *)
Definition fromRaw (bs : list byte) : result t := fromReader new bs.

End Wire.

Section JSON.
Context {W : Collaborators}.

(** [if (xs.length > 0) { json.key = []; for (...) json.key.push(..) }] *)
Definition put_list (key : string) (xs : list json)
    (fields : list (string * json)) : list (string * json) :=
  match xs with
  | [] => fields
  | _ :: _ => Json.set key (JArr xs) fields
  end.

Definition put_opt (key : string) (o : option json)
    (fields : list (string * json)) : list (string * json) :=
  match o with
  | Some v => Json.set key v fields
  | None => fields
  end.

Definition toJSON (r : t) (name : string) : json :=
  let o := [("version", JNum (version r)); ("name", JStr name);
            ("ttl", JNum (ttl r))] in
  let o := put_list "hosts" (map Target.toJSON (hosts r)) o in
  let o := put_opt "canonical" (option_map Target.toJSON (canonical r)) o in
  let o := put_opt "delegate" (option_map Target.toJSON (delegate r)) o in
  let o := put_list "ns" (map Target.toJSON (ns r)) o in
  let o := put_list "service" (map Service.toJSON (service r)) o in
  let o := put_list "url" (map JStr (url r)) o in
  let o := put_list "email" (map JStr (email r)) o in
  let o := put_list "text" (map JStr (text r)) o in
  let o := put_list "location" (map Location.toJSON (location r)) o in
  let o := put_list "magnet" (map Magnet.toJSON (magnet r)) o in
  let o := put_list "ds" (map DS.toJSON (ds r)) o in
  let o := put_list "tls" (map TLS.toJSON (tls r)) o in
  let o := put_list "ssh" (map SSH.toJSON (ssh r)) o in
  let o := put_list "pgp" (map PGP.toJSON (pgp r)) o in
  let o := put_list "pgp" (map PGP.toJSON (pgp r)) o in
  let o := put_list "addr" (map Addr.toJSON (addr r)) o in
  let o := put_list "extra" (map Extra.toJSON (extra r)) o in
  JObj o.

(** [if (json.key != null) { assert(Array.isArray(json.key));
    for (const x of json.key) this.key.push(f(x)); }] *)
Definition each {A} (j : json) (key : string) (f : json -> result A)
    (push : A -> t -> t) (r : t) : result t :=
  let v := Json.get j key in
  if Json.present v then
    assert (Json.isArray v) ;;;
    xs <- mapM f (Json.elements v) ;;
    ret (fold_left (fun r x => push x r) xs r)
  else ret r.

(** A string of at most 255 characters. *)
Definition short_string (x : json) : result string :=
  assert (Json.typeof_string x) ;;;
  assert (slen (Json.str x) <=? 255) ;;;
  ret (Json.str x).

(** [fromJSON(json)] on the record [r] it is called on. *)
Definition fromJSON (r : t) (j : json) : result t :=
  assert (Json.is_object j) ;;;
  r <- (let v := Json.get j "version" in
        if Json.present v then
          assert (match v with JNum n => n =? 0 | _ => false end) ;;;
          ret (set_version (Json.num v) r)
        else ret r) ;;
  r <- (let v := Json.get j "ttl" in
        if Json.present v then
          assert (Json.is_u32 v) ;;; ret (set_ttl (Json.num v) r)
        else ret r) ;;
  r <- each j "hosts" (Target.fromJSON Target.new) push_hosts r ;;
  r <- (let v := Json.get j "canonical" in
        if Json.present v then
          x <- Target.fromJSON Target.new v ;;
          ret (set_canonical (Some x) r)
        else ret r) ;;
  r <- (let v := Json.get j "delegate" in
        if Json.present v then
          x <- Target.fromJSON Target.new v ;;
          ret (set_delegate (Some x) r)
        else ret r) ;;
  r <- each j "ns" (Target.fromJSON Target.new) push_ns r ;;
  r <- each j "service" Service.fromJSON push_service r ;;
  r <- each j "url" short_string push_url r ;;
  r <- each j "email" short_string push_email r ;;
  r <- each j "text" short_string push_text r ;;
  r <- each j "location" Location.fromJSON push_location r ;;
  r <- each j "magnet" Magnet.fromJSON push_magnet r ;;
  r <- each j "ds" DS.fromJSON push_ds r ;;
  r <- each j "tls" TLS.fromJSON push_tls r ;;
  r <- each j "ssh" SSH.fromJSON push_ssh r ;;
  r <- each j "pgp" PGP.fromJSON push_pgp r ;;
  r <- each j "addr" Addr.fromJSON push_addr r ;;
  r <- each j "extra" Extra.fromJSON push_extra r ;;
  ret r.

End JSON.
End HSKRecord.

(* ===================================================================== *)
(** ** bns wire: record types, record data and messages *)
(* ===================================================================== *)

Module types.
Definition A : Z := 1.
Definition NS : Z := 2.
Definition CNAME : Z := 5.
Definition SOA : Z := 6.
Definition MX : Z := 15.
Definition TXT : Z := 16.
Definition AAAA : Z := 28.
Definition LOC : Z := 29.
Definition SRV : Z := 33.
Definition DNAME : Z := 39.
Definition DS : Z := 43.
Definition SSHFP : Z := 44.
Definition TLSA : Z := 52.
Definition OPENPGPKEY : Z := 61.
Definition ANY : Z := 255.
End types.

(** The record data classes the synthesizer fills in, each with the
    fields it assigns. *)
Inductive RecordData : Type :=
| ARecord (address : string)
| AAAARecord (address : string)
| NSRecord (ns : string)
| MXRecord (preference : Z) (mx : string)
| SOARecord (ns mbox : string) (serial refresh retry expire minttl : Z)
| CNAMERecord (target : string)
| DNAMERecord (target : string)
| SRVRecord (priority weight : Z) (target : string) (port : Z)
| TXTRecord (txt : list string)
| LOCRecord (version size horizPre vertPre latitude longitude altitude : Z)
| DSRecord (keyTag algorithm digestType : Z) (digest : list byte)
| TLSARecord (usage selector matchingType : Z) (certificate : list byte)
| SSHFPRecord (algorithm type : Z) (fingerprint : list byte)
| OPENPGPKEYRecord (publicKey : list byte).

(** [rr.data.ns] and [rr.data.mx]; the lists they are read from hold
    NS and MX data only. *)
Definition data_ns (d : RecordData) : string :=
  match d with
  | NSRecord ns => ns
  | SOARecord ns _ _ _ _ _ _ => ns
  | _ => ""
  end.

Definition data_mx (d : RecordData) : string :=
  match d with
  | MXRecord _ mx => mx
  | _ => ""
  end.

Module RR.
(** [wire.Record]: the fields the synthesizer assigns. *)
Record t : Type := mk {
  name : string;
  ttl : Z;
  type : Z;
  data : RecordData
}.
End RR.

Module Message.
(** [wire.Message]: the flags and sections the synthesizer touches;
    [edns] is [Some (size, dok)] once [setEDNS0(size, dok)] was called. *)
Record t : Type := mk {
  qr : bool;
  ad : bool;
  aa : bool;
  answer : list RR.t;
  authority : list RR.t;
  additional : list RR.t;
  edns : option (Z * bool)
}.

(** [new Message()] *)
Definition new : t := mk false false false [] [] [] None.

Definition set_qr v (m : t) :=
  mk v (ad m) (aa m) (answer m) (authority m) (additional m) (edns m).
Definition set_ad v (m : t) :=
  mk (qr m) v (aa m) (answer m) (authority m) (additional m) (edns m).
Definition set_aa v (m : t) :=
  mk (qr m) (ad m) v (answer m) (authority m) (additional m) (edns m).
Definition set_answer v (m : t) :=
  mk (qr m) (ad m) (aa m) v (authority m) (additional m) (edns m).
Definition set_authority v (m : t) :=
  mk (qr m) (ad m) (aa m) (answer m) v (additional m) (edns m).
Definition set_additional v (m : t) :=
  mk (qr m) (ad m) (aa m) (answer m) (authority m) v (edns m).
Definition setEDNS0 (size : Z) (dok : bool) (m : t) :=
  mk (qr m) (ad m) (aa m) (answer m) (authority m) (additional m)
     (Some (size, dok)).
End Message.

(* ===================================================================== *)
(** ** The DNS synthesizer *)
(* ===================================================================== *)

(** A [for] loop that pushes a record for some of the items ([continue]
    skips the others) and whose body can throw. *)
Fixpoint collectM {A B} (f : A -> result (option B)) (xs : list A)
    : result (list B) :=
  match xs with
  | [] => ret []
  | x :: xs' =>
      o <- f x ;;
      ys <- collectM f xs' ;;
      ret (match o with Some y => y :: ys | None => ys end)
  end.

Module Synth.
Import HSKRecord.

Section WithCollaborators.
Context {W : Collaborators}.

Definition hasTor (r : t) : bool := existsb Target.isTor (hosts r).

Definition toTorTXT (r : t) (name : string) : RR.t :=
  RR.mk name (ttl r) types.TXT
    (TXTRecord ("hsk:tor"
                :: map Target.target (filter Target.isTor (hosts r)))).

Definition toA (r : t) (name : string) : list RR.t :=
  map (fun host => RR.mk name (ttl r) types.A
                     (ARecord (Target.target host)))
      (filter Target.isINET4 (hosts r))
  ++ (if hasTor r then [toTorTXT r name] else []).

Definition toAAAA (r : t) (name : string) : list RR.t :=
  map (fun host => RR.mk name (ttl r) types.AAAA
                     (AAAARecord (Target.target host)))
      (filter Target.isINET6 (hosts r))
  ++ (if hasTor r then [toTorTXT r name] else []).

Definition toCNAME (r : t) (name : string) : result (list RR.t) :=
  match canonical r with
  | None => ret []
  | Some c =>
      assert (Target.isName c) ;;;
      ret [RR.mk name (ttl r) types.CNAME (CNAMERecord (Target.toDNS c))]
  end.

Definition toDNAME (r : t) (name : string) : result (list RR.t) :=
  match delegate r with
  | None => ret []
  | Some dl =>
      assert (Target.isName dl) ;;;
      ret [RR.mk name (ttl r) types.DNAME (DNAMERecord (Target.toDNS dl))]
  end.

(** The name a target stands for in an NS, MX or SRV record: its DNS
    name, or for an inline IP (when [naked]) its pointer name;
    [null] otherwise. *)
Definition targetName (x : Target.t) (name : string) (naked : bool)
    : result (option string) :=
  if Target.isName x then ret (Some (Target.toDNS x))
  else if naked && Target.isINET x then
    p <- Target.toPointer x name ;; ret (Some p)
  else ret None.

Definition toNS (r : t) (name : string) (naked : bool)
    : result (list RR.t) :=
  collectM (fun ns =>
              nsname <- targetName ns name naked ;;
              if negb (JS.truthy nsname) then ret None
              else ret (Some (RR.mk name (ttl r) types.NS
                                (NSRecord (match nsname with
                                           | Some s => s
                                           | None => ""
                                           end)))))
           (ns r).

(** Glue for an inline IP target: an A or AAAA record under its
    pointer name. *)
Definition glue (r : t) (x : Target.t) (name : string) : result RR.t :=
  p <- Target.toPointer x name ;;
  ret (if Target.isINET4 x
       then RR.mk p (ttl r) types.A (ARecord (Target.target x))
       else RR.mk p (ttl r) types.AAAA (AAAARecord (Target.target x))).

Definition toNSIP (r : t) (name : string) (naked : bool)
    : result (list RR.t) :=
  if negb naked then ret []
  else
    collectM (fun ns =>
                if negb (Target.isINET ns) then ret None
                else rr <- glue r ns name ;; ret (Some rr))
             (ns r).

Definition toMX (r : t) (name : string) (naked : bool)
    : result (list RR.t) :=
  collectM (fun srv =>
              if negb (Service.isSMTP srv) then ret None
              else
                mxname <- targetName (Service.target srv) name naked ;;
                if negb (JS.truthy mxname) then ret None
                else ret (Some (RR.mk name (ttl r) types.MX
                                  (MXRecord (Service.priority srv)
                                     (match mxname with
                                      | Some s => s
                                      | None => ""
                                      end)))))
           (service r).

Definition toSRV (r : t) (name : string) (naked : bool)
    : result (list RR.t) :=
  collectM (fun srv =>
              target <- targetName (Service.target srv) name naked ;;
              if negb (JS.truthy target) then ret None
              else ret (Some (RR.mk
                                ("_" ++ Service.service srv ++ "._"
                                 ++ Service.protocol srv ++ "." ++ name)
                                (ttl r) types.SRV
                                (SRVRecord (Service.priority srv)
                                   (Service.weight srv)
                                   (match target with
                                    | Some s => s
                                    | None => ""
                                    end)
                                   (Service.port srv)))))
           (service r).

Definition toSRVIP (r : t) (name : string) (naked : bool) (mx : bool)
    : result (list RR.t) :=
  if negb naked then ret []
  else
    collectM (fun srv =>
                if mx && negb (Service.isSMTP srv) then ret None
                else if negb (Target.isINET (Service.target srv))
                then ret None
                else rr <- glue r (Service.target srv) name ;;
                     ret (Some rr))
             (service r).

Definition toMXIP (r : t) (name : string) (naked : bool)
    : result (list RR.t) :=
  toSRVIP r name naked true.

(** [toSOA(name)]: [toNS(tld)] and [toMX(tld)] are called without
    the [naked] argument, which is then [undefined] and falsy. *)
Definition toSOA (r : t) (name : string) : result (list RR.t) :=
  assert (util_isFQDN name) ;;;
  let tld := util_from2 name (-1) in
  ns <- toNS r tld false ;;
  let rd_ns := match ns with
               | rr :: _ => data_ns (RR.data rr)
               | [] => tld
               end in
  mx <- toMX r tld false ;;
  let rd_mbox := match mx with
                 | rr :: _ => data_mx (RR.data rr)
                 | [] => tld
                 end in
  ret [RR.mk tld (ttl r) types.SOA
         (SOARecord rd_ns rd_mbox 0 1800 (ttl r) 604800 86400)].

Definition toLOC (r : t) (name : string) : list RR.t :=
  map (fun loc => RR.mk name (ttl r) types.LOC
                    (LOCRecord (Location.version loc) (Location.size loc)
                       (Location.horizPre loc) (Location.vertPre loc)
                       (Location.latitude loc) (Location.longitude loc)
                       (Location.altitude loc)))
      (location r).

Definition toDS (r : t) (name : string) : list RR.t :=
  map (fun x => RR.mk name (ttl r) types.DS
                  (DSRecord (DS.keyTag x) (DS.algorithm x)
                     (DS.digestType x) (DS.digest x)))
      (ds r).

Definition toTLSA (r : t) (name : string) : list RR.t :=
  map (fun x => RR.mk ("_" ++ JS.num_string (TLS.port x) ++ "._"
                       ++ TLS.protocol x ++ "." ++ name)
                  (ttl r) types.TLSA
                  (TLSARecord (TLS.usage x) (TLS.selector x)
                     (TLS.matchingType x) (TLS.certificate x)))
      (tls r).

Definition toSSHFP (r : t) (name : string) : list RR.t :=
  map (fun x => RR.mk name (ttl r) types.SSHFP
                  (SSHFPRecord (SSH.algorithm x) (SSH.type x)
                     (SSH.fingerprint x)))
      (ssh r).

Definition toOPENPGPKEY (r : t) (name : string) : list RR.t :=
  map (fun x => RR.mk name (ttl r) types.OPENPGPKEY
                  (OPENPGPKEYRecord (PGP.toRaw x)))
      (pgp r).

Definition toURLTXT (r : t) (name : string) : RR.t :=
  RR.mk name (ttl r) types.TXT (TXTRecord ("hsk:url" :: url r)).

Definition toEmailTXT (r : t) (name : string) : RR.t :=
  RR.mk name (ttl r) types.TXT (TXTRecord ("hsk:email" :: email r)).

Definition toMagnetTXT (r : t) (name : string) : RR.t :=
  RR.mk name (ttl r) types.TXT
    (TXTRecord ("hsk:magnet" :: map Magnet.toString (magnet r))).

Definition toAddrTXT (r : t) (name : string) : RR.t :=
  RR.mk name (ttl r) types.TXT
    (TXTRecord ("hsk:addr" :: map Addr.toString (addr r))).

Definition toTextTXT (r : t) (name : string) : RR.t :=
  RR.mk name (ttl r) types.TXT (TXTRecord (text r)).

Definition nonempty {A} (xs : list A) : bool :=
  match xs with [] => false | _ :: _ => true end.

Definition toTXT (r : t) (name : string) : list RR.t :=
  (if nonempty (text r) then [toTextTXT r name] else [])
  ++ (if nonempty (url r) then [toURLTXT r name] else [])
  ++ (if nonempty (email r) then [toEmailTXT r name] else [])
  ++ (if nonempty (magnet r) then [toMagnetTXT r name] else [])
  ++ (if nonempty (addr r) then [toAddrTXT r name] else []).

(** The referral branch of [toDNS], taken when the name has more
    than one label. *)
Definition referral (r : t) (tld : string) (naked : bool)
    (res : Message.t) : result Message.t :=
  res <- (if nonempty (ns r) then
            authority <- toNS r tld naked ;;
            additional <- toNSIP r tld naked ;;
            ret (Message.set_additional additional
                   (Message.set_authority authority res))
          else if is_set (delegate r) then
            answer <- toDNAME r tld ;;
            ret (Message.set_answer answer res)
          else
            authority <- toSOA r tld ;;
            ret (Message.set_authority authority res)) ;;
  let res := Message.set_authority
               (Message.authority res ++ toDS r tld) res in
  ret (Message.setEDNS0 4096 true res).

(** The [switch (type)] of the authoritative branch. *)
Definition dispatch (r : t) (name : string) (type : Z) (naked : bool)
    (res : Message.t) : result Message.t :=
  if type =? types.ANY then
    soa <- toSOA r name ;;
    ns <- toNS r name naked ;;
    additional <- toNSIP r name naked ;;
    ret (Message.set_additional additional
           (Message.set_answer (soa ++ ns) res))
  else if type =? types.A then
    ret (Message.set_answer (toA r name) res)
  else if type =? types.AAAA then
    ret (Message.set_answer (toAAAA r name) res)
  else if type =? types.CNAME then
    answer <- toCNAME r name ;; ret (Message.set_answer answer res)
  else if type =? types.DNAME then
    answer <- toDNAME r name ;; ret (Message.set_answer answer res)
  else if type =? types.NS then
    answer <- toNS r name naked ;;
    additional <- toNSIP r name naked ;;
    ret (Message.set_additional additional
           (Message.set_answer answer res))
  else if type =? types.MX then
    answer <- toMX r name naked ;;
    additional <- toMXIP r name naked ;;
    ret (Message.set_additional additional
           (Message.set_answer answer res))
  else if type =? types.SRV then
    answer <- toSRV r name naked ;;
    additional <- toSRVIP r name naked false ;;
    ret (Message.set_additional additional
           (Message.set_answer answer res))
  else if type =? types.TXT then
    ret (Message.set_answer (toTXT r name) res)
  else if type =? types.LOC then
    ret (Message.set_answer (toLOC r name) res)
  else if type =? types.DS then
    ret (Message.set_answer (toDS r name) res)
  else if type =? types.TLSA then
    ret (Message.set_answer (toTLSA r name) res)
  else if type =? types.OPENPGPKEY then
    ret (Message.set_answer (toOPENPGPKEY r name) res)
  else ret res.

(** The two fallbacks after the dispatch. *)
Definition fallback (r : t) (name : string) (res : Message.t)
    : result Message.t :=
  let empty m := negb (nonempty (Message.answer m))
                 && negb (nonempty (Message.authority m)) in
  if empty res && is_set (canonical r) then
    answer <- toCNAME r name ;;
    ret (Message.setEDNS0 4096 true (Message.set_answer answer res))
  else
    res <- (if empty res then
              answer <- toSOA r name ;;
              ret (Message.set_answer answer res)
            else ret res) ;;
    ret (Message.setEDNS0 4096 true res).

Definition toDNS (r : t) (name : string) (type : Z) (naked : bool)
    : result Message.t :=
  let res := Message.set_ad true (Message.set_qr true Message.new) in
  assert (util_isFQDN name) ;;;
  let labels := util_split name in
  let naked := true in
  if 1 <? Z.of_nat (List.length labels) then
    let tld := util_from name labels (-1) in
    referral r tld naked res
  else
    let res := Message.set_aa true res in
    res <- dispatch r name type naked res ;;
    fallback r name res.

End WithCollaborators.
End Synth.

(* ===================================================================== *)
(** ** A concrete set of collaborators

    Enough of binet, bstring and bns to run the codec and the synthesizer
    on concrete records: IPv4 literals in dotted-quad form, which
    [IP.decode] turns into the 16 bytes of the IPv4-mapped address and
    [IP.encode] prints from the four bytes the reader hands it, base58
    with the Bitcoin alphabet, and names without escaped dots.  The other
    address families (IPv6 text, onion keys, native addresses) are
    rejected with [Thrown]. *)
(* ===================================================================== *)

Module Sample.

(** Split on a character: [s.split(ch)]. *)
Fixpoint split_on (ch : ascii) (s : string) : list string :=
  match s with
  | EmptyString => [EmptyString]
  | String c s' =>
      if Ascii.eqb c ch then EmptyString :: split_on ch s'
      else match split_on ch s' with
           | w :: ws => String c w :: ws
           | [] => [String c EmptyString]
           end
  end.

Definition digit_value (c : ascii) : option Z :=
  let n := Z.of_nat (nat_of_ascii c) in
  if (48 <=? n) && (n <=? 57) then Some (n - 48) else None.

Fixpoint decimal_acc (acc : Z) (s : string) : option Z :=
  match s with
  | EmptyString => Some acc
  | String c s' =>
      match digit_value c with
      | Some dgt => decimal_acc (10 * acc + dgt) s'
      | None => None
      end
  end.

(** One part of a dotted quad: one to three digits, at most 255. *)
Definition octet (s : string) : option byte :=
  if ((1 <=? String.length s) && (String.length s <=? 3))%nat then
    match decimal_acc 0 s with
    | Some v => if v <=? 255 then Some (u8 v) else None
    | None => None
    end
  else None.

Definition parse_ipv4 (s : string) : option (list byte) :=
  match map octet (split_on "."%char s) with
  | [Some a; Some b; Some c; Some d] => Some [a; b; c; d]
  | _ => None
  end.

Definition print_ipv4 (bs : list byte) : option string :=
  match bs with
  | [a; b; c; d] =>
      Some (JS.num_string (byte_val a) ++ "." ++ JS.num_string (byte_val b)
            ++ "." ++ JS.num_string (byte_val c) ++ "."
            ++ JS.num_string (byte_val d))%string
  | _ => None
  end.

(** The IPv4-mapped form: ten zero bytes, ff ff, then the address. *)
Definition mapped (bs : list byte) : list byte :=
  repeat x00 10 ++ [xff; xff] ++ bs.

(** [IP.decode] gives the 16-byte form for every address it parses,
    an IPv4 address in the mapped range. *)
Definition ip_decode (s : string) : result (list byte) :=
  match parse_ipv4 s with
  | Some bs => ret (mapped bs)
  | None => throw (Thrown "binet")
  end.

(** [IP.encode] of the four bytes of an IPv4 address. *)
Definition ip_encode (bs : list byte) : result string :=
  match print_ipv4 bs with
  | Some s => ret s
  | None => throw (Thrown "binet")
  end.

(** [IP.normalize] of a dotted quad: the address printed again. *)
Definition ip_normalize (s : string) : result string :=
  match parse_ipv4 s with
  | Some bs => ip_encode bs
  | None => throw (Thrown "binet")
  end.

Fixpoint has_char (ch : ascii) (s : string) : bool :=
  match s with
  | EmptyString => false
  | String c s' => Ascii.eqb c ch || has_char ch s'
  end.

Definition string_type (s : string) : StringType :=
  match parse_ipv4 s with
  | Some _ => ST_INET4
  | None =>
      if has_char ":"%char s then ST_INET6
      else if JS.endsWith s ".onion" && (String.length s =? 22)%nat
           then ST_ONION
           else ST_NAME
  end.

(** base58 *)
Definition alphabet : string :=
  "123456789ABCDEFGHJKLMNPQRSTUVWXYZabcdefghijkmnopqrstuvwxyz".

Definition b58_char (n : Z) : ascii :=
  match String.get (Z.to_nat n) alphabet with
  | Some c => c
  | None => "1"%char
  end.

Fixpoint bytes_value (acc : Z) (bs : list byte) : Z :=
  match bs with
  | [] => acc
  | b :: bs' => bytes_value (256 * acc + byte_val b) bs'
  end.

Fixpoint b58_digits (fuel : nat) (n : Z) (acc : string) : string :=
  match fuel with
  | O => acc
  | S fuel' =>
      if n =? 0 then acc
      else b58_digits fuel' (n / 58) (String (b58_char (n mod 58)) acc)
  end.

Fixpoint leading_ones (bs : list byte) : string :=
  match bs with
  | b :: bs' =>
      if byte_val b =? 0 then String "1"%char (leading_ones bs')
      else EmptyString
  | [] => EmptyString
  end.

Definition base58 (bs : list byte) : string :=
  (leading_ones bs
   ++ b58_digits (2 * List.length bs) (bytes_value 0 bs) EmptyString)%string.

(** bns [util]: a name is fully qualified when it ends with a dot; the
    labels of a name start at offset 0 and after every dot but the
    last. *)
Definition isFQDN (s : string) : bool :=
  match String.length s with
  | O => false
  | S n => match String.get n s with
           | Some c => Ascii.eqb c "."%char
           | None => false
           end
  end.

Fixpoint label_offsets (i : Z) (s : string) : list Z :=
  match s with
  | EmptyString => []
  | String c s' =>
      match s' with
      | EmptyString => []
      | _ => if Ascii.eqb c "."%char
             then (i + 1) :: label_offsets (i + 1) s'
             else label_offsets (i + 1) s'
      end
  end.

Definition split (s : string) : list Z :=
  if String.eqb s "." then [] else 0 :: label_offsets 0 s.

(** [name.substring(i)] *)
Definition substring_from (i : Z) (s : string) : string :=
  substring (Z.to_nat i) (String.length s - Z.to_nat i) s.

Definition from (name : string) (labels : list Z) (index : Z) : string :=
  let index := if index <? 0 then index + Z.of_nat (List.length labels)
               else index in
  if Z.of_nat (List.length labels) <=? index then ""
  else match (if index <? 0 then None
              else nth_error labels (Z.to_nat index)) with
       | Some off => substring_from off name
       | None => name
       end.

Definition trimFQDN (s : string) : string :=
  if isFQDN s then JS.slice_to_minus 1 s else s.

Definition isName (s : string) : bool :=
  (1 <=? String.length s)%nat && (String.length s <=? 255)%nat.

(** ToUint32(ToNumber(s)) for the strings of decimal digits that stay
    exact as doubles (below 2^53); here every other string counts as
    NaN, whose unsigned value is 0. *)
Definition stringToUint32 (s : string) : Z :=
  match s with
  | EmptyString => 0
  | _ => match decimal_acc 0 s with
         | Some v => if v <? 2 ^ 53 then JS.toUint32 v else 0
         | None => 0
         end
  end.

#[export] Instance collaborators : Collaborators := {
  IP_decode := ip_decode;
  IP_encode := ip_encode;
  IP_getStringType := string_type;
  IP_normalize := ip_normalize;
  onion_decode := fun _ => throw (Thrown "binet");
  onion_encode := fun _ => throw (Thrown "binet");
  onion_decodeNG := fun _ => throw (Thrown "binet");
  onion_encodeNG := fun _ => throw (Thrown "binet");
  onion_isNGString := fun _ => false;
  base58_encode := base58;
  util_isFQDN := isFQDN;
  util_isName := isName;
  util_trimFQDN := trimFQDN;
  util_split := split;
  util_from := from;
  util_from2 := fun name index => from name (split name) index;
  Address_fromString := fun _ => throw (Thrown "address");
  Address_toString := fun _ _ _ => throw (Thrown "address");
  JS_stringToUint32 := stringToUint32
}.

End Sample.

(* ===================================================================== *)
(** ** Concrete records and blobs *)
(* ===================================================================== *)

Module Inputs.
Import HSKRecord.

(** One IPv4 host and a TTL of an hour. *)
Definition one_host : t :=
  mk 0 3600 [Target.mk 1 "1.2.3.4"] None None [] [] [] [] [] [] [] [] []
     [] [] [] [].

(** A canonical name and a TTL of an hour. *)
Definition one_name : t :=
  mk 0 3600 [] (Some (Target.mk 6 "example.com.i")) None [] [] [] [] []
     [] [] [] [] [] [] [] [].

(** A record with an entry of most kinds, every target a name, a TTL
    that is a multiple of 64 and no DS entry. *)
Definition plain : t :=
  mk 0 3584
     []
     (Some (Target.mk 6 "example.com.i"))
     (Some (Target.mk 7 "bob.h"))
     [Target.mk 6 "ns1.example.com.i"; Target.mk 7 "ns2.bob.h"]
     [Service.mk "smtp" "tcp" 10 0 (Target.mk 6 "mail.example.com.i") 25]
     ["https://example.com"] ["postmaster@example.com"]
     ["hello"; "hello"]
     [Location.mk 0 18 22 19 2332887285 2146974245 9999808]
     [Magnet.mk "btih" "c12fe1c06bba254a9dc9f519b335aa7c1367a88a"]
     []
     [TLS.mk "tcp" 443 3 1 1 [x0a; x0b]]
     [SSH.mk 1 1 [x01; x02]]
     [PGP.mk 2 1 [x03]]
     []
     [Extra.mk 200 [xde; xad]].

(** A DS entry and a TTL of an hour. *)
Definition with_ds : t :=
  mk 0 3600 [] None None [] [] [] [] [] [] []
     [DS.mk 1 8 2 [xab; xcd]] [] [] [] [] [].

(** A TTL past what sixteen bits of minutes hold. *)
Definition long_ttl : t :=
  mk 0 4194304 [] None None [] [] [] [] [] [] [] [] [] [] [] [] [].

(** A name server given as an inline IP address. *)
Definition inline_ns : t :=
  mk 0 0 [] None None [Target.mk 1 "1.2.3.4"] [] [] [] [] [] [] [] [] []
     [] [] [].

(** A canonical name and an onion host. *)
Definition canonical_and_onion : t :=
  mk 0 0 [Target.mk 3 "xxxxxxxxxxxxxxxx.onion"]
     (Some (Target.mk 6 "example.com.i")) None [] [] [] [] [] [] [] [] []
     [] [] [] [].

(** A canonical name and nothing else. *)
Definition canonical_only : t :=
  mk 0 0 [] (Some (Target.mk 6 "example.com.i")) None [] [] [] [] [] []
     [] [] [] [] [] [] [].

(** Name servers and a mail service. *)
Definition zone : t :=
  mk 0 7200 [] None None
     [Target.mk 1 "10.0.0.1"; Target.mk 6 "ns1.example.com.i"]
     [Service.mk "smtp" "tcp" 10 0 (Target.mk 6 "mail.example.com.i") 25]
     [] [] [] [] [] [] [] [] [] [] [].

(** One TLS entry; one service entry. *)
Definition one_tls : t :=
  mk 0 0 [] None None [] [] [] [] [] [] [] [] [TLS.mk "tcp" 443 3 1 1 [xab]]
     [] [] [] [].
Definition one_service : t :=
  mk 0 0 [] None None []
     [Service.mk "smtp" "tcp" 10 0 (Target.mk 1 "1.2.3.4") 25]
     [] [] [] [] [] [] [] [] [] [] [].

(** Version 0, TTL 0, an empty table, then tag 200 followed by the bytes
    07 01 aa. *)
Definition unknown_tag_blob : list byte :=
  [x00; x00; x00; x00; xc8; x07; x01; xaa].

(** Version 0, TTL 0, an empty table, then two CANONICAL items, each an
    INAME target with an inline one-letter name. *)
Definition two_canonical_blob : list byte :=
  [x00; x00; x00; x00;
   x08; x06; x00; x01; x61;
   x08; x06; x00; x01; x62].

End Inputs.

(* ===================================================================== *)
(** ** Predicates used in the statements *)
(* ===================================================================== *)

(** A reader that succeeds leaves no more bytes than it was given. *)
Definition shrinks {A} (m : Bufio.reader A) : Prop :=
  forall bs a bs', m bs = inr (a, bs') ->
                   (List.length bs' <= List.length bs)%nat.

Module Spec.
Import HSKRecord.

(** The message [toDNS] starts the authoritative branch with. *)
Definition authoritative : Message.t :=
  Message.set_aa true
    (Message.set_ad true (Message.set_qr true Message.new)).

(** No host is an IPv4 address and none is an onion address. *)
Definition no_A_answer {W : Collaborators} (r : t) : bool :=
  negb (existsb Target.isINET4 (hosts r)) && negb (Synth.hasTor r).

(** The reader loop, from a record being built and the bytes left,
    gets to another such state by turns that do not throw. *)
Inductive reaches {W : Collaborators} (d : Compress.Decompressor)
    : t * list byte -> t * list byte -> Prop :=
| reaches_here st : reaches d st st
| reaches_turn r bs r1 bs1 st :
    step d r bs = inr (r1, bs1) ->
    reaches d (r1, bs1) st ->
    reaches d (r, bs) st.

(** The tag would set canonical or delegate a second time. *)
Definition duplicate (r : t) (tag : Z) : bool :=
  (is_set (canonical r)
   && ((tag =? rtypes.CANONICAL) || (tag =? rtypes.INAME)
       || (tag =? rtypes.HNAME)))
  || (is_set (delegate r) && (tag =? rtypes.DELEGATE)).

(** *** Records the codec is exercised on

    The fields fit their wire widths, every string fits a length byte,
    and every target is in the normal form of its address family: the
    collaborator that parses it gives bytes of the family's length, and
    these print back to the same text. *)

Definition in_u8 (v : Z) : bool := (0 <=? v) && (v <? 256).
Definition in_u16 (v : Z) : bool := (0 <=? v) && (v <? 65536).
Definition in_u32 (v : Z) : bool := (0 <=? v) && (v <? 4294967296).
Definition short (bs : list byte) : bool := (List.length bs <=? 255)%nat.
Definition short_str (s : string) : bool := (String.length s <=? 255)%nat.

Definition normal_form (parsed : result (list byte)) (n : nat)
    (print : list byte -> result string) (s : string) : bool :=
  match parsed with
  | inr bs =>
      (List.length bs =? n)%nat
      && match print bs with
         | inr s' => String.eqb s' s
         | inl _ => false
         end
  | inl _ => false
  end.

Definition is_lower_hex_digit (c : ascii) : bool :=
  let n := Z.of_nat (nat_of_ascii c) in
  ((48 <=? n) && (n <=? 57)) || ((97 <=? n) && (n <=? 102)).

(** An even number of lowercase hexadecimal digits. *)
Fixpoint lower_hex (s : string) : bool :=
  match s with
  | EmptyString => true
  | String c1 (String c2 s') =>
      is_lower_hex_digit c1 && is_lower_hex_digit c2 && lower_hex s'
  | String _ EmptyString => false
  end.

Section Validity.
Context {W : Collaborators}.

Definition target_ok (x : Target.t) : bool :=
  let ty := Target.type x in
  let s := Target.target x in
  if ty =? rtypes.INET4 then normal_form (IP_decode s) 4 IP_encode s
  else if ty =? rtypes.INET6 then normal_form (IP_decode s) 16 IP_encode s
  else if ty =? rtypes.ONION then
    normal_form (onion_decode s) 10 onion_encode s
  else if ty =? rtypes.ONIONNG then
    normal_form (onion_decodeNG s) 33 onion_encodeNG s
  else if ty =? rtypes.INAME then
    JS.endsWith s ICANNP
    && short_str (JS.slice_to_minus (String.length ICANNP) s)
  else if ty =? rtypes.HNAME then
    JS.endsWith s HSKP
    && short_str (JS.slice_to_minus (String.length HSKP) s)
  else false.

Definition host_ok (x : Target.t) : bool :=
  target_ok x && (Target.type x <=? rtypes.ONIONNG).

Definition opt_ok {A} (ok : A -> bool) (o : option A) : bool :=
  match o with Some x => ok x | None => true end.

Definition service_ok (x : Service.t) : bool :=
  short_str (Service.service x) && short_str (Service.protocol x)
  && in_u8 (Service.priority x) && in_u8 (Service.weight x)
  && target_ok (Service.target x) && in_u16 (Service.port x).

Definition location_ok (x : Location.t) : bool :=
  in_u8 (Location.version x) && in_u8 (Location.size x)
  && in_u8 (Location.horizPre x) && in_u8 (Location.vertPre x)
  && in_u32 (Location.latitude x) && in_u32 (Location.longitude x)
  && in_u32 (Location.altitude x).

Definition magnet_ok (x : Magnet.t) : bool :=
  short_str (Magnet.nid x) && lower_hex (Magnet.nin x)
  && (String.length (Magnet.nin x) <=? 510)%nat.

Definition ds_ok (x : DS.t) : bool :=
  in_u16 (DS.keyTag x) && in_u8 (DS.algorithm x)
  && in_u8 (DS.digestType x) && short (DS.digest x).

Definition tls_ok (x : TLS.t) : bool :=
  short_str (TLS.protocol x) && in_u16 (TLS.port x)
  && in_u8 (TLS.usage x) && in_u8 (TLS.selector x)
  && in_u8 (TLS.matchingType x) && short (TLS.certificate x).

Definition ssh_ok (x : SSH.t) : bool :=
  in_u8 (SSH.algorithm x) && in_u8 (SSH.type x)
  && short (SSH.fingerprint x).

(** A native address: its hash is at most 63 bytes and it prints
    back, on the network its first letter names, to the same text. *)
Definition addr_ok (x : Addr.t) : bool :=
  String.eqb (Addr.currency x) "hsk"
  && match Address_fromString (Addr.address x) with
     | inr (version, hash) =>
         in_u8 version && (List.length hash <=? 63)%nat
         && match Address_toString version hash
                    (if Addr.starts_with_t (Addr.address x)
                     then "testnet" else "main") with
            | inr s => String.eqb s (Addr.address x)
            | inl _ => false
            end
     | inl _ => false
     end.

Definition extra_ok (x : Extra.t) : bool :=
  in_u8 (Extra.type x) && negb (rtypes.known (Extra.type x))
  && short (Extra.data x).

Definition wire_ok (r : t) : bool :=
  (version r =? 0)
  && forallb host_ok (hosts r)
  && opt_ok target_ok (canonical r)
  && opt_ok target_ok (delegate r)
  && forallb target_ok (ns r)
  && forallb service_ok (service r)
  && forallb short_str (url r)
  && forallb short_str (email r)
  && forallb short_str (text r)
  && forallb location_ok (location r)
  && forallb magnet_ok (magnet r)
  && forallb ds_ok (ds r)
  && forallb tls_ok (tls r)
  && forallb ssh_ok (ssh r)
  && forallb ssh_ok (pgp r)
  && forallb addr_ok (addr r)
  && forallb extra_ok (extra r).

End Validity.

(** The dictionary fits its one-byte count and lengths. *)
Definition table_ok (c : Compress.Compressor) : Prop :=
  (List.length c <= 255)%nat /\
  Forall (fun s => (String.length s <= 255)%nat) c.

(** The first byte of a native address: flag 0x80, the testnet flag
    0x40 and a six-bit hash length. *)
Definition addr_byte_check (mid h : Z) : bool :=
  let v := Z.lor (Z.lor 128 mid) h in
  (0 <=? v) && (v <? 256) && negb (JS.and v 128 =? 0)
  && (JS.and v 64 =? mid) && (JS.and v 63 =? h).

(** An item that the writer [w] emits in [sz] bytes and that one turn
    of the reader loop takes back with [push]. *)
Definition item_ok {W : Collaborators} (c : Compress.Compressor) {A}
    (w : A -> result (list byte)) (sz : A -> result Z)
    (push : A -> t -> t) (x : A) : Prop :=
  exists b,
    w x = inr b /\ sz x = inr (len8 b)
    /\ forall r rest, step c r (b ++ rest) = inr (push x r, rest).

(** [canonical] and [delegate] after their optional item was read. *)
Definition put_canonical (o : option Target.t) (r : t) : t :=
  match o with Some x => set_canonical (Some x) r | None => r end.
Definition put_delegate (o : option Target.t) (r : t) : t :=
  match o with Some x => set_delegate (Some x) r | None => r end.

(** A key tag with its two bytes exchanged. *)
Definition swap16 (v : Z) : Z := 256 * (v mod 256) + v / 256.

Definition ds_read_back (x : DS.t) : DS.t :=
  DS.mk (swap16 (DS.keyTag x)) (DS.algorithm x) (DS.digestType x)
    (DS.digest x).

(** The TTL after the wire: the low 16 bits of [ttl >>> 6], shifted
    back. *)
Definition ttl_read_back (ttl : Z) : Z :=
  JS.shl (JS.ushr ttl 6 mod 65536) 6.

(** What decoding the encoding of a record gives. *)
Definition read_back (r : t) : t :=
  mk 0 (ttl_read_back (ttl r)) (hosts r) (canonical r) (delegate r)
     (ns r) (service r) (url r) (email r) (text r) (location r)
     (magnet r) (map ds_read_back (ds r)) (tls r) (ssh r) (pgp r)
     (addr r) (extra r).

End Spec.

(* ===================================================================== *)
(** ** Predicates on the JSON and text forms *)
(* ===================================================================== *)

Module JsonSpec.
Import HSKRecord Spec.

(** Every character of [s] passes [p]. *)
Fixpoint all_chars (p : ascii -> bool) (s : string) : bool :=
  match s with
  | EmptyString => true
  | String ch s' => p ch && all_chars p s'
  end.

(** The separators [Magnet.fromString] and [Addr.fromString] split
    on: the class [[:&]] and the colon. *)
Definition magnet_sep (ch : ascii) : bool :=
  Ascii.eqb ch ":"%char || Ascii.eqb ch "&"%char.
Definition addr_sep (ch : ascii) : bool := Ascii.eqb ch ":"%char.

Definition free_of (sep : ascii -> bool) (s : string) : bool :=
  all_chars (fun ch => negb (sep ch)) s.

(** A magnet whose two parts hold no separator and fit the checks of
    [fromString]. *)
Definition magnet_text_ok (x : Magnet.t) : bool :=
  free_of magnet_sep (Magnet.nid x) && free_of magnet_sep (Magnet.nin x)
  && short_str (Magnet.nid x) && short_str (Magnet.nin x).

(** An address entry whose two parts hold no colon and fit the checks
    of [fromString]. *)
Definition addr_text_ok (x : Addr.t) : bool :=
  free_of addr_sep (Addr.currency x) && free_of addr_sep (Addr.address x)
  && (String.length (Addr.currency x) <=? 63)%nat
  && short_str (Addr.address x).

Section WithCollaborators.
Context {W : Collaborators}.

(** The check [(hex >>> 1) <= 255] that [SSH.fromJSON] and
    [Extra.fromJSON] make on the hexadecimal text itself, which
    [>>>] first converts to a number. *)
Definition hex_number_ok (bs : list byte) : bool :=
  JS.ushr (JS_stringToUint32 (Enc.hex_string bs)) 1 <=? 255.

Definition ssh_json_ok (x : SSH.t) : bool :=
  in_u8 (SSH.algorithm x) && in_u8 (SSH.type x)
  && hex_number_ok (SSH.fingerprint x).

Definition extra_json_ok (x : Extra.t) : bool :=
  in_u8 (Extra.type x) && hex_number_ok (Extra.data x).

(** A target that [Target.fromString] parses from its own text. *)
Definition target_text_ok (x : Target.t) : bool :=
  match Target.fromString Target.new (Target.target x) with
  | inr y => (Target.type y =? Target.type x)
             && String.eqb (Target.target y) (Target.target x)
  | inl _ => false
  end.

(** The records whose JSON form [fromJSON] reads back: no TLS and no
    service entry, and every entry within the checks of the
    [fromJSON] of its class. *)
Definition json_ok (r : t) : bool :=
  (version r =? 0) && in_u32 (ttl r)
  && forallb target_text_ok (hosts r)
  && opt_ok target_text_ok (canonical r)
  && opt_ok target_text_ok (delegate r)
  && forallb target_text_ok (ns r)
  && negb (Synth.nonempty (service r))
  && forallb short_str (url r)
  && forallb short_str (email r)
  && forallb short_str (text r)
  && forallb location_ok (location r)
  && forallb magnet_text_ok (magnet r)
  && forallb ds_ok (ds r)
  && negb (Synth.nonempty (tls r))
  && forallb ssh_json_ok (ssh r)
  && forallb ssh_json_ok (pgp r)
  && forallb addr_text_ok (addr r)
  && forallb extra_json_ok (extra r).
End WithCollaborators.

End JsonSpec.

(* ===================================================================== *)
(** ** Predicates on synthesized responses *)
(* ===================================================================== *)

Module DnsSpec.
Import HSKRecord.

(** The record types [toDNS] has a builder call for. *)
Definition emitted_types : list Z :=
  [types.A; types.AAAA; types.NS; types.CNAME; types.DNAME; types.SOA;
   types.MX; types.SRV; types.TXT; types.LOC; types.DS; types.TLSA;
   types.OPENPGPKEY].

(** The three sections of a message, in order. *)
Definition sections (m : Message.t) : list RR.t :=
  Message.answer m ++ Message.authority m ++ Message.additional m.

(** A resource record built from the record [r]. *)
Definition built (r : t) (rr : RR.t) : Prop :=
  RR.ttl rr = ttl r /\ In (RR.type rr) emitted_types.

Section WithCollaborators.
Context {W : Collaborators}.

(** A target that [toPointer] can name when it is an inline
    address. *)
Definition glue_ok (x : Target.t) : bool :=
  negb (Target.isINET x) || is_ok (IP_decode (Target.target x)).

(** Canonical and delegate are names, and every inline address among
    the name servers and service targets can be decoded. *)
Definition servable (r : t) : bool :=
  Spec.opt_ok Target.isName (canonical r)
  && Spec.opt_ok Target.isName (delegate r)
  && forallb glue_ok (ns r)
  && forallb (fun s => glue_ok (Service.target s)) (service r).
End WithCollaborators.

End DnsSpec.

(* ===================================================================== *)
(** ** Predicates on what the reader returns *)
(* ===================================================================== *)

Module WireSpec.
Import HSKRecord Spec.

(** Whatever the reader [m] returns satisfies [P]. *)
Definition yields {A} (P : A -> Prop) (m : Bufio.reader A) : Prop :=
  forall bs a bs', m bs = inr (a, bs') -> P a.

(** The target types with a [case] in the host branch of the reader
    loop, and those [readTarget] and [writeTarget] have a [case]
    for. *)
Definition host_kind (x : Target.t) : bool :=
  let ty := Target.type x in
  (ty =? rtypes.INET4) || (ty =? rtypes.INET6)
  || (ty =? rtypes.ONION) || (ty =? rtypes.ONIONNG).

Definition target_kind (x : Target.t) : bool :=
  host_kind x || (Target.type x =? rtypes.INAME)
  || (Target.type x =? rtypes.HNAME).

Definition service_shape (x : Service.t) : bool :=
  in_u8 (Service.priority x) && in_u8 (Service.weight x)
  && target_kind (Service.target x) && in_u16 (Service.port x).

Definition magnet_shape (x : Magnet.t) : bool :=
  lower_hex (Magnet.nin x) && (String.length (Magnet.nin x) <=? 510)%nat.

Definition tls_shape (x : TLS.t) : bool :=
  in_u16 (TLS.port x) && in_u8 (TLS.usage x) && in_u8 (TLS.selector x)
  && in_u8 (TLS.matchingType x) && short (TLS.certificate x).

Definition extra_shape (x : Extra.t) : bool :=
  in_u8 (Extra.type x) && short (Extra.data x).

(** A TTL that sixteen bits of 64-second units stand for. *)
Definition ttl_shape (v : Z) : bool :=
  (0 <=? v) && (v <? 2 ^ 22) && (v mod 64 =? 0).

(** What holds of every record [fromReader] returns, whatever the
    bytes: the numbers are within the widths they were read from, the
    buffers within their length byte, and every target has a type
    that [readTarget] knows. *)
Definition decoded_shape (r : t) : bool :=
  (version r =? 0) && ttl_shape (ttl r)
  && forallb host_kind (hosts r)
  && opt_ok target_kind (canonical r)
  && opt_ok target_kind (delegate r)
  && forallb target_kind (ns r)
  && forallb service_shape (service r)
  && forallb location_ok (location r)
  && forallb magnet_shape (magnet r)
  && forallb ds_ok (ds r)
  && forallb tls_shape (tls r)
  && forallb ssh_ok (ssh r)
  && forallb ssh_ok (pgp r)
  && forallb extra_shape (extra r).

Definition opt_list {A} (o : option A) : list A :=
  match o with Some x => [x] | None => [] end.

(** Every target a record holds. *)
Definition targets (r : t) : list Target.t :=
  hosts r ++ opt_list (canonical r) ++ opt_list (delegate r) ++ ns r
  ++ map Service.target (service r).

(** A record that holds hosts only. *)
Definition of_hosts (ttl : Z) (hs : list Target.t) : t :=
  mk 0 ttl hs None None [] [] [] [] [] [] [] [] [] [] [] [] [].

(** A record that holds extra entries only. *)
Definition of_extras (ttl : Z) (xs : list Extra.t) : t :=
  mk 0 ttl [] None None [] [] [] [] [] [] [] [] [] [] [] [] xs.

Definition is_nil {A} (xs : list A) : bool :=
  match xs with [] => true | _ :: _ => false end.

(** Nothing is set but, possibly, extra entries. *)
Definition only_extras (r : t) : bool :=
  is_nil (hosts r) && negb (is_set (canonical r))
  && negb (is_set (delegate r)) && is_nil (ns r) && is_nil (service r)
  && is_nil (url r) && is_nil (email r) && is_nil (text r)
  && is_nil (location r) && is_nil (magnet r) && is_nil (ds r)
  && is_nil (tls r) && is_nil (ssh r) && is_nil (pgp r)
  && is_nil (addr r).

(** The second part of every magnet is shorter than 2^32 characters,
    so that [length >>> 1] is half its length. *)
Definition nin_fits (r : t) : bool :=
  forallb (fun m => slen (Magnet.nin m) <? 2 ^ 32) (magnet r).

(** When the write [w] and the size computation [s] both return, the
    bytes written are as many as the size says. *)
Definition fits (w : result (list byte)) (s : result Z) : Prop :=
  forall b n, w = inr b -> s = inr n -> len8 b = n.

End WireSpec.

(* ===================================================================== *)
(** ** More concrete records *)
(* ===================================================================== *)

Module MoreInputs.
Import HSKRecord.

(** An entry of every kind but TLS and service. *)
Definition json_plain : t :=
  mk 0 3600
     [Target.mk 1 "1.2.3.4"]
     (Some (Target.mk 6 "example.com.i"))
     (Some (Target.mk 7 "bob.h"))
     [Target.mk 6 "ns1.example.com.i"; Target.mk 1 "10.0.0.1"]
     []
     ["https://example.com"] ["postmaster@example.com"] ["hello"]
     [Location.mk 0 18 22 19 2332887285 2146974245 9999808]
     [Magnet.mk "btih" "c12fe1c06bba254a9dc9f519b335aa7c1367a88a"]
     [DS.mk 1 8 2 [xab; xcd]]
     []
     [SSH.mk 1 1 [xab; xcd]]
     [PGP.mk 2 1 [x03]]
     [Addr.mk "btc" "1BoatSLRHtKNngkdXEeobR76b53LETtpyT"]
     [Extra.mk 200 [xde; xad]].

(** A fingerprint whose hexadecimal text, 1234, reads as a number. *)
Definition digits_ssh : SSH.t := SSH.mk 1 1 [x12; x34].

(** A canonical target that is an address, as the reader accepts one
    behind the CANONICAL tag. *)
Definition address_canonical : t :=
  mk 0 0 [] (Some (Target.mk 1 "1.2.3.4")) None [] [] [] [] [] [] [] []
     [] [] [] [] [].

(** A delegate target that is an address. *)
Definition address_delegate : t :=
  mk 0 0 [] None (Some (Target.mk 1 "1.2.3.4")) [] [] [] [] [] [] [] []
     [] [] [] [] [].

(** An SSH entry and nothing else. *)
Definition one_ssh : t :=
  mk 0 0 [] None None [] [] [] [] [] [] [] [] [] [SSH.mk 1 1 [xab]] []
     [] [].

(** A host of a type between ONION and ONIONNG, which has no
    [case]. *)
Definition odd_host : t :=
  mk 0 0 [Target.mk 4 "x"] None None [] [] [] [] [] [] [] [] [] [] []
     [] [].

End MoreInputs.

(* ===================================================================== *)
(** * Properties *)
(* ===================================================================== *)


(* ===================================================================== *)
(** ** Bytes *)
(* ===================================================================== *)

Lemma byte_val_range (b : byte) : 0 <= byte_val b < 256.
Proof.
  unfold byte_val. pose proof (Byte.to_N_bounded b). lia.
Qed.

Lemma byte_val_u8 (z : Z) : byte_val (u8 z) = z mod 256.
Proof.
  unfold byte_val, u8.
  assert (Hr : 0 <= z mod 256 < 256) by (apply Z.mod_pos_bound; lia).
  destruct (Byte.of_N (Z.to_N (z mod 256))) as [b|] eqn:E.
  - apply Byte.to_of_N in E. rewrite E. lia.
  - apply Byte.of_N_None_iff in E. lia.
Qed.

Lemma u8_byte_val (b : byte) : u8 (byte_val b) = b.
Proof.
  unfold u8, byte_val.
  pose proof (Byte.to_N_bounded b) as Hb.
  rewrite Z.mod_small by lia.
  rewrite N2Z.id, Byte.of_to_N. reflexivity.
Qed.

Lemma u8_mod (z : Z) : u8 (z mod 256) = u8 z.
Proof.
  unfold u8. rewrite Z.mod_mod by lia. reflexivity.
Qed.

(* ===================================================================== *)
(** ** Readers only consume *)
(* ===================================================================== *)

Section Shrinks.
Import Bufio.

Lemma shrinks_rret A (a : A) : shrinks (rret a).
Proof. intros bs a' bs' H. inversion H; subst. apply le_n. Qed.

Lemma shrinks_rthrow A (e : exn) : shrinks (@rthrow A e).
Proof. intros bs a bs' H. discriminate H. Qed.

Lemma shrinks_rlift A (m : result A) : shrinks (rlift m).
Proof.
  intros bs a bs' H. unfold rlift in H.
  destruct m; inversion H; subst. apply le_n.
Qed.

Lemma shrinks_rbind A B (m : reader A) (k : A -> reader B) :
  shrinks m -> (forall a, shrinks (k a)) -> shrinks (rbind m k).
Proof.
  intros Hm Hk bs b bs' H. unfold rbind in H.
  destruct (m bs) as [e | [a bs1]] eqn:E; [discriminate|].
  apply Hm in E. apply Hk in H. lia.
Qed.

Lemma shrinks_readU8 : shrinks readU8.
Proof.
  intros [|b bs] a bs' H; simpl in H; inversion H; subst. simpl. lia.
Qed.

Lemma shrinks_readU16 : shrinks readU16.
Proof.
  intros [|b0 [|b1 bs]] a bs' H; simpl in H; inversion H; subst.
  simpl. lia.
Qed.

Lemma shrinks_readU16BE : shrinks readU16BE.
Proof.
  intros [|b0 [|b1 bs]] a bs' H; simpl in H; inversion H; subst.
  simpl. lia.
Qed.

Lemma shrinks_readU32 : shrinks readU32.
Proof.
  intros [|b0 [|b1 [|b2 [|b3 bs]]]] a bs' H; simpl in H;
    inversion H; subst. simpl. lia.
Qed.

Lemma shrinks_readBytes n : shrinks (readBytes n).
Proof.
  intros bs a bs' H. unfold readBytes in H.
  destruct (Nat.leb_spec (Z.to_nat n) (List.length bs));
    inversion H; subst.
  rewrite length_skipn. lia.
Qed.

End Shrinks.

Create HintDb shrink.

#[local] Hint Resolve shrinks_rret shrinks_rthrow shrinks_rlift
  shrinks_readU8 shrinks_readU16 shrinks_readU16BE shrinks_readU32
  shrinks_readBytes : shrink.

(** Walks through the binds and branches of a reader. *)
Ltac shrink_step :=
  match goal with
  | |- shrinks (Bufio.rbind _ _) => apply shrinks_rbind; [ | intros ? ]
  | |- shrinks (if ?b then _ else _) => destruct b
  | |- shrinks (match ?x with _ => _ end) => destruct x
  | |- shrinks (let _ := _ in _) => cbv zeta
  | |- shrinks _ => solve [ auto with shrink ]
  end.
Ltac shrink := repeat shrink_step.

Section ShrinksCodec.
Context {W : Collaborators}.
Import Bufio.

Lemma shrinks_read_entries n : shrinks (Compress.read_entries n).
Proof. induction n; simpl; shrink. Qed.

Lemma shrinks_Decompressor_fromReader : shrinks Compress.fromReader.
Proof. unfold Compress.fromReader. shrink. apply shrinks_read_entries. Qed.

Lemma shrinks_Compress_read d : shrinks (Compress.read d).
Proof. unfold Compress.read. shrink. Qed.

Lemma shrinks_ip_fill n : forall mask, shrinks (Compress.ip_fill n mask).
Proof. induction n; intros mask; simpl; shrink; apply IHn. Qed.

Lemma shrinks_ipRead : shrinks Compress.ipRead.
Proof. unfold Compress.ipRead. shrink. apply shrinks_ip_fill. Qed.

Hint Resolve shrinks_Compress_read shrinks_ipRead : shrink.

Lemma shrinks_readTarget ty d : shrinks (readTarget ty d).
Proof. unfold readTarget. shrink. Qed.

Hint Resolve shrinks_readTarget : shrink.

Lemma shrinks_Target_fromReader d : shrinks (Target.fromReader d).
Proof. unfold Target.fromReader. shrink. Qed.

Hint Resolve shrinks_Target_fromReader : shrink.

Lemma shrinks_Service_fromReader d : shrinks (Service.fromReader d).
Proof. unfold Service.fromReader. shrink. Qed.

Lemma shrinks_Extra_fromReader : shrinks Extra.fromReader.
Proof. unfold Extra.fromReader. shrink. Qed.

Lemma shrinks_SSH_fromReader : shrinks SSH.fromReader.
Proof. unfold SSH.fromReader. shrink. Qed.

Lemma shrinks_TLS_fromReader d : shrinks (TLS.fromReader d).
Proof. unfold TLS.fromReader. shrink. Qed.

Lemma shrinks_DS_fromReader : shrinks DS.fromReader.
Proof. unfold DS.fromReader. shrink. Qed.

Lemma shrinks_Magnet_fromReader d : shrinks (Magnet.fromReader d).
Proof. unfold Magnet.fromReader. shrink. Qed.

Lemma shrinks_Location_fromReader : shrinks Location.fromReader.
Proof. unfold Location.fromReader. shrink. Qed.

Lemma shrinks_Addr_fromReader d : shrinks (Addr.fromReader d).
Proof. unfold Addr.fromReader. shrink. Qed.

Hint Resolve shrinks_Service_fromReader shrinks_Extra_fromReader
  shrinks_SSH_fromReader shrinks_TLS_fromReader shrinks_DS_fromReader
  shrinks_Magnet_fromReader shrinks_Location_fromReader
  shrinks_Addr_fromReader : shrink.

Lemma shrinks_readItem d r ty : shrinks (HSKRecord.readItem d r ty).
Proof. unfold HSKRecord.readItem, PGP.fromReader. shrink. Qed.

(** A turn of the reader loop consumes at least the tag byte. *)
Lemma step_consumes d r bs r' bs' :
  HSKRecord.step d r bs = inr (r', bs') ->
  (List.length bs' < List.length bs)%nat.
Proof.
  unfold HSKRecord.step, rbind. destruct bs as [|b bs]; simpl.
  - discriminate.
  - intros H. apply shrinks_readItem in H. lia.
Qed.

(** Once the fuel covers the bytes left, more fuel changes nothing. *)
Lemma loop_fuel_irrelevant f1 : forall f2 d r bs,
  (List.length bs <= f1)%nat -> (List.length bs <= f2)%nat ->
  HSKRecord.loop f1 d r bs = HSKRecord.loop f2 d r bs.
Proof.
  induction f1 as [|f1 IH]; intros f2 d r bs H1 H2.
  - destruct bs; [|simpl in H1; lia]. destruct f2; reflexivity.
  - destruct bs as [|b bs]; [destruct f2; reflexivity|].
    destruct f2 as [|f2]; [simpl in H2; lia|].
    cbn [HSKRecord.loop].
    destruct (left (b :: bs) =? 0); [reflexivity|].
    destruct (HSKRecord.step d r (b :: bs)) as [e | [r' bs']] eqn:E;
      [reflexivity|].
    apply step_consumes in E. simpl in E, H1, H2.
    apply IH; lia.
Qed.

(** The reader loop ends: with the fuel [fromReader] gives it, it
    returns a record or an exception. *)
Lemma loop_total f : forall d r bs,
  (List.length bs <= f)%nat ->
  exists res, HSKRecord.loop f d r bs = Some res.
Proof.
  induction f as [|f IH]; intros d r bs H.
  - destruct bs; [|simpl in H; lia]. exists (ret r). reflexivity.
  - destruct bs as [|b bs]; [exists (ret r); reflexivity|].
    cbn [HSKRecord.loop].
    destruct (left (b :: bs) =? 0); [eexists; reflexivity|].
    destruct (HSKRecord.step d r (b :: bs)) as [e | [r' bs']] eqn:E;
      [eexists; reflexivity|].
    apply step_consumes in E. simpl in E, H. apply IH. lia.
Qed.

(** One more turn of the loop, when there is a byte left. *)
Lemma loop_unfold d r b bs :
  HSKRecord.loop (List.length (b :: bs)) d r (b :: bs) =
  match HSKRecord.step d r (b :: bs) with
  | inl e => Some (inl e)
  | inr (r', bs') => HSKRecord.loop (List.length bs') d r' bs'
  end.
Proof.
  cbn [List.length HSKRecord.loop].
  replace (left (b :: bs) =? 0) with false
    by (unfold left; simpl; lia).
  destruct (HSKRecord.step d r (b :: bs)) as [e | [r' bs']] eqn:E;
    [reflexivity|].
  apply step_consumes in E. simpl in E.
  apply loop_fuel_irrelevant; lia.
Qed.

Lemma loop_nil d r : HSKRecord.loop 0 d r [] = Some (ret r).
Proof. reflexivity. Qed.

End ShrinksCodec.

(* ===================================================================== *)
(** ** The DNS synthesizer *)
(* ===================================================================== *)

Section CollectM.
Context {A B : Type}.

Lemma collectM_total (f : A -> result (option B)) xs :
  (forall x, In x xs -> exists o, f x = inr o) ->
  exists l, collectM f xs = inr l.
Proof.
  induction xs as [|x xs IH]; intros H; simpl.
  - eexists; reflexivity.
  - destruct (H x (or_introl eq_refl)) as [o Ho]. rewrite Ho. simpl.
    destruct IH as [l Hl]; [intros; apply H; right; assumption|].
    rewrite Hl. simpl. eexists; reflexivity.
Qed.

Lemma collectM_Forall (P : B -> Prop) (f : A -> result (option B)) xs :
  (forall x y, f x = inr (Some y) -> P y) ->
  forall l, collectM f xs = inr l -> Forall P l.
Proof.
  intros Hf. induction xs as [|x xs IH]; intros l H; simpl in H.
  - inversion H. constructor.
  - destruct (f x) as [e|o] eqn:E; [discriminate|]. simpl in H.
    destruct (collectM f xs) as [e|ys] eqn:E'; [discriminate|].
    simpl in H. inversion H; subst.
    destruct o; [constructor; [eapply Hf; eassumption|]|]; apply IH;
      reflexivity.
Qed.
End CollectM.

Section SynthFacts.
Context {W : Collaborators}.
Import HSKRecord Synth Spec.

(** Without [naked], a target name never needs a pointer, so nothing
    can throw. *)
Lemma targetName_not_naked x name :
  targetName x name false =
  inr (if Target.isName x then Some (Target.toDNS x) else None).
Proof. unfold targetName. destruct (Target.isName x); reflexivity. Qed.

Lemma toNS_not_naked r name :
  exists l, toNS r name false = inr l /\
            Forall (fun rr => exists n, RR.data rr = NSRecord n) l.
Proof.
  unfold toNS.
  match goal with |- context [collectM ?f ?xs] =>
    destruct (@collectM_total _ _ f xs) as [l Hl] end.
  - intros x _. cbv beta. rewrite targetName_not_naked. simpl.
    destruct (JS.truthy _); eexists; reflexivity.
  - exists l. split; [assumption|].
    eapply collectM_Forall; [|exact Hl].
    intros x y. cbv beta. rewrite targetName_not_naked. simpl.
    destruct (JS.truthy _); simpl; intros H; inversion H; subst.
    eexists; reflexivity.
Qed.

Lemma toMX_not_naked r name :
  exists l, toMX r name false = inr l /\
            Forall (fun rr => exists p n, RR.data rr = MXRecord p n) l.
Proof.
  unfold toMX.
  match goal with |- context [collectM ?f ?xs] =>
    destruct (@collectM_total _ _ f xs) as [l Hl] end.
  - intros x _. cbv beta. destruct (Service.isSMTP x); simpl;
      [|eexists; reflexivity].
    rewrite targetName_not_naked. simpl.
    destruct (JS.truthy _); eexists; reflexivity.
  - exists l. split; [assumption|].
    eapply collectM_Forall; [|exact Hl].
    intros x y. cbv beta. destruct (Service.isSMTP x); simpl; [|discriminate].
    rewrite targetName_not_naked. simpl.
    destruct (JS.truthy _); simpl; intros H; inversion H; subst.
    do 2 eexists; reflexivity.
Qed.

(** C9.  For a fully-qualified [name], [toSOA] returns one SOA record,
    named by the tld, with serial 0, refresh 1800, retry equal to the
    record's ttl, expire 604800 and minttl 86400.  Its primary NS is the
    ns name of the first record of [toNS(tld)] when there is one and the
    tld otherwise; its mbox is the mx name of the first record of
    [toMX(tld)] when there is one and the tld otherwise. *)
Theorem C9_toSOA_fields (r : t) (name : string) :
  util_isFQDN name = true ->
  let tld := util_from2 name (-1) in
  exists nsl mxl rd_ns rd_mbox,
    toNS r tld false = inr nsl /\
    toMX r tld false = inr mxl /\
    match nsl with
    | [] => rd_ns = tld
    | rr :: _ => RR.data rr = NSRecord rd_ns
    end /\
    match mxl with
    | [] => rd_mbox = tld
    | rr :: _ => exists p, RR.data rr = MXRecord p rd_mbox
    end /\
    toSOA r name =
    inr [RR.mk tld (ttl r) types.SOA
           (SOARecord rd_ns rd_mbox 0 1800 (ttl r) 604800 86400)].
Proof.
  intros Hfq tld.
  destruct (toNS_not_naked r tld) as [nsl [Hns Fns]].
  destruct (toMX_not_naked r tld) as [mxl [Hmx Fmx]].
  exists nsl, mxl.
  exists (match nsl with rr :: _ => data_ns (RR.data rr) | [] => tld end).
  exists (match mxl with rr :: _ => data_mx (RR.data rr) | [] => tld end).
  repeat split; try assumption.
  - destruct nsl as [|rr ?]; [reflexivity|].
    inversion Fns as [|? ? [n Hn] ?]; subst. rewrite Hn. reflexivity.
  - destruct mxl as [|rr ?]; [reflexivity|].
    inversion Fmx as [|? ? [p [n Hn]] ?]; subst. exists p.
    rewrite Hn. reflexivity.
  - unfold toSOA. rewrite Hfq. simpl. fold tld.
    rewrite Hns. simpl. rewrite Hmx. reflexivity.
Qed.

(** C10.  The [naked] argument of [toDNS] has no effect on the
    message: the call with [false] returns what the call with [true]
    returns, for every record, name and query type. *)
Theorem C10_naked_has_no_effect (r : t) (name : string) (type : Z) :
  toDNS r name type false = toDNS r name type true.
Proof. reflexivity. Qed.

(** C2.  For a fully-qualified name with more than one
    label, [toDNS] answers with a referral for the last label [tld]:
    [aa] is false, and the sections are [toNS(tld, true)] in authority
    and [toNSIP(tld, true)] in additional when the ns list is not
    empty, else [toDNAME(tld)] in answer when delegate is set, else
    [toSOA(tld)] in authority; the records of [toDS(tld)] are appended
    to authority in each case.  The flag handed to [toNS] and [toNSIP]
    is always [true], whatever [naked] the caller passed. *)
Theorem C2_referral (r : t) (name : string) (type : Z) (naked : bool) :
  util_isFQDN name = true ->
  (1 < List.length (util_split name))%nat ->
  let tld := util_from name (util_split name) (-1) in
  toDNS r name type naked =
  if nonempty (ns r) then
    authority <- toNS r tld true ;;
    additional <- toNSIP r tld true ;;
    ret (Message.mk true true false
           [] (authority ++ toDS r tld) additional (Some (4096, true)))
  else if is_set (delegate r) then
    answer <- toDNAME r tld ;;
    ret (Message.mk true true false
           answer (toDS r tld) [] (Some (4096, true)))
  else
    authority <- toSOA r tld ;;
    ret (Message.mk true true false
           [] (authority ++ toDS r tld) [] (Some (4096, true))).
Proof.
  intros Hfq Hlabels tld. unfold toDNS. rewrite Hfq. simpl.
  replace (1 <? Z.of_nat (List.length (util_split name))) with true
    by (symmetry; apply Z.ltb_lt; lia).
  fold tld. unfold referral.
  destruct (nonempty (ns r)).
  - destruct (toNS r tld true); [reflexivity|]. simpl.
    destruct (toNSIP r tld true); reflexivity.
  - destruct (is_set (delegate r)).
    + destruct (toDNAME r tld); reflexivity.
    + destruct (toSOA r tld); reflexivity.
Qed.

Lemma filter_none A (p : A -> bool) xs :
  existsb p xs = false -> filter p xs = [].
Proof.
  induction xs as [|x xs IH]; simpl; [reflexivity|].
  destruct (p x); simpl; [discriminate|assumption].
Qed.

Lemma toA_empty r name : no_A_answer r = true -> toA r name = [].
Proof.
  unfold no_A_answer, toA. intros H.
  apply andb_true_iff in H. destruct H as [H4 Ht].
  apply negb_true_iff in H4, Ht. rewrite Ht.
  rewrite (filter_none _ _ H4). reflexivity.
Qed.

(** C3.  For a fully-qualified name of at most one label:
    when the [switch] on the query type leaves answer and authority
    empty, the answer of the returned message is [toCNAME(name)] if
    canonical is set and [toSOA(name)] otherwise.  In particular a
    query of type A on a record whose canonical is a name target and
    whose hosts hold neither an IPv4 nor an onion address returns the
    CNAME record as its answer. *)
Theorem C3_fallback (r : t) (name : string) (type : Z) (naked : bool) :
  util_isFQDN name = true ->
  (List.length (util_split name) <= 1)%nat ->
  (forall res,
      dispatch r name type true authoritative = inr res ->
      Message.answer res = [] -> Message.authority res = [] ->
      toDNS r name type naked =
      answer <- (if is_set (canonical r) then toCNAME r name
                 else toSOA r name) ;;
      ret (Message.setEDNS0 4096 true (Message.set_answer answer res)))
  /\
  (forall c,
      type = types.A -> canonical r = Some c -> Target.isName c = true ->
      no_A_answer r = true ->
      toDNS r name type naked =
      inr (Message.mk true true true
             [RR.mk name (ttl r) types.CNAME (CNAMERecord (Target.toDNS c))]
             [] [] (Some (4096, true)))).
Proof.
  intros Hfq Hlabels.
  assert (Hone : (1 <? Z.of_nat (List.length (util_split name))) = false)
    by (apply Z.ltb_ge; lia).
  split.
  - intros res Hd Hans Haut. unfold toDNS. rewrite Hfq, Hone. simpl.
    fold authoritative. rewrite Hd. simpl.
    unfold fallback. rewrite Hans, Haut. simpl.
    destruct (is_set (canonical r)); simpl.
    + destruct (toCNAME r name); reflexivity.
    + destruct (toSOA r name); reflexivity.
  - intros c Hty Hc Hname Hno. subst type.
    unfold toDNS. rewrite Hfq, Hone. simpl.
    rewrite (toA_empty r name Hno). simpl.
    unfold fallback. simpl. rewrite Hc. simpl.
    unfold toCNAME. rewrite Hc, Hname. reflexivity.
Qed.

End SynthFacts.

(* ===================================================================== *)
(** ** The wire codec *)
(* ===================================================================== *)

Section BufioFacts.
Import Bufio.

Lemma readBytes_app (bs rest : list byte) :
  readBytes (len8 bs) (bs ++ rest) = inr (bs, rest).
Proof.
  unfold readBytes, len8. rewrite Nat2Z.id.
  replace (List.length bs <=? List.length (bs ++ rest))%nat with true
    by (symmetry; apply Nat.leb_le; rewrite length_app; lia).
  rewrite firstn_app, firstn_all, Nat.sub_diag, skipn_app, skipn_all,
    Nat.sub_diag.
  simpl. rewrite app_nil_r. reflexivity.
Qed.

Lemma byte_val_len8 (bs : list byte) :
  (List.length bs <= 255)%nat -> byte_val (u8 (len8 bs)) = len8 bs.
Proof.
  intros H. rewrite byte_val_u8. apply Z.mod_small. unfold len8. lia.
Qed.

Lemma known_tag_neq (tag k : Z) :
  rtypes.known k = true -> rtypes.known tag = false -> (tag =? k) = false.
Proof.
  intros Hk Ht. destruct (Z.eqb_spec tag k); [subst; congruence|reflexivity].
Qed.

End BufioFacts.

(** Rewrites the comparisons of an unknown tag with the known ones. *)
Ltac unknown_tag H :=
  repeat match goal with
         | |- context [?t =? ?k] =>
             rewrite (@known_tag_neq t k eq_refl H)
         end.

Section WireFacts.
Context {W : Collaborators}.
Import Bufio HSKRecord Spec.

Lemma step_cons d r b bs :
  step d r (b :: bs) = readItem d r (byte_val b) bs.
Proof. reflexivity. Qed.

Lemma readItem_unknown d r ty bs :
  rtypes.known ty = false ->
  readItem d r ty bs =
  match Extra.fromReader bs with
  | inl e => inl e
  | inr (x, bs') => inr (push_extra x r, bs')
  end.
Proof.
  intros Hk. unfold readItem. unknown_tag Hk. reflexivity.
Qed.

Lemma Extra_fromReader_app ty data rest :
  (List.length data <= 255)%nat ->
  Extra.fromReader (ty :: u8 (len8 data) :: data ++ rest)
  = inr (Extra.mk (byte_val ty) data, rest).
Proof.
  intros Hlen. unfold Extra.fromReader, rbind, readU8, ret.
  rewrite (byte_val_len8 _ Hlen), readBytes_app. reflexivity.
Qed.

Lemma step_duplicate d r tag rest :
  duplicate r (byte_val tag) = true ->
  step d r (tag :: rest) = inl AssertionError.
Proof.
  unfold duplicate. intros H.
  rewrite step_cons. unfold readItem.
  apply orb_true_iff in H.
  destruct H as [H|H]; apply andb_true_iff in H; destruct H as [Hset Htag].
  - apply orb_true_iff in Htag. destruct Htag as [Htag|Htag];
      [apply orb_true_iff in Htag; destruct Htag as [Htag|Htag]|];
      apply Z.eqb_eq in Htag; rewrite Htag; simpl;
      unfold rbind, rlift; rewrite Hset; reflexivity.
  - apply Z.eqb_eq in Htag. rewrite Htag. simpl.
    unfold rbind, rlift. rewrite Hset. reflexivity.
Qed.

Lemma step_nil d r : step d r [] = inl OutOfBounds.
Proof. reflexivity. Qed.

(** The loop run from a state is the loop run from any state it
    reaches. *)
Lemma loop_reaches d st st' :
  reaches d st st' ->
  loop (List.length (snd st)) d (fst st) (snd st)
  = loop (List.length (snd st')) d (fst st') (snd st').
Proof.
  induction 1 as [st | r bs r1 bs1 st Hstep Hreach IH]; [reflexivity|].
  simpl fst in *. simpl snd in *.
  destruct bs as [|b bs]; [rewrite step_nil in Hstep; discriminate|].
  rewrite loop_unfold, Hstep. exact IH.
Qed.

(** C6.  If the reader loop, after the head of the blob, gets to a
    state where canonical is set and the next tag is CANONICAL, INAME
    or HNAME, or where delegate is set and the next tag is DELEGATE,
    then decoding the blob fails with an assertion error. *)
Theorem C6_duplicate_fails
    (r0 : t) (blob : list byte) (r1 : t) (d : Compress.Decompressor)
    (bs1 : list byte) (r : t) (tag : byte) (rest : list byte) :
  header r0 blob = inr ((r1, d), bs1) ->
  reaches d (r1, bs1) (r, tag :: rest) ->
  duplicate r (byte_val tag) = true ->
  fromReader r0 blob = inl AssertionError.
Proof.
  intros Hh Hr Hd. unfold fromReader. rewrite Hh.
  pose proof (loop_reaches Hr) as Hl. simpl fst in Hl. simpl snd in Hl.
  rewrite Hl, loop_unfold, step_duplicate by assumption. reflexivity.
Qed.

(** What [toWriter] starts with. *)
Lemma toWriter_head r c bs :
  toWriter r c = inr bs ->
  exists rest,
    bs = writeU8 (version r) ++ writeU16 (JS.ushr (ttl r) 6)
         ++ Compress.toWriter c ++ rest.
Proof.
  unfold toWriter. intros H.
  repeat match type of H with
         | bind ?m _ = inr _ =>
             destruct m eqn:?; simpl in H; [discriminate|]
         end.
  inversion H. eexists. reflexivity.
Qed.

Lemma toRaw_toWriter r bs :
  toRaw r = inr bs -> toWriter r (compress r) = inr bs.
Proof.
  unfold toRaw. intros H.
  destruct (getSize r (compress r)); simpl in H; [discriminate|].
  destruct (toWriter r (compress r)) as [e|bs']; simpl in H;
    [discriminate|].
  destruct (len8 bs' =? z); [assumption|].
  destruct (z <? len8 bs'); discriminate.
Qed.

Lemma inr_inj A B (x y : B) : @inr A B x = inr y -> x = y.
Proof. intros H. congruence. Qed.

(** The loop of [toWriter] over the extra entries: for each one its
    type as the tag byte, then what [Extra.toWriter] writes, which is
    the type again, the length of the data and the data. *)
Lemma writeAll_extras xs :
  writeAll (fun x => tagged (Extra.type x) (ret (Extra.toWriter x))) xs
  = inr (List.concat
           (map (fun x => u8 (Extra.type x) :: u8 (Extra.type x)
                          :: u8 (len8 (Extra.data x)) :: Extra.data x)
                xs)).
Proof.
  induction xs as [|x xs IH]; [reflexivity|].
  cbn [writeAll map List.concat]. rewrite IH. reflexivity.
Qed.

(** The extra entries are the last bytes [toWriter] writes. *)
Lemma toWriter_extras_last r c bs :
  toWriter r c = inr bs ->
  exists pre,
    bs = pre
         ++ List.concat
              (map (fun x => u8 (Extra.type x) :: u8 (Extra.type x)
                             :: u8 (len8 (Extra.data x)) :: Extra.data x)
                   (extra r)).
Proof.
  unfold toWriter. rewrite writeAll_extras. intros H.
  repeat match type of H with
         | bind ?m _ = inr _ =>
             destruct m eqn:?; cbn [bind] in H; [discriminate|]
         end.
  unfold ret in H. apply inr_inj in H. subst bs.
  rewrite !app_assoc. eexists. reflexivity.
Qed.

(** C5.  A top-level tag byte outside the known tags makes
    the reader loop read an [Extra]: after the tag byte it takes one
    more byte as the entry's type and then one length-prefixed blob (a
    length byte and that many bytes) as its data.  The writer emits the
    entry's type in both places: the bytes of every encoded record end
    with its extra entries, each as the type, the type again, the
    length of the data and the data. *)
Theorem C5_unknown_tag_reads_extra
    (d : Compress.Decompressor) (r : t) (tag ty : byte)
    (data rest : list byte) :
  rtypes.known (byte_val tag) = false ->
  (List.length data <= 255)%nat ->
  step d r (tag :: ty :: u8 (len8 data) :: data ++ rest)
  = inr (push_extra (Extra.mk (byte_val ty) data) r, rest)
  /\ forall r0 bs,
       toRaw r0 = inr bs ->
       exists pre,
         bs = pre
              ++ List.concat
                   (map (fun x => u8 (Extra.type x) :: u8 (Extra.type x)
                                  :: u8 (len8 (Extra.data x))
                                  :: Extra.data x)
                        (extra r0)).
Proof.
  intros Hk Hlen. split.
  - rewrite step_cons, readItem_unknown by assumption.
    rewrite Extra_fromReader_app by assumption.
    reflexivity.
  - intros r0 bs H. apply toRaw_toWriter in H.
    apply (toWriter_extras_last r0 (compress r0) H).
Qed.

(** C8.  In every encoded blob the version byte is followed
    by the low 16 bits of [ttl >>> 6] in little-endian order: first the
    low byte, then the high byte.  For ttl = 3600 the pair is 0x38
    0x00. *)
Theorem C8_ttl_bytes (r : t) (bs : list byte) :
  toRaw r = inr bs ->
  (exists lo hi rest,
      bs = u8 (version r) :: lo :: hi :: rest
      /\ byte_val lo = JS.ushr (ttl r) 6 mod 256
      /\ byte_val hi = (JS.ushr (ttl r) 6 / 256) mod 256)
  /\ (ttl r = 3600 -> firstn 2 (skipn 1 bs) = [x38; x00]).
Proof.
  intros H. apply toRaw_toWriter, toWriter_head in H.
  destruct H as [rest ->]. split.
  - exists (u8 (JS.ushr (ttl r) 6)), (u8 (Z.shiftr (JS.ushr (ttl r) 6) 8)).
    eexists. split; [reflexivity|].
    rewrite !byte_val_u8, Z.shiftr_div_pow2 by lia.
    split; reflexivity.
  - intros ->. reflexivity.
Qed.

End WireFacts.

(* ===================================================================== *)
(** ** Reading back what was written: primitives and the dictionary *)
(* ===================================================================== *)

Section PrimitiveRoundTrips.
Import Bufio.

Lemma readU8_writeU8 v rest :
  readU8 (writeU8 v ++ rest) = inr (v mod 256, rest).
Proof. unfold readU8, writeU8, ret. simpl. rewrite byte_val_u8. reflexivity. Qed.

Lemma readU8_u8 v rest :
  0 <= v < 256 -> readU8 (u8 v :: rest) = inr (v, rest).
Proof.
  intros H. unfold readU8, ret. rewrite byte_val_u8, Z.mod_small by lia.
  reflexivity.
Qed.

Lemma readU16_writeU16 v rest :
  0 <= v < 65536 -> readU16 (writeU16 v ++ rest) = inr (v, rest).
Proof.
  intros H. unfold readU16, writeU16, ret. cbn [app].
  rewrite !byte_val_u8, Z.shiftr_div_pow2 by lia.
  change (2 ^ 8) with 256.
  rewrite (Z.mod_small (v / 256)) by
    (split; [apply Z.div_pos; lia | apply Z.div_lt_upper_bound; lia]).
  f_equal. f_equal. pose proof (Z.div_mod v 256 ltac:(lia)). lia.
Qed.

(** What [readU16BE] makes of a little-endian field: the two bytes
    change places. *)
Lemma readU16BE_writeU16 v rest :
  0 <= v < 65536 ->
  readU16BE (writeU16 v ++ rest) = inr (256 * (v mod 256) + v / 256, rest).
Proof.
  intros H. unfold readU16BE, writeU16, ret. cbn [app].
  rewrite !byte_val_u8, Z.shiftr_div_pow2 by lia.
  change (2 ^ 8) with 256.
  rewrite (Z.mod_small (v / 256)) by
    (split; [apply Z.div_pos; lia | apply Z.div_lt_upper_bound; lia]).
  reflexivity.
Qed.

Lemma readU32_writeU32 v rest :
  0 <= v < 4294967296 -> readU32 (writeU32 v ++ rest) = inr (v, rest).
Proof.
  intros H. unfold readU32, writeU32, ret. cbn [app].
  rewrite !byte_val_u8, !Z.shiftr_div_pow2 by lia.
  change (2 ^ 8) with 256. change (2 ^ 16) with 65536.
  change (2 ^ 24) with 16777216.
  f_equal. f_equal.
  pose proof (Z.div_mod v 256 ltac:(lia)).
  pose proof (Z.div_mod (v / 256) 256 ltac:(lia)).
  pose proof (Z.div_mod (v / 65536) 256 ltac:(lia)).
  pose proof (Z.mod_pos_bound v 256 ltac:(lia)).
  pose proof (Z.mod_pos_bound (v / 256) 256 ltac:(lia)).
  pose proof (Z.mod_pos_bound (v / 65536) 256 ltac:(lia)).
  assert (E1 : v / 256 / 256 = v / 65536)
    by (rewrite Z.div_div by lia; reflexivity).
  assert (E2 : v / 65536 / 256 = v / 16777216)
    by (rewrite Z.div_div by lia; reflexivity).
  assert (0 <= v / 16777216 < 256)
    by (split; [apply Z.div_pos; lia | apply Z.div_lt_upper_bound; lia]).
  rewrite (Z.mod_small (v / 16777216)) by lia.
  lia.
Qed.

Lemma len8_app (a b : list byte) : len8 (a ++ b) = len8 a + len8 b.
Proof. unfold len8. rewrite length_app. lia. Qed.

Lemma len8_cons (a : byte) (b : list byte) : len8 (a :: b) = 1 + len8 b.
Proof. unfold len8. simpl List.length. lia. Qed.

Lemma len8_nil : len8 (@nil byte) = 0.
Proof. reflexivity. Qed.

Lemma len8_nonneg (a : list byte) : 0 <= len8 a.
Proof. unfold len8. lia. Qed.

Lemma length_ascii_bytes s :
  List.length (Enc.ascii_bytes s) = String.length s.
Proof.
  unfold Enc.ascii_bytes, list_byte_of_string.
  rewrite length_map. induction s; simpl; congruence.
Qed.

Lemma len8_ascii_bytes s : len8 (Enc.ascii_bytes s) = slen s.
Proof. unfold len8, slen. rewrite length_ascii_bytes. reflexivity. Qed.

Lemma raw_string_ascii_bytes s : Enc.raw_string (Enc.ascii_bytes s) = s.
Proof. apply string_of_list_byte_of_string. Qed.

(** A length byte followed by that many bytes. *)
Lemma read_prefixed (bs rest : list byte) :
  (List.length bs <= 255)%nat ->
  rbind readU8 (fun n => readBytes n) (u8 (len8 bs) :: bs ++ rest)
  = inr (bs, rest).
Proof.
  intros H. unfold rbind. rewrite readU8_u8 by (unfold len8; lia).
  apply readBytes_app.
Qed.

End PrimitiveRoundTrips.

Section DictionaryRoundTrip.
Import Bufio Compress Spec.

Lemma table_ok_empty : table_ok empty.
Proof. split; [simpl; lia | constructor]. Qed.

Lemma table_ok_add c s : table_ok c -> table_ok (add c s).
Proof.
  intros [Hn Hs]. unfold add.
  destruct (has c s); [split; assumption|].
  destruct (Z.ltb_spec 255 (Z.of_nat (String.length s)));
    [split; assumption|].
  destruct (Z.leb_spec 255 (Z.of_nat (List.length c)));
    [split; assumption|].
  split.
  - rewrite length_app. simpl. lia.
  - apply Forall_app. split; [assumption|]. constructor; [lia|constructor].
Qed.

Lemma table_ok_fold A (f : Compressor -> A -> Compressor) xs :
  (forall c x, table_ok c -> table_ok (f c x)) ->
  forall c, table_ok c -> table_ok (fold_left f xs c).
Proof.
  intros Hf. induction xs as [|x xs IH]; intros c Hc; simpl;
    [assumption|]. apply IH, Hf, Hc.
Qed.

Lemma index_of_nth s c i :
  index_of s c = Some i ->
  nth_error c i = Some s /\ (i < List.length c)%nat.
Proof.
  revert i. induction c as [|w c IH]; intros i H; simpl in H;
    [discriminate|].
  destruct (String.eqb_spec w s).
  - inversion H; subst. simpl. split; [reflexivity|lia].
  - destruct (index_of s c) as [j|]; [|discriminate].
    inversion H; subst. destruct (IH j eq_refl) as [Hn Hl].
    simpl. split; [assumption|lia].
Qed.

Lemma read_entries_written c rest :
  Forall (fun s => (String.length s <= 255)%nat) c ->
  read_entries (List.length c) (List.concat (map entry_bytes c) ++ rest)
  = inr (c, rest).
Proof.
  induction 1 as [|s c Hs Hc IH]; [reflexivity|].
  cbn [List.length map List.concat read_entries].
  unfold entry_bytes at 1, writeU8.
  rewrite <- app_assoc. cbn [app].
  unfold rbind at 1.
  rewrite readU8_u8 by lia.
  unfold rbind at 1.
  change (Z.of_nat (String.length s)) with (slen s).
  rewrite <- len8_ascii_bytes, readBytes_app.
  unfold rbind. rewrite IH. unfold rret, ret.
  rewrite raw_string_ascii_bytes. reflexivity.
Qed.

(** The decompressor read from an emitted table is that table. *)
Lemma fromReader_toWriter c rest :
  table_ok c -> fromReader (toWriter c ++ rest) = inr (c, rest).
Proof.
  intros [Hn Hs]. unfold fromReader, toWriter, writeU8.
  cbn [app]. unfold rbind.
  rewrite readU8_u8 by lia. rewrite Nat2Z.id.
  apply read_entries_written, Hs.
Qed.

(** A string of at most 255 characters can be written, in [size]
    bytes. *)
Lemma write_ok c s :
  (String.length s <= 255)%nat ->
  exists b, write c s = inr b /\ len8 b = size c s.
Proof.
  intros H. unfold write, size.
  destruct (index_of s c) as [i|].
  - eexists. split; reflexivity.
  - replace (Z.of_nat (String.length s) <=? 255) with true
      by (symmetry; apply Z.leb_le; lia).
    eexists. split; [reflexivity|].
    unfold writeU8. cbn [app]. rewrite !len8_cons, len8_ascii_bytes.
    unfold slen. lia.
Qed.

(** ... and read back against the same table. *)
Lemma read_write c s b rest :
  table_ok c -> write c s = inr b -> read c (b ++ rest) = inr (s, rest).
Proof.
  intros [Hn Hs] H. unfold write in H.
  destruct (index_of s c) as [i|] eqn:E.
  - inversion H; subst. apply index_of_nth in E. destruct E as [En El].
    unfold read, writeU8. cbn [app]. unfold rbind.
    rewrite readU8_u8 by lia.
    change (1 =? 0) with false. change (1 =? 1) with true. cbv beta iota.
    rewrite readU8_u8 by lia. rewrite Nat2Z.id, En. reflexivity.
  - destruct (Z.leb_spec (Z.of_nat (String.length s)) 255);
      [|discriminate].
    inversion H; subst.
    unfold read, writeU8. cbn [app]. unfold rbind at 1.
    rewrite readU8_u8 by lia.
    change (0 =? 0) with true. cbv beta iota.
    unfold rbind at 1.
    rewrite readU8_u8 by lia.
    change (Z.of_nat (String.length s)) with (slen s).
    rewrite <- len8_ascii_bytes. unfold rbind.
    rewrite readBytes_app. unfold rret, ret.
    rewrite raw_string_ascii_bytes. reflexivity.
Qed.

(** The IPv6 packing. *)
Lemma ip_mask_bound ip : 0 <= ip_mask ip < 2 ^ Z.of_nat (List.length ip).
Proof.
  induction ip as [|b ip IH]; [simpl; lia|].
  cbn [ip_mask List.length]. rewrite Nat2Z.inj_succ, Z.pow_succ_r by lia.
  destruct (byte_val b =? 0); lia.
Qed.

Lemma ip_fill_written ip rest :
  ip_fill (List.length ip) (ip_mask ip) (ip_data ip ++ rest)
  = inr (ip, rest).
Proof.
  induction ip as [|b ip IH]; [reflexivity|].
  cbn [List.length ip_mask ip_data ip_fill filter].
  destruct (Z.eqb_spec (byte_val b) 0) as [Hz|Hnz]; cbn [negb].
  - replace (Z.odd (0 + 2 * ip_mask ip)) with false
      by (rewrite Z.add_0_l, Z.odd_mul; reflexivity).
    replace (Z.div2 (0 + 2 * ip_mask ip)) with (ip_mask ip)
      by (rewrite Z.add_0_l, Z.div2_div, Z.mul_comm, Z.div_mul by lia;
          reflexivity).
    unfold rbind. fold (ip_data ip). rewrite IH. unfold rret, ret.
    rewrite <- (u8_byte_val b), Hz. reflexivity.
  - replace (Z.odd (1 + 2 * ip_mask ip)) with true
      by (rewrite Z.odd_add_mul_2; reflexivity).
    replace (Z.div2 (1 + 2 * ip_mask ip)) with (ip_mask ip)
      by (rewrite Z.div2_div;
          apply (Z.div_unique _ 2 _ 1); lia).
    cbn [app]. unfold rbind at 1. unfold readU8, ret.
    unfold rbind. fold (ip_data ip). rewrite IH. unfold rret, ret.
    rewrite u8_byte_val. reflexivity.
Qed.

Lemma length_ip_data ip : (List.length (ip_data ip) <= List.length ip)%nat.
Proof. apply filter_length_le. Qed.

Lemma ipRead_ipWrite ip rest :
  List.length ip = 16%nat ->
  ipRead (ipWrite ip ++ rest) = inr (ip, rest)
  /\ len8 (ipWrite ip) = ipSize ip.
Proof.
  intros H16. split.
  - unfold ipRead, ipWrite.
    pose proof (length_ip_data ip) as Hd.
    pose proof (ip_mask_bound ip) as Hm. rewrite H16 in Hm, Hd.
    unfold writeU8. cbn [app]. unfold rbind at 1.
    rewrite readU8_u8 by lia.
    unfold rbind. rewrite <- app_assoc, readU16_writeU16
      by (change (2 ^ Z.of_nat 16) with 65536 in Hm; lia).
    rewrite <- H16. apply ip_fill_written.
  - unfold ipWrite, ipSize, writeU8, writeU16.
    cbn [app]. rewrite !len8_cons. unfold len8. lia.
Qed.

End DictionaryRoundTrip.

(* ===================================================================== *)
(** ** Reading back what was written: the items of a record *)
(* ===================================================================== *)

Section StringFacts.

Lemma substring_split (s : string) : forall n,
  (n <= String.length s)%nat ->
  (substring 0 n s ++ substring n (String.length s - n) s)%string = s.
Proof.
  induction s as [|ch s IH]; intros n Hn.
  - destruct n; reflexivity.
  - destruct n as [|n].
    + cbn [substring String.append String.length Nat.sub].
      f_equal. specialize (IH O (Nat.le_0_l _)).
      rewrite Nat.sub_0_r in IH.
      destruct s; [reflexivity|]. cbn [substring String.append] in IH.
      exact IH.
    + cbn [substring String.append String.length Nat.sub].
      f_equal. apply IH. simpl in Hn. lia.
Qed.

Lemma endsWith_slice (s t : string) :
  JS.endsWith s t = true ->
  (JS.slice_to_minus (String.length t) s ++ t)%string = s.
Proof.
  unfold JS.endsWith, JS.slice_to_minus. intros H.
  apply andb_true_iff in H. destruct H as [Hl He].
  apply Nat.leb_le in Hl. apply String.eqb_eq in He.
  assert (Hn : (String.length s - String.length t <= String.length s)%nat)
    by lia.
  pose proof (substring_split s Hn) as Hsp.
  replace (String.length s - (String.length s - String.length t))%nat
    with (String.length t) in Hsp by lia.
  rewrite He in Hsp. exact Hsp.
Qed.

End StringFacts.

Section HexFacts.
Import Spec.

Lemma lower_hex_digit_value c :
  is_lower_hex_digit c = true ->
  exists v, Enc.hex_value c = Some v /\ 0 <= v < 16 /\ Enc.hex_digit v = c.
Proof.
  destruct c as [[] [] [] [] [] [] [] []]; intros H;
    try discriminate H; eexists; (split; [vm_compute; reflexivity|]);
    (split; [lia|reflexivity]).
Qed.

Lemma u8_hex_pair h l :
  0 <= h < 16 -> 0 <= l < 16 ->
  byte_val (u8 (16 * h + l)) / 16 = h /\
  byte_val (u8 (16 * h + l)) mod 16 = l.
Proof.
  intros Hh Hl. rewrite byte_val_u8, Z.mod_small by lia. split.
  - symmetry. apply (Z.div_unique _ 16 _ l); lia.
  - symmetry. apply (Z.mod_unique _ 16 h); lia.
Qed.

Lemma hex_bytes_lower_hex (s : string) :
  (lower_hex s = true ->
   Enc.hex_string (Enc.hex_bytes s) = s /\
   List.length (Enc.hex_bytes s) = Nat.div2 (String.length s))
  /\ (forall c, lower_hex (String c s) = true ->
      Enc.hex_string (Enc.hex_bytes (String c s)) = String c s /\
      List.length (Enc.hex_bytes (String c s))
      = Nat.div2 (String.length (String c s))).
Proof.
  induction s as [|c2 s [IH1 IH2]].
  - split; [intros _; split; reflexivity|]. intros c H. discriminate H.
  - split; [intros H; apply IH2, H|].
    intros c1 H. cbn [lower_hex] in H.
    apply andb_true_iff in H. destruct H as [H Hs].
    apply andb_true_iff in H. destruct H as [H1 H2].
    destruct (lower_hex_digit_value _ H1) as [h [Eh [Rh Dh]]].
    destruct (lower_hex_digit_value _ H2) as [l [El [Rl Dl]]].
    destruct (IH1 Hs) as [Es Ls].
    cbn [Enc.hex_bytes]. rewrite Eh, El.
    cbn [Enc.hex_string List.length String.length Nat.div2].
    destruct (u8_hex_pair Rh Rl) as [-> ->].
    rewrite Dh, Dl, Es, Ls. split; reflexivity.
Qed.

(** A string of hexadecimal digits written with [writeString(s,
    'hex')] and read with [readString('hex', n)] is the same string. *)
Lemma write_hex_lower_hex s :
  lower_hex s = true ->
  Enc.hex_string (Enc.write_hex s) = s /\
  List.length (Enc.write_hex s) = Nat.div2 (String.length s).
Proof.
  intros H. destruct (hex_bytes_lower_hex s) as [[E L] _]; [exact H|].
  unfold Enc.write_hex. rewrite L, Nat.sub_diag. simpl repeat.
  rewrite app_nil_r. split; assumption.
Qed.

Lemma ushr_1_length s :
  (String.length s <= 510)%nat ->
  JS.ushr (slen s) 1 = Z.of_nat (Nat.div2 (String.length s)).
Proof.
  intros H. unfold JS.ushr, JS.toUint32, slen.
  rewrite Z.mod_small by lia.
  change (1 mod 32) with 1. rewrite Z.shiftr_div_pow2 by lia.
  change (2 ^ 1) with 2.
  rewrite Nat.div2_div, Nat2Z.inj_div. reflexivity.
Qed.

End HexFacts.

(** Evaluates the comparisons between tag constants. *)
Ltac tags :=
  cbv [rtypes.INET4 rtypes.INET6 rtypes.ONION rtypes.ONIONNG rtypes.INAME
       rtypes.HNAME rtypes.CANONICAL rtypes.DELEGATE rtypes.NS
       rtypes.SERVICE rtypes.URL rtypes.EMAIL rtypes.TEXT rtypes.LOCATION
       rtypes.MAGNET rtypes.DS rtypes.TLS rtypes.SSH rtypes.PGP rtypes.ADDR
       Z.eqb Pos.eqb orb].

Section Ranges.
Import Spec.

Lemma in_u8_inv v : in_u8 v = true -> 0 <= v < 256.
Proof. unfold in_u8. intros H. apply andb_true_iff in H. lia. Qed.

Lemma in_u16_inv v : in_u16 v = true -> 0 <= v < 65536.
Proof. unfold in_u16. intros H. apply andb_true_iff in H. lia. Qed.

Lemma in_u32_inv v : in_u32 v = true -> 0 <= v < 4294967296.
Proof. unfold in_u32. intros H. apply andb_true_iff in H. lia. Qed.

Lemma short_inv bs : short bs = true -> (List.length bs <= 255)%nat.
Proof. unfold short. intros H. apply Nat.leb_le in H. exact H. Qed.

Lemma short_str_inv s : short_str s = true -> (String.length s <= 255)%nat.
Proof. unfold short_str. intros H. apply Nat.leb_le in H. exact H. Qed.

Lemma normal_form_inv parsed n print s :
  normal_form parsed n print s = true ->
  exists bs, parsed = inr bs /\ List.length bs = n /\ print bs = inr s.
Proof.
  unfold normal_form. destruct parsed as [e|bs]; [discriminate|].
  intros H. apply andb_true_iff in H. destruct H as [Hl Hp].
  apply Nat.eqb_eq in Hl.
  destruct (print bs) as [e|s'] eqn:Ep; [discriminate|].
  apply String.eqb_eq in Hp. subst s'. exists bs.
  repeat split; assumption.
Qed.

End Ranges.

(** Splits a conjunction of boolean checks into its parts. *)
Ltac split_checks H :=
  repeat match type of H with
         | (_ && _) = true =>
             let H1 := fresh H in
             apply andb_true_iff in H; destruct H as [H H1]
         end.

Section Targets.
Context {W : Collaborators}.
Import Bufio HSKRecord Spec.
Variable c : Compress.Compressor.
Hypothesis Hc : table_ok c.

Lemma readBytes_exact n (bs rest : list byte) :
  List.length bs = n ->
  readBytes (Z.of_nat n) (bs ++ rest) = inr (bs, rest).
Proof. intros <-. apply readBytes_app. Qed.

(** The body of a target in normal form: it can be written, in the
    size announced, and is read back as the same text. *)
Lemma target_body (x : Target.t) :
  target_ok x = true ->
  (Target.type x = 1 \/ Target.type x = 2 \/ Target.type x = 3
   \/ Target.type x = 5 \/ Target.type x = 6 \/ Target.type x = 7)
  /\ exists body,
      writeTarget (Target.type x) (Target.target x) c = inr body
      /\ sizeTarget (Target.type x) (Target.target x) c = inr (len8 body)
      /\ forall rest,
          readTarget (Target.type x) c (body ++ rest)
          = inr (Target.target x, rest).
Proof.
  destruct x as [ty tg]. unfold target_ok.
  cbn [Target.type Target.target].
  destruct (Z.eqb_spec ty rtypes.INET4) as [->|N1].
  { intros H. apply normal_form_inv in H. destruct H as (ip & Hd & Hl & He).
    split; [tauto|]. exists ip.
    unfold writeTarget, sizeTarget, readTarget. tags.
    rewrite Hd. unfold bind, assert, len8. rewrite Hl.
    repeat split. intros rest. unfold rbind.
    rewrite (readBytes_exact (n := 4)) by assumption.
    unfold rlift. rewrite He. reflexivity. }
  destruct (Z.eqb_spec ty rtypes.INET6) as [->|N2].
  { intros H. apply normal_form_inv in H. destruct H as (ip & Hd & Hl & He).
    split; [tauto|]. exists (Compress.ipWrite ip).
    destruct (ipRead_ipWrite ip) with (rest := @nil byte) as [_ Hsz];
      [assumption|].
    unfold writeTarget, sizeTarget, readTarget. tags.
    rewrite Hd. unfold bind, assert, len8 at 1. rewrite Hl.
    cbn [Z.of_nat Pos.of_succ_nat Pos.succ Z.eqb Pos.eqb].
    rewrite Hsz. repeat split. intros rest. unfold rbind.
    destruct (ipRead_ipWrite ip rest Hl) as [-> _].
    unfold rlift. rewrite He. reflexivity. }
  destruct (Z.eqb_spec ty rtypes.ONION) as [->|N3].
  { intros H. apply normal_form_inv in H. destruct H as (on & Hd & Hl & He).
    split; [tauto|]. exists on.
    unfold writeTarget, sizeTarget, readTarget. tags.
    rewrite Hd. unfold bind, len8. rewrite Hl.
    repeat split. intros rest. unfold rbind.
    rewrite (readBytes_exact (n := 10)) by assumption.
    unfold rlift. rewrite He. reflexivity. }
  destruct (Z.eqb_spec ty rtypes.ONIONNG) as [->|N4].
  { intros H. apply normal_form_inv in H. destruct H as (on & Hd & Hl & He).
    split; [tauto|]. exists on.
    unfold writeTarget, sizeTarget, readTarget. tags.
    rewrite Hd. unfold bind, len8. rewrite Hl.
    repeat split. intros rest. unfold rbind.
    rewrite (readBytes_exact (n := 33)) by assumption.
    unfold rlift. rewrite He. reflexivity. }
  destruct (Z.eqb_spec ty rtypes.INAME) as [->|N5].
  { intros H. split_checks H.
    apply short_str_inv in H0. apply endsWith_slice in H.
    destruct (@write_ok c _ H0) as (b & Hw & Hsz).
    split; [tauto|]. exists b.
    unfold writeTarget, sizeTarget, readTarget. tags.
    fold ICANN. fold ICANNP.
    rewrite Hw, Hsz. repeat split. intros rest. unfold rbind.
    rewrite (@read_write c _ _ rest Hc Hw). unfold rret, ret. rewrite H.
    reflexivity. }
  destruct (Z.eqb_spec ty rtypes.HNAME) as [->|N6].
  { intros H. split_checks H.
    apply short_str_inv in H0. apply endsWith_slice in H.
    destruct (@write_ok c _ H0) as (b & Hw & Hsz).
    split; [tauto|]. exists b.
    unfold writeTarget, sizeTarget, readTarget. tags.
    fold HSK. fold HSKP.
    rewrite Hw, Hsz. repeat split. intros rest. unfold rbind.
    rewrite (@read_write c _ _ rest Hc Hw). unfold rret, ret. rewrite H.
    reflexivity. }
  discriminate.
Qed.

End Targets.

(** One bind of a reader, resolved by a read-back lemma. *)
Ltac rd lem :=
  unfold Bufio.rbind at 1;
  rewrite lem by first [ lia | unfold len8, slen; lia | assumption ];
  cbv beta iota.

Section Leaves.
Context {W : Collaborators}.
Import Bufio HSKRecord Spec.
Variable c : Compress.Compressor.
Hypothesis Hc : table_ok c.

Lemma readU8_writeU8_small v rest :
  0 <= v < 256 -> readU8 (writeU8 v ++ rest) = inr (v, rest).
Proof. intros H. rewrite readU8_writeU8, Z.mod_small by lia. reflexivity. Qed.

Lemma rret_eq A (a : A) bs : rret a bs = inr (a, bs).
Proof. reflexivity. Qed.

Lemma Target_written (x : Target.t) :
  target_ok x = true ->
  exists b,
    Target.toWriter x c = inr b
    /\ Target.getSize x c = inr (len8 b)
    /\ forall rest, Target.fromReader c (b ++ rest) = inr (x, rest).
Proof.
  intros H. destruct (target_body Hc x H) as [Hty (body & Hw & Hs & Hr)].
  exists (writeU8 (Target.type x) ++ body).
  unfold Target.toWriter, Target.getSize. rewrite Hw, Hs.
  repeat split.
  - unfold bind, ret, writeU8. cbn [app]. rewrite len8_cons. reflexivity.
  - intros rest. unfold Target.fromReader. rewrite <- app_assoc.
    rd readU8_writeU8_small. rd Hr. destruct x; reflexivity.
Qed.

Lemma SSH_written (x : SSH.t) rest :
  ssh_ok x = true ->
  SSH.getSize x = len8 (SSH.toWriter x)
  /\ SSH.fromReader (SSH.toWriter x ++ rest) = inr (x, rest).
Proof.
  unfold ssh_ok. intros H. split_checks H.
  apply in_u8_inv in H, H1. apply short_inv in H0.
  destruct x as [a ty fp]. cbn [SSH.algorithm SSH.type SSH.fingerprint] in *.
  unfold SSH.getSize, SSH.toWriter, SSH.fromReader, writeBytes.
  cbn [SSH.algorithm SSH.type SSH.fingerprint]. split.
  - rewrite !len8_app. unfold writeU8. rewrite !len8_cons, len8_nil. lia.
  - rewrite <- !app_assoc.
    rd readU8_writeU8_small. rd readU8_writeU8_small.
    rd readU8_writeU8_small. rd readBytes_app. reflexivity.
Qed.

Lemma DS_written (x : DS.t) rest :
  ds_ok x = true ->
  DS.getSize x = len8 (DS.toWriter x)
  /\ DS.fromReader (DS.toWriter x ++ rest) = inr (ds_read_back x, rest).
Proof.
  unfold ds_ok. intros H. split_checks H.
  apply in_u16_inv in H. apply in_u8_inv in H1, H2. apply short_inv in H0.
  destruct x as [k a dt dg].
  cbn [DS.keyTag DS.algorithm DS.digestType DS.digest] in *.
  unfold DS.getSize, DS.toWriter, DS.fromReader, writeBytes, ds_read_back.
  cbn [DS.keyTag DS.algorithm DS.digestType DS.digest]. split.
  - rewrite !len8_app. unfold writeU8, writeU16.
    rewrite !len8_cons, len8_nil. lia.
  - rewrite <- !app_assoc.
    rd readU16BE_writeU16. rd readU8_writeU8_small.
    rd readU8_writeU8_small. rd readU8_writeU8_small.
    rd readBytes_app. reflexivity.
Qed.

Lemma Location_written (x : Location.t) rest :
  location_ok x = true ->
  Location.getSize x = len8 (Location.toWriter x)
  /\ Location.fromReader (Location.toWriter x ++ rest) = inr (x, rest).
Proof.
  unfold location_ok. intros H. split_checks H.
  apply in_u8_inv in H, H3, H4, H5. apply in_u32_inv in H0, H1, H2.
  destruct x as [v s h vp la lo al].
  cbn [Location.version Location.size Location.horizPre Location.vertPre
       Location.latitude Location.longitude Location.altitude] in *.
  unfold Location.getSize, Location.toWriter, Location.fromReader.
  cbn [Location.version Location.size Location.horizPre Location.vertPre
       Location.latitude Location.longitude Location.altitude]. split.
  - reflexivity.
  - rewrite <- !app_assoc.
    rd readU8_writeU8_small. rd readU8_writeU8_small.
    rd readU8_writeU8_small. rd readU8_writeU8_small.
    rd readU32_writeU32. rd readU32_writeU32. rd readU32_writeU32.
    reflexivity.
Qed.

Lemma Extra_written (x : Extra.t) rest :
  extra_ok x = true ->
  Extra.getSize x = len8 (Extra.toWriter x)
  /\ Extra.fromReader (Extra.toWriter x ++ rest) = inr (x, rest).
Proof.
  unfold extra_ok. intros H. split_checks H.
  apply in_u8_inv in H. apply short_inv in H0.
  destruct x as [ty dt]. cbn [Extra.type Extra.data] in *.
  unfold Extra.getSize, Extra.toWriter, Extra.fromReader, writeBytes.
  cbn [Extra.type Extra.data]. split.
  - rewrite !len8_app. unfold writeU8. rewrite !len8_cons, len8_nil. lia.
  - rewrite <- !app_assoc.
    rd readU8_writeU8_small. rd readU8_writeU8_small.
    rd readBytes_app. reflexivity.
Qed.

Lemma TLS_written (x : TLS.t) :
  tls_ok x = true ->
  exists b,
    TLS.toWriter x c = inr b
    /\ TLS.getSize x c = len8 b
    /\ forall rest, TLS.fromReader c (b ++ rest) = inr (x, rest).
Proof.
  unfold tls_ok. intros H. split_checks H.
  apply short_str_inv in H. apply in_u16_inv in H4.
  apply in_u8_inv in H1, H2, H3. apply short_inv in H0.
  destruct x as [p po u s m cert].
  cbn [TLS.protocol TLS.port TLS.usage TLS.selector TLS.matchingType
       TLS.certificate] in *.
  destruct (@write_ok c _ H) as (b & Hw & Hsz).
  unfold TLS.getSize, TLS.toWriter, TLS.fromReader, writeBytes.
  cbn [TLS.protocol TLS.port TLS.usage TLS.selector TLS.matchingType
       TLS.certificate].
  rewrite Hw. unfold bind, ret. eexists. split; [reflexivity|]. split.
  - rewrite !len8_app, Hsz. unfold writeU8, writeU16.
    rewrite !len8_cons, len8_nil. lia.
  - intros rest. rewrite <- !app_assoc.
    rd (@read_write c p b). rd readU16_writeU16.
    rd readU8_writeU8_small. rd readU8_writeU8_small.
    rd readU8_writeU8_small. rd readU8_writeU8_small.
    rd readBytes_app. reflexivity.
Qed.

Lemma Magnet_written (x : Magnet.t) :
  magnet_ok x = true ->
  exists b,
    Magnet.toWriter x c = inr b
    /\ Magnet.getSize x c = len8 b
    /\ forall rest, Magnet.fromReader c (b ++ rest) = inr (x, rest).
Proof.
  unfold magnet_ok. intros H. split_checks H.
  apply short_str_inv in H. apply Nat.leb_le in H0.
  destruct x as [id n]. cbn [Magnet.nid Magnet.nin] in *.
  destruct (write_hex_lower_hex n H1) as [Hhex Hlen].
  destruct (@write_ok c _ H) as (b & Hw & Hsz).
  assert (Hd : (Nat.div2 (String.length n) <= 255)%nat).
  { rewrite Nat.div2_div. apply Nat.Div0.div_le_upper_bound. lia. }
  unfold Magnet.getSize, Magnet.toWriter, Magnet.fromReader.
  cbn [Magnet.nid Magnet.nin].
  rewrite Hw, (ushr_1_length n H0), <- Hlen. unfold bind, ret.
  fold (len8 (Enc.write_hex n)).
  eexists. split; [reflexivity|]. split.
  - rewrite !len8_app, Hsz. unfold writeU8. rewrite len8_cons, len8_nil.
    lia.
  - intros rest. rewrite <- !app_assoc.
    rd (@read_write c id b).
    rd readU8_writeU8_small. rd readBytes_app.
    rewrite rret_eq, Hhex. reflexivity.
Qed.

End Leaves.

Section AddrByte.
Import Spec.

Lemma addr_byte_all :
  forallb (fun h => addr_byte_check 0 h && addr_byte_check 64 h)
          (map Z.of_nat (seq 0 64)) = true.
Proof. vm_compute. reflexivity. Qed.

Lemma addr_byte (mid h : Z) :
  mid = 0 \/ mid = 64 -> 0 <= h <= 63 -> addr_byte_check mid h = true.
Proof.
  intros Hm Hh.
  pose proof addr_byte_all as Hall. rewrite forallb_forall in Hall.
  specialize (Hall h).
  assert (Hin : In h (map Z.of_nat (seq 0 64))).
  { apply in_map_iff. exists (Z.to_nat h). split; [lia|].
    apply in_seq. lia. }
  apply Hall in Hin. apply andb_true_iff in Hin.
  destruct Hm as [-> | ->]; tauto.
Qed.

End AddrByte.

Section Leaves2.
Context {W : Collaborators}.
Import Bufio HSKRecord Spec.
Variable c : Compress.Compressor.
Hypothesis Hc : table_ok c.

Lemma Service_written (x : Service.t) :
  service_ok x = true ->
  exists b,
    Service.toWriter x c = inr b
    /\ Service.getSize x c = inr (len8 b)
    /\ forall rest, Service.fromReader c (b ++ rest) = inr (x, rest).
Proof.
  unfold service_ok. intros H. split_checks H.
  apply short_str_inv in H, H4. apply in_u8_inv in H2, H3.
  apply in_u16_inv in H0.
  destruct x as [sv p pr w tg po].
  cbn [Service.service Service.protocol Service.priority Service.weight
       Service.target Service.port] in *.
  destruct (@write_ok c _ H) as (bs & Hws & Hss).
  destruct (@write_ok c _ H4) as (bp & Hwp & Hsp).
  destruct (Target_written Hc tg H1) as (bt & Hwt & Hst & Hrt).
  unfold Service.getSize, Service.toWriter, Service.fromReader.
  cbn [Service.service Service.protocol Service.priority Service.weight
       Service.target Service.port].
  rewrite Hws, Hwp, Hwt, Hst. unfold bind, ret.
  eexists. split; [reflexivity|]. split.
  - rewrite !len8_app, Hss, Hsp. unfold writeU8, writeU16.
    rewrite !len8_cons, len8_nil. f_equal. lia.
  - intros rest. rewrite <- !app_assoc.
    rd (@read_write c sv bs). rd (@read_write c p bp).
    rd readU8_writeU8_small. rd readU8_writeU8_small.
    rd Hrt. rd readU16_writeU16. reflexivity.
Qed.

Lemma Addr_written (x : Addr.t) :
  addr_ok x = true ->
  exists b,
    Addr.toWriter x c = inr b
    /\ Addr.getSize x c = inr (len8 b)
    /\ forall rest, Addr.fromReader c (b ++ rest) = inr (x, rest).
Proof.
  unfold addr_ok. intros H.
  apply andb_true_iff in H. destruct H as [Hcur H].
  destruct x as [cur a]. cbn [Addr.currency Addr.address] in *.
  apply String.eqb_eq in Hcur. subst cur.
  destruct (Address_fromString a) as [e | [version hash]] eqn:Ea;
    [discriminate|].
  apply andb_true_iff in H. destruct H as [H Hprint].
  apply andb_true_iff in H. destruct H as [H0 H1].
  apply in_u8_inv in H0. apply Nat.leb_le in H1.
  set (net := if Addr.starts_with_t a then "testnet" else "main") in *.
  destruct (Address_toString version hash net) as [e|s] eqn:Es;
    [discriminate|].
  apply String.eqb_eq in Hprint. subst s.
  set (mid := if Addr.starts_with_t a then 64 else 0).
  assert (Hmid : mid = 0 \/ mid = 64)
    by (unfold mid; destruct (Addr.starts_with_t a); auto).
  assert (Hh : 0 <= len8 hash <= 63) by (unfold len8; lia).
  pose proof (addr_byte Hmid Hh) as Hb. unfold addr_byte_check in Hb.
  cbv zeta in Hb.
  apply andb_true_iff in Hb. destruct Hb as [Hb Hb63].
  apply andb_true_iff in Hb. destruct Hb as [Hb Hb64].
  apply andb_true_iff in Hb. destruct Hb as [Hb Hb128].
  apply andb_true_iff in Hb. destruct Hb as [Hlo Hhi].
  apply Z.leb_le in Hlo. apply Z.ltb_lt in Hhi.
  apply Z.eqb_eq in Hb63, Hb64. apply negb_true_iff in Hb128.
  unfold Addr.getSize, Addr.toWriter, Addr.fromReader.
  cbn [Addr.currency Addr.address String.eqb Ascii.eqb Bool.eqb andb].
  rewrite Ea. unfold bind, ret. fold mid.
  eexists. split; [reflexivity|]. split.
  - rewrite !len8_app. unfold writeU8, writeBytes.
    rewrite !len8_cons, len8_nil. f_equal. lia.
  - intros rest. rewrite <- !app_assoc.
    rd readU8_writeU8_small. cbv zeta.
    rewrite Hb128, Hb64, Hb63. cbn [negb].
    rd readU8_writeU8_small. unfold writeBytes. rd readBytes_app.
    replace (if negb (mid =? 0) then "testnet" else "main") with net
      by (unfold net, mid; destruct (Addr.starts_with_t a); reflexivity).
    unfold rbind, rlift. rewrite Es. reflexivity.
Qed.

End Leaves2.

(* ===================================================================== *)
(** ** Reading back what was written: the reader loop *)
(* ===================================================================== *)

Section Steps.
Context {W : Collaborators}.
Import Bufio HSKRecord Spec.
Variable c : Compress.Compressor.
Hypothesis Hc : table_ok c.

Lemma reaches_trans st1 st2 st3 :
  reaches c st1 st2 -> reaches c st2 st3 -> reaches c st1 st3.
Proof.
  induction 1 as [|r bs r1 bs1 st Hs Hr IH]; [auto|].
  intros H. eapply reaches_turn; [exact Hs|]. apply IH, H.
Qed.

(** A list of items: written one after the other, read by as many
    turns of the loop. *)
Lemma segment A (w : A -> result (list byte)) (sz : A -> result Z)
    (push : A -> t -> t) (xs : list A) :
  Forall (item_ok c w sz push) xs ->
  exists bs,
    writeAll w xs = inr bs /\ sumM sz xs = inr (len8 bs)
    /\ forall r rest,
        reaches c (r, bs ++ rest)
          (fold_left (fun r x => push x r) xs r, rest).
Proof.
  induction 1 as [|x xs (b & Hw & Hs & Hstep) _ (bs & Hws & Hss & Hr)].
  - exists []. repeat split. intros r rest. apply reaches_here.
  - exists (b ++ bs). cbn [writeAll sumM fold_left].
    rewrite Hw, Hs, Hws, Hss. unfold bind, ret.
    rewrite len8_app. repeat split.
    intros r rest. rewrite <- app_assoc.
    eapply reaches_turn; [apply Hstep|]. apply Hr.
Qed.

Lemma Forall_forallb A (ok : A -> bool) (P : A -> Prop) xs :
  (forall x, ok x = true -> P x) -> forallb ok xs = true -> Forall P xs.
Proof.
  intros H Hall. rewrite forallb_forall in Hall.
  apply Forall_forall. intros x Hx. apply H, Hall, Hx.
Qed.

Lemma byte_val_tag tag : 0 <= tag < 256 -> byte_val (u8 tag) = tag.
Proof. intros H. rewrite byte_val_u8. apply Z.mod_small, H. Qed.

(** An item behind a tag byte: the writer's bytes, their count, and
    the turn of the loop that reads them. *)
Lemma tagged_item A (tag : Z) (b : list byte) (x : A)
    (rdr : reader A) (push : A -> t -> t) :
  0 <= tag < 256 ->
  (forall r bs, readItem c r tag bs
                = rbind rdr (fun y => rret (push y r)) bs) ->
  (forall rest, rdr (b ++ rest) = inr (x, rest)) ->
  tagged tag (inr b) = inr (writeU8 tag ++ b)
  /\ len8 (writeU8 tag ++ b) = 1 + len8 b
  /\ forall r rest,
      step c r ((writeU8 tag ++ b) ++ rest) = inr (push x r, rest).
Proof.
  intros Htag Hitem Hrd. repeat split.
  - unfold writeU8. cbn [app]. apply len8_cons.
  - intros r rest. unfold writeU8. cbn [app].
    rewrite step_cons, byte_val_tag, Hitem by assumption.
    unfold rbind. rewrite Hrd. reflexivity.
Qed.

Lemma host_item x :
  host_ok x = true ->
  item_ok c (fun x => Target.toWriter x c) (fun x => Target.getSize x c)
          push_hosts x.
Proof.
  unfold host_ok. intros H. apply andb_true_iff in H.
  destruct H as [Hok Hty]. apply Z.leb_le in Hty.
  destruct (target_body Hc x Hok) as [Hcase (body & Hw & Hs & Hr)].
  exists (writeU8 (Target.type x) ++ body).
  unfold Target.toWriter, Target.getSize. rewrite Hw, Hs.
  unfold bind, ret, writeU8. cbn [app]. rewrite len8_cons.
  repeat split. intros r rest. rewrite step_cons.
  destruct x as [ty tg]. cbn [Target.type Target.target] in *.
  unfold rtypes.ONIONNG in Hty.
  assert (Hty' : ty = 1 \/ ty = 2 \/ ty = 3 \/ ty = 5) by lia.
  destruct Hty' as [-> | [-> | [-> | ->]]];
    (rewrite byte_val_tag by lia; unfold readItem; tags;
     unfold rbind; rewrite Hr; reflexivity).
Qed.

Lemma ns_item x :
  target_ok x = true ->
  item_ok c (fun x => tagged rtypes.NS (Target.toWriter x c))
          (fun x => n <- Target.getSize x c ;; ret (1 + n))
          push_ns x.
Proof.
  intros H. destruct (Target_written Hc x H) as (b & Hw & Hs & Hr).
  destruct (@tagged_item _ rtypes.NS b x (Target.fromReader c) push_ns)
    as (Ht & Hl & Hstep);
    [unfold rtypes.NS; lia | reflexivity | exact Hr |].
  exists (writeU8 rtypes.NS ++ b). rewrite Hw, Hs, Ht, Hl.
  repeat split. exact Hstep.
Qed.

Lemma service_item x :
  service_ok x = true ->
  item_ok c (fun x => tagged rtypes.SERVICE (Service.toWriter x c))
          (fun x => n <- Service.getSize x c ;; ret (1 + n))
          push_service x.
Proof.
  intros H. destruct (Service_written Hc x H) as (b & Hw & Hs & Hr).
  destruct (@tagged_item _ rtypes.SERVICE b x (Service.fromReader c)
              push_service) as (Ht & Hl & Hstep);
    [unfold rtypes.SERVICE; lia | reflexivity | exact Hr |].
  exists (writeU8 rtypes.SERVICE ++ b). rewrite Hw, Hs, Ht, Hl.
  repeat split. exact Hstep.
Qed.

(** [url], [email] and [text]: a compressed string behind its tag. *)
Lemma string_item (tag : Z) (push : string -> t -> t) x :
  0 <= tag < 256 ->
  (forall r bs, readItem c r tag bs
                = rbind (Compress.read c) (fun y => rret (push y r)) bs) ->
  short_str x = true ->
  item_ok c (fun x => tagged tag (Compress.write c x))
          (fun x => ret (1 + Compress.size c x)) push x.
Proof.
  intros Htag Hitem H. apply short_str_inv in H.
  destruct (@write_ok c _ H) as (b & Hw & Hs).
  destruct (@tagged_item _ tag b x (Compress.read c) push)
    as (Ht & Hl & Hstep);
    [assumption | assumption
     | intros rest; apply (@read_write c x b rest Hc Hw) |].
  exists (writeU8 tag ++ b). rewrite Hw, Ht, Hl, Hs.
  repeat split. exact Hstep.
Qed.

Lemma location_item x :
  location_ok x = true ->
  item_ok c (fun x => tagged rtypes.LOCATION (ret (Location.toWriter x)))
          (fun x => ret (1 + Location.getSize x)) push_location x.
Proof.
  intros H.
  destruct (@tagged_item _ rtypes.LOCATION (Location.toWriter x) x
              Location.fromReader push_location) as (Ht & Hl & Hstep);
    [unfold rtypes.LOCATION; lia | reflexivity
     | intros rest; apply (Location_written x rest H) |].
  exists (writeU8 rtypes.LOCATION ++ Location.toWriter x).
  destruct (Location_written x [] H) as [Hs _].
  unfold ret in *. rewrite Ht, Hl, Hs. repeat split. exact Hstep.
Qed.

Lemma magnet_item x :
  magnet_ok x = true ->
  item_ok c (fun x => tagged rtypes.MAGNET (Magnet.toWriter x c))
          (fun x => ret (1 + Magnet.getSize x c)) push_magnet x.
Proof.
  intros H. destruct (Magnet_written Hc x H) as (b & Hw & Hs & Hr).
  destruct (@tagged_item _ rtypes.MAGNET b x (Magnet.fromReader c)
              push_magnet) as (Ht & Hl & Hstep);
    [unfold rtypes.MAGNET; lia | reflexivity | exact Hr |].
  exists (writeU8 rtypes.MAGNET ++ b). rewrite Hw, Hs, Ht, Hl.
  repeat split. exact Hstep.
Qed.

(** A DS item is read back with the bytes of its key tag exchanged. *)
Lemma ds_item x :
  ds_ok x = true ->
  item_ok c (fun x => tagged rtypes.DS (ret (DS.toWriter x)))
          (fun x => ret (1 + DS.getSize x))
          (fun x => push_ds (ds_read_back x)) x.
Proof.
  intros H.
  destruct (@tagged_item _ rtypes.DS (DS.toWriter x) (ds_read_back x)
              DS.fromReader push_ds) as (Ht & Hl & Hstep);
    [unfold rtypes.DS; lia | reflexivity
     | intros rest; apply (DS_written x rest H) |].
  exists (writeU8 rtypes.DS ++ DS.toWriter x).
  destruct (DS_written x [] H) as [Hs _].
  unfold ret in *. rewrite Ht, Hl, Hs. repeat split. exact Hstep.
Qed.

Lemma tls_item x :
  tls_ok x = true ->
  item_ok c (fun x => tagged rtypes.TLS (TLS.toWriter x c))
          (fun x => ret (1 + TLS.getSize x c)) push_tls x.
Proof.
  intros H. destruct (TLS_written Hc x H) as (b & Hw & Hs & Hr).
  destruct (@tagged_item _ rtypes.TLS b x (TLS.fromReader c) push_tls)
    as (Ht & Hl & Hstep);
    [unfold rtypes.TLS; lia | reflexivity | exact Hr |].
  exists (writeU8 rtypes.TLS ++ b). rewrite Hw, Hs, Ht, Hl.
  repeat split. exact Hstep.
Qed.

Lemma ssh_item x :
  ssh_ok x = true ->
  item_ok c (fun x => tagged rtypes.SSH (ret (SSH.toWriter x)))
          (fun x => ret (1 + SSH.getSize x)) push_ssh x.
Proof.
  intros H.
  destruct (@tagged_item _ rtypes.SSH (SSH.toWriter x) x
              SSH.fromReader push_ssh) as (Ht & Hl & Hstep);
    [unfold rtypes.SSH; lia | reflexivity
     | intros rest; apply (SSH_written x rest H) |].
  exists (writeU8 rtypes.SSH ++ SSH.toWriter x).
  destruct (SSH_written x [] H) as [Hs _].
  unfold ret in *. rewrite Ht, Hl, Hs. repeat split. exact Hstep.
Qed.

Lemma pgp_item x :
  ssh_ok x = true ->
  item_ok c (fun x => tagged rtypes.PGP (ret (PGP.toWriter x)))
          (fun x => ret (1 + PGP.getSize x)) push_pgp x.
Proof.
  intros H.
  destruct (@tagged_item _ rtypes.PGP (PGP.toWriter x) x
              PGP.fromReader push_pgp) as (Ht & Hl & Hstep);
    [unfold rtypes.PGP; lia | reflexivity
     | intros rest; apply (SSH_written x rest H) |].
  exists (writeU8 rtypes.PGP ++ PGP.toWriter x).
  destruct (SSH_written x [] H) as [Hs _].
  unfold ret in *. rewrite Ht, Hl, Hs. repeat split. exact Hstep.
Qed.

Lemma addr_item x :
  addr_ok x = true ->
  item_ok c (fun x => tagged rtypes.ADDR (Addr.toWriter x c))
          (fun x => n <- Addr.getSize x c ;; ret (1 + n)) push_addr x.
Proof.
  intros H. destruct (@Addr_written _ c x H) as (b & Hw & Hs & Hr).
  destruct (@tagged_item _ rtypes.ADDR b x (Addr.fromReader c) push_addr)
    as (Ht & Hl & Hstep);
    [unfold rtypes.ADDR; lia | reflexivity | exact Hr |].
  exists (writeU8 rtypes.ADDR ++ b). rewrite Hw, Hs, Ht, Hl.
  repeat split. exact Hstep.
Qed.

Lemma extra_item x :
  extra_ok x = true ->
  item_ok c (fun x => tagged (Extra.type x) (ret (Extra.toWriter x)))
          (fun x => ret (1 + Extra.getSize x)) push_extra x.
Proof.
  intros H. pose proof H as Hok. unfold extra_ok in H.
  apply andb_true_iff in H. destruct H as [H Hshort].
  apply andb_true_iff in H. destruct H as [Hty Hunk].
  apply in_u8_inv in Hty. apply negb_true_iff in Hunk.
  destruct (@tagged_item _ (Extra.type x) (Extra.toWriter x) x
              Extra.fromReader push_extra) as (Ht & Hl & Hstep);
    [assumption
     | intros r bs; apply readItem_unknown, Hunk
     | intros rest; apply (Extra_written x rest Hok) |].
  exists (writeU8 (Extra.type x) ++ Extra.toWriter x).
  destruct (Extra_written x [] Hok) as [Hs _].
  unfold ret in *. rewrite Ht, Hl, Hs. repeat split. exact Hstep.
Qed.

End Steps.

(* ===================================================================== *)
(** ** Reading back what was written: the whole record *)
(* ===================================================================== *)

Section Pushes.
Import HSKRecord Spec.

(** A [for] loop of [push] calls appends the items to one list and
    leaves the other fields alone. *)
Lemma fold_push_hosts xs : forall r,
  fold_left (fun r x => push_hosts x r) xs r =
    mk (version r) (ttl r) (hosts r ++ xs) (canonical r) (delegate r)
      (ns r) (service r) (url r) (email r) (text r) (location r)
      (magnet r) (ds r) (tls r) (ssh r) (pgp r) (addr r) (extra r).
Proof.
  induction xs as [|x xs IH]; intros r; cbn [fold_left].
  - rewrite app_nil_r. destruct r; reflexivity.
  - rewrite IH. destruct r. cbn. rewrite <- app_assoc. reflexivity.
Qed.

Lemma fold_push_ns xs : forall r,
  fold_left (fun r x => push_ns x r) xs r =
    mk (version r) (ttl r) (hosts r) (canonical r) (delegate r)
      (ns r ++ xs) (service r) (url r) (email r) (text r) (location r)
      (magnet r) (ds r) (tls r) (ssh r) (pgp r) (addr r) (extra r).
Proof.
  induction xs as [|x xs IH]; intros r; cbn [fold_left].
  - rewrite app_nil_r. destruct r; reflexivity.
  - rewrite IH. destruct r. cbn. rewrite <- app_assoc. reflexivity.
Qed.

Lemma fold_push_service xs : forall r,
  fold_left (fun r x => push_service x r) xs r =
    mk (version r) (ttl r) (hosts r) (canonical r) (delegate r) (ns r)
      (service r ++ xs) (url r) (email r) (text r) (location r) (magnet r)
      (ds r) (tls r) (ssh r) (pgp r) (addr r) (extra r).
Proof.
  induction xs as [|x xs IH]; intros r; cbn [fold_left].
  - rewrite app_nil_r. destruct r; reflexivity.
  - rewrite IH. destruct r. cbn. rewrite <- app_assoc. reflexivity.
Qed.

Lemma fold_push_url xs : forall r,
  fold_left (fun r x => push_url x r) xs r =
    mk (version r) (ttl r) (hosts r) (canonical r) (delegate r) (ns r)
      (service r) (url r ++ xs) (email r) (text r) (location r) (magnet r)
      (ds r) (tls r) (ssh r) (pgp r) (addr r) (extra r).
Proof.
  induction xs as [|x xs IH]; intros r; cbn [fold_left].
  - rewrite app_nil_r. destruct r; reflexivity.
  - rewrite IH. destruct r. cbn. rewrite <- app_assoc. reflexivity.
Qed.

Lemma fold_push_email xs : forall r,
  fold_left (fun r x => push_email x r) xs r =
    mk (version r) (ttl r) (hosts r) (canonical r) (delegate r) (ns r)
      (service r) (url r) (email r ++ xs) (text r) (location r) (magnet r)
      (ds r) (tls r) (ssh r) (pgp r) (addr r) (extra r).
Proof.
  induction xs as [|x xs IH]; intros r; cbn [fold_left].
  - rewrite app_nil_r. destruct r; reflexivity.
  - rewrite IH. destruct r. cbn. rewrite <- app_assoc. reflexivity.
Qed.

Lemma fold_push_text xs : forall r,
  fold_left (fun r x => push_text x r) xs r =
    mk (version r) (ttl r) (hosts r) (canonical r) (delegate r) (ns r)
      (service r) (url r) (email r) (text r ++ xs) (location r) (magnet r)
      (ds r) (tls r) (ssh r) (pgp r) (addr r) (extra r).
Proof.
  induction xs as [|x xs IH]; intros r; cbn [fold_left].
  - rewrite app_nil_r. destruct r; reflexivity.
  - rewrite IH. destruct r. cbn. rewrite <- app_assoc. reflexivity.
Qed.

Lemma fold_push_location xs : forall r,
  fold_left (fun r x => push_location x r) xs r =
    mk (version r) (ttl r) (hosts r) (canonical r) (delegate r) (ns r)
      (service r) (url r) (email r) (text r) (location r ++ xs) (magnet r)
      (ds r) (tls r) (ssh r) (pgp r) (addr r) (extra r).
Proof.
  induction xs as [|x xs IH]; intros r; cbn [fold_left].
  - rewrite app_nil_r. destruct r; reflexivity.
  - rewrite IH. destruct r. cbn. rewrite <- app_assoc. reflexivity.
Qed.

Lemma fold_push_magnet xs : forall r,
  fold_left (fun r x => push_magnet x r) xs r =
    mk (version r) (ttl r) (hosts r) (canonical r) (delegate r) (ns r)
      (service r) (url r) (email r) (text r) (location r) (magnet r ++ xs)
      (ds r) (tls r) (ssh r) (pgp r) (addr r) (extra r).
Proof.
  induction xs as [|x xs IH]; intros r; cbn [fold_left].
  - rewrite app_nil_r. destruct r; reflexivity.
  - rewrite IH. destruct r. cbn. rewrite <- app_assoc. reflexivity.
Qed.

Lemma fold_push_tls xs : forall r,
  fold_left (fun r x => push_tls x r) xs r =
    mk (version r) (ttl r) (hosts r) (canonical r) (delegate r) (ns r)
      (service r) (url r) (email r) (text r) (location r) (magnet r)
      (ds r) (tls r ++ xs) (ssh r) (pgp r) (addr r) (extra r).
Proof.
  induction xs as [|x xs IH]; intros r; cbn [fold_left].
  - rewrite app_nil_r. destruct r; reflexivity.
  - rewrite IH. destruct r. cbn. rewrite <- app_assoc. reflexivity.
Qed.

Lemma fold_push_ssh xs : forall r,
  fold_left (fun r x => push_ssh x r) xs r =
    mk (version r) (ttl r) (hosts r) (canonical r) (delegate r) (ns r)
      (service r) (url r) (email r) (text r) (location r) (magnet r)
      (ds r) (tls r) (ssh r ++ xs) (pgp r) (addr r) (extra r).
Proof.
  induction xs as [|x xs IH]; intros r; cbn [fold_left].
  - rewrite app_nil_r. destruct r; reflexivity.
  - rewrite IH. destruct r. cbn. rewrite <- app_assoc. reflexivity.
Qed.

Lemma fold_push_pgp xs : forall r,
  fold_left (fun r x => push_pgp x r) xs r =
    mk (version r) (ttl r) (hosts r) (canonical r) (delegate r) (ns r)
      (service r) (url r) (email r) (text r) (location r) (magnet r)
      (ds r) (tls r) (ssh r) (pgp r ++ xs) (addr r) (extra r).
Proof.
  induction xs as [|x xs IH]; intros r; cbn [fold_left].
  - rewrite app_nil_r. destruct r; reflexivity.
  - rewrite IH. destruct r. cbn. rewrite <- app_assoc. reflexivity.
Qed.

Lemma fold_push_addr xs : forall r,
  fold_left (fun r x => push_addr x r) xs r =
    mk (version r) (ttl r) (hosts r) (canonical r) (delegate r) (ns r)
      (service r) (url r) (email r) (text r) (location r) (magnet r)
      (ds r) (tls r) (ssh r) (pgp r) (addr r ++ xs) (extra r).
Proof.
  induction xs as [|x xs IH]; intros r; cbn [fold_left].
  - rewrite app_nil_r. destruct r; reflexivity.
  - rewrite IH. destruct r. cbn. rewrite <- app_assoc. reflexivity.
Qed.

Lemma fold_push_extra xs : forall r,
  fold_left (fun r x => push_extra x r) xs r =
    mk (version r) (ttl r) (hosts r) (canonical r) (delegate r) (ns r)
      (service r) (url r) (email r) (text r) (location r) (magnet r)
      (ds r) (tls r) (ssh r) (pgp r) (addr r) (extra r ++ xs).
Proof.
  induction xs as [|x xs IH]; intros r; cbn [fold_left].
  - rewrite app_nil_r. destruct r; reflexivity.
  - rewrite IH. destruct r. cbn. rewrite <- app_assoc. reflexivity.
Qed.

Lemma fold_push_ds xs : forall r,
  fold_left (fun r x => push_ds (ds_read_back x) r) xs r =
    mk (version r) (ttl r) (hosts r) (canonical r) (delegate r) (ns r)
      (service r) (url r) (email r) (text r) (location r) (magnet r)
      (ds r ++ map ds_read_back xs) (tls r) (ssh r) (pgp r) (addr r)
      (extra r).
Proof.
  induction xs as [|x xs IH]; intros r; cbn [fold_left map].
  - rewrite app_nil_r. destruct r; reflexivity.
  - rewrite IH. destruct r. cbn. rewrite <- app_assoc. reflexivity.
Qed.

End Pushes.

Section RoundTrip.
Context {W : Collaborators}.
Import Bufio HSKRecord Spec.

Lemma table_ok_compressTarget ty tg c :
  table_ok c -> table_ok (compressTarget ty tg c).
Proof.
  intros H. unfold compressTarget.
  destruct (ty =? rtypes.INAME); [apply table_ok_add, H|].
  destruct (ty =? rtypes.HNAME); [apply table_ok_add, H|exact H].
Qed.

(** The dictionary learnt from a record fits its section. *)
Lemma table_ok_compress r : table_ok (compress r).
Proof.
  unfold compress. cbv zeta.
  repeat first
    [ apply table_ok_fold;
      [ intros ? ? ?;
        first [ assumption
              | apply table_ok_compressTarget; assumption
              | apply table_ok_add; assumption
              | apply table_ok_add, table_ok_add; assumption ] | ]
    | match goal with
      | |- table_ok (match ?o with Some _ => _ | None => _ end) =>
          destruct o; [apply table_ok_compressTarget|]
      end
    | apply table_ok_empty ].
Qed.

Lemma len8_concat_entries c :
  len8 (List.concat (map Compress.entry_bytes c))
  = fold_right (fun s acc => 1 + Z.of_nat (String.length s) + acc) 0 c.
Proof.
  induction c as [|s c IH]; [reflexivity|].
  cbn [map List.concat fold_right]. rewrite len8_app, IH.
  unfold Compress.entry_bytes, writeU8. cbn [app].
  rewrite len8_cons, len8_ascii_bytes. unfold slen. lia.
Qed.

Lemma getSize_toWriter c :
  Compress.getSize c = len8 (Compress.toWriter c).
Proof.
  unfold Compress.getSize, Compress.toWriter, writeU8. cbn [app].
  rewrite len8_cons, len8_concat_entries. reflexivity.
Qed.

Lemma readU16_writeU16_low v rest :
  readU16 (writeU16 v ++ rest) = inr (v mod 65536, rest).
Proof.
  unfold readU16, writeU16, ret. cbn [app].
  rewrite !byte_val_u8, Z.shiftr_div_pow2 by lia.
  change (2 ^ 8) with 256. f_equal. f_equal.
  pose proof (Z.div_mod v 256 ltac:(lia)).
  pose proof (Z.div_mod (v / 256) 256 ltac:(lia)).
  pose proof (Z.mod_pos_bound v 256 ltac:(lia)).
  pose proof (Z.mod_pos_bound (v / 256) 256 ltac:(lia)).
  apply (Z.mod_unique _ 65536 (v / 256 / 256)); lia.
Qed.

(** The head of a blob the writer made, as the reader takes it. *)
Lemma header_written r0 c (ttl0 : Z) items :
  table_ok c ->
  header r0 (writeU8 0 ++ writeU16 (JS.ushr ttl0 6)
             ++ Compress.toWriter c ++ items)
  = inr ((set_ttl (ttl_read_back ttl0) r0, c), items).
Proof.
  intros Hc. unfold header.
  rd readU8_writeU8_small. change (negb (0 =? 0)) with false. cbv iota.
  rd readU16_writeU16_low.
  rd (@fromReader_toWriter c items Hc). reflexivity.
Qed.

Section Options.
Variable c : Compress.Compressor.
Hypothesis Hc : table_ok c.

Lemma canonical_item o :
  opt_ok target_ok o = true ->
  exists b,
    writeOpt (fun x => tagged rtypes.CANONICAL (Target.toWriter x c)) o
    = inr b
    /\ optM (fun x => n <- Target.getSize x c ;; ret (1 + n)) o
       = inr (len8 b)
    /\ forall r rest,
        canonical r = None ->
        reaches c (r, b ++ rest) (put_canonical o r, rest).
Proof.
  destruct o as [x|]; cbn [opt_ok writeOpt optM put_canonical].
  - intros H. destruct (Target_written Hc x H) as (b & Hw & Hs & Hr).
    exists (writeU8 rtypes.CANONICAL ++ b). rewrite Hw, Hs.
    unfold tagged, bind, ret, writeU8. cbn [app]. rewrite len8_cons.
    repeat split. intros r rest Hnone.
    eapply reaches_turn; [|apply reaches_here].
    rewrite step_cons. unfold readItem.
    change (byte_val (u8 rtypes.CANONICAL)) with 8. tags.
    unfold rbind, rlift. rewrite Hnone.
    cbv [is_set negb assert ret]. rewrite Hr. reflexivity.
  - intros _. exists []. repeat split. intros. apply reaches_here.
Qed.

Lemma delegate_item o :
  opt_ok target_ok o = true ->
  exists b,
    writeOpt (fun x => tagged rtypes.DELEGATE (Target.toWriter x c)) o
    = inr b
    /\ optM (fun x => n <- Target.getSize x c ;; ret (1 + n)) o
       = inr (len8 b)
    /\ forall r rest,
        delegate r = None ->
        reaches c (r, b ++ rest) (put_delegate o r, rest).
Proof.
  destruct o as [x|]; cbn [opt_ok writeOpt optM put_delegate].
  - intros H. destruct (Target_written Hc x H) as (b & Hw & Hs & Hr).
    exists (writeU8 rtypes.DELEGATE ++ b). rewrite Hw, Hs.
    unfold tagged, bind, ret, writeU8. cbn [app]. rewrite len8_cons.
    repeat split. intros r rest Hnone.
    eapply reaches_turn; [|apply reaches_here].
    rewrite step_cons. unfold readItem.
    change (byte_val (u8 rtypes.DELEGATE)) with 9. tags.
    unfold rbind, rlift. rewrite Hnone.
    cbv [is_set negb assert ret]. rewrite Hr. reflexivity.
  - intros _. exists []. repeat split. intros. apply reaches_here.
Qed.
End Options.

End RoundTrip.

Section Whole.
Context {W : Collaborators}.
Import Bufio HSKRecord Spec.

(** Encoding a record of the class [wire_ok] succeeds, and decoding the
    bytes gives the record back except for two fields: the TTL keeps
    the low 16 bits of [ttl >>> 6], and every DS key tag comes back with
    its two bytes exchanged. *)
Theorem encode_decode (r : t) :
  wire_ok r = true ->
  exists bs, toRaw r = inr bs /\ fromRaw bs = inr (read_back r).
Proof.
  intros Hok. unfold wire_ok in Hok.
  apply andb_true_iff in Hok. destruct Hok as [Hok Hextra].
  apply andb_true_iff in Hok. destruct Hok as [Hok Haddr].
  apply andb_true_iff in Hok. destruct Hok as [Hok Hpgp].
  apply andb_true_iff in Hok. destruct Hok as [Hok Hssh].
  apply andb_true_iff in Hok. destruct Hok as [Hok Htls].
  apply andb_true_iff in Hok. destruct Hok as [Hok Hds].
  apply andb_true_iff in Hok. destruct Hok as [Hok Hmagnet].
  apply andb_true_iff in Hok. destruct Hok as [Hok Hlocation].
  apply andb_true_iff in Hok. destruct Hok as [Hok Htext].
  apply andb_true_iff in Hok. destruct Hok as [Hok Hemail].
  apply andb_true_iff in Hok. destruct Hok as [Hok Hurl].
  apply andb_true_iff in Hok. destruct Hok as [Hok Hservice].
  apply andb_true_iff in Hok. destruct Hok as [Hok Hns].
  apply andb_true_iff in Hok. destruct Hok as [Hok Hdelegate].
  apply andb_true_iff in Hok. destruct Hok as [Hok Hcanonical].
  apply andb_true_iff in Hok. destruct Hok as [Hok Hhosts].
  apply Z.eqb_eq in Hok.
  set (c := compress r).
  assert (Hc : table_ok c) by apply table_ok_compress.
  assert (Fhosts : Forall (item_ok c
    (fun x => Target.toWriter x c)
    (fun x => Target.getSize x c)
    push_hosts) (hosts r))
    by (eapply Forall_forallb; [|exact Hhosts]; intros;
        apply host_item; assumption).
  apply segment in Fhosts.
  destruct Fhosts as (b_hosts & Whosts & Shosts & Rhosts).
  assert (Fns : Forall (item_ok c
    (fun x => tagged rtypes.NS (Target.toWriter x c))
    (fun x => n <- Target.getSize x c ;; ret (1 + n))
    push_ns) (ns r))
    by (eapply Forall_forallb; [|exact Hns]; intros;
        apply ns_item; assumption).
  apply segment in Fns.
  destruct Fns as (b_ns & Wns & Sns & Rns).
  assert (Fservice : Forall (item_ok c
    (fun x => tagged rtypes.SERVICE (Service.toWriter x c))
    (fun x => n <- Service.getSize x c ;; ret (1 + n))
    push_service) (service r))
    by (eapply Forall_forallb; [|exact Hservice]; intros;
        apply service_item; assumption).
  apply segment in Fservice.
  destruct Fservice as (b_service & Wservice & Sservice & Rservice).
  assert (Furl : Forall (item_ok c
    (fun x => tagged rtypes.URL (Compress.write c x))
    (fun x => ret (1 + Compress.size c x))
    push_url) (url r))
    by (eapply Forall_forallb; [|exact Hurl]; intros;
        apply string_item;
        [assumption | unfold rtypes.URL; lia | reflexivity | assumption]).
  apply segment in Furl.
  destruct Furl as (b_url & Wurl & Surl & Rurl).
  assert (Femail : Forall (item_ok c
    (fun x => tagged rtypes.EMAIL (Compress.write c x))
    (fun x => ret (1 + Compress.size c x))
    push_email) (email r))
    by (eapply Forall_forallb; [|exact Hemail]; intros;
        apply string_item;
        [assumption | unfold rtypes.EMAIL; lia | reflexivity | assumption]).
  apply segment in Femail.
  destruct Femail as (b_email & Wemail & Semail & Remail).
  assert (Ftext : Forall (item_ok c
    (fun x => tagged rtypes.TEXT (Compress.write c x))
    (fun x => ret (1 + Compress.size c x))
    push_text) (text r))
    by (eapply Forall_forallb; [|exact Htext]; intros;
        apply string_item;
        [assumption | unfold rtypes.TEXT; lia | reflexivity | assumption]).
  apply segment in Ftext.
  destruct Ftext as (b_text & Wtext & Stext & Rtext).
  assert (Flocation : Forall (item_ok c
    (fun x => tagged rtypes.LOCATION (ret (Location.toWriter x)))
    (fun x => ret (1 + Location.getSize x))
    push_location) (location r))
    by (eapply Forall_forallb; [|exact Hlocation]; intros;
        apply location_item; assumption).
  apply segment in Flocation.
  destruct Flocation as (b_location & Wlocation & Slocation & Rlocation).
  assert (Fmagnet : Forall (item_ok c
    (fun x => tagged rtypes.MAGNET (Magnet.toWriter x c))
    (fun x => ret (1 + Magnet.getSize x c))
    push_magnet) (magnet r))
    by (eapply Forall_forallb; [|exact Hmagnet]; intros;
        apply magnet_item; assumption).
  apply segment in Fmagnet.
  destruct Fmagnet as (b_magnet & Wmagnet & Smagnet & Rmagnet).
  assert (Fds : Forall (item_ok c
    (fun x => tagged rtypes.DS (ret (DS.toWriter x)))
    (fun x => ret (1 + DS.getSize x))
    (fun x => push_ds (ds_read_back x))) (ds r))
    by (eapply Forall_forallb; [|exact Hds]; intros;
        apply ds_item; assumption).
  apply segment in Fds.
  destruct Fds as (b_ds & Wds & Sds & Rds).
  assert (Ftls : Forall (item_ok c
    (fun x => tagged rtypes.TLS (TLS.toWriter x c))
    (fun x => ret (1 + TLS.getSize x c))
    push_tls) (tls r))
    by (eapply Forall_forallb; [|exact Htls]; intros;
        apply tls_item; assumption).
  apply segment in Ftls.
  destruct Ftls as (b_tls & Wtls & Stls & Rtls).
  assert (Fssh : Forall (item_ok c
    (fun x => tagged rtypes.SSH (ret (SSH.toWriter x)))
    (fun x => ret (1 + SSH.getSize x))
    push_ssh) (ssh r))
    by (eapply Forall_forallb; [|exact Hssh]; intros;
        apply ssh_item; assumption).
  apply segment in Fssh.
  destruct Fssh as (b_ssh & Wssh & Sssh & Rssh).
  assert (Fpgp : Forall (item_ok c
    (fun x => tagged rtypes.PGP (ret (PGP.toWriter x)))
    (fun x => ret (1 + PGP.getSize x))
    push_pgp) (pgp r))
    by (eapply Forall_forallb; [|exact Hpgp]; intros;
        apply pgp_item; assumption).
  apply segment in Fpgp.
  destruct Fpgp as (b_pgp & Wpgp & Spgp & Rpgp).
  assert (Faddr : Forall (item_ok c
    (fun x => tagged rtypes.ADDR (Addr.toWriter x c))
    (fun x => n <- Addr.getSize x c ;; ret (1 + n))
    push_addr) (addr r))
    by (eapply Forall_forallb; [|exact Haddr]; intros;
        apply addr_item; assumption).
  apply segment in Faddr.
  destruct Faddr as (b_addr & Waddr & Saddr & Raddr).
  assert (Fextra : Forall (item_ok c
    (fun x => tagged (Extra.type x) (ret (Extra.toWriter x)))
    (fun x => ret (1 + Extra.getSize x))
    push_extra) (extra r))
    by (eapply Forall_forallb; [|exact Hextra]; intros;
        apply extra_item; assumption).
  apply segment in Fextra.
  destruct Fextra as (b_extra & Wextra & Sextra & Rextra).
  destruct (canonical_item Hc (canonical r) Hcanonical)
    as (b_canonical & Wcanonical & Scanonical & Rcanonical).
  destruct (delegate_item Hc (delegate r) Hdelegate)
    as (b_delegate & Wdelegate & Sdelegate & Rdelegate).
  exists (writeU8 (version r) ++ writeU16 (JS.ushr (ttl r) 6)
          ++ Compress.toWriter c
          ++ b_hosts ++ b_canonical ++ b_delegate ++ b_ns ++ b_service
          ++ b_url ++ b_email ++ b_text ++ b_location ++ b_magnet
          ++ b_ds ++ b_tls ++ b_ssh ++ b_pgp ++ b_addr ++ b_extra).
  split.
  - unfold toRaw. fold c. unfold getSize, toWriter.
    rewrite Shosts, Scanonical, Sdelegate, Sns, Sservice,
      Surl, Semail, Stext, Slocation, Smagnet,
      Sds, Stls, Sssh, Spgp, Saddr, Sextra.
    rewrite Whosts, Wcanonical, Wdelegate, Wns, Wservice,
      Wurl, Wemail, Wtext, Wlocation, Wmagnet,
      Wds, Wtls, Wssh, Wpgp, Waddr, Wextra.
    unfold bind, ret. rewrite getSize_toWriter.
    match goal with
    | |- (if len8 ?X =? ?Y then _ else _) = _ =>
        replace Y with (len8 X);
        [rewrite Z.eqb_refl; reflexivity|]
    end.
    rewrite !len8_app. unfold writeU8, writeU16.
    rewrite !len8_cons, len8_nil. lia.
  - rewrite Hok. unfold fromRaw, fromReader.
    rewrite header_written by exact Hc.
    set (r1 := set_ttl (ttl_read_back (ttl r)) new).
    eassert (Hreach : reaches c (r1, _) (_, [])).
    { eapply reaches_trans; [apply Rhosts|].
      eapply reaches_trans;
        [apply Rcanonical; rewrite fold_push_hosts; reflexivity|].
      eapply reaches_trans;
        [apply Rdelegate; destruct (canonical r);
         cbn [put_canonical]; rewrite fold_push_hosts; reflexivity|].
      eapply reaches_trans; [apply Rns|].
      eapply reaches_trans; [apply Rservice|].
      eapply reaches_trans; [apply Rurl|].
      eapply reaches_trans; [apply Remail|].
      eapply reaches_trans; [apply Rtext|].
      eapply reaches_trans; [apply Rlocation|].
      eapply reaches_trans; [apply Rmagnet|].
      eapply reaches_trans; [apply Rds|].
      eapply reaches_trans; [apply Rtls|].
      eapply reaches_trans; [apply Rssh|].
      eapply reaches_trans; [apply Rpgp|].
      eapply reaches_trans; [apply Raddr|].
      apply Rextra. }
    rewrite app_nil_r in Hreach.
    pose proof (loop_reaches Hreach) as Hl.
    cbn [fst snd] in Hl. rewrite Hl. cbn [List.length loop].
    change (left [] =? 0) with true. cbv iota. unfold ret. f_equal.
    unfold read_back, r1, set_ttl, new.
    rewrite fold_push_hosts.
    cbn [version ttl hosts canonical delegate ns service url email text
         location magnet ds tls ssh pgp addr extra app].
    destruct (canonical r); destruct (delegate r);
      cbn [put_canonical put_delegate set_canonical set_delegate
           version ttl hosts canonical delegate ns service url email
           text location magnet ds tls ssh pgp addr extra];
      (rewrite fold_push_ns;
       cbn [version ttl hosts canonical delegate ns service url email
            text location magnet ds tls ssh pgp addr extra app];
       rewrite fold_push_service;
       cbn [version ttl hosts canonical delegate ns service url email
            text location magnet ds tls ssh pgp addr extra app];
       rewrite fold_push_url;
       cbn [version ttl hosts canonical delegate ns service url email
            text location magnet ds tls ssh pgp addr extra app];
       rewrite fold_push_email;
       cbn [version ttl hosts canonical delegate ns service url email
            text location magnet ds tls ssh pgp addr extra app];
       rewrite fold_push_text;
       cbn [version ttl hosts canonical delegate ns service url email
            text location magnet ds tls ssh pgp addr extra app];
       rewrite fold_push_location;
       cbn [version ttl hosts canonical delegate ns service url email
            text location magnet ds tls ssh pgp addr extra app];
       rewrite fold_push_magnet;
       cbn [version ttl hosts canonical delegate ns service url email
            text location magnet ds tls ssh pgp addr extra app];
       rewrite fold_push_ds;
       cbn [version ttl hosts canonical delegate ns service url email
            text location magnet ds tls ssh pgp addr extra app];
       rewrite fold_push_tls;
       cbn [version ttl hosts canonical delegate ns service url email
            text location magnet ds tls ssh pgp addr extra app];
       rewrite fold_push_ssh;
       cbn [version ttl hosts canonical delegate ns service url email
            text location magnet ds tls ssh pgp addr extra app];
       rewrite fold_push_pgp;
       cbn [version ttl hosts canonical delegate ns service url email
            text location magnet ds tls ssh pgp addr extra app];
       rewrite fold_push_addr;
       cbn [version ttl hosts canonical delegate ns service url email
            text location magnet ds tls ssh pgp addr extra app];
       rewrite fold_push_extra;
       cbn [version ttl hosts canonical delegate ns service url email
            text location magnet ds tls ssh pgp addr extra app];
       reflexivity).
Qed.

(** X1.  Encoding a record of the class [wire_ok] and decoding the
    bytes gives [read_back]: the same record with the TTL reduced to
    its wire value and with the two bytes of every DS key tag
    exchanged, since [DS.toWriter] writes the tag low byte first and
    [DS.fromReader] reads it high byte first. *)
Theorem X1_decode_of_encode (r : t) :
  wire_ok r = true ->
  exists bs,
    toRaw r = inr bs /\ fromRaw bs = inr (read_back r)
    /\ map DS.keyTag (ds (read_back r))
       = map (fun x => swap16 (DS.keyTag x)) (ds r).
Proof.
  intros Hok. destruct (encode_decode r Hok) as (bs & He & Hd).
  exists bs. repeat split; try assumption.
  unfold read_back. cbn [ds]. rewrite map_map. reflexivity.
Qed.

(** X2.  [fromReader] always comes to an end: once the head of the blob
    is read, the loop returns a record or throws within the fuel it is
    given, and that is the result of [fromReader]. *)
Theorem X2_fromReader_total (r0 : t) (blob : list byte) (r1 : t)
    (d : Compress.Decompressor) (bs1 : list byte) :
  header r0 blob = inr ((r1, d), bs1) ->
  exists res,
    loop (List.length bs1) d r1 bs1 = Some res
    /\ fromReader r0 blob = res.
Proof.
  intros Hh.
  destruct (@loop_total _ (List.length bs1) d r1 bs1 (le_n _))
    as [res Hres].
  exists res. split; [exact Hres|].
  unfold fromReader. rewrite Hh, Hres. reflexivity.
Qed.

(** X5.  A DS entry alone: what [DS.fromReader] reads from the bytes of
    [DS.toWriter] has the key tag with its two bytes exchanged. *)
Theorem X5_DS_key_tag_swapped (x : DS.t) (rest : list byte) :
  ds_ok x = true ->
  DS.fromReader (DS.toWriter x ++ rest)
  = inr (DS.mk (swap16 (DS.keyTag x)) (DS.algorithm x) (DS.digestType x)
           (DS.digest x), rest).
Proof. intros H. exact (proj2 (DS_written x rest H)). Qed.

End Whole.

(* ===================================================================== *)
(** ** The TTL on the wire and the round trip *)
(* ===================================================================== *)

Section TTL.
Import Spec.

Lemma ttl_read_back_eq (t : Z) :
  ttl_read_back t = 64 * ((t mod 2 ^ 32 / 64) mod 65536).
Proof.
  unfold ttl_read_back, JS.shl, JS.ushr, JS.toUint32.
  change (6 mod 32) with 6. rewrite Z.shiftr_div_pow2 by lia.
  change (2 ^ 6) with 64.
  set (w := (t mod 2 ^ 32 / 64) mod 65536).
  assert (Hw : 0 <= w < 65536) by (apply Z.mod_pos_bound; lia).
  unfold JS.toInt32.
  rewrite (Z.mod_small w) by lia.
  replace (w <? 2 ^ 31) with true by (symmetry; apply Z.ltb_lt; lia).
  rewrite Z.shiftl_mul_pow2 by lia. change (2 ^ 6) with 64.
  rewrite (Z.mod_small (w * 64)) by lia.
  replace (w * 64 <? 2 ^ 31) with true by (symmetry; apply Z.ltb_lt; lia).
  lia.
Qed.

Lemma land_lnot_63 (t : Z) : Z.land t (Z.lnot 63) = 64 * (t / 64).
Proof.
  rewrite <- Z.ldiff_land. change 63 with (Z.ones 6).
  rewrite Z.ldiff_ones_r by lia.
  rewrite Z.shiftl_mul_pow2, Z.shiftr_div_pow2 by lia.
  change (2 ^ 6) with 64. lia.
Qed.

(** Below 2^22 the wire keeps everything but the low six bits. *)
Lemma ttl_read_back_small (t : Z) :
  0 <= t < 2 ^ 22 -> ttl_read_back t = Z.land t (Z.lnot 63).
Proof.
  intros H. rewrite ttl_read_back_eq, land_lnot_63.
  rewrite (Z.mod_small t) by lia.
  rewrite (Z.mod_small (t / 64)); [reflexivity|].
  split; [apply Z.div_pos; lia | apply Z.div_lt_upper_bound; lia].
Qed.

Lemma ttl_read_back_multiple (t : Z) :
  0 <= t < 2 ^ 22 -> t mod 64 = 0 -> ttl_read_back t = t.
Proof.
  intros H Hm. rewrite ttl_read_back_small, land_lnot_63 by assumption.
  pose proof (Z.div_mod t 64 ltac:(lia)). lia.
Qed.

End TTL.

Section TTLPreserved.
Context {W : Collaborators}.
Import Bufio HSKRecord Spec.

(** No turn of the reader loop touches the TTL. *)
Lemma readItem_ttl d r ty bs r' bs' :
  readItem d r ty bs = inr (r', bs') -> ttl r' = ttl r.
Proof.
  unfold readItem.
  repeat match goal with
         | |- context [if ?b then _ else _] => destruct b
         end;
    unfold rbind, rlift, rret, ret; intros H;
    repeat match type of H with
           | context [match ?m with _ => _ end] =>
               let E := fresh "E" in
               destruct m as [? | [? ?]] eqn:E; try discriminate H
           end;
    inversion H; subst; destruct r; reflexivity.
Qed.

Lemma loop_ttl fuel : forall d r bs r',
  loop fuel d r bs = Some (inr r') -> ttl r' = ttl r.
Proof.
  induction fuel as [|fuel IH]; intros d r bs r' H; cbn [loop] in H.
  - destruct (left bs =? 0); [|discriminate].
    inversion H. reflexivity.
  - destruct (left bs =? 0); [inversion H; reflexivity|].
    destruct (step d r bs) as [e | [r1 bs1]] eqn:E; [discriminate|].
    apply IH in H. rewrite H.
    unfold step, rbind in E.
    destruct (readU8 bs) as [e | [ty bs0]]; [discriminate|].
    apply readItem_ttl in E. exact E.
Qed.

(** Whatever the record, when its encoding decodes the TTL read is
    the one the two wire bytes stand for. *)
Lemma decoded_ttl r bs r' :
  toRaw r = inr bs -> fromRaw bs = inr r' ->
  ttl r' = ttl_read_back (ttl r).
Proof.
  intros He Hd. apply toRaw_toWriter, toWriter_head in He.
  destruct He as [rest ->].
  unfold fromRaw, fromReader in Hd.
  destruct (header new _) as [e | [[r1 d] bs1]] eqn:Eh; [discriminate|].
  destruct (loop (List.length bs1) d r1 bs1) as [[e|r2]|] eqn:El;
    try discriminate.
  inversion Hd; subst r2. apply loop_ttl in El. rewrite El.
  unfold header in Eh. unfold rbind at 1 in Eh.
  rewrite readU8_writeU8 in Eh.
  destruct (negb (version r mod 256 =? 0)); [discriminate|].
  unfold rbind at 1 in Eh. rewrite readU16_writeU16_low in Eh.
  unfold rbind in Eh.
  destruct (Compress.fromReader _) as [e | [d0 bs0]]; [discriminate|].
  inversion Eh. reflexivity.
Qed.

(** C7.  When the encoding of a record decodes, the TTL read
    back is the low 16 bits of [ttl >>> 6] shifted left by 6; for the
    records of the class [wire_ok] the encoding does decode; and for
    0 <= ttl < 2^22 that value is [ttl & ~63]. *)
Theorem C7_ttl_quantized (r : t) :
  (forall bs r', toRaw r = inr bs -> fromRaw bs = inr r' ->
                 ttl r' = ttl_read_back (ttl r))
  /\ (wire_ok r = true ->
      exists bs r', toRaw r = inr bs /\ fromRaw bs = inr r'
                    /\ ttl r' = ttl_read_back (ttl r))
  /\ (0 <= ttl r < 2 ^ 22 ->
      ttl_read_back (ttl r) = Z.land (ttl r) (Z.lnot 63)).
Proof.
  split; [intros bs r'; apply decoded_ttl|]. split.
  - intros Hok. destruct (encode_decode r Hok) as (bs & He & Hd).
    exists bs, (read_back r). repeat split; assumption.
  - apply ttl_read_back_small.
Qed.

(** C1.  For a record of the class [wire_ok] without DS
    entries, encoding succeeds and decoding gives the record back with
    its TTL reduced to what the wire holds; the record itself when the
    TTL is a multiple of 64 below 2^22. *)
Theorem C1_round_trip (r : t) :
  wire_ok r = true -> ds r = [] ->
  exists bs,
    toRaw r = inr bs
    /\ fromRaw bs = inr (set_ttl (ttl_read_back (ttl r)) r)
    /\ (0 <= ttl r < 2 ^ 22 -> ttl r mod 64 = 0 -> fromRaw bs = inr r).
Proof.
  intros Hok Hds. destruct (encode_decode r Hok) as (bs & He & Hd).
  assert (Hv : version r = 0).
  { unfold wire_ok in Hok.
    repeat (apply andb_true_iff in Hok; destruct Hok as [Hok _]).
    apply Z.eqb_eq in Hok. exact Hok. }
  assert (Hrb : read_back r = set_ttl (ttl_read_back (ttl r)) r).
  { unfold read_back, set_ttl. rewrite Hds, Hv. reflexivity. }
  exists bs. rewrite <- Hrb. repeat split; try assumption.
  intros Ht Hm. rewrite Hd, Hrb, ttl_read_back_multiple by assumption.
  destruct r; reflexivity.
Qed.

End TTLPreserved.

(* ===================================================================== *)
(** ** The JSON form *)
(* ===================================================================== *)

Section JsonFacts.
Context {W : Collaborators}.
Import HSKRecord.

Lemma lookup_set_same k v fs : Json.lookup k (Json.set k v fs) = v.
Proof.
  induction fs as [|[k' w] fs IH]; cbn [Json.set Json.lookup].
  - rewrite String.eqb_refl. reflexivity.
  - destruct (String.eqb_spec k' k) as [->|N]; cbn [Json.lookup].
    + rewrite String.eqb_refl. reflexivity.
    + destruct (String.eqb_spec k' k); [contradiction|exact IH].
Qed.

Lemma lookup_set_other k k' v fs :
  k <> k' -> Json.lookup k (Json.set k' v fs) = Json.lookup k fs.
Proof.
  intros N. induction fs as [|[k2 w] fs IH]; cbn [Json.set Json.lookup].
  - destruct (String.eqb_spec k' k); [congruence|reflexivity].
  - destruct (String.eqb_spec k2 k') as [->|N2]; cbn [Json.lookup].
    + destruct (String.eqb_spec k' k); [congruence|reflexivity].
    + destruct (String.eqb_spec k2 k); [reflexivity|exact IH].
Qed.

Lemma lookup_put_list_other k k' xs fs :
  k <> k' -> Json.lookup k (put_list k' xs fs) = Json.lookup k fs.
Proof.
  intros N. destruct xs; [reflexivity|]. apply lookup_set_other, N.
Qed.

Lemma lookup_put_list_same k x xs fs :
  Json.lookup k (put_list k (x :: xs) fs) = JArr (x :: xs).
Proof. apply lookup_set_same. Qed.

Lemma lookup_put_opt_other k k' o fs :
  k <> k' -> Json.lookup k (put_opt k' o fs) = Json.lookup k fs.
Proof.
  intros N. destruct o; [|reflexivity]. apply lookup_set_other, N.
Qed.

(** What [Service.fromJSON] makes of the output of [Service.toJSON]:
    the [target] property is a string, and the check on it asks for an
    object. *)
Lemma Service_fromJSON_toJSON (x : Service.t) :
  Service.fromJSON (Service.toJSON x) = inl AssertionError.
Proof.
  unfold Service.fromJSON, Service.toJSON, Target.toJSON.
  cbn [Json.is_object Json.get Json.lookup String.eqb Ascii.eqb Bool.eqb
       Json.present Json.typeof_string Json.typeof_object Json.str
       Json.num Json.masked assert bind ret andb].
  destruct (JS.and (Service.priority x) 255 =? Service.priority x);
    [|reflexivity].
  cbn [bind assert ret].
  destruct (JS.and (Service.weight x) 255 =? Service.weight x);
    reflexivity.
Qed.

(** What [TLS.fromJSON] makes of the output of [TLS.toJSON]: the check
    reads a [fingerprint] property, and the object has none. *)
Lemma TLS_fromJSON_toJSON (x : TLS.t) :
  TLS.fromJSON (TLS.toJSON x) = inl AssertionError.
Proof.
  unfold TLS.fromJSON, TLS.toJSON.
  cbn [Json.is_object Json.get Json.lookup String.eqb Ascii.eqb Bool.eqb
       Json.present Json.typeof_string Json.typeof_object Json.str
       Json.num Json.masked assert bind ret andb].
  unfold assert, throw, ret.
  repeat match goal with
         | |- bind (if ?b then _ else _) _ = _ =>
             destruct b; [cbn [bind]|reflexivity]
         end.
  reflexivity.
Qed.

Lemma mapM_first_fails A B (f : A -> result B) x xs e :
  f x = inl e -> mapM f (x :: xs) = inl e.
Proof. intros H. cbn [mapM]. rewrite H. reflexivity. Qed.

Lemma each_first_fails A (j : json) key (f : json -> result A) push r
    x xs e :
  Json.get j key = JArr (x :: xs) -> f x = inl e ->
  each j key f push r = inl e.
Proof.
  intros Hg Hf. unfold each. rewrite Hg.
  cbn [Json.present Json.isArray assert bind ret Json.elements].
  rewrite (mapM_first_fails f x xs Hf). reflexivity.
Qed.

Lemma get_service r name x xs :
  service r = x :: xs ->
  Json.get (toJSON r name) "service"
  = JArr (Service.toJSON x :: map Service.toJSON xs).
Proof.
  intros H. unfold toJSON. cbv zeta. cbn [Json.get].
  rewrite !lookup_put_list_other by discriminate.
  rewrite H. cbn [map]. apply lookup_put_list_same.
Qed.

Lemma get_tls r name x xs :
  tls r = x :: xs ->
  Json.get (toJSON r name) "tls" = JArr (TLS.toJSON x :: map TLS.toJSON xs).
Proof.
  intros H. unfold toJSON. cbv zeta. cbn [Json.get].
  rewrite !lookup_put_list_other by discriminate.
  rewrite H. cbn [map]. apply lookup_put_list_same.
Qed.

(** Steps through the binds of [fromJSON] that come before the failing
    one: each either throws, or hands on a record. *)
Ltac pass_bind :=
  match goal with
  | |- exists e, bind ?m _ = inl e =>
      let r' := fresh "r" in
      destruct m as [? | r']; [eexists; reflexivity | cbn [bind]]
  end.

(** No record with a service entry survives [toJSON] then [fromJSON]. *)
Lemma fromJSON_toJSON_service r0 r name :
  service r <> [] -> exists e, fromJSON r0 (toJSON r name) = inl e.
Proof.
  intros Hne. destruct (service r) as [|x xs] eqn:Es; [congruence|].
  unfold fromJSON. cbn [Json.is_object toJSON assert bind ret].
  do 6 pass_bind.
  rewrite (each_first_fails _ _ Service.fromJSON _ _
             (get_service r name Es) (Service_fromJSON_toJSON x)).
  eexists; reflexivity.
Qed.

(** No record with a TLS entry survives [toJSON] then [fromJSON]. *)
Lemma fromJSON_toJSON_tls r0 r name :
  tls r <> [] -> exists e, fromJSON r0 (toJSON r name) = inl e.
Proof.
  intros Hne. destruct (tls r) as [|x xs] eqn:Es; [congruence|].
  unfold fromJSON. cbn [Json.is_object toJSON assert bind ret].
  do 13 pass_bind.
  rewrite (each_first_fails _ _ TLS.fromJSON _ _
             (get_tls r name Es) (TLS_fromJSON_toJSON x)).
  eexists; reflexivity.
Qed.

(** X3.  No record with a TLS entry survives [toJSON] followed by
    [fromJSON]: the reader throws. *)
Theorem X3_tls_never_survives_json (r : t) (name : string) :
  tls r <> [] -> exists e, fromJSON new (toJSON r name) = inl e.
Proof. apply fromJSON_toJSON_tls. Qed.

(** X4.  No record with a service entry survives [toJSON] followed by
    [fromJSON]: the reader throws. *)
Theorem X4_service_never_survives_json (r : t) (name : string) :
  service r <> [] -> exists e, fromJSON new (toJSON r name) = inl e.
Proof. apply fromJSON_toJSON_service. Qed.

End JsonFacts.

(* ===================================================================== *)
(** ** The statements at concrete inputs *)
(* ===================================================================== *)

Section Concrete.
Import HSKRecord Spec Synth.
#[local] Existing Instance Sample.collaborators.

(** The record [plain] goes through the wire unchanged. *)
Lemma C1_round_trip_witness :
  wire_ok Inputs.plain = true /\ ds Inputs.plain = [] /\
  exists bs,
    toRaw Inputs.plain = inr bs
    /\ fromRaw bs
       = inr (set_ttl (ttl_read_back (ttl Inputs.plain)) Inputs.plain)
    /\ (0 <= ttl Inputs.plain < 2 ^ 22 -> ttl Inputs.plain mod 64 = 0 ->
        fromRaw bs = inr Inputs.plain).
Proof.
  split; [reflexivity|]. split; [reflexivity|].
  exact (C1_round_trip Inputs.plain eq_refl eq_refl).
Defined.

(** A valid record with a TTL of 3600 comes back with 3584: decoding
    its encoding does not give the record field for field. *)
Lemma C1_counterexample :
  wire_ok Inputs.one_name = true
  /\ (bs <- toRaw Inputs.one_name ;; fromRaw bs)
     = inr (set_ttl 3584 Inputs.one_name)
  /\ (bs <- toRaw Inputs.one_name ;; fromRaw bs) <> inr Inputs.one_name.
Proof.
  split; [reflexivity|]. split; [reflexivity|].
  intros H. vm_compute in H. discriminate H.
Qed.

(** With [IP.decode] giving the 16 bytes of the mapped address, the
    [assert(ip.length === 4)] of [writeTarget] refuses an IPv4 host:
    the record is not encoded. *)
Lemma inet4_host_not_written :
  toRaw Inputs.one_host = inl AssertionError.
Proof. reflexivity. Qed.

(** A DS entry with key tag 1 is written as 01 00 and read, high byte
    first, as 256. *)
Lemma ds_key_tag_comes_back_swapped :
  wire_ok Inputs.with_ds = true
  /\ (bs <- toRaw Inputs.with_ds ;; fromRaw bs)
     = inr (read_back Inputs.with_ds)
  /\ map DS.keyTag (ds Inputs.with_ds) = [1]
  /\ map DS.keyTag (ds (read_back Inputs.with_ds)) = [256].
Proof. repeat split; reflexivity. Qed.

Lemma C2_referral_witness :
  util_isFQDN "www.example." = true
  /\ (1 < List.length (util_split "www.example."))%nat
  /\ toDNS Inputs.zone "www.example." types.A false
     = (authority <- toNS Inputs.zone "example." true ;;
        additional <- toNSIP Inputs.zone "example." true ;;
        ret (Message.mk true true false []
               (authority ++ toDS Inputs.zone "example.") additional
               (Some (4096, true)))).
Proof.
  split; [reflexivity|]. split; [exact (le_n 2)|].
  exact (C2_referral Inputs.zone "www.example." types.A false
           eq_refl (le_n 2)).
Defined.

(** With [naked = false] the referral still carries the pointer name of
    an inline name server, which [toNS(tld, false)] leaves out. *)
Lemma C2_counterexample :
  util_isFQDN "www.example." = true
  /\ (1 < List.length (util_split "www.example."))%nat
  /\ util_from "www.example." (util_split "www.example.") (-1) = "example."
  /\ exists m,
      toDNS Inputs.inline_ns "www.example." types.A false = inr m
      /\ toNS Inputs.inline_ns "example." false = inr []
      /\ toNSIP Inputs.inline_ns "example." false = inr []
      /\ Message.authority m <> [] ++ toDS Inputs.inline_ns "example."
      /\ Message.additional m <> [].
Proof.
  split; [reflexivity|]. split; [exact (le_n 2)|].
  split; [reflexivity|].
  eexists. split; [reflexivity|]. split; [reflexivity|].
  split; [reflexivity|]. split; discriminate.
Qed.

Lemma C3_fallback_witness :
  util_isFQDN "alice." = true
  /\ (List.length (util_split "alice.") <= 1)%nat
  /\ no_A_answer Inputs.canonical_only = true
  /\ toDNS Inputs.canonical_only "alice." types.A true
     = inr (Message.mk true true true
              [RR.mk "alice." 0 types.CNAME (CNAMERecord "example.com.")]
              [] [] (Some (4096, true))).
Proof.
  split; [reflexivity|]. split; [exact (le_n 1)|].
  split; [reflexivity|].
  exact (proj2 (C3_fallback Inputs.canonical_only "alice." types.A true
                  eq_refl (le_n 1))
           (Target.mk 6 "example.com.i") eq_refl eq_refl eq_refl eq_refl).
Defined.

(** Canonical is set and no host is an IPv4 address, yet the answer to
    the A query is the TXT record of the onion host, not a CNAME. *)
Lemma C3_counterexample :
  util_isFQDN "alice." = true
  /\ List.length (util_split "alice.") = 1%nat
  /\ is_set (canonical Inputs.canonical_and_onion) = true
  /\ filter Target.isINET4 (hosts Inputs.canonical_and_onion) = []
  /\ exists m,
      toDNS Inputs.canonical_and_onion "alice." types.A true = inr m
      /\ Message.answer m
         = [RR.mk "alice." 0 types.TXT
              (TXTRecord ["hsk:tor"; "xxxxxxxxxxxxxxxx.onion"])]
      /\ inr (Message.answer m)
         <> toCNAME Inputs.canonical_and_onion "alice.".
Proof.
  repeat (split; [reflexivity|]).
  eexists. split; [reflexivity|]. split; [reflexivity|]. discriminate.
Qed.

(** C4.  The record with one TLS entry does not survive [toJSON]
    followed by [fromJSON]: the reader throws an assertion error. *)
Theorem C4_tls_json_throws :
  fromJSON new (toJSON Inputs.one_tls "alice") = inl AssertionError.
Proof. reflexivity. Qed.

(** The record with one service entry meets the same end. *)
Lemma service_json_throws :
  fromJSON new (toJSON Inputs.one_service "alice") = inl AssertionError.
Proof. reflexivity. Qed.

Lemma C5_unknown_tag_witness :
  rtypes.known (byte_val xc8) = false
  /\ step [] new [xc8; xc8; u8 (len8 [xde; xad]); xde; xad]
     = inr (push_extra (Extra.mk 200 [xde; xad]) new, [])
  /\ toRaw (push_extra (Extra.mk 200 [xde; xad]) new)
     = inr [x00; x00; x00; x00; xc8; xc8; x02; xde; xad]
  /\ exists pre,
      [x00; x00; x00; x00; xc8; xc8; x02; xde; xad]
      = pre ++ [xc8; xc8; x02; xde; xad].
Proof.
  split; [reflexivity|].
  pose proof (C5_unknown_tag_reads_extra [] new xc8 xc8 [xde; xad] []
                eq_refl (proj1 (Nat.leb_le 2 255) eq_refl)) as [Hr Hw].
  split; [exact Hr|]. split; [reflexivity|].
  exact (Hw (push_extra (Extra.mk 200 [xde; xad]) new)
            [x00; x00; x00; x00; xc8; xc8; x02; xde; xad] eq_refl).
Defined.

(** After the tag 200 the blob holds 07 01 aa.  The entry read has
    type 7, not 200, and its data is the one byte aa: the byte after the
    tag was taken as the type, not as the length of the blob. *)
Lemma C5_counterexample :
  rtypes.known 200 = false
  /\ nth_error Inputs.unknown_tag_blob 4 = Some (u8 200)
  /\ exists r,
      fromRaw Inputs.unknown_tag_blob = inr r
      /\ extra r = [Extra.mk 7 [xaa]]
      /\ map Extra.type (extra r) <> [200].
Proof.
  split; [reflexivity|]. split; [reflexivity|].
  eexists. split; [reflexivity|]. split; [reflexivity|]. discriminate.
Qed.

Lemma C6_duplicate_witness :
  header new Inputs.two_canonical_blob
  = inr ((new, []), [x08; x06; x00; x01; x61; x08; x06; x00; x01; x62])
  /\ duplicate (set_canonical (Some (Target.mk 6 "a.i")) new)
       (byte_val x08) = true
  /\ fromReader new Inputs.two_canonical_blob = inl AssertionError.
Proof.
  split; [reflexivity|]. split; [reflexivity|].
  refine (@C6_duplicate_fails _ new Inputs.two_canonical_blob new []
            [x08; x06; x00; x01; x61; x08; x06; x00; x01; x62]
            (set_canonical (Some (Target.mk 6 "a.i")) new)
            x08 [x06; x00; x01; x62] eq_refl _ eq_refl).
  eapply reaches_turn; [reflexivity|]. apply reaches_here.
Defined.

(** A TTL of 3600 goes through the wire and comes back as 3584. *)
Lemma C7_ttl_witness :
  wire_ok Inputs.with_ds = true
  /\ 0 <= ttl Inputs.with_ds < 2 ^ 22
  /\ (exists bs r',
        toRaw Inputs.with_ds = inr bs /\ fromRaw bs = inr r'
        /\ ttl r' = ttl_read_back (ttl Inputs.with_ds))
  /\ ttl_read_back (ttl Inputs.with_ds)
     = Z.land (ttl Inputs.with_ds) (Z.lnot 63)
  /\ Z.land (ttl Inputs.with_ds) (Z.lnot 63) = 3584.
Proof.
  split; [reflexivity|].
  split; [split; [cbv; discriminate | reflexivity]|].
  split; [|split; [|reflexivity]].
  - exact (proj1 (proj2 (C7_ttl_quantized Inputs.with_ds)) eq_refl).
  - apply (proj2 (proj2 (C7_ttl_quantized Inputs.with_ds))).
    split; [cbv; discriminate | reflexivity].
Defined.

(** A TTL of 2^22 is written as 00 00 and read back as 0, which is not
    2^22 with its low six bits cleared. *)
Lemma C7_counterexample :
  wire_ok Inputs.long_ttl = true
  /\ ttl Inputs.long_ttl = 4194304
  /\ Z.land 4194304 (Z.lnot 63) = 4194304
  /\ exists r',
      (bs <- toRaw Inputs.long_ttl ;; fromRaw bs) = inr r' /\ ttl r' = 0.
Proof.
  repeat (split; [reflexivity|]). eexists. split; reflexivity.
Qed.

Lemma C8_ttl_bytes_witness :
  exists bs,
    toRaw Inputs.one_name = inr bs
    /\ (exists lo hi rest,
           bs = u8 (version Inputs.one_name) :: lo :: hi :: rest
           /\ byte_val lo = JS.ushr (ttl Inputs.one_name) 6 mod 256
           /\ byte_val hi = (JS.ushr (ttl Inputs.one_name) 6 / 256) mod 256)
    /\ (ttl Inputs.one_name = 3600 ->
        firstn 2 (skipn 1 bs) = [x38; x00]).
Proof.
  eexists. split; [reflexivity|].
  exact (C8_ttl_bytes Inputs.one_name eq_refl).
Defined.

(** For ttl = 3600 the two bytes after the version are 38 00, low byte
    first, and not 00 38. *)
Lemma C8_counterexample :
  ttl Inputs.one_name = 3600
  /\ exists bs,
      toRaw Inputs.one_name = inr bs
      /\ firstn 2 (skipn 1 bs) = [x38; x00]
      /\ firstn 2 (skipn 1 bs) <> [x00; x38].
Proof.
  split; [reflexivity|]. eexists. split; [reflexivity|].
  split; [reflexivity|]. discriminate.
Qed.

Lemma C9_toSOA_witness :
  util_isFQDN "foo." = true
  /\ toSOA Inputs.zone "foo."
     = inr [RR.mk "foo." 7200 types.SOA
              (SOARecord "ns1.example.com." "mail.example.com."
                 0 1800 7200 604800 86400)]
  /\ exists nsl mxl rd_ns rd_mbox,
      toNS Inputs.zone (util_from2 "foo." (-1)) false = inr nsl /\
      toMX Inputs.zone (util_from2 "foo." (-1)) false = inr mxl /\
      match nsl with
      | [] => rd_ns = util_from2 "foo." (-1)
      | rr :: _ => RR.data rr = NSRecord rd_ns
      end /\
      match mxl with
      | [] => rd_mbox = util_from2 "foo." (-1)
      | rr :: _ => exists p, RR.data rr = MXRecord p rd_mbox
      end /\
      toSOA Inputs.zone "foo." =
      inr [RR.mk (util_from2 "foo." (-1)) (ttl Inputs.zone) types.SOA
             (SOARecord rd_ns rd_mbox 0 1800 (ttl Inputs.zone)
                604800 86400)].
Proof.
  split; [reflexivity|]. split; [reflexivity|].
  exact (C9_toSOA_fields Inputs.zone "foo." eq_refl).
Defined.

Lemma X1_decode_of_encode_witness :
  wire_ok Inputs.with_ds = true
  /\ exists bs,
      toRaw Inputs.with_ds = inr bs
      /\ fromRaw bs = inr (read_back Inputs.with_ds)
      /\ map DS.keyTag (ds (read_back Inputs.with_ds))
         = map (fun x => swap16 (DS.keyTag x)) (ds Inputs.with_ds).
Proof.
  split; [reflexivity|].
  exact (X1_decode_of_encode Inputs.with_ds eq_refl).
Defined.

Lemma X2_fromReader_total_witness :
  header new Inputs.unknown_tag_blob = inr ((new, []), [xc8; x07; x01; xaa])
  /\ exists res,
      loop 4 [] new [xc8; x07; x01; xaa] = Some res
      /\ fromReader new Inputs.unknown_tag_blob = res.
Proof.
  split; [reflexivity|].
  exact (X2_fromReader_total new Inputs.unknown_tag_blob eq_refl).
Defined.

Lemma X3_tls_witness :
  tls Inputs.one_tls <> []
  /\ exists e, fromJSON new (toJSON Inputs.one_tls "alice") = inl e.
Proof.
  assert (H : tls Inputs.one_tls <> []) by discriminate.
  split; [exact H|].
  exact (X3_tls_never_survives_json Inputs.one_tls "alice" H).
Defined.

Lemma X4_service_witness :
  service Inputs.one_service <> []
  /\ exists e, fromJSON new (toJSON Inputs.one_service "alice") = inl e.
Proof.
  assert (H : service Inputs.one_service <> []) by discriminate.
  split; [exact H|].
  exact (X4_service_never_survives_json Inputs.one_service "alice" H).
Defined.

Lemma X5_DS_key_tag_witness :
  ds_ok (DS.mk 1 8 2 [xab; xcd]) = true
  /\ DS.fromReader (DS.toWriter (DS.mk 1 8 2 [xab; xcd]) ++ [])
     = inr (DS.mk (swap16 1) 8 2 [xab; xcd], []).
Proof.
  split; [reflexivity|].
  exact (X5_DS_key_tag_swapped (DS.mk 1 8 2 [xab; xcd]) [] eq_refl).
Defined.

End Concrete.
(* ===================================================================== *)
(** ** The JSON form of the leaf records *)
(* ===================================================================== *)

Section JsonNumbers.
Import Spec.

Lemma toInt32_small v : 0 <= v < 2 ^ 31 -> JS.toInt32 v = v.
Proof.
  intros H. unfold JS.toInt32. rewrite Z.mod_small by lia.
  destruct (Z.ltb_spec v (2 ^ 31)); lia.
Qed.

Lemma and_ones v k :
  0 < k <= 31 -> JS.and v (Z.ones k) = JS.toInt32 v mod 2 ^ k.
Proof.
  intros Hk. unfold JS.and.
  assert (Hp : 0 < 2 ^ k <= 2 ^ 31)
    by (split; [apply Z.pow_pos_nonneg; lia
               |apply Z.pow_le_mono_r; lia]).
  assert (Ho : JS.toInt32 (Z.ones k) = Z.ones k).
  { apply toInt32_small. rewrite Z.ones_equiv. lia. }
  rewrite Ho, Z.land_ones by lia.
  apply toInt32_small.
  pose proof (Z.mod_pos_bound (JS.toInt32 v) (2 ^ k)). lia.
Qed.

Lemma masked_ones v k :
  0 < k <= 31 ->
  Json.masked (Z.ones k) (JNum v) = (0 <=? v) && (v <? 2 ^ k).
Proof.
  intros Hk. cbn [Json.masked]. rewrite and_ones by exact Hk.
  assert (Hp : 0 < 2 ^ k <= 2 ^ 31)
    by (split; [apply Z.pow_pos_nonneg; lia
               |apply Z.pow_le_mono_r; lia]).
  pose proof (Z.mod_pos_bound (JS.toInt32 v) (2 ^ k)) as Hm.
  destruct (Z.leb_spec 0 v) as [H0|H0];
    destruct (Z.ltb_spec v (2 ^ k)) as [H1|H1]; cbn [andb].
  - apply Z.eqb_eq. rewrite toInt32_small by lia.
    apply Z.mod_small. lia.
  - apply Z.eqb_neq. lia.
  - apply Z.eqb_neq. lia.
  - apply Z.eqb_neq. lia.
Qed.

Lemma masked_u8 v : Json.masked 255 (JNum v) = in_u8 v.
Proof. exact (@masked_ones v 8 ltac:(lia)). Qed.

Lemma masked_u16 v : Json.masked 65535 (JNum v) = in_u16 v.
Proof. exact (@masked_ones v 16 ltac:(lia)). Qed.

Lemma is_u32_in_u32 v : Json.is_u32 (JNum v) = in_u32 v.
Proof.
  cbn [Json.is_u32]. unfold JS.ushr, JS.toUint32, in_u32.
  change (0 mod 32) with 0. rewrite Z.shiftr_0_r.
  change (2 ^ 32) with 4294967296.
  pose proof (Z.mod_pos_bound v 4294967296) as Hm.
  destruct (Z.leb_spec 0 v) as [H0|H0];
    destruct (Z.ltb_spec v 4294967296) as [H1|H1]; cbn [andb].
  - apply Z.eqb_eq, Z.mod_small. lia.
  - apply Z.eqb_neq. lia.
  - apply Z.eqb_neq. lia.
  - apply Z.eqb_neq. lia.
Qed.

End JsonNumbers.

Section HexText.

Lemma hex_value_hex_digit n :
  0 <= n < 16 -> Enc.hex_value (Enc.hex_digit n) = Some n.
Proof.
  intros [Hlo Hhi]. destruct n as [|p|p]; [reflexivity| |lia].
  repeat (destruct p as [p|p|]; try reflexivity; try lia).
Qed.

(** Decoding the hexadecimal text of a buffer gives the buffer. *)
Lemma hex_bytes_hex_string bs : Enc.hex_bytes (Enc.hex_string bs) = bs.
Proof.
  induction bs as [|b bs IH]; [reflexivity|].
  cbn [Enc.hex_string Enc.hex_bytes].
  pose proof (byte_val_range b) as Hb.
  assert (Hq : 0 <= byte_val b / 16 < 16)
    by (split; [apply Z.div_pos; lia
               |apply Z.div_lt_upper_bound; lia]).
  assert (Hr : 0 <= byte_val b mod 16 < 16)
    by (apply Z.mod_pos_bound; lia).
  rewrite !hex_value_hex_digit by assumption.
  rewrite IH. f_equal.
  rewrite <- Z.div_mod by lia. apply u8_byte_val.
Qed.

Lemma slen_hex_string bs : slen (Enc.hex_string bs) = 2 * len8 bs.
Proof.
  unfold slen, len8. induction bs as [|b bs IH]; [reflexivity|].
  cbn [Enc.hex_string String.length List.length]. lia.
Qed.

Lemma ushr_1_hex_string bs :
  len8 bs < 2 ^ 31 -> JS.ushr (slen (Enc.hex_string bs)) 1 = len8 bs.
Proof.
  intros H. rewrite slen_hex_string.
  unfold JS.ushr, JS.toUint32. change (1 mod 32) with 1.
  pose proof (len8_nonneg bs).
  rewrite Z.mod_small by (change (2 ^ 32) with (2 * 2 ^ 31); lia).
  rewrite Z.shiftr_div_pow2 by lia. change (2 ^ 1) with 2.
  rewrite Z.mul_comm. apply Z.div_mul. lia.
Qed.

End HexText.

(** Resolves the property reads of a [fromJSON] applied to an object
    literal. *)
Ltac json_reads :=
  cbn [Json.is_object Json.get Json.lookup String.eqb Ascii.eqb Bool.eqb
       Json.present Json.typeof_string Json.typeof_object Json.str
       Json.num Json.buffer_from_hex].

Section LeafJson.
Context {W : Collaborators}.
Import Spec JsonSpec.

Lemma assert_true (b : bool) A (k : result A) :
  b = true -> (assert b ;;; k) = k.
Proof. intros ->. reflexivity. Qed.

Lemma assert_false (b : bool) A (k : result A) :
  b = false -> (assert b ;;; k) = inl AssertionError.
Proof. intros ->. reflexivity. Qed.

(** What [SSH.fromJSON] makes of the output of [SSH.toJSON]: the
    checks on the two numbers, then the check on the number that the
    hexadecimal text converts to. *)
Lemma SSH_fromJSON_toJSON (x : SSH.t) :
  SSH.fromJSON (SSH.toJSON x)
  = if ssh_json_ok x then inr x else inl AssertionError.
Proof.
  destruct x as [a ty fp].
  unfold SSH.fromJSON, SSH.toJSON, ssh_json_ok, hex_number_ok.
  cbn [SSH.algorithm SSH.type SSH.fingerprint]. json_reads.
  rewrite !masked_u8. cbn [assert bind ret].
  destruct (in_u8 a); [|reflexivity].
  destruct (in_u8 ty); [|reflexivity].
  cbn [assert bind ret andb].
  destruct (JS.ushr _ 1 <=? 255); [|reflexivity].
  cbn [assert bind ret]. rewrite hex_bytes_hex_string. reflexivity.
Qed.

Lemma Extra_fromJSON_toJSON (x : Extra.t) :
  Extra.fromJSON (Extra.toJSON x)
  = if extra_json_ok x then inr x else inl AssertionError.
Proof.
  destruct x as [ty dt].
  unfold Extra.fromJSON, Extra.toJSON, extra_json_ok, hex_number_ok.
  cbn [Extra.type Extra.data]. json_reads.
  rewrite !masked_u8. cbn [assert bind ret].
  destruct (in_u8 ty); [|reflexivity].
  cbn [assert bind ret andb].
  destruct (JS.ushr _ 1 <=? 255); [|reflexivity].
  cbn [assert bind ret]. rewrite hex_bytes_hex_string. reflexivity.
Qed.

Lemma short_len8 bs :
  len8 bs < 2 ^ 31 -> (len8 bs <=? 255) = short bs.
Proof.
  intros _. unfold short, len8.
  destruct (Nat.leb_spec (List.length bs) 255);
    [apply Z.leb_le|apply Z.leb_gt]; lia.
Qed.

Lemma DS_fromJSON_toJSON (x : DS.t) :
  len8 (DS.digest x) < 2 ^ 31 ->
  DS.fromJSON (DS.toJSON x)
  = if ds_ok x then inr x else inl AssertionError.
Proof.
  destruct x as [k a dt dg]. cbn [DS.digest]. intros Hlen.
  unfold DS.fromJSON, DS.toJSON, ds_ok.
  cbn [DS.keyTag DS.algorithm DS.digestType DS.digest]. json_reads.
  rewrite masked_u16, !masked_u8. cbn [assert bind ret].
  destruct (in_u16 k); [|reflexivity].
  destruct (in_u8 a); [|reflexivity].
  destruct (in_u8 dt); [|reflexivity].
  cbn [assert bind ret andb].
  rewrite ushr_1_hex_string, short_len8 by exact Hlen.
  destruct (short dg); [|reflexivity].
  cbn [assert bind ret]. rewrite hex_bytes_hex_string. reflexivity.
Qed.

Lemma Location_fromJSON_toJSON (x : Location.t) :
  Location.fromJSON (Location.toJSON x)
  = if location_ok x then inr x else inl AssertionError.
Proof.
  destruct x as [v s h vp la lo al].
  unfold Location.fromJSON, Location.toJSON, Location.field, location_ok.
  cbn [Location.version Location.size Location.horizPre Location.vertPre
       Location.latitude Location.longitude Location.altitude].
  json_reads. rewrite !masked_u8, !is_u32_in_u32.
  cbn [assert bind ret].
  destruct (in_u8 v); [|reflexivity].
  destruct (in_u8 s); [|reflexivity].
  destruct (in_u8 h); [|reflexivity].
  destruct (in_u8 vp); [|reflexivity].
  destruct (in_u32 la); [|reflexivity].
  destruct (in_u32 lo); [|reflexivity].
  destruct (in_u32 al); reflexivity.
Qed.

End LeafJson.
(* ===================================================================== *)
(** ** The text forms: magnet links and address entries *)
(* ===================================================================== *)

Section SplitFacts.
Import JsonSpec.

Lemma length_append (a b : string) :
  String.length (a ++ b) = (String.length a + String.length b)%nat.
Proof.
  induction a as [|ch a IH]; [reflexivity|].
  cbn [String.append String.length]. rewrite IH. reflexivity.
Qed.

Lemma slen_append (a b : string) : slen (a ++ b) = slen a + slen b.
Proof. unfold slen. rewrite length_append. lia. Qed.

Lemma substring_all (s : string) : substring 0 (String.length s) s = s.
Proof.
  induction s as [|ch s IH]; [reflexivity|].
  cbn [String.length substring]. rewrite IH. reflexivity.
Qed.

(** [(p + s).substring(p.length)] is [s]. *)
Lemma substring_from_append (p s : string) :
  Json.substring_from (Z.of_nat (String.length p)) (p ++ s) = s.
Proof.
  unfold Json.substring_from. rewrite Nat2Z.id, length_append.
  replace (String.length p + String.length s - String.length p)%nat
    with (String.length s) by lia.
  induction p as [|ch p IH]; cbn [String.append String.length substring].
  - apply substring_all.
  - exact IH.
Qed.

(** A string without separator is the one part of its split. *)
Lemma split_free sep s :
  free_of sep s = true -> Json.split sep s = [s].
Proof.
  unfold free_of. induction s as [|ch s IH]; [reflexivity|].
  cbn [all_chars Json.split]. intros H.
  apply andb_true_iff in H. destruct H as [Hc Hs].
  apply negb_true_iff in Hc. rewrite Hc, (IH Hs). reflexivity.
Qed.

(** The split of [a + sep + b] when [a] holds no separator. *)
Lemma split_append sep a ch b :
  free_of sep a = true -> sep ch = true ->
  Json.split sep (a ++ String ch b) = a :: Json.split sep b.
Proof.
  unfold free_of. intros Ha Hch.
  induction a as [|x a IH]; cbn [String.append Json.split].
  - rewrite Hch. reflexivity.
  - cbn [all_chars] in Ha. apply andb_true_iff in Ha.
    destruct Ha as [Hx Ha]. apply negb_true_iff in Hx.
    rewrite Hx, (IH Ha). reflexivity.
Qed.

(** No part of a split holds a separator. *)
Lemma split_parts_free sep s :
  Forall (fun w => free_of sep w = true) (Json.split sep s).
Proof.
  unfold free_of. induction s as [|ch s IH]; cbn [Json.split].
  - repeat constructor.
  - destruct (sep ch) eqn:E.
    + constructor; [reflexivity|exact IH].
    + destruct (Json.split sep s) as [|w ws].
      * repeat constructor. cbn [all_chars]. rewrite E. reflexivity.
      * inversion IH as [|? ? Hw Hws]; subst.
        constructor; [|exact Hws].
        cbn [all_chars]. rewrite E, Hw. reflexivity.
Qed.

Lemma short_str_slen s : (slen s <=? 255) = Spec.short_str s.
Proof.
  unfold Spec.short_str, slen.
  destruct (Nat.leb_spec (String.length s) 255);
    [apply Z.leb_le|apply Z.leb_gt]; lia.
Qed.

End SplitFacts.

Section TextForms.
Import Spec JsonSpec.

(** What [Magnet.fromString] returns has parts that hold no separator
    and are at most 255 characters long. *)
Lemma Magnet_fromString_parts j y :
  Magnet.fromString j = inr y -> magnet_text_ok y = true.
Proof.
  unfold Magnet.fromString.
  destruct (Json.typeof_string j); [|discriminate]. cbn [assert bind ret].
  destruct (slen (Json.str j) <=? 1024); [|discriminate].
  cbn [assert bind ret].
  destruct (negb (Json.indexOf (Json.str j) "xt=urn:" =? -1));
    [|discriminate].
  cbn [assert bind ret].
  destruct (negb (Json.indexOf (Json.str j) "xt=urn:" =? 0));
    [|discriminate].
  cbn [assert bind ret].
  match goal with
  | |- bind (assert ?b) _ = _ -> _ => destruct b; [|discriminate]
  end.
  cbn [assert bind ret].
  match goal with
  | |- context [Json.split ?sep ?s] =>
      pose proof (split_parts_free sep s) as Hfree;
      destruct (Json.split sep s) as [|id [|n rest]]
  end; try discriminate.
  inversion Hfree as [|? ? Hid Hrest]; subst.
  inversion Hrest as [|? ? Hn _]; subst.
  rewrite !short_str_slen.
  destruct (short_str id) eqn:Eid; [|discriminate]. cbn [assert bind ret].
  destruct (short_str n) eqn:En; [|discriminate]. cbn [assert bind ret].
  intros H. inversion H; subst.
  unfold magnet_text_ok. cbn [Magnet.nid Magnet.nin].
  unfold magnet_sep, free_of in *. rewrite Hid, Hn, Eid, En. reflexivity.
Qed.

(** Where [indexOf('xt=urn:')] finds the marker in a link made by
    [toString]. *)
Lemma magnet_index rest :
  Json.indexOf ("magnet:?xt=urn:" ++ rest) "xt=urn:" = 8.
Proof. unfold Json.indexOf. cbn. destruct rest; reflexivity. Qed.

(** A magnet within [magnet_text_ok] is parsed back from its link. *)
Lemma Magnet_fromString_toString x :
  magnet_text_ok x = true ->
  Magnet.fromString (JStr (Magnet.toString x)) = inr x.
Proof.
  destruct x as [id n]. unfold magnet_text_ok.
  cbn [Magnet.nid Magnet.nin]. intros H.
  apply andb_true_iff in H. destruct H as [H Hsn].
  apply andb_true_iff in H. destruct H as [H Hsid].
  apply andb_true_iff in H. destruct H as [Hid Hn].
  unfold Magnet.fromString, Magnet.toString.
  cbn [Magnet.nid Magnet.nin Json.typeof_string Json.str assert bind ret].
  set (rest := (id ++ ":" ++ n)%string).
  assert (Hlen : (slen ("magnet:?xt=urn:" ++ rest) <=? 1024) = true).
  { apply Z.leb_le. unfold rest. rewrite !slen_append.
    apply short_str_inv in Hsid, Hsn. unfold slen.
    cbn [String.length]. lia. }
  rewrite Hlen. cbn [assert bind ret].
  rewrite magnet_index. cbn [Z.eqb negb assert bind ret Z.sub Z.add Z.opp
                     Z.pos_sub Pos.pred_double Pos.add Pos.succ Z.to_nat
                     Pos.to_nat Pos.iter_op Nat.add].
  change (String.get 7 ("magnet:?xt=urn:" ++ rest)) with (Some "?"%char).
  cbn [Ascii.eqb Bool.eqb orb assert bind ret].
  change 15 with (Z.of_nat (String.length "magnet:?xt=urn:")).
  rewrite substring_from_append. unfold rest.
  change (":" ++ n)%string with (String ":"%char n).
  match goal with
  | |- context [Json.split ?sep ?s] =>
      change (Json.split sep s) with (Json.split magnet_sep s)
  end.
  rewrite (@split_append magnet_sep id ":"%char n Hid eq_refl).
  rewrite (@split_free magnet_sep n Hn).
  rewrite !short_str_slen, Hsid, Hsn. reflexivity.
Qed.

Lemma Addr_fromString_parts j y :
  Addr.fromString j = inr y -> addr_text_ok y = true.
Proof.
  unfold Addr.fromString.
  destruct (Json.typeof_string j); [|discriminate]. cbn [assert bind ret].
  destruct (slen (Json.str j) <=? 512); [|discriminate].
  cbn [assert bind ret].
  match goal with
  | |- context [Json.split ?sep ?s] =>
      pose proof (split_parts_free sep s) as Hfree;
      destruct (Json.split sep s) as [|cur [|a [|? ?]]]
  end; try discriminate.
  inversion Hfree as [|? ? Hcur Hrest]; subst.
  inversion Hrest as [|? ? Ha _]; subst.
  rewrite short_str_slen.
  destruct (slen cur <=? 63) eqn:Ecur; [|discriminate].
  cbn [assert bind ret].
  destruct (short_str a) eqn:Ea; [|discriminate]. cbn [assert bind ret].
  intros H. inversion H; subst.
  unfold addr_text_ok. cbn [Addr.currency Addr.address].
  unfold addr_sep, free_of in *. rewrite Hcur, Ha, Ea.
  apply Z.leb_le in Ecur. unfold slen in Ecur.
  replace (String.length cur <=? 63)%nat with true
    by (symmetry; apply Nat.leb_le; lia).
  reflexivity.
Qed.

Lemma Addr_fromString_toString x :
  addr_text_ok x = true ->
  Addr.fromString (JStr (Addr.toString x)) = inr x.
Proof.
  destruct x as [cur a]. unfold addr_text_ok.
  cbn [Addr.currency Addr.address]. intros H.
  apply andb_true_iff in H. destruct H as [H Hsa].
  apply andb_true_iff in H. destruct H as [H Hscur].
  apply andb_true_iff in H. destruct H as [Hcur Ha].
  apply Nat.leb_le in Hscur.
  unfold Addr.fromString, Addr.toString.
  cbn [Addr.currency Addr.address Json.typeof_string Json.str
       assert bind ret].
  assert (Hlen : (slen (cur ++ ":" ++ a) <=? 512) = true).
  { apply Z.leb_le. rewrite !slen_append.
    apply short_str_inv in Hsa. unfold slen. cbn [String.length]. lia. }
  rewrite Hlen. cbn [assert bind ret].
  change (":" ++ a)%string with (String ":"%char a).
  match goal with
  | |- context [Json.split ?sep ?s] =>
      change (Json.split sep s) with (Json.split addr_sep s)
  end.
  rewrite (@split_append addr_sep cur ":"%char a Hcur eq_refl).
  rewrite (@split_free addr_sep a Ha).
  rewrite short_str_slen, Hsa.
  replace (slen cur <=? 63) with true
    by (symmetry; apply Z.leb_le; unfold slen; lia).
  reflexivity.
Qed.

End TextForms.
(* ===================================================================== *)
(** ** Targets parsed from text *)
(* ===================================================================== *)

Section SuffixFacts.

Lemma substring_prefix (s t : string) :
  substring 0 (String.length s) (s ++ t) = s.
Proof.
  induction s as [|ch s IH]; cbn [String.append String.length substring].
  - destruct t; reflexivity.
  - rewrite IH. reflexivity.
Qed.

Lemma substring_suffix (s t : string) :
  substring (String.length s) (String.length t) (s ++ t) = t.
Proof.
  induction s as [|ch s IH]; cbn [String.append String.length substring].
  - apply substring_all.
  - exact IH.
Qed.

(** [(s + t).endsWith(t)] *)
Lemma endsWith_append (s t : string) : JS.endsWith (s ++ t) t = true.
Proof.
  unfold JS.endsWith. rewrite length_append.
  replace (String.length s + String.length t - String.length t)%nat
    with (String.length s) by lia.
  rewrite substring_suffix, String.eqb_refl.
  replace (String.length t <=? String.length s + String.length t)%nat
    with true by (symmetry; apply Nat.leb_le; lia).
  reflexivity.
Qed.

(** [(s + t).slice(0, -t.length)] is [s]. *)
Lemma slice_append (s t : string) :
  JS.slice_to_minus (String.length t) (s ++ t) = s.
Proof.
  unfold JS.slice_to_minus. rewrite length_append.
  replace (String.length s + String.length t - String.length t)%nat
    with (String.length s) by lia.
  apply substring_prefix.
Qed.

End SuffixFacts.

Section TargetText.
Context {W : Collaborators}.
Import Spec JsonSpec.

(** The cases of [Target.fromString] on a string of the NAME class that
    is not a next-generation onion name. *)
Lemma fromString_name x0 str :
  IP_getStringType str = ST_NAME ->
  util_isName str = true ->
  onion_isNGString str = false ->
  let s := util_trimFQDN str in
  Target.fromString x0 str
  = inr (if JS.endsWith s HSKP then Target.mk rtypes.HNAME s
         else if JS.endsWith s ICANNP then Target.mk rtypes.INAME s
         else Target.mk rtypes.INAME (s ++ ICANNP)).
Proof.
  intros Hty Hname Hng s. unfold Target.fromString.
  rewrite Hty, Hname, Hng. cbn [assert bind ret]. fold s.
  destruct (JS.endsWith s HSKP); [reflexivity|].
  destruct (JS.endsWith s ICANNP); reflexivity.
Qed.

(** A target that passes [target_text_ok] is read back from its JSON
    form. *)
Lemma target_text_ok_inv x :
  target_text_ok x = true ->
  Target.fromJSON Target.new (Target.toJSON x) = inr x.
Proof.
  unfold target_text_ok, Target.fromJSON, Target.toJSON, Target.toString.
  cbn [Json.typeof_string Json.str assert bind ret].
  destruct (Target.fromString Target.new (Target.target x)) as [e|y];
    [discriminate|].
  intros H. apply andb_true_iff in H. destruct H as [Hty Htg].
  apply Z.eqb_eq in Hty. apply String.eqb_eq in Htg.
  destruct x, y. cbn [Target.type Target.target] in *. subst.
  reflexivity.
Qed.

End TargetText.
(* ===================================================================== *)
(** ** The JSON form of a record that has no TLS and no service entry *)
(* ===================================================================== *)

(** Passes the properties set after the one that is read. *)
Ltac skip_keys :=
  repeat first
    [ rewrite lookup_put_list_other by discriminate
    | rewrite lookup_put_opt_other by discriminate ].

(** The property a list leaves in the object. *)
Ltac get_list l :=
  unfold HSKRecord.toJSON; cbv zeta; cbn [Json.get]; skip_keys;
  destruct l; cbn [map HSKRecord.put_list];
  [skip_keys; reflexivity | apply lookup_set_same].

Section RecordJson.
Context {W : Collaborators}.
Import HSKRecord Spec JsonSpec.

Lemma mapM_map A (f : json -> result A) (g : A -> json) xs :
  Forall (fun x => f (g x) = inr x) xs -> mapM f (map g xs) = inr xs.
Proof.
  induction 1 as [|x xs Hx _ IH]; [reflexivity|].
  cbn [map mapM]. rewrite Hx. cbn [bind]. rewrite IH. reflexivity.
Qed.

(** A list property written by [toJSON] and read by the loop of
    [fromJSON]: absent when the list is empty, else an array whose
    elements are read back one by one. *)
Lemma each_listed A (j : json) key (f : json -> result A) (g : A -> json)
    push xs r :
  Json.get j key
  = match xs with [] => JUndefined | _ :: _ => JArr (map g xs) end ->
  Forall (fun x => f (g x) = inr x) xs ->
  each j key f push r = inr (fold_left (fun r x => push x r) xs r).
Proof.
  intros Hg Hf. unfold each. rewrite Hg. destruct xs as [|x xs].
  - reflexivity.
  - cbn [Json.present Json.isArray assert bind ret Json.elements].
    rewrite (mapM_map f g Hf). reflexivity.
Qed.

Lemma get_version r name :
  Json.get (toJSON r name) "version" = JNum (version r).
Proof.
  unfold toJSON. cbv zeta. cbn [Json.get]. skip_keys. reflexivity.
Qed.

Lemma get_ttl r name : Json.get (toJSON r name) "ttl" = JNum (ttl r).
Proof.
  unfold toJSON. cbv zeta. cbn [Json.get]. skip_keys. reflexivity.
Qed.

Lemma get_canonical r name :
  Json.get (toJSON r name) "canonical"
  = match canonical r with
    | Some x => Target.toJSON x
    | None => JUndefined
    end.
Proof.
  unfold toJSON. cbv zeta. cbn [Json.get]. skip_keys.
  destruct (canonical r); cbn [option_map put_opt];
    [apply lookup_set_same | skip_keys; reflexivity].
Qed.

Lemma get_delegate r name :
  Json.get (toJSON r name) "delegate"
  = match delegate r with
    | Some x => Target.toJSON x
    | None => JUndefined
    end.
Proof.
  unfold toJSON. cbv zeta. cbn [Json.get]. skip_keys.
  destruct (delegate r); cbn [option_map put_opt];
    [apply lookup_set_same | skip_keys; reflexivity].
Qed.

Lemma get_hosts r name :
  Json.get (toJSON r name) "hosts"
  = match hosts r with
    | [] => JUndefined
    | _ :: _ => JArr (map Target.toJSON (hosts r))
    end.
Proof. get_list (hosts r). Qed.

Lemma get_ns r name :
  Json.get (toJSON r name) "ns"
  = match ns r with
    | [] => JUndefined
    | _ :: _ => JArr (map Target.toJSON (ns r))
    end.
Proof. get_list (ns r). Qed.

Lemma get_url r name :
  Json.get (toJSON r name) "url"
  = match url r with
    | [] => JUndefined
    | _ :: _ => JArr (map JStr (url r))
    end.
Proof. get_list (url r). Qed.

Lemma get_email r name :
  Json.get (toJSON r name) "email"
  = match email r with
    | [] => JUndefined
    | _ :: _ => JArr (map JStr (email r))
    end.
Proof. get_list (email r). Qed.

Lemma get_text r name :
  Json.get (toJSON r name) "text"
  = match text r with
    | [] => JUndefined
    | _ :: _ => JArr (map JStr (text r))
    end.
Proof. get_list (text r). Qed.

Lemma get_location r name :
  Json.get (toJSON r name) "location"
  = match location r with
    | [] => JUndefined
    | _ :: _ => JArr (map Location.toJSON (location r))
    end.
Proof. get_list (location r). Qed.

Lemma get_magnet r name :
  Json.get (toJSON r name) "magnet"
  = match magnet r with
    | [] => JUndefined
    | _ :: _ => JArr (map Magnet.toJSON (magnet r))
    end.
Proof. get_list (magnet r). Qed.

Lemma get_ds r name :
  Json.get (toJSON r name) "ds"
  = match ds r with
    | [] => JUndefined
    | _ :: _ => JArr (map DS.toJSON (ds r))
    end.
Proof. get_list (ds r). Qed.

Lemma get_ssh r name :
  Json.get (toJSON r name) "ssh"
  = match ssh r with
    | [] => JUndefined
    | _ :: _ => JArr (map SSH.toJSON (ssh r))
    end.
Proof. get_list (ssh r). Qed.

Lemma get_pgp r name :
  Json.get (toJSON r name) "pgp"
  = match pgp r with
    | [] => JUndefined
    | _ :: _ => JArr (map PGP.toJSON (pgp r))
    end.
Proof. get_list (pgp r). Qed.

Lemma get_addr r name :
  Json.get (toJSON r name) "addr"
  = match addr r with
    | [] => JUndefined
    | _ :: _ => JArr (map Addr.toJSON (addr r))
    end.
Proof. get_list (addr r). Qed.

Lemma get_extra r name :
  Json.get (toJSON r name) "extra"
  = match extra r with
    | [] => JUndefined
    | _ :: _ => JArr (map Extra.toJSON (extra r))
    end.
Proof. get_list (extra r). Qed.

Lemma get_absent_service r name :
  service r = [] -> Json.get (toJSON r name) "service" = JUndefined.
Proof.
  intros H. unfold toJSON. cbv zeta. cbn [Json.get]. skip_keys.
  rewrite H. cbn [map put_list]. skip_keys. reflexivity.
Qed.

Lemma get_absent_tls r name :
  tls r = [] -> Json.get (toJSON r name) "tls" = JUndefined.
Proof.
  intros H. unfold toJSON. cbv zeta. cbn [Json.get]. skip_keys.
  rewrite H. cbn [map put_list]. skip_keys. reflexivity.
Qed.

Lemma short_string_ok s :
  short_str s = true -> short_string (JStr s) = inr s.
Proof.
  intros H. unfold short_string.
  cbn [Json.typeof_string Json.str assert bind ret].
  rewrite short_str_slen, H. reflexivity.
Qed.

Lemma nonempty_false A (xs : list A) :
  negb (Synth.nonempty xs) = true -> xs = [].
Proof. destruct xs; [reflexivity|discriminate]. Qed.

Lemma digest_small x : ds_ok x = true -> len8 (DS.digest x) < 2 ^ 31.
Proof.
  unfold ds_ok. intros H. apply andb_true_iff in H. destruct H as [_ H].
  apply short_inv in H. unfold len8. lia.
Qed.

Lemma fold_push_ds_plain xs : forall r,
  fold_left (fun r x => push_ds x r) xs r =
    mk (version r) (ttl r) (hosts r) (canonical r) (delegate r) (ns r)
      (service r) (url r) (email r) (text r) (location r) (magnet r)
      (ds r ++ xs) (tls r) (ssh r) (pgp r) (addr r) (extra r).
Proof.
  induction xs as [|x xs IH]; intros r; cbn [fold_left].
  - rewrite app_nil_r. destruct r; reflexivity.
  - rewrite IH. destruct r. cbn. rewrite <- app_assoc. reflexivity.
Qed.

(** Rewrites the innermost loop of pushes into the record it builds. *)
Ltac pushed L :=
  rewrite L;
  cbn [version ttl hosts canonical delegate ns service url email text
       location magnet ds tls ssh pgp addr extra app].

(** A record of the class [json_ok] is read back from its JSON form. *)
Lemma fromJSON_toJSON_ok (r : t) (name : string) :
  json_ok r = true -> fromJSON new (toJSON r name) = inr r.
Proof.
  intros Hok. unfold json_ok in Hok.
  apply andb_true_iff in Hok. destruct Hok as [Hok Hextra].
  apply andb_true_iff in Hok. destruct Hok as [Hok Haddr].
  apply andb_true_iff in Hok. destruct Hok as [Hok Hpgp].
  apply andb_true_iff in Hok. destruct Hok as [Hok Hssh].
  apply andb_true_iff in Hok. destruct Hok as [Hok Htls].
  apply andb_true_iff in Hok. destruct Hok as [Hok Hds].
  apply andb_true_iff in Hok. destruct Hok as [Hok Hmagnet].
  apply andb_true_iff in Hok. destruct Hok as [Hok Hlocation].
  apply andb_true_iff in Hok. destruct Hok as [Hok Htext].
  apply andb_true_iff in Hok. destruct Hok as [Hok Hemail].
  apply andb_true_iff in Hok. destruct Hok as [Hok Hurl].
  apply andb_true_iff in Hok. destruct Hok as [Hok Hservice].
  apply andb_true_iff in Hok. destruct Hok as [Hok Hns].
  apply andb_true_iff in Hok. destruct Hok as [Hok Hdelegate].
  apply andb_true_iff in Hok. destruct Hok as [Hok Hcanonical].
  apply andb_true_iff in Hok. destruct Hok as [Hok Hhosts].
  apply andb_true_iff in Hok. destruct Hok as [Hversion Httl].
  apply Z.eqb_eq in Hversion.
  apply nonempty_false in Hservice, Htls.
  assert (Fhosts : Forall (fun x => Target.fromJSON Target.new
                                      (Target.toJSON x) = inr x) (hosts r))
    by (eapply Forall_forallb; [|exact Hhosts];
        intros; apply target_text_ok_inv; assumption).
  assert (Fns : Forall (fun x => Target.fromJSON Target.new
                                   (Target.toJSON x) = inr x) (ns r))
    by (eapply Forall_forallb; [|exact Hns];
        intros; apply target_text_ok_inv; assumption).
  assert (Furl : Forall (fun x => short_string (JStr x) = inr x) (url r))
    by (eapply Forall_forallb; [|exact Hurl];
        intros; apply short_string_ok; assumption).
  assert (Femail : Forall (fun x => short_string (JStr x) = inr x)
                     (email r))
    by (eapply Forall_forallb; [|exact Hemail];
        intros; apply short_string_ok; assumption).
  assert (Ftext : Forall (fun x => short_string (JStr x) = inr x) (text r))
    by (eapply Forall_forallb; [|exact Htext];
        intros; apply short_string_ok; assumption).
  assert (Flocation : Forall (fun x => Location.fromJSON
                                         (Location.toJSON x) = inr x)
                        (location r)).
  { eapply Forall_forallb; [|exact Hlocation]. intros x Hx.
    rewrite Location_fromJSON_toJSON, Hx. reflexivity. }
  assert (Fmagnet : Forall (fun x => Magnet.fromJSON (Magnet.toJSON x)
                                     = inr x) (magnet r))
    by (eapply Forall_forallb; [|exact Hmagnet];
        intros; apply Magnet_fromString_toString; assumption).
  assert (Fds : Forall (fun x => DS.fromJSON (DS.toJSON x) = inr x)
                  (ds r)).
  { eapply Forall_forallb; [|exact Hds]. intros x Hx.
    rewrite DS_fromJSON_toJSON by (apply digest_small, Hx).
    rewrite Hx. reflexivity. }
  assert (Fssh : Forall (fun x => SSH.fromJSON (SSH.toJSON x) = inr x)
                   (ssh r)).
  { eapply Forall_forallb; [|exact Hssh]. intros x Hx.
    rewrite SSH_fromJSON_toJSON, Hx. reflexivity. }
  assert (Fpgp : Forall (fun x => PGP.fromJSON (PGP.toJSON x) = inr x)
                   (pgp r)).
  { eapply Forall_forallb; [|exact Hpgp]. intros x Hx.
    rewrite SSH_fromJSON_toJSON, Hx. reflexivity. }
  assert (Faddr : Forall (fun x => Addr.fromJSON (Addr.toJSON x) = inr x)
                    (addr r))
    by (eapply Forall_forallb; [|exact Haddr];
        intros; apply Addr_fromString_toString; assumption).
  assert (Fextra : Forall (fun x => Extra.fromJSON (Extra.toJSON x)
                                    = inr x) (extra r)).
  { eapply Forall_forallb; [|exact Hextra]. intros x Hx.
    rewrite Extra_fromJSON_toJSON, Hx. reflexivity. }
  unfold fromJSON.
  replace (Json.is_object (toJSON r name)) with true by reflexivity.
  cbn [assert bind ret].
  rewrite get_version, get_ttl, Hversion.
  cbn [Json.present Json.num Z.eqb assert bind ret].
  rewrite is_u32_in_u32, Httl. cbn [assert bind ret].
  rewrite (each_listed _ _ _ Target.toJSON push_hosts _
             (get_hosts r name) Fhosts).
  cbn [bind]. rewrite get_canonical, get_delegate.
  assert (Hcan : forall r0,
    (let v := match canonical r with
              | Some x => Target.toJSON x
              | None => JUndefined
              end in
     if Json.present v
     then x <- Target.fromJSON Target.new v ;;
          ret (set_canonical (Some x) r0)
     else ret r0)
    = inr (put_canonical (canonical r) r0)).
  { intros r0. destruct (canonical r) as [x|]; [|reflexivity].
    cbn [opt_ok] in Hcanonical. cbv zeta.
    replace (Json.present (Target.toJSON x)) with true by reflexivity.
    rewrite (target_text_ok_inv x Hcanonical). reflexivity. }
  assert (Hdel : forall r0,
    (let v := match delegate r with
              | Some x => Target.toJSON x
              | None => JUndefined
              end in
     if Json.present v
     then x <- Target.fromJSON Target.new v ;;
          ret (set_delegate (Some x) r0)
     else ret r0)
    = inr (put_delegate (delegate r) r0)).
  { intros r0. destruct (delegate r) as [x|]; [|reflexivity].
    cbn [opt_ok] in Hdelegate. cbv zeta.
    replace (Json.present (Target.toJSON x)) with true by reflexivity.
    rewrite (target_text_ok_inv x Hdelegate). reflexivity. }
  rewrite Hcan. cbn [bind]. rewrite Hdel. cbn [bind].
  rewrite (each_listed _ _ _ Target.toJSON push_ns _
             (get_ns r name) Fns).
  cbn [bind].
  assert (Hsrv : forall r0,
    each (toJSON r name) "service" Service.fromJSON push_service r0
    = inr r0)
    by (intros r0; unfold each; rewrite (get_absent_service r name Hservice);
        reflexivity).
  rewrite Hsrv. cbn [bind].
  rewrite (each_listed _ _ _ JStr push_url _ (get_url r name) Furl).
  cbn [bind].
  rewrite (each_listed _ _ _ JStr push_email _ (get_email r name) Femail).
  cbn [bind].
  rewrite (each_listed _ _ _ JStr push_text _ (get_text r name) Ftext).
  cbn [bind].
  rewrite (each_listed _ _ _ Location.toJSON push_location _
             (get_location r name) Flocation).
  cbn [bind].
  rewrite (each_listed _ _ _ Magnet.toJSON push_magnet _
             (get_magnet r name) Fmagnet).
  cbn [bind].
  rewrite (each_listed _ _ _ DS.toJSON push_ds _ (get_ds r name) Fds).
  cbn [bind].
  assert (Htl : forall r0,
    each (toJSON r name) "tls" TLS.fromJSON push_tls r0 = inr r0)
    by (intros r0; unfold each; rewrite (get_absent_tls r name Htls);
        reflexivity).
  rewrite Htl. cbn [bind].
  rewrite (each_listed _ _ _ SSH.toJSON push_ssh _ (get_ssh r name) Fssh).
  cbn [bind].
  rewrite (each_listed _ _ _ PGP.toJSON push_pgp _ (get_pgp r name) Fpgp).
  cbn [bind].
  rewrite (each_listed _ _ _ Addr.toJSON push_addr _
             (get_addr r name) Faddr).
  cbn [bind].
  rewrite (each_listed _ _ _ Extra.toJSON push_extra _
             (get_extra r name) Fextra).
  cbn [bind]. unfold ret. f_equal.
  destruct r as [v tt hs cn dl nss sv ur em tx lc mg dss tl sh pg ad ex].
  cbn [version ttl hosts canonical delegate ns service url email text
       location magnet ds tls ssh pgp addr extra] in *.
  subst v sv tl.
  rewrite fold_push_hosts.
  cbn [set_ttl set_version new version ttl hosts canonical delegate ns
       service url email text location magnet ds tls ssh pgp addr
       extra app].
  destruct cn; destruct dl;
    cbn [put_canonical put_delegate set_canonical set_delegate
         version ttl hosts canonical delegate ns service url email
         text location magnet ds tls ssh pgp addr extra];
    pushed fold_push_ns; pushed fold_push_url; pushed fold_push_email;
    pushed fold_push_text; pushed fold_push_location;
    pushed fold_push_magnet; pushed fold_push_ds_plain;
    pushed fold_push_ssh; pushed fold_push_pgp; pushed fold_push_addr;
    pushed fold_push_extra; reflexivity.
Qed.

End RecordJson.
(* ===================================================================== *)
(** ** What the synthesizer emits *)
(* ===================================================================== *)

(** Finds a literal type among [emitted_types]. *)
Ltac in_types :=
  unfold DnsSpec.emitted_types; cbn [In];
  repeat first [left; reflexivity | right].

Ltac built_rr :=
  split; [reflexivity | cbn [RR.type]; in_types].

(** A list of one built record. *)
Ltac single_built := constructor; [built_rr | constructor].

Section Built.
Context {W : Collaborators}.
Import HSKRecord Synth Spec DnsSpec.

Lemma Forall_map_built A (f : A -> RR.t) (r : t) xs :
  (forall x, built r (f x)) -> Forall (built r) (map f xs).
Proof.
  intros H. apply Forall_forall. intros rr Hin.
  apply in_map_iff in Hin. destruct Hin as [x [<- _]]. apply H.
Qed.

Lemma toTorTXT_built r name : built r (toTorTXT r name).
Proof. built_rr. Qed.

Lemma toA_built r name : Forall (built r) (toA r name).
Proof.
  unfold toA. apply Forall_app. split.
  - apply Forall_map_built. intros x. built_rr.
  - destruct (hasTor r); [|constructor].
    constructor; [apply toTorTXT_built|constructor].
Qed.

Lemma toAAAA_built r name : Forall (built r) (toAAAA r name).
Proof.
  unfold toAAAA. apply Forall_app. split.
  - apply Forall_map_built. intros x. built_rr.
  - destruct (hasTor r); [|constructor].
    constructor; [apply toTorTXT_built|constructor].
Qed.

Lemma toCNAME_built r name l :
  toCNAME r name = inr l -> Forall (built r) l.
Proof.
  unfold toCNAME. destruct (canonical r) as [c|].
  - destruct (Target.isName c); cbn [assert bind ret]; [|discriminate].
    intros H. inversion H. single_built.
  - intros H. inversion H. constructor.
Qed.

Lemma toDNAME_built r name l :
  toDNAME r name = inr l -> Forall (built r) l.
Proof.
  unfold toDNAME. destruct (delegate r) as [c|].
  - destruct (Target.isName c); cbn [assert bind ret]; [|discriminate].
    intros H. inversion H. single_built.
  - intros H. inversion H. constructor.
Qed.

Lemma toNS_built r name naked l :
  toNS r name naked = inr l -> Forall (built r) l.
Proof.
  unfold toNS. apply collectM_Forall. intros x y. cbv beta.
  destruct (targetName x name naked) as [e|o]; [discriminate|].
  cbn [bind]. destruct (negb (JS.truthy o)); intros H; inversion H.
  built_rr.
Qed.

Lemma glue_built r x name rr : glue r x name = inr rr -> built r rr.
Proof.
  unfold glue. destruct (Target.toPointer x name) as [e|p];
    [discriminate|].
  cbn [bind ret]. intros H. inversion H.
  destruct (Target.isINET4 x); built_rr.
Qed.

Lemma toNSIP_built r name naked l :
  toNSIP r name naked = inr l -> Forall (built r) l.
Proof.
  unfold toNSIP. destruct (negb naked).
  - intros H. inversion H. constructor.
  - apply collectM_Forall. intros x y. cbv beta.
    destruct (negb (Target.isINET x)); [discriminate|].
    destruct (glue r x name) as [e|rr] eqn:E; [discriminate|].
    cbn [bind ret]. intros H. inversion H; subst.
    eapply glue_built, E.
Qed.

Lemma toMX_built r name naked l :
  toMX r name naked = inr l -> Forall (built r) l.
Proof.
  unfold toMX. apply collectM_Forall. intros x y. cbv beta.
  destruct (negb (Service.isSMTP x)); [discriminate|].
  destruct (targetName (Service.target x) name naked) as [e|o];
    [discriminate|].
  cbn [bind]. destruct (negb (JS.truthy o)); intros H; inversion H.
  built_rr.
Qed.

Lemma toSRV_built r name naked l :
  toSRV r name naked = inr l -> Forall (built r) l.
Proof.
  unfold toSRV. apply collectM_Forall. intros x y. cbv beta.
  destruct (targetName (Service.target x) name naked) as [e|o];
    [discriminate|].
  cbn [bind]. destruct (negb (JS.truthy o)); intros H; inversion H.
  built_rr.
Qed.

Lemma toSRVIP_built r name naked mx l :
  toSRVIP r name naked mx = inr l -> Forall (built r) l.
Proof.
  unfold toSRVIP. destruct (negb naked).
  - intros H. inversion H. constructor.
  - apply collectM_Forall. intros x y. cbv beta.
    destruct (mx && negb (Service.isSMTP x)); [discriminate|].
    destruct (negb (Target.isINET (Service.target x))); [discriminate|].
    destruct (glue r (Service.target x) name) as [e|rr] eqn:E;
      [discriminate|].
    cbn [bind ret]. intros H. inversion H; subst.
    eapply glue_built, E.
Qed.

Lemma toSOA_built r name l :
  toSOA r name = inr l -> Forall (built r) l.
Proof.
  unfold toSOA. destruct (util_isFQDN name); cbn [assert bind ret];
    [|discriminate].
  destruct (toNS r _ false) as [e|ns]; [discriminate|]. cbn [bind].
  destruct (toMX r _ false) as [e|mx]; [discriminate|]. cbn [bind ret].
  intros H. inversion H. single_built.
Qed.

Lemma toLOC_built r name : Forall (built r) (toLOC r name).
Proof. apply Forall_map_built. intros x. built_rr. Qed.

Lemma toDS_built r name : Forall (built r) (toDS r name).
Proof. apply Forall_map_built. intros x. built_rr. Qed.

Lemma toTLSA_built r name : Forall (built r) (toTLSA r name).
Proof. apply Forall_map_built. intros x. built_rr. Qed.

Lemma toOPENPGPKEY_built r name : Forall (built r) (toOPENPGPKEY r name).
Proof. apply Forall_map_built. intros x. built_rr. Qed.

Lemma toTXT_built r name : Forall (built r) (toTXT r name).
Proof.
  unfold toTXT.
  repeat (apply Forall_app; split);
    match goal with
    | |- Forall _ (if ?b then _ else _) =>
        destruct b; [single_built | constructor]
    end.
Qed.

Lemma referral_built r tld naked res :
  referral r tld naked (Message.set_ad true (Message.set_qr true Message.new))
  = inr res ->
  Forall (built r) (sections res).
Proof.
  unfold referral.
  destruct (nonempty (ns r)).
  - destruct (toNS r tld naked) as [e|au] eqn:Ea; [discriminate|].
    cbn [bind].
    destruct (toNSIP r tld naked) as [e|ad] eqn:Ed; [discriminate|].
    cbn [bind ret]. intros H. inversion H. unfold sections.
    cbn [Message.answer Message.authority Message.additional
         Message.setEDNS0 Message.set_authority Message.set_additional
         Message.set_ad Message.set_qr Message.new app].
    apply Forall_app. split; [apply Forall_app; split|].
    + eapply toNS_built, Ea.
    + apply toDS_built.
    + eapply toNSIP_built, Ed.
  - destruct (is_set (delegate r)).
    + destruct (toDNAME r tld) as [e|an] eqn:Ea; [discriminate|].
      cbn [bind ret]. intros H. inversion H. unfold sections.
      cbn [Message.answer Message.authority Message.additional
           Message.setEDNS0 Message.set_authority Message.set_answer
           Message.set_ad Message.set_qr Message.new app].
      rewrite app_nil_r. apply Forall_app. split.
      * eapply toDNAME_built, Ea.
      * apply toDS_built.
    + destruct (toSOA r tld) as [e|au] eqn:Ea; [discriminate|].
      cbn [bind ret]. intros H. inversion H. unfold sections.
      cbn [Message.answer Message.authority Message.additional
           Message.setEDNS0 Message.set_authority Message.set_answer
           Message.set_ad Message.set_qr Message.new app].
      rewrite app_nil_r. apply Forall_app. split.
      * eapply toSOA_built, Ea.
      * apply toDS_built.
Qed.

(** Every branch of the [switch] fills the answer and, for some types,
    the additional section; it leaves the authority section and the
    flags as they were. *)
Lemma dispatch_sections r name type naked m res :
  dispatch r name type naked m = inr res ->
  exists an ad,
    res = Message.mk (Message.qr m) (Message.ad m) (Message.aa m)
            an (Message.authority m) ad (Message.edns m)
    /\ (Forall (built r) (Message.answer m) -> Forall (built r) an)
    /\ (Forall (built r) (Message.additional m) -> Forall (built r) ad).
Proof.
  destruct m as [q a0 a1 an0 au0 ad0 ed0]. unfold dispatch.
  repeat match goal with
         | |- (if ?b then _ else _) = _ -> _ => destruct b
         end;
    repeat match goal with
           | |- bind ?m0 _ = _ -> _ =>
               let E := fresh "E" in
               destruct m0 eqn:E; [discriminate|]; cbn [bind ret]
           end;
    intros H; inversion H; subst;
    unfold Message.set_additional, Message.set_answer;
    cbn [Message.qr Message.ad Message.aa Message.answer
         Message.authority Message.additional Message.edns];
    do 2 eexists; (split; [reflexivity|]); split; intros Hm;
    repeat match goal with
           | |- Forall _ (_ ++ _) => apply Forall_app; split
           end;
    first [ exact Hm
          | apply toA_built | apply toAAAA_built | apply toTXT_built
          | apply toLOC_built | apply toDS_built | apply toTLSA_built
          | apply toOPENPGPKEY_built
          | eapply toSOA_built; eassumption
          | eapply toNS_built; eassumption
          | eapply toNSIP_built; eassumption
          | eapply toCNAME_built; eassumption
          | eapply toDNAME_built; eassumption
          | eapply toMX_built; eassumption
          | eapply toSRV_built; eassumption
          | eapply toSRVIP_built; eassumption
          | unfold toMXIP in *; eapply toSRVIP_built; eassumption ].
Qed.

Lemma nonempty_nil A (xs : list A) : nonempty xs = false -> xs = [].
Proof. destruct xs; [reflexivity|discriminate]. Qed.

Lemma nonempty_cons A (xs : list A) : nonempty xs = true -> xs <> [].
Proof. destruct xs; [discriminate|intros _ H; discriminate H]. Qed.

(** The fallbacks replace an empty answer by one record and leave the
    rest of the message alone but for the EDNS option. *)
Lemma fallback_sections r name m res :
  fallback r name m = inr res ->
  exists an,
    res = Message.mk (Message.qr m) (Message.ad m) (Message.aa m)
            an (Message.authority m) (Message.additional m)
            (Some (4096, true))
    /\ (Forall (built r) (Message.answer m) -> Forall (built r) an)
    /\ (Message.authority m = [] -> an <> []).
Proof.
  unfold fallback. cbv zeta.
  destruct (nonempty (Message.answer m)) eqn:Ean; cbn [negb andb].
  - cbn [bind ret]. intros H. inversion H.
    exists (Message.answer m). unfold Message.setEDNS0.
    repeat split; [auto|]. intros _. apply nonempty_cons, Ean.
  - destruct (nonempty (Message.authority m)) eqn:Eau; cbn [negb andb].
    + cbn [bind ret]. intros H. inversion H.
      exists (Message.answer m). unfold Message.setEDNS0.
      repeat split; [auto|]. intros Hnil. rewrite Hnil in Eau.
      discriminate.
    + destruct (canonical r) as [c|] eqn:Ec; cbn [is_set].
      * destruct (toCNAME r name) as [e|an] eqn:Ea; [discriminate|].
        cbn [bind ret]. intros H. inversion H. exists an.
        unfold Message.setEDNS0, Message.set_answer.
        cbn [Message.qr Message.ad Message.aa Message.answer
             Message.authority Message.additional Message.edns].
        repeat split.
        -- intros _. eapply toCNAME_built, Ea.
        -- intros _. unfold toCNAME in Ea. rewrite Ec in Ea.
           destruct (Target.isName c); cbn [assert bind ret] in Ea;
             [|discriminate].
           inversion Ea. discriminate.
      * destruct (toSOA r name) as [e|an] eqn:Ea; [discriminate|].
        cbn [bind ret]. intros H. inversion H. exists an.
        unfold Message.setEDNS0, Message.set_answer.
        cbn [Message.qr Message.ad Message.aa Message.answer
             Message.authority Message.additional Message.edns].
        repeat split.
        -- intros _. eapply toSOA_built, Ea.
        -- intros _. unfold toSOA in Ea.
           destruct (util_isFQDN name); cbn [assert bind ret] in Ea;
             [|discriminate].
           destruct (toNS r _ false); [discriminate|]. cbn [bind] in Ea.
           destruct (toMX r _ false); [discriminate|].
           cbn [bind ret] in Ea. inversion Ea. discriminate.
Qed.

(** Every record of a response is built from the record set: it has
    the TTL of the record set and one of the emitted types. *)
Lemma toDNS_built r name type naked res :
  toDNS r name type naked = inr res -> Forall (built r) (sections res).
Proof.
  unfold toDNS. destruct (util_isFQDN name); cbn [assert bind ret];
    [|discriminate].
  destruct (1 <? Z.of_nat (List.length (util_split name))).
  - apply referral_built.
  - destruct (dispatch r name type true _) as [e|m] eqn:Ed;
      [discriminate|].
    cbn [bind]. intros Hf.
    destruct (dispatch_sections _ _ _ _ _ Ed) as (an & ad & -> & Han & Had).
    destruct (fallback_sections _ _ _ Hf) as (an' & -> & Han' & _).
    cbn [Message.qr Message.ad Message.aa Message.answer
         Message.authority Message.additional Message.edns
         Message.set_aa Message.set_ad Message.set_qr Message.new] in *.
    unfold sections.
    cbn [Message.answer Message.authority Message.additional app].
    apply Forall_app. split.
    + apply Han', Han. constructor.
    + apply Had. constructor.
Qed.

(** The shape of an authoritative response. *)
Lemma toDNS_authoritative r name type naked res :
  (List.length (util_split name) <= 1)%nat ->
  toDNS r name type naked = inr res ->
  Message.qr res = true /\ Message.ad res = true /\ Message.aa res = true
  /\ Message.edns res = Some (4096, true)
  /\ Message.authority res = [] /\ Message.answer res <> [].
Proof.
  intros Hl. unfold toDNS.
  destruct (util_isFQDN name); cbn [assert bind ret]; [|discriminate].
  replace (1 <? Z.of_nat (List.length (util_split name))) with false
    by (symmetry; apply Z.ltb_ge; lia).
  destruct (dispatch r name type true _) as [e|m] eqn:Ed; [discriminate|].
  cbn [bind]. intros Hf.
  destruct (dispatch_sections _ _ _ _ _ Ed) as (an & ad & -> & _ & _).
  destruct (fallback_sections _ _ _ Hf) as (an' & -> & _ & Hne).
  cbn [Message.qr Message.ad Message.aa Message.answer
       Message.authority Message.additional Message.edns
       Message.set_aa Message.set_ad Message.set_qr Message.new] in *.
  repeat split. apply Hne. reflexivity.
Qed.

End Built.
(* ===================================================================== *)
(** ** Pointer names, glue, and when the synthesizer returns *)
(* ===================================================================== *)

Section CollectPairs.
Context {A B C : Type}.

(** Two loops over the same list: what the second pushes is matched by
    something the first pushes. *)
Lemma collectM_related (f : A -> result (option B))
    (g : A -> result (option C)) (R : C -> B -> Prop) xs :
  (forall x c, g x = inr (Some c) ->
               forall o, f x = inr o -> exists b, o = Some b /\ R c b) ->
  forall lb lc,
    collectM f xs = inr lb -> collectM g xs = inr lc ->
    Forall (fun c => exists b, In b lb /\ R c b) lc.
Proof.
  intros Hfg. induction xs as [|x xs IH]; intros lb lc Hf Hg;
    cbn [collectM] in Hf, Hg.
  - inversion Hg. constructor.
  - destruct (f x) as [e|ob] eqn:Ef; [discriminate|]. cbn [bind] in Hf.
    destruct (collectM f xs) as [e|lb'] eqn:Efs; [discriminate|].
    cbn [bind ret] in Hf. inversion Hf; subst lb.
    destruct (g x) as [e|oc] eqn:Eg; [discriminate|]. cbn [bind] in Hg.
    destruct (collectM g xs) as [e|lc'] eqn:Egs; [discriminate|].
    cbn [bind ret] in Hg. inversion Hg; subst lc.
    assert (Htail : Forall (fun c => exists b,
              In b (match ob with Some y => y :: lb' | None => lb' end)
              /\ R c b) lc').
    { eapply Forall_impl; [|apply (IH lb' lc' eq_refl eq_refl)].
      intros c [b [Hin HR]]. exists b. split; [|exact HR].
      destruct ob; [right|]; exact Hin. }
    destruct oc as [c|]; [|exact Htail].
    constructor; [|exact Htail].
    destruct (Hfg x c Eg ob Ef) as [b [-> HR]].
    exists b. split; [left; reflexivity|exact HR].
Qed.
End CollectPairs.

Section Serve.
Context {W : Collaborators}.
Import HSKRecord Synth Spec DnsSpec.

Lemma isINET_not_name x :
  Target.isINET x = true -> Target.isName x = false.
Proof.
  unfold Target.isINET, Target.isName, rtypes.INET6, rtypes.ONIONNG.
  intros H. apply Z.leb_le in H. apply Z.ltb_ge. lia.
Qed.

(** The name [targetName] gives an inline address when [naked] is set:
    its pointer, which is never the empty string. *)
Lemma targetName_pointer x name p o :
  Target.isINET x = true ->
  Target.toPointer x name = inr p ->
  targetName x name true = inr o ->
  o = Some p /\ JS.truthy o = true.
Proof.
  intros Hinet Hp. unfold targetName.
  rewrite (isINET_not_name x Hinet), Hinet, Hp. cbn [andb bind ret].
  intros H. inversion H. split; [reflexivity|].
  unfold Target.toPointer in Hp. rewrite Hinet in Hp.
  cbn [assert bind ret] in Hp.
  destruct (IP_decode (Target.target x)); [discriminate|].
  cbn [bind ret] in Hp. inversion Hp. reflexivity.
Qed.

Lemma glue_name r x name rr :
  glue r x name = inr rr -> Target.toPointer x name = inr (RR.name rr).
Proof.
  unfold glue. destruct (Target.toPointer x name) as [e|p];
    [discriminate|].
  cbn [bind ret]. intros H. inversion H.
  destruct (Target.isINET4 x); reflexivity.
Qed.

(** Each glue record of [toNSIP] is named by the target of an NS
    record of [toNS]. *)
Lemma toNSIP_matches_toNS r name auth add :
  toNS r name true = inr auth -> toNSIP r name true = inr add ->
  Forall (fun g => exists n, In n auth
                             /\ RR.data n = NSRecord (RR.name g)) add.
Proof.
  unfold toNS, toNSIP. cbn [negb]. apply collectM_related.
  intros x g. cbv beta.
  destruct (Target.isINET x) eqn:Hinet; cbn [negb]; [|discriminate].
  destruct (glue r x name) as [e|rr] eqn:Eg; [discriminate|].
  cbn [bind ret]. intros H o. inversion H; subst g.
  apply glue_name in Eg.
  destruct (targetName x name true) as [e|nm] eqn:En; [discriminate|].
  destruct (targetName_pointer x name Hinet Eg En) as [-> Ht].
  cbn [bind]. rewrite Ht. cbn [negb ret]. intros Ho. inversion Ho.
  eexists. split; reflexivity.
Qed.

(** Each glue record of [toMXIP] is named by the exchange of an MX
    record of [toMX]. *)
Lemma toMXIP_matches_toMX r name ans add :
  toMX r name true = inr ans -> toMXIP r name true = inr add ->
  Forall (fun g => exists n, In n ans
                             /\ exists p, RR.data n
                                          = MXRecord p (RR.name g)) add.
Proof.
  unfold toMX, toMXIP, toSRVIP. cbn [negb andb]. apply collectM_related.
  intros x g. cbv beta.
  destruct (Service.isSMTP x); cbn [negb]; [|discriminate].
  destruct (Target.isINET (Service.target x)) eqn:Hinet; cbn [negb];
    [|discriminate].
  destruct (glue r (Service.target x) name) as [e|rr] eqn:Eg;
    [discriminate|].
  cbn [bind ret]. intros H o. inversion H; subst g.
  apply glue_name in Eg.
  destruct (targetName (Service.target x) name true) as [e|nm] eqn:En;
    [discriminate|].
  destruct (targetName_pointer _ name Hinet Eg En) as [-> Ht].
  cbn [bind]. rewrite Ht. cbn [negb ret]. intros Ho. inversion Ho.
  eexists. split; [reflexivity|]. eexists. reflexivity.
Qed.

(** Each glue record of [toSRVIP] is named by the target of an SRV
    record of [toSRV]. *)
Lemma toSRVIP_matches_toSRV r name ans add :
  toSRV r name true = inr ans -> toSRVIP r name true false = inr add ->
  Forall (fun g => exists n, In n ans
                             /\ exists p w po,
                                  RR.data n
                                  = SRVRecord p w (RR.name g) po) add.
Proof.
  unfold toSRV, toSRVIP. cbn [negb andb]. apply collectM_related.
  intros x g. cbv beta.
  destruct (Target.isINET (Service.target x)) eqn:Hinet; cbn [negb];
    [|discriminate].
  destruct (glue r (Service.target x) name) as [e|rr] eqn:Eg;
    [discriminate|].
  cbn [bind ret]. intros H o. inversion H; subst g.
  apply glue_name in Eg.
  destruct (targetName (Service.target x) name true) as [e|nm] eqn:En;
    [discriminate|].
  destruct (targetName_pointer _ name Hinet Eg En) as [-> Ht].
  cbn [bind]. rewrite Ht. cbn [negb ret]. intros Ho. inversion Ho.
  eexists. split; [reflexivity|]. do 3 eexists. reflexivity.
Qed.

(** *** Records the synthesizer never throws on *)

Lemma toPointer_total x name :
  Target.isINET x = true -> glue_ok x = true ->
  exists p, Target.toPointer x name = inr p.
Proof.
  unfold glue_ok, Target.toPointer. intros Hinet H. rewrite Hinet in *.
  cbn [negb orb assert bind ret] in *.
  destruct (IP_decode (Target.target x)); [discriminate|].
  eexists. reflexivity.
Qed.

Lemma targetName_total x name naked :
  glue_ok x = true -> exists o, targetName x name naked = inr o.
Proof.
  intros H. unfold targetName.
  destruct (Target.isName x); [eexists; reflexivity|].
  destruct naked; cbn [andb]; [|eexists; reflexivity].
  destruct (Target.isINET x) eqn:Hinet; [|eexists; reflexivity].
  destruct (toPointer_total x name Hinet H) as [p Hp]. rewrite Hp.
  eexists. reflexivity.
Qed.

Lemma glue_total r x name :
  Target.isINET x = true -> glue_ok x = true ->
  exists rr, glue r x name = inr rr.
Proof.
  intros Hinet H. unfold glue.
  destruct (toPointer_total x name Hinet H) as [p Hp]. rewrite Hp.
  eexists. reflexivity.
Qed.

Lemma toNS_total r name naked :
  forallb glue_ok (ns r) = true -> exists l, toNS r name naked = inr l.
Proof.
  intros H. unfold toNS. apply collectM_total. intros x Hin. cbv beta.
  rewrite forallb_forall in H.
  destruct (targetName_total x name naked (H x Hin)) as [o Ho].
  rewrite Ho. cbn [bind].
  destruct (negb (JS.truthy o)); eexists; reflexivity.
Qed.

Lemma toNSIP_total r name naked :
  forallb glue_ok (ns r) = true -> exists l, toNSIP r name naked = inr l.
Proof.
  intros H. unfold toNSIP.
  destruct (negb naked); [eexists; reflexivity|].
  apply collectM_total. intros x Hin. cbv beta.
  rewrite forallb_forall in H.
  destruct (Target.isINET x) eqn:Hinet; cbn [negb];
    [|eexists; reflexivity].
  destruct (glue_total r x name Hinet (H x Hin)) as [rr Hrr].
  rewrite Hrr. eexists. reflexivity.
Qed.

Lemma toMX_total r name naked :
  forallb (fun s => glue_ok (Service.target s)) (service r) = true ->
  exists l, toMX r name naked = inr l.
Proof.
  intros H. unfold toMX. apply collectM_total. intros x Hin. cbv beta.
  rewrite forallb_forall in H.
  destruct (negb (Service.isSMTP x)); [eexists; reflexivity|].
  destruct (targetName_total (Service.target x) name naked (H x Hin))
    as [o Ho].
  rewrite Ho. cbn [bind].
  destruct (negb (JS.truthy o)); eexists; reflexivity.
Qed.

Lemma toSRV_total r name naked :
  forallb (fun s => glue_ok (Service.target s)) (service r) = true ->
  exists l, toSRV r name naked = inr l.
Proof.
  intros H. unfold toSRV. apply collectM_total. intros x Hin. cbv beta.
  rewrite forallb_forall in H.
  destruct (targetName_total (Service.target x) name naked (H x Hin))
    as [o Ho].
  rewrite Ho. cbn [bind].
  destruct (negb (JS.truthy o)); eexists; reflexivity.
Qed.

Lemma toSRVIP_total r name naked mx :
  forallb (fun s => glue_ok (Service.target s)) (service r) = true ->
  exists l, toSRVIP r name naked mx = inr l.
Proof.
  intros H. unfold toSRVIP.
  destruct (negb naked); [eexists; reflexivity|].
  apply collectM_total. intros x Hin. cbv beta.
  rewrite forallb_forall in H.
  destruct (mx && negb (Service.isSMTP x)); [eexists; reflexivity|].
  destruct (Target.isINET (Service.target x)) eqn:Hinet; cbn [negb];
    [|eexists; reflexivity].
  destruct (glue_total r (Service.target x) name Hinet (H x Hin))
    as [rr Hrr].
  rewrite Hrr. eexists. reflexivity.
Qed.

Lemma toCNAME_total r name :
  opt_ok Target.isName (canonical r) = true ->
  exists l, toCNAME r name = inr l.
Proof.
  unfold toCNAME. destruct (canonical r) as [c|]; cbn [opt_ok].
  - intros ->. eexists. reflexivity.
  - intros _. eexists. reflexivity.
Qed.

Lemma toDNAME_total r name :
  opt_ok Target.isName (delegate r) = true ->
  exists l, toDNAME r name = inr l.
Proof.
  unfold toDNAME. destruct (delegate r) as [c|]; cbn [opt_ok].
  - intros ->. eexists. reflexivity.
  - intros _. eexists. reflexivity.
Qed.

Lemma toSOA_total r name :
  util_isFQDN name = true -> exists l, toSOA r name = inr l.
Proof.
  intros H. unfold toSOA. rewrite H. cbn [assert bind ret].
  destruct (toNS_not_naked r (util_from2 name (-1))) as [ns [-> _]].
  cbn [bind].
  destruct (toMX_not_naked r (util_from2 name (-1))) as [mx [-> _]].
  eexists. reflexivity.
Qed.

(** [toDNS] returns a message for every record of the class
    [servable]. *)
Lemma toDNS_total r name type naked :
  servable r = true ->
  util_isFQDN name = true ->
  ((1 < List.length (util_split name))%nat ->
   util_isFQDN (util_from name (util_split name) (-1)) = true) ->
  exists res, toDNS r name type naked = inr res.
Proof.
  intros Hs Hfq Htld. unfold servable in Hs.
  apply andb_true_iff in Hs. destruct Hs as [Hs Hsrv].
  apply andb_true_iff in Hs. destruct Hs as [Hs Hns].
  apply andb_true_iff in Hs. destruct Hs as [Hcan Hdel].
  unfold toDNS. rewrite Hfq. cbn [assert bind ret].
  destruct (Z.ltb_spec 1 (Z.of_nat (List.length (util_split name))))
    as [Hl|Hl].
  - specialize (Htld ltac:(lia)). unfold referral.
    set (tld := util_from name (util_split name) (-1)) in *.
    destruct (nonempty (ns r)).
    + destruct (toNS_total r tld true Hns) as [l1 ->]. cbn [bind].
      destruct (toNSIP_total r tld true Hns) as [l2 ->]. cbn [bind ret].
      eexists. reflexivity.
    + destruct (is_set (delegate r)).
      * destruct (toDNAME_total r tld Hdel) as [l ->]. cbn [bind ret].
        eexists. reflexivity.
      * destruct (toSOA_total r tld Htld) as [l ->]. cbn [bind ret].
        eexists. reflexivity.
  - assert (Hd : exists m, dispatch r name type true
                             (Message.set_aa true
                                (Message.set_ad true
                                   (Message.set_qr true Message.new)))
                           = inr m).
    { unfold dispatch.
      destruct (toSOA_total r name Hfq) as [lsoa Hsoa].
      destruct (toNS_total r name true Hns) as [lns Hlns].
      destruct (toNSIP_total r name true Hns) as [lnsip Hlnsip].
      destruct (toCNAME_total r name Hcan) as [lcn Hlcn].
      destruct (toDNAME_total r name Hdel) as [ldn Hldn].
      destruct (toMX_total r name true Hsrv) as [lmx Hlmx].
      destruct (toSRVIP_total r name true true Hsrv) as [lmxip Hlmxip].
      destruct (toSRV_total r name true Hsrv) as [lsrv Hlsrv].
      destruct (toSRVIP_total r name true false Hsrv) as [lsrvip Hlsrvip].
      unfold toMXIP.
      rewrite Hsoa, Hlns, Hlnsip, Hlcn, Hldn, Hlmx, Hlmxip, Hlsrv,
        Hlsrvip.
      cbn [bind ret].
      repeat match goal with
             | |- exists m, (if ?b then _ else _) = _ => destruct b
             end; eexists; reflexivity. }
    destruct Hd as [m Hm]. rewrite Hm. cbn [bind].
    unfold fallback. cbv zeta.
    destruct (toCNAME_total r name Hcan) as [lcn Hlcn].
    destruct (toSOA_total r name Hfq) as [lsoa Hsoa].
    rewrite Hlcn, Hsoa. cbn [bind ret].
    repeat match goal with
           | |- exists m, (if ?b then _ else _) = _ => destruct b
           | |- exists m, bind (if ?b then _ else _) _ = _ => destruct b
           end; cbn [bind ret]; eexists; reflexivity.
Qed.

(** A canonical or delegate target that is not a name makes the
    builder of its record throw. *)
Lemma toCNAME_not_name r name c :
  canonical r = Some c -> Target.isName c = false ->
  toCNAME r name = inl AssertionError.
Proof. intros Hc Hn. unfold toCNAME. rewrite Hc, Hn. reflexivity. Qed.

Lemma toDNAME_not_name r name c :
  delegate r = Some c -> Target.isName c = false ->
  toDNAME r name = inl AssertionError.
Proof. intros Hc Hn. unfold toDNAME. rewrite Hc, Hn. reflexivity. Qed.

End Serve.
(* ===================================================================== *)
(** ** What the reader returns, whatever the bytes *)
(* ===================================================================== *)

Section Yields.
Import Bufio Spec WireSpec.

Lemma yields_rret A (P : A -> Prop) (a : A) : P a -> yields P (rret a).
Proof. intros H bs a' bs' E. inversion E. subst. exact H. Qed.

Lemma yields_rthrow A (P : A -> Prop) e : yields P (@rthrow A e).
Proof. intros bs a bs' E. discriminate E. Qed.

Lemma yields_rlift A (P : A -> Prop) (m : result A) :
  (forall a, m = inr a -> P a) -> yields P (rlift m).
Proof.
  intros H bs a bs' E. unfold rlift in E.
  destruct m; [discriminate|]. inversion E; subst. apply H. reflexivity.
Qed.

Lemma yields_rbind A B (Q : A -> Prop) (P : B -> Prop)
    (m : reader A) (k : A -> reader B) :
  yields Q m -> (forall v, Q v -> yields P (k v)) -> yields P (rbind m k).
Proof.
  intros Hm Hk bs b bs' E. unfold rbind in E.
  destruct (m bs) as [e | [v bs1]] eqn:Em; [discriminate|].
  eapply Hk; [eapply Hm; exact Em | exact E].
Qed.

Lemma yields_any A (m : reader A) : yields (fun _ => True) m.
Proof. intros bs a bs' _. exact I. Qed.

Lemma in_u8_byte b : in_u8 (byte_val b) = true.
Proof.
  pose proof (byte_val_range b). unfold in_u8.
  apply andb_true_iff. split; [apply Z.leb_le|apply Z.ltb_lt]; lia.
Qed.

Lemma yields_readU8 : yields (fun v => in_u8 v = true) readU8.
Proof.
  intros [|b bs] a bs' E; [discriminate|]. inversion E.
  apply in_u8_byte.
Qed.

Lemma yields_readU16 : yields (fun v => in_u16 v = true) readU16.
Proof.
  intros [|b0 [|b1 bs]] a bs' E; try discriminate.
  unfold readU16, ret in E.
  assert (Ha : a = byte_val b0 + 256 * byte_val b1) by congruence.
  subst a. clear E.
  pose proof (byte_val_range b0). pose proof (byte_val_range b1).
  unfold in_u16. apply andb_true_iff.
  split; [apply Z.leb_le|apply Z.ltb_lt]; lia.
Qed.

Lemma yields_readU16BE : yields (fun v => in_u16 v = true) readU16BE.
Proof.
  intros [|b0 [|b1 bs]] a bs' E; try discriminate.
  unfold readU16BE, ret in E.
  assert (Ha : a = 256 * byte_val b0 + byte_val b1) by congruence.
  subst a. clear E.
  pose proof (byte_val_range b0). pose proof (byte_val_range b1).
  unfold in_u16. apply andb_true_iff.
  split; [apply Z.leb_le|apply Z.ltb_lt]; lia.
Qed.

Lemma yields_readU32 : yields (fun v => in_u32 v = true) readU32.
Proof.
  intros [|b0 [|b1 [|b2 [|b3 bs]]]] a bs' E; try discriminate.
  unfold readU32, ret in E.
  assert (Ha : a = byte_val b0 + 256 * byte_val b1
                   + 65536 * byte_val b2 + 16777216 * byte_val b3)
    by congruence.
  subst a. clear E.
  pose proof (byte_val_range b0). pose proof (byte_val_range b1).
  pose proof (byte_val_range b2). pose proof (byte_val_range b3).
  unfold in_u32. apply andb_true_iff.
  split; [apply Z.leb_le|apply Z.ltb_lt]; lia.
Qed.

(** A buffer read behind its length byte holds at most 255 bytes. *)
Lemma yields_readBytes n :
  in_u8 n = true -> yields (fun bs => short bs = true) (readBytes n).
Proof.
  intros Hn bs a bs' E. unfold readBytes in E.
  destruct (Nat.leb_spec (Z.to_nat n) (List.length bs)) as [Hle|];
    [|discriminate].
  inversion E. apply in_u8_inv in Hn. unfold short.
  apply Nat.leb_le. rewrite length_firstn. lia.
Qed.

End Yields.

(** Walks through the binds of a leaf reader, keeping what each read
    guarantees. *)
Ltac yield_step :=
  first
    [ eapply yields_rbind;
      [ first [ apply yields_readU8 | apply yields_readU16
              | apply yields_readU16BE | apply yields_readU32
              | apply yields_readBytes; assumption
              | eassumption
              | apply yields_any ]
      | intros ? ? ]
    | apply yields_rret ].

Ltac yield := repeat yield_step.

(** Closes a conjunction of checks from the facts gathered. *)
Ltac checks :=
  cbv beta in *;
  repeat match goal with
         | H : _ = true |- _ => rewrite H
         end;
  reflexivity.

Section LeafShapes.
Context {W : Collaborators}.
Import Bufio HSKRecord Spec WireSpec.

Lemma is_lower_hex_digit_hex_digit n :
  0 <= n < 16 -> is_lower_hex_digit (Enc.hex_digit n) = true.
Proof.
  intros [Hlo Hhi]. destruct n as [|p|p]; [reflexivity| |lia].
  repeat (destruct p as [p|p|]; try reflexivity; try lia).
Qed.

Lemma lower_hex_hex_string bs : lower_hex (Enc.hex_string bs) = true.
Proof.
  induction bs as [|b bs IH]; [reflexivity|].
  cbn [Enc.hex_string lower_hex].
  pose proof (byte_val_range b) as Hb.
  rewrite !is_lower_hex_digit_hex_digit, IH; [reflexivity| |].
  - apply Z.mod_pos_bound. lia.
  - split; [apply Z.div_pos; lia|apply Z.div_lt_upper_bound; lia].
Qed.

Lemma length_hex_string bs :
  String.length (Enc.hex_string bs) = (2 * List.length bs)%nat.
Proof.
  induction bs as [|b bs IH]; [reflexivity|].
  cbn [Enc.hex_string String.length List.length]. lia.
Qed.

(** [readTarget] has a [case] for six types and throws on the
    others. *)
Lemma readTarget_kind ty d :
  yields (fun tg => target_kind (Target.mk ty tg) = true)
         (readTarget ty d).
Proof.
  intros bs tg bs'. unfold readTarget, target_kind, host_kind.
  cbn [Target.type].
  destruct (ty =? rtypes.INET4); [reflexivity|].
  destruct (ty =? rtypes.INET6); [reflexivity|].
  destruct (ty =? rtypes.ONION); [reflexivity|].
  destruct (ty =? rtypes.ONIONNG); [reflexivity|].
  destruct (ty =? rtypes.INAME); [reflexivity|].
  destruct (ty =? rtypes.HNAME); [reflexivity|].
  discriminate.
Qed.

Lemma Target_shape d :
  yields (fun x => target_kind x = true) (Target.fromReader d).
Proof.
  unfold Target.fromReader.
  eapply yields_rbind; [apply yields_any|]. intros ty _.
  eapply yields_rbind; [apply readTarget_kind|]. intros tg Htg.
  apply yields_rret. exact Htg.
Qed.

Lemma Service_shape d :
  yields (fun x => service_shape x = true) (Service.fromReader d).
Proof.
  pose proof (Target_shape d) as Ht.
  unfold Service.fromReader. yield.
  unfold service_shape.
  cbn [Service.priority Service.weight Service.target Service.port].
  checks.
Qed.

Lemma Location_shape :
  yields (fun x => location_ok x = true) Location.fromReader.
Proof.
  unfold Location.fromReader. yield. unfold location_ok.
  cbn [Location.version Location.size Location.horizPre Location.vertPre
       Location.latitude Location.longitude Location.altitude].
  checks.
Qed.

Lemma Magnet_shape d :
  yields (fun x => magnet_shape x = true) (Magnet.fromReader d).
Proof.
  unfold Magnet.fromReader. yield. unfold magnet_shape.
  cbv beta in *.
  cbn [Magnet.nin]. rewrite lower_hex_hex_string, length_hex_string.
  match goal with H : short _ = true |- _ => apply short_inv in H end.
  apply Nat.leb_le. lia.
Qed.

Lemma DS_shape : yields (fun x => ds_ok x = true) DS.fromReader.
Proof.
  unfold DS.fromReader. yield. unfold ds_ok.
  cbn [DS.keyTag DS.algorithm DS.digestType DS.digest]. checks.
Qed.

Lemma TLS_shape d :
  yields (fun x => tls_shape x = true) (TLS.fromReader d).
Proof.
  unfold TLS.fromReader. yield. unfold tls_shape.
  cbn [TLS.port TLS.usage TLS.selector TLS.matchingType TLS.certificate].
  checks.
Qed.

Lemma SSH_shape : yields (fun x => ssh_ok x = true) SSH.fromReader.
Proof.
  unfold SSH.fromReader. yield. unfold ssh_ok.
  cbn [SSH.algorithm SSH.type SSH.fingerprint]. checks.
Qed.

Lemma Extra_shape :
  yields (fun x => extra_shape x = true) Extra.fromReader.
Proof.
  unfold Extra.fromReader. yield. unfold extra_shape.
  cbn [Extra.type Extra.data]. checks.
Qed.

End LeafShapes.

(** Splits the shape of a record into its checks, and the shape of the
    record after a push into the same checks and the one on the new
    entry. *)
Ltac shape_push Hr :=
  unfold WireSpec.decoded_shape in *;
  match goal with
  | |- context [WireSpec.ttl_shape (HSKRecord.ttl (_ _ ?r))] => destruct r
  | |- context [WireSpec.ttl_shape (HSKRecord.ttl (_ _ _ ?r))] => destruct r
  end;
  cbn [HSKRecord.version HSKRecord.ttl HSKRecord.hosts HSKRecord.canonical
       HSKRecord.delegate HSKRecord.ns HSKRecord.service HSKRecord.url
       HSKRecord.email HSKRecord.text HSKRecord.location HSKRecord.magnet
       HSKRecord.ds HSKRecord.tls HSKRecord.ssh HSKRecord.pgp HSKRecord.addr
       HSKRecord.extra HSKRecord.push_hosts HSKRecord.set_canonical
       HSKRecord.set_delegate HSKRecord.push_ns HSKRecord.push_service
       HSKRecord.push_url HSKRecord.push_email HSKRecord.push_text
       HSKRecord.push_location HSKRecord.push_magnet HSKRecord.push_ds
       HSKRecord.push_tls HSKRecord.push_ssh HSKRecord.push_pgp
       HSKRecord.push_addr HSKRecord.push_extra] in *;
  rewrite ?forallb_app; cbn [forallb Spec.opt_ok];
  let T := fresh "T" in
  let ET := fresh "ET" in
  remember (WireSpec.ttl_shape _) as T eqn:ET in *; clear ET;
  repeat (apply andb_true_iff in Hr;
          let H := fresh "Hs" in destruct Hr as [Hr H]);
  repeat match goal with
         | H : _ = true |- _ => rewrite H
         end;
  reflexivity.

Section LoopShape.
Context {W : Collaborators}.
Import Bufio HSKRecord Spec WireSpec.

(** One turn of the loop keeps the shape. *)
Lemma readItem_shape d r ty :
  decoded_shape r = true ->
  yields (fun r' => decoded_shape r' = true) (readItem d r ty).
Proof.
  intros Hr. unfold readItem.
  destruct ((ty =? rtypes.INET4) || (ty =? rtypes.INET6)
            || (ty =? rtypes.ONION) || (ty =? rtypes.ONIONNG)) eqn:Ehost.
  { eapply yields_rbind; [apply yields_any|]. intros tg _.
    apply yields_rret.
    assert (Hx : host_kind (Target.mk ty tg) = true) by exact Ehost.
    shape_push Hr. }
  destruct ((ty =? rtypes.INAME) || (ty =? rtypes.HNAME)) eqn:Ename.
  { eapply yields_rbind; [apply yields_any|]. intros _ _.
    eapply yields_rbind; [apply yields_any|]. intros tg _.
    apply yields_rret.
    assert (Hx : target_kind (Target.mk ty tg) = true).
    { unfold target_kind, host_kind. cbn [Target.type].
      rewrite Ehost. exact Ename. }
    shape_push Hr. }
  destruct (ty =? rtypes.CANONICAL).
  { eapply yields_rbind; [apply yields_any|]. intros _ _.
    eapply yields_rbind; [apply Target_shape|]. intros x Hx.
    apply yields_rret. shape_push Hr. }
  destruct (ty =? rtypes.DELEGATE).
  { eapply yields_rbind; [apply yields_any|]. intros _ _.
    eapply yields_rbind; [apply Target_shape|]. intros x Hx.
    apply yields_rret. shape_push Hr. }
  destruct (ty =? rtypes.NS).
  { eapply yields_rbind; [apply Target_shape|]. intros x Hx.
    apply yields_rret. shape_push Hr. }
  destruct (ty =? rtypes.SERVICE).
  { eapply yields_rbind; [apply Service_shape|]. intros x Hx.
    apply yields_rret. shape_push Hr. }
  destruct (ty =? rtypes.URL).
  { eapply yields_rbind; [apply yields_any|]. intros x _.
    apply yields_rret. shape_push Hr. }
  destruct (ty =? rtypes.EMAIL).
  { eapply yields_rbind; [apply yields_any|]. intros x _.
    apply yields_rret. shape_push Hr. }
  destruct (ty =? rtypes.TEXT).
  { eapply yields_rbind; [apply yields_any|]. intros x _.
    apply yields_rret. shape_push Hr. }
  destruct (ty =? rtypes.LOCATION).
  { eapply yields_rbind; [apply Location_shape|]. intros x Hx.
    apply yields_rret. shape_push Hr. }
  destruct (ty =? rtypes.MAGNET).
  { eapply yields_rbind; [apply Magnet_shape|]. intros x Hx.
    apply yields_rret. shape_push Hr. }
  destruct (ty =? rtypes.DS).
  { eapply yields_rbind; [apply DS_shape|]. intros x Hx.
    apply yields_rret. shape_push Hr. }
  destruct (ty =? rtypes.TLS).
  { eapply yields_rbind; [apply TLS_shape|]. intros x Hx.
    apply yields_rret. shape_push Hr. }
  destruct (ty =? rtypes.SSH).
  { eapply yields_rbind; [apply SSH_shape|]. intros x Hx.
    apply yields_rret. shape_push Hr. }
  destruct (ty =? rtypes.PGP).
  { eapply yields_rbind; [apply SSH_shape|]. intros x Hx.
    apply yields_rret. shape_push Hr. }
  destruct (ty =? rtypes.ADDR).
  { eapply yields_rbind; [apply yields_any|]. intros x _.
    apply yields_rret. shape_push Hr. }
  eapply yields_rbind; [apply Extra_shape|]. intros x Hx.
  apply yields_rret. shape_push Hr.
Qed.

Lemma loop_shape fuel : forall d r bs r',
  decoded_shape r = true ->
  loop fuel d r bs = Some (inr r') -> decoded_shape r' = true.
Proof.
  induction fuel as [|fuel IH]; intros d r bs r' Hr H; cbn [loop] in H.
  - destruct (left bs =? 0); [|discriminate]. inversion H; subst.
    exact Hr.
  - destruct (left bs =? 0); [inversion H; subst; exact Hr|].
    destruct (step d r bs) as [e | [r1 bs1]] eqn:E; [discriminate|].
    eapply IH; [|exact H].
    unfold step, rbind in E.
    destruct (readU8 bs) as [e | [ty bs0]]; [discriminate|].
    eapply readItem_shape; [exact Hr|exact E].
Qed.

Lemma shl_6_u16 w : in_u16 w = true -> JS.shl w 6 = 64 * w.
Proof.
  intros H. apply in_u16_inv in H. unfold JS.shl.
  change (6 mod 32) with 6.
  rewrite (@toInt32_small w) by lia.
  rewrite Z.shiftl_mul_pow2 by lia. change (2 ^ 6) with 64.
  rewrite toInt32_small by lia. lia.
Qed.

Lemma header_shape r0 :
  decoded_shape r0 = true ->
  yields (fun rd => decoded_shape (fst rd) = true) (header r0).
Proof.
  intros Hr. unfold header.
  eapply yields_rbind; [apply yields_any|]. intros v _.
  destruct (negb (v =? 0)); [apply yields_rthrow|].
  eapply yields_rbind; [apply yields_readU16|]. intros w Hw.
  eapply yields_rbind; [apply yields_any|]. intros d _.
  apply yields_rret. cbn [fst].
  rewrite (@shl_6_u16 w Hw). apply in_u16_inv in Hw.
  assert (Ht : ttl_shape (64 * w) = true).
  { unfold ttl_shape. rewrite Z.mul_comm, Z.mod_mul by lia.
    apply andb_true_iff. split; [|reflexivity].
    apply andb_true_iff. split; [apply Z.leb_le|apply Z.ltb_lt]; lia. }
  unfold decoded_shape in *. destruct r0.
  cbn [version ttl hosts canonical delegate ns service url email text
       location magnet ds tls ssh pgp addr extra set_ttl] in *.
  remember (ttl_shape ttl0) as T0 eqn:ET0 in *. clear ET0.
  repeat (apply andb_true_iff in Hr;
          let H := fresh "Hs" in destruct Hr as [Hr H]).
  repeat match goal with
         | H : _ = true |- _ => rewrite H
         end.
  reflexivity.
Qed.

(** Every record [fromRaw] returns has the shape [decoded_shape]. *)
Lemma fromRaw_shape bs r :
  fromRaw bs = inr r -> decoded_shape r = true.
Proof.
  unfold fromRaw, fromReader. intros H.
  destruct (header new bs) as [e | [[r1 d] bs1]] eqn:Eh; [discriminate|].
  destruct (loop (List.length bs1) d r1 bs1) as [[e|r2]|] eqn:El;
    try discriminate.
  inversion H; subst r2.
  eapply loop_shape; [|exact El].
  exact (@header_shape new eq_refl _ _ _ Eh).
Qed.

End LoopShape.
(* ===================================================================== *)
(** ** The version byte, a second round trip, and target types *)
(* ===================================================================== *)

Section VersionByte.
Context {W : Collaborators}.
Import Bufio HSKRecord Spec WireSpec.

(** The writer copies the version into the first byte and looks at it
    nowhere else. *)
Lemma toWriter_version r c v bs :
  toWriter r c = inr bs ->
  exists tl, bs = writeU8 (version r) ++ tl
             /\ toWriter (set_version v r) c = inr (writeU8 v ++ tl).
Proof.
  unfold toWriter.
  cbn [set_version version ttl hosts canonical delegate ns service url
       email text location magnet ds tls ssh pgp addr extra].
  intros H.
  repeat match type of H with
         | bind ?m _ = inr _ =>
             destruct m eqn:?; cbn [bind] in H |- *; [discriminate|]
         end.
  unfold ret in *. inversion H. eexists. split; reflexivity.
Qed.

Lemma toRaw_version r v bs :
  toRaw r = inr bs ->
  exists tl, bs = writeU8 (version r) ++ tl
             /\ toRaw (set_version v r) = inr (writeU8 v ++ tl).
Proof.
  unfold toRaw. cbv zeta.
  change (compress (set_version v r)) with (compress r).
  change (getSize (set_version v r) (compress r))
    with (getSize r (compress r)).
  destruct (getSize r (compress r)) as [e|size]; [discriminate|].
  cbn [bind].
  destruct (toWriter r (compress r)) as [e|bs0] eqn:Ew; [discriminate|].
  cbn [bind].
  destruct (toWriter_version r (compress r) v Ew) as (tl & -> & Hw).
  rewrite Hw. cbn [bind].
  replace (len8 (writeU8 v ++ tl)) with (len8 (writeU8 (version r) ++ tl))
    by (unfold writeU8; cbn [app]; rewrite !len8_cons; reflexivity).
  destruct (len8 (writeU8 (version r) ++ tl) =? size).
  - intros H. inversion H. exists tl. split; reflexivity.
  - destruct (size <? len8 (writeU8 (version r) ++ tl)); discriminate.
Qed.

(** A blob whose first byte is not zero is refused. *)
Lemma fromRaw_version v tl :
  0 < v < 256 ->
  fromRaw (writeU8 v ++ tl)
  = inl (Error ("Unknown serialization version: "
                ++ JS.num_string v ++ ".")).
Proof.
  intros Hv. unfold fromRaw, fromReader, header, writeU8. cbn [app].
  unfold rbind at 1. cbn [readU8 ret].
  rewrite byte_val_u8, Z.mod_small by lia.
  replace (v =? 0) with false by (symmetry; apply Z.eqb_neq; lia).
  reflexivity.
Qed.

End VersionByte.

Section SecondRoundTrip.
Context {W : Collaborators}.
Import Bufio HSKRecord Spec WireSpec.

Lemma swap16_range v : in_u16 v = true -> in_u16 (swap16 v) = true.
Proof.
  intros H. apply in_u16_inv in H. unfold swap16, in_u16.
  pose proof (Z.mod_pos_bound v 256 ltac:(lia)).
  assert (0 <= v / 256 < 256)
    by (split; [apply Z.div_pos; lia|apply Z.div_lt_upper_bound; lia]).
  apply andb_true_iff. split; [apply Z.leb_le|apply Z.ltb_lt]; lia.
Qed.

(** Exchanging the two bytes twice gives the key tag back. *)
Lemma swap16_involutive v : in_u16 v = true -> swap16 (swap16 v) = v.
Proof.
  intros H. apply in_u16_inv in H. unfold swap16.
  pose proof (Z.mod_pos_bound v 256 ltac:(lia)) as Ha.
  assert (Hb : 0 <= v / 256 < 256)
    by (split; [apply Z.div_pos; lia|apply Z.div_lt_upper_bound; lia]).
  pose proof (Z.div_mod v 256 ltac:(lia)) as Hv.
  set (a := v mod 256) in *. set (b := v / 256) in *.
  assert (Hm : (256 * a + b) mod 256 = b)
    by (symmetry; apply (Z.mod_unique _ 256 a); lia).
  assert (Hd : (256 * a + b) / 256 = a)
    by (symmetry; apply (Z.div_unique _ 256 a b); lia).
  rewrite Hm, Hd. lia.
Qed.

Lemma ds_ok_read_back x : ds_ok x = true -> ds_ok (ds_read_back x) = true.
Proof.
  unfold ds_ok, ds_read_back.
  cbn [DS.keyTag DS.algorithm DS.digestType DS.digest]. intros H.
  apply andb_true_iff in H. destruct H as [H Hd].
  apply andb_true_iff in H. destruct H as [H Ht].
  apply andb_true_iff in H. destruct H as [Hk Ha].
  rewrite (swap16_range _ Hk), Ha, Ht, Hd. reflexivity.
Qed.

Lemma ds_read_back_involutive x :
  ds_ok x = true -> ds_read_back (ds_read_back x) = x.
Proof.
  destruct x as [k a dt dg]. unfold ds_ok, ds_read_back.
  cbn [DS.keyTag DS.algorithm DS.digestType DS.digest]. intros H.
  apply andb_true_iff in H. destruct H as [H Hd].
  apply andb_true_iff in H. destruct H as [H Ht].
  apply andb_true_iff in H. destruct H as [Hk Ha].
  rewrite (swap16_involutive _ Hk). reflexivity.
Qed.

Lemma forallb_map_ds xs :
  forallb ds_ok xs = true -> forallb ds_ok (map ds_read_back xs) = true.
Proof.
  induction xs as [|x xs IH]; [reflexivity|]. cbn [forallb map].
  intros H. apply andb_true_iff in H. destruct H as [Hx Hxs].
  rewrite (ds_ok_read_back x Hx), (IH Hxs). reflexivity.
Qed.

Lemma map_ds_read_back_twice xs :
  forallb ds_ok xs = true -> map ds_read_back (map ds_read_back xs) = xs.
Proof.
  induction xs as [|x xs IH]; [reflexivity|]. cbn [forallb map].
  intros H. apply andb_true_iff in H. destruct H as [Hx Hxs].
  rewrite (ds_read_back_involutive x Hx), (IH Hxs). reflexivity.
Qed.

(** What was read back once is read back as it is. *)
Lemma ttl_read_back_idempotent t :
  ttl_read_back (ttl_read_back t) = ttl_read_back t.
Proof.
  apply ttl_read_back_multiple; rewrite ttl_read_back_eq.
  - pose proof (Z.mod_pos_bound (t mod 2 ^ 32 / 64) 65536 ltac:(lia)).
    change (2 ^ 22) with 4194304. lia.
  - rewrite Z.mul_comm. apply Z.mod_mul. lia.
Qed.

Lemma wire_ok_read_back r : wire_ok r = true -> wire_ok (read_back r) = true.
Proof.
  unfold wire_ok, read_back. intros Hr.
  cbn [version ttl hosts canonical delegate ns service url email text
       location magnet ds tls ssh pgp addr extra].
  repeat (apply andb_true_iff in Hr;
          let H := fresh "Hs" in destruct Hr as [Hr H]).
  match goal with
  | H : forallb ds_ok (ds r) = true |- _ => apply forallb_map_ds in H
  end.
  change (0 =? 0) with true.
  repeat match goal with
         | H : _ = true |- _ => rewrite H
         end.
  reflexivity.
Qed.

Lemma read_back_twice r :
  wire_ok r = true ->
  read_back (read_back r) = set_ttl (ttl_read_back (ttl r)) r.
Proof.
  unfold wire_ok. intros Hr.
  repeat (apply andb_true_iff in Hr;
          let H := fresh "Hs" in destruct Hr as [Hr H]).
  apply Z.eqb_eq in Hr.
  unfold read_back, set_ttl.
  cbn [version ttl hosts canonical delegate ns service url email text
       location magnet ds tls ssh pgp addr extra].
  rewrite ttl_read_back_idempotent, map_ds_read_back_twice, Hr
    by assumption.
  reflexivity.
Qed.

End SecondRoundTrip.

Section TargetTypes.
Context {W : Collaborators}.
Import Bufio HSKRecord Spec WireSpec.

(** [writeTarget] throws on a type it has no [case] for. *)
Lemma Target_toWriter_unknown x c :
  target_kind x = false ->
  Target.toWriter x c = inl (Error "Unknown target type.").
Proof.
  unfold target_kind, host_kind, Target.toWriter, writeTarget.
  intros H.
  repeat (apply orb_false_iff in H;
          let E := fresh "E" in destruct H as [H E]; rewrite E).
  rewrite H. reflexivity.
Qed.

Lemma writeAll_fails A (f : A -> result (list byte)) xs x :
  In x xs -> (exists e, f x = inl e) -> exists e, writeAll f xs = inl e.
Proof.
  intros Hin [e He]. induction xs as [|y xs IH]; [contradiction|].
  cbn [writeAll]. destruct Hin as [->|Hin].
  - rewrite He. eexists. reflexivity.
  - destruct (f y); [eexists; reflexivity|]. cbn [bind].
    destruct (IH Hin) as [e' ->]. eexists. reflexivity.
Qed.

Lemma tagged_fails tag m :
  (exists e, m = inl e) -> exists e, tagged tag m = inl e.
Proof. intros [e ->]. eexists. reflexivity. Qed.

Lemma Service_toWriter_fails x c :
  (exists e, Target.toWriter (Service.target x) c = inl e) ->
  exists e, Service.toWriter x c = inl e.
Proof.
  intros [e He]. unfold Service.toWriter.
  destruct (Compress.write c (Service.service x));
    [eexists; reflexivity|]. cbn [bind].
  destruct (Compress.write c (Service.protocol x));
    [eexists; reflexivity|]. cbn [bind].
  rewrite He. eexists. reflexivity.
Qed.

Lemma Service_toWriter_unknown x c :
  target_kind (Service.target x) = false ->
  exists e, Service.toWriter x c = inl e.
Proof.
  intros H. apply Service_toWriter_fails.
  eexists. apply Target_toWriter_unknown, H.
Qed.

(** Passes a write that comes before the failing one. *)
Ltac pass_write :=
  match goal with
  | |- exists e, bind ?m _ = inl e =>
      destruct m; [eexists; reflexivity | cbn [bind]]
  end.

(** A record that holds a target that cannot be written cannot be
    written. *)
Lemma toWriter_target_fails r c x :
  In x (targets r) -> (exists e, Target.toWriter x c = inl e) ->
  exists e, toWriter r c = inl e.
Proof.
  intros Hin Hx. unfold targets in Hin. unfold toWriter.
  apply in_app_or in Hin. destruct Hin as [Hin|Hin].
  { destruct (writeAll_fails (fun x => Target.toWriter x c) _ _ Hin Hx)
      as [e ->].
    eexists. reflexivity. }
  pass_write.
  apply in_app_or in Hin. destruct Hin as [Hin|Hin].
  { destruct (canonical r) as [y|]; [|contradiction].
    destruct Hin as [->|[]]. cbn [writeOpt].
    destruct (tagged_fails rtypes.CANONICAL Hx) as [e ->].
    eexists. reflexivity. }
  pass_write.
  apply in_app_or in Hin. destruct Hin as [Hin|Hin].
  { destruct (delegate r) as [y|]; [|contradiction].
    destruct Hin as [->|[]]. cbn [writeOpt].
    destruct (tagged_fails rtypes.DELEGATE Hx) as [e ->].
    eexists. reflexivity. }
  pass_write.
  apply in_app_or in Hin. destruct Hin as [Hin|Hin].
  { destruct (writeAll_fails
                (fun x => tagged rtypes.NS (Target.toWriter x c)) _ _ Hin
                (tagged_fails rtypes.NS Hx)) as [e ->].
    eexists. reflexivity. }
  pass_write.
  apply in_map_iff in Hin. destruct Hin as (s & <- & Hin).
  destruct (writeAll_fails
              (fun x => tagged rtypes.SERVICE (Service.toWriter x c))
              _ _ Hin
              (tagged_fails rtypes.SERVICE
                 (Service_toWriter_fails s c Hx))) as [e ->].
  eexists. reflexivity.
Qed.

Lemma toRaw_target_fails r x :
  In x (targets r) ->
  (exists e, Target.toWriter x (compress r) = inl e) ->
  exists e, toRaw r = inl e.
Proof.
  intros Hin Hx. unfold toRaw. cbv zeta.
  destruct (getSize r (compress r)); [eexists; reflexivity|].
  cbn [bind].
  destruct (toWriter_target_fails r (compress r) x Hin Hx) as [e ->].
  eexists. reflexivity.
Qed.

(** A record that holds a target of a type without a [case] cannot be
    written. *)
Lemma toWriter_unknown_target r c x :
  In x (targets r) -> target_kind x = false ->
  exists e, toWriter r c = inl e.
Proof.
  intros Hin Hk. apply (toWriter_target_fails r c x Hin).
  eexists. apply Target_toWriter_unknown, Hk.
Qed.

Lemma toRaw_unknown_target r x :
  In x (targets r) -> target_kind x = false ->
  exists e, toRaw r = inl e.
Proof.
  intros Hin Hk. apply (toRaw_target_fails r x Hin).
  eexists. apply Target_toWriter_unknown, Hk.
Qed.

(** [writeTarget] asserts that an INET4 address decodes into four
    bytes. *)
Lemma Target_toWriter_inet4 x c :
  Target.type x = rtypes.INET4 ->
  (forall ip, IP_decode (Target.target x) = inr ip -> len8 ip <> 4) ->
  exists e, Target.toWriter x c = inl e.
Proof.
  intros Hty Hip. unfold Target.toWriter, writeTarget. rewrite Hty.
  change (rtypes.INET4 =? rtypes.INET4) with true. cbv iota.
  destruct (IP_decode (Target.target x)) as [e|ip] eqn:E;
    [eexists; reflexivity|].
  cbn [bind]. specialize (Hip ip eq_refl).
  apply Z.eqb_neq in Hip. rewrite Hip. eexists. reflexivity.
Qed.

Lemma toRaw_inet4 r x :
  In x (targets r) -> Target.type x = rtypes.INET4 ->
  (forall ip, IP_decode (Target.target x) = inr ip -> len8 ip <> 4) ->
  exists e, toRaw r = inl e.
Proof.
  intros Hin Hty Hip. apply (toRaw_target_fails r x Hin).
  apply Target_toWriter_inet4; assumption.
Qed.

End TargetTypes.
(* ===================================================================== *)
(** ** A host of name kind is read back as the canonical name *)
(* ===================================================================== *)

Section NameHost.
Context {W : Collaborators}.
Import Bufio HSKRecord Spec WireSpec.

Lemma writeAll_app A (f : A -> result (list byte)) xs ys a b :
  writeAll f xs = inr a -> writeAll f ys = inr b ->
  writeAll f (xs ++ ys) = inr (a ++ b).
Proof.
  revert a. induction xs as [|x xs IH]; intros a Ha Hb;
    cbn [writeAll app] in *.
  - inversion Ha. exact Hb.
  - destruct (f x) as [e|bx]; [discriminate|]. cbn [bind] in *.
    destruct (writeAll f xs) as [e|bxs]; [discriminate|].
    cbn [bind ret] in *. inversion Ha.
    rewrite (IH bxs eq_refl Hb). cbn [bind ret].
    unfold ret. rewrite app_assoc. reflexivity.
Qed.

Lemma sumM_app A (f : A -> result Z) xs ys a b :
  sumM f xs = inr a -> sumM f ys = inr b ->
  sumM f (xs ++ ys) = inr (a + b).
Proof.
  revert a. induction xs as [|x xs IH]; intros a Ha Hb;
    cbn [sumM app] in *.
  - inversion Ha. exact Hb.
  - destruct (f x) as [e|n]; [discriminate|]. cbn [bind] in *.
    destruct (sumM f xs) as [e|m]; [discriminate|].
    cbn [bind ret] in *. inversion Ha; subst a.
    rewrite (IH m eq_refl Hb). cbn [bind ret].
    unfold ret. f_equal. lia.
Qed.

(** A target of name kind written as a host: its tag is INAME or
    HNAME, and the turn of the loop that reads it sets canonical. *)
Lemma name_host_item c x :
  table_ok c -> target_ok x = true -> Target.isName x = true ->
  exists b,
    Target.toWriter x c = inr b
    /\ Target.getSize x c = inr (len8 b)
    /\ forall r rest,
        canonical r = None ->
        step c r (b ++ rest) = inr (set_canonical (Some x) r, rest).
Proof.
  intros Hc Hok Hname.
  destruct (target_body Hc x Hok) as [Hcase (body & Hw & Hs & Hr)].
  exists (writeU8 (Target.type x) ++ body).
  unfold Target.toWriter, Target.getSize. rewrite Hw, Hs.
  unfold bind, ret, writeU8. cbn [app]. rewrite len8_cons.
  repeat split. intros r rest Hnone. rewrite step_cons.
  destruct x as [ty tg]. cbn [Target.type Target.target] in *.
  unfold Target.isName, rtypes.ONIONNG in Hname.
  cbn [Target.type] in Hname. apply Z.ltb_lt in Hname.
  assert (Hty : ty = 6 \/ ty = 7) by lia.
  destruct Hty as [-> | ->];
    (rewrite byte_val_tag by lia; unfold readItem; tags;
     unfold rbind, rlift; rewrite Hnone;
     cbv [is_set negb assert ret]; rewrite Hr; reflexivity).
Qed.

(** The hosts of address kind teach the dictionary nothing. *)
Lemma host_ok_items c xs :
  table_ok c -> forallb host_ok xs = true ->
  Forall (item_ok c (fun x => Target.toWriter x c)
                    (fun x => Target.getSize x c) push_hosts) xs.
Proof.
  intros Hc H. eapply Forall_forallb; [|exact H].
  intros x Hx. apply host_item; assumption.
Qed.

(** A record of hosts one of which is of name kind: it is written, and
    read back with that host as canonical and the others as hosts. *)
Lemma name_host_read_back t0 hs1 h hs2 :
  forallb host_ok hs1 = true -> forallb host_ok hs2 = true ->
  target_ok h = true -> Target.isName h = true ->
  exists bs,
    toRaw (of_hosts t0 (hs1 ++ h :: hs2)) = inr bs
    /\ fromRaw bs
       = inr (set_canonical (Some h)
                (of_hosts (ttl_read_back t0) (hs1 ++ hs2))).
Proof.
  intros H1 H2 Hok Hname.
  set (r := of_hosts t0 (hs1 ++ h :: hs2)).
  set (c := compress r).
  assert (Hc : table_ok c) by apply table_ok_compress.
  pose proof (@host_ok_items c hs1 Hc H1) as F1. apply segment in F1.
  destruct F1 as (b1 & W1 & S1 & R1).
  pose proof (@host_ok_items c hs2 Hc H2) as F2. apply segment in F2.
  destruct F2 as (b2 & W2 & S2 & R2).
  destruct (@name_host_item c h Hc Hok Hname) as (bh & Wh & Sh & Rh).
  assert (Wall : writeAll (fun x => Target.toWriter x c)
                   (hs1 ++ h :: hs2) = inr (b1 ++ bh ++ b2)).
  { apply writeAll_app; [exact W1|]. cbn [writeAll].
    rewrite Wh, W2. reflexivity. }
  assert (Sall : sumM (fun x => Target.getSize x c) (hs1 ++ h :: hs2)
                 = inr (len8 b1 + (len8 bh + len8 b2))).
  { apply sumM_app; [exact S1|]. cbn [sumM].
    rewrite Sh, S2. reflexivity. }
  exists (writeU8 0 ++ writeU16 (JS.ushr t0 6) ++ Compress.toWriter c
          ++ b1 ++ bh ++ b2).
  split.
  - unfold toRaw. fold c. unfold getSize, toWriter, r, of_hosts.
    cbn [version ttl hosts canonical delegate ns service url email text
         location magnet ds tls ssh pgp addr extra].
    fold (of_hosts t0 (hs1 ++ h :: hs2)). fold r. fold c.
    rewrite Sall, Wall.
    cbn [sumM optM writeAll writeOpt bind ret app].
    rewrite !app_nil_r, getSize_toWriter.
    match goal with
    | |- (if len8 ?X =? ?Y then _ else _) = _ =>
        replace Y with (len8 X);
        [rewrite Z.eqb_refl; reflexivity|]
    end.
    rewrite !len8_app. unfold writeU8, writeU16.
    rewrite !len8_cons, len8_nil. lia.
  - unfold fromRaw, fromReader.
    rewrite header_written by exact Hc.
    set (r1 := set_ttl (ttl_read_back t0) new).
    assert (Hreach : reaches c (r1, b1 ++ bh ++ b2)
              (fold_left (fun r x => push_hosts x r) hs2
                 (set_canonical (Some h)
                    (fold_left (fun r x => push_hosts x r) hs1 r1)),
               [])).
    { eapply reaches_trans; [apply R1|].
      eapply reaches_turn;
        [apply Rh; rewrite fold_push_hosts; reflexivity|].
      rewrite <- (app_nil_r b2) at 1. apply R2. }
    pose proof (loop_reaches Hreach) as Hl.
    cbn [fst snd] in Hl. rewrite Hl. cbn [List.length loop].
    change (left [] =? 0) with true. cbv iota. unfold ret. f_equal.
    rewrite !fold_push_hosts. unfold r1, set_ttl, new, of_hosts.
    cbn [set_canonical version ttl hosts canonical delegate ns service
         url email text location magnet ds tls ssh pgp addr extra app].
    reflexivity.
Qed.

End NameHost.
(* ===================================================================== *)
(** ** The size announced is the size written *)
(* ===================================================================== *)

Section HexLength.

Lemma length_hex_bytes (s : string) :
  (List.length (Enc.hex_bytes s) <= Nat.div2 (String.length s))%nat
  /\ (forall ch, (List.length (Enc.hex_bytes (String ch s))
                  <= Nat.div2 (String.length (String ch s)))%nat).
Proof.
  induction s as [|c2 s [IH1 IH2]].
  - split; [apply le_n|]. intros ch. apply le_n.
  - split; [apply IH2|].
    intros c1. cbn [Enc.hex_bytes].
    destruct (Enc.hex_value c1); [|apply Nat.le_0_l].
    destruct (Enc.hex_value c2); [|apply Nat.le_0_l].
    cbn [List.length String.length Nat.div2]. lia.
Qed.

(** [writeString(s, 'hex')] advances by half the length of [s]. *)
Lemma length_write_hex (s : string) :
  List.length (Enc.write_hex s) = Nat.div2 (String.length s).
Proof.
  unfold Enc.write_hex. rewrite length_app, repeat_length.
  destruct (length_hex_bytes s) as [H _]. lia.
Qed.

Lemma ushr_1_slen (s : string) :
  slen s < 2 ^ 32 ->
  JS.ushr (slen s) 1 = Z.of_nat (Nat.div2 (String.length s)).
Proof.
  intros H. unfold JS.ushr, JS.toUint32, slen in *.
  rewrite Z.mod_small by lia.
  change (1 mod 32) with 1. rewrite Z.shiftr_div_pow2 by lia.
  change (2 ^ 1) with 2.
  rewrite Nat.div2_div, Nat2Z.inj_div. reflexivity.
Qed.

End HexLength.

(** Takes the values out of two returns without reducing them. *)
Ltac returned Hb Hn :=
  unfold ret in Hb, Hn; apply inr_inj in Hb; apply inr_inj in Hn;
  subst.

Ltac returned1 Hb := unfold ret in Hb; apply inr_inj in Hb; subst.

(** Counts the bytes of a buffer put together with [++] and [::]. *)
Ltac count_bytes :=
  unfold Bufio.writeU8, Bufio.writeU16, Bufio.writeU32, Bufio.writeBytes;
  cbn [app];
  repeat first [rewrite len8_app | rewrite len8_cons | rewrite len8_nil].

Section SizeExact.
Context {W : Collaborators}.
Import Bufio HSKRecord Spec WireSpec.

Hypothesis onion_len :
  forall s b, onion_decode s = inr b -> len8 b = 10.
Hypothesis onionNG_len :
  forall s b, onion_decodeNG s = inr b -> len8 b = 33.

Lemma write_size c s b :
  Compress.write c s = inr b -> len8 b = Compress.size c s.
Proof.
  unfold Compress.write, Compress.size.
  destruct (Compress.index_of s c).
  - intros H. returned1 H. reflexivity.
  - destruct (Z.of_nat (String.length s) <=? 255); [|discriminate].
    intros H. returned1 H. count_bytes.
    rewrite len8_ascii_bytes. unfold slen. lia.
Qed.

Lemma len8_ipWrite ip : len8 (Compress.ipWrite ip) = Compress.ipSize ip.
Proof.
  unfold Compress.ipWrite, Compress.ipSize. count_bytes.
  unfold len8. lia.
Qed.

Lemma writeTarget_size ty tg c b n :
  writeTarget ty tg c = inr b -> sizeTarget ty tg c = inr n ->
  len8 b = n.
Proof.
  unfold writeTarget, sizeTarget.
  destruct (ty =? rtypes.INET4).
  { destruct (IP_decode tg) as [e|ip]; [discriminate|]. cbn [bind].
    destruct (Z.eqb_spec (len8 ip) 4) as [E|E]; [|discriminate].
    cbn [assert bind ret]. intros Hb Hn. returned Hb Hn. exact E. }
  destruct (ty =? rtypes.INET6).
  { destruct (IP_decode tg) as [e|ip]; [discriminate|]. cbn [bind].
    destruct (len8 ip =? 16); [|discriminate].
    cbn [assert bind ret]. intros Hb Hn. returned Hb Hn.
    apply len8_ipWrite. }
  destruct (ty =? rtypes.ONION).
  { destruct (onion_decode tg) as [e|on] eqn:E; [discriminate|].
    cbn [bind ret]. intros Hb Hn. returned Hb Hn.
    eapply onion_len, E. }
  destruct (ty =? rtypes.ONIONNG).
  { destruct (onion_decodeNG tg) as [e|on] eqn:E; [discriminate|].
    cbn [bind ret]. intros Hb Hn. returned Hb Hn.
    eapply onionNG_len, E. }
  destruct (ty =? rtypes.INAME).
  { intros Hb Hn. returned1 Hn. apply write_size, Hb. }
  destruct (ty =? rtypes.HNAME).
  { intros Hb Hn. returned1 Hn. apply write_size, Hb. }
  discriminate.
Qed.

Lemma Target_size x c b n :
  Target.toWriter x c = inr b -> Target.getSize x c = inr n ->
  len8 b = n.
Proof.
  unfold Target.toWriter, Target.getSize.
  destruct (writeTarget _ _ c) as [e|body] eqn:Ew; [discriminate|].
  destruct (sizeTarget _ _ c) as [e|m] eqn:Es; [discriminate|].
  cbn [bind ret]. intros Hb Hn. returned Hb Hn. count_bytes.
  rewrite (writeTarget_size _ _ _ Ew Es). reflexivity.
Qed.

Lemma Service_size x c b n :
  Service.toWriter x c = inr b -> Service.getSize x c = inr n ->
  len8 b = n.
Proof.
  unfold Service.toWriter, Service.getSize.
  destruct (Compress.write c (Service.service x)) as [e|s] eqn:Es;
    [discriminate|]. cbn [bind].
  destruct (Compress.write c (Service.protocol x)) as [e|p] eqn:Ep;
    [discriminate|]. cbn [bind].
  destruct (Target.toWriter (Service.target x) c) as [e|tg] eqn:Et;
    [discriminate|]. cbn [bind ret].
  destruct (Target.getSize (Service.target x) c) as [e|ts] eqn:Ets;
    [discriminate|]. cbn [bind ret].
  intros Hb Hn. returned Hb Hn. count_bytes.
  rewrite (write_size _ _ Es), (write_size _ _ Ep),
    (Target_size _ _ Et Ets).
  lia.
Qed.

Lemma TLS_size x c b :
  TLS.toWriter x c = inr b -> len8 b = TLS.getSize x c.
Proof.
  unfold TLS.toWriter, TLS.getSize.
  destruct (Compress.write c (TLS.protocol x)) as [e|p] eqn:Ep;
    [discriminate|]. cbn [bind ret].
  intros Hb. returned1 Hb. count_bytes.
  rewrite (write_size _ _ Ep). lia.
Qed.

Lemma Magnet_size x c b :
  slen (Magnet.nin x) < 2 ^ 32 ->
  Magnet.toWriter x c = inr b -> len8 b = Magnet.getSize x c.
Proof.
  intros Hlen. unfold Magnet.toWriter, Magnet.getSize.
  destruct (Compress.write c (Magnet.nid x)) as [e|p] eqn:Ep;
    [discriminate|]. cbn [bind ret].
  intros Hb. returned1 Hb. count_bytes.
  rewrite (write_size _ _ Ep).
  replace (len8 (Enc.write_hex (Magnet.nin x)))
    with (Z.of_nat (Nat.div2 (String.length (Magnet.nin x))))
    by (unfold len8; rewrite length_write_hex; reflexivity).
  rewrite (ushr_1_slen _ Hlen). lia.
Qed.

Lemma Addr_size x c b n :
  Addr.toWriter x c = inr b -> Addr.getSize x c = inr n -> len8 b = n.
Proof.
  unfold Addr.toWriter, Addr.getSize.
  destruct (String.eqb (Addr.currency x) "hsk").
  - destruct (Address_fromString (Addr.address x)) as [e|[v h]];
      [discriminate|].
    cbn [bind ret]. intros Hb Hn. returned Hb Hn.
    count_bytes. lia.
  - destruct (Compress.write c (Addr.currency x)) as [e|p] eqn:Ep;
      [discriminate|]. cbn [bind ret].
    intros Hb Hn. returned Hb Hn. count_bytes.
    rewrite len8_ascii_bytes, (write_size _ _ Ep). lia.
Qed.

Lemma DS_size x : len8 (DS.toWriter x) = DS.getSize x.
Proof.
  unfold DS.toWriter, DS.getSize. count_bytes. lia.
Qed.

Lemma SSH_size x : len8 (SSH.toWriter x) = SSH.getSize x.
Proof.
  unfold SSH.toWriter, SSH.getSize. count_bytes. lia.
Qed.

Lemma Location_size x : len8 (Location.toWriter x) = Location.getSize x.
Proof. unfold Location.toWriter, Location.getSize. count_bytes. lia. Qed.

Lemma Extra_size x : len8 (Extra.toWriter x) = Extra.getSize x.
Proof.
  unfold Extra.toWriter, Extra.getSize. count_bytes. lia.
Qed.

(** A loop of writes against the loop that adds up their sizes. *)
Lemma fits_all A (w : A -> result (list byte)) (sz : A -> result Z) xs :
  (forall x, In x xs -> fits (w x) (sz x)) ->
  fits (writeAll w xs) (sumM sz xs).
Proof.
  unfold fits.
  induction xs as [|x xs IH]; intros Hx bs n Hw Hs;
    cbn [writeAll sumM] in Hw, Hs.
  - returned Hw Hs. reflexivity.
  - destruct (w x) as [e|b] eqn:Eb; [discriminate|]. cbn [bind] in Hw.
    destruct (writeAll w xs) as [e|bs'] eqn:Ebs; [discriminate|].
    destruct (sz x) as [e|m] eqn:Em; [discriminate|]. cbn [bind] in Hs.
    destruct (sumM sz xs) as [e|n'] eqn:En; [discriminate|].
    cbn [bind] in Hw, Hs. returned Hw Hs.
    rewrite len8_app.
    rewrite (Hx x (or_introl eq_refl) b m Eb Em).
    rewrite (IH (fun y Hy => Hx y (or_intror Hy)) bs' n' eq_refl eq_refl).
    reflexivity.
Qed.

Lemma fits_opt A (w : A -> result (list byte)) (sz : A -> result Z) o :
  (forall x, fits (w x) (sz x)) -> fits (writeOpt w o) (optM sz o).
Proof.
  intros H. destruct o as [x|]; cbn [writeOpt optM].
  - apply H.
  - intros b n Hb Hn. returned Hb Hn. reflexivity.
Qed.

(** An item behind its tag byte and the size that counts the tag. *)
Lemma fits_tagged tag w s :
  fits w s -> fits (tagged tag w) (m <- s ;; ret (1 + m)).
Proof.
  intros H b n. unfold tagged.
  destruct w as [e|b0]; [discriminate|].
  destruct s as [e|n0]; [discriminate|]. cbn [bind].
  intros Hb Hn. returned Hb Hn. count_bytes.
  rewrite (H b0 n0 eq_refl eq_refl). reflexivity.
Qed.

Lemma fits_tagged_pure tag w n0 :
  (forall b0, w = inr b0 -> len8 b0 = n0) ->
  fits (tagged tag w) (ret (1 + n0)).
Proof.
  intros H b n. unfold tagged.
  destruct w as [e|b0]; [discriminate|]. cbn [bind].
  intros Hb Hn. returned Hb Hn. count_bytes.
  rewrite (H b0 eq_refl). reflexivity.
Qed.

Lemma fits_tagged_ret tag b0 n0 :
  len8 b0 = n0 -> fits (tagged tag (ret b0)) (ret (1 + n0)).
Proof.
  intros H. apply fits_tagged_pure. intros b1 Hb. returned1 Hb.
  reflexivity.
Qed.

Lemma fits_list_hosts c xs :
  fits (writeAll (fun x => Target.toWriter x c) xs)
       (sumM (fun x => Target.getSize x c) xs).
Proof.
  apply fits_all. intros x _ b n. apply Target_size.
Qed.

Lemma fits_target tag c x :
  fits (tagged tag (Target.toWriter x c))
       (n <- Target.getSize x c ;; ret (1 + n)).
Proof. apply fits_tagged. intros b n. apply Target_size. Qed.

Lemma fits_service tag c x :
  fits (tagged tag (Service.toWriter x c))
       (n <- Service.getSize x c ;; ret (1 + n)).
Proof. apply fits_tagged. intros b n. apply Service_size. Qed.

Lemma fits_addr tag c x :
  fits (tagged tag (Addr.toWriter x c))
       (n <- Addr.getSize x c ;; ret (1 + n)).
Proof. apply fits_tagged. intros b n. apply Addr_size. Qed.

Lemma fits_string tag c x :
  fits (tagged tag (Compress.write c x)) (ret (1 + Compress.size c x)).
Proof. apply fits_tagged_pure. intros b. apply write_size. Qed.

Lemma fits_tls tag c x :
  fits (tagged tag (TLS.toWriter x c)) (ret (1 + TLS.getSize x c)).
Proof. apply fits_tagged_pure. intros b. apply TLS_size. Qed.

Lemma fits_magnet tag c x :
  slen (Magnet.nin x) < 2 ^ 32 ->
  fits (tagged tag (Magnet.toWriter x c)) (ret (1 + Magnet.getSize x c)).
Proof.
  intros H. apply fits_tagged_pure. intros b. apply Magnet_size, H.
Qed.

(** Takes the next write of [Hw] and the next size of [Hs], which
    [F] relates. *)
Ltac next_field Hs Hw F :=
  match type of Hw with
  | bind ?w _ = inr _ =>
      match type of Hs with
      | bind ?s _ = inr _ =>
          let b := fresh "b" in
          let n := fresh "n" in
          let L := fresh "L" in
          assert (L : fits w s) by F;
          destruct w as [?|b]; [discriminate Hw|];
          destruct s as [?|n]; [discriminate Hs|];
          specialize (L b n eq_refl eq_refl);
          cbn [bind] in Hs, Hw
      end
  end.

(** The bytes [toWriter] emits are as many as [getSize] says. *)
Lemma getSize_exact r c n bs :
  nin_fits r = true ->
  getSize r c = inr n -> toWriter r c = inr bs -> len8 bs = n.
Proof.
  intros Hnin Hs Hw. unfold getSize in Hs. unfold toWriter in Hw.
  unfold nin_fits in Hnin. rewrite forallb_forall in Hnin.
  next_field Hs Hw ltac:(apply fits_list_hosts).
  next_field Hs Hw
    ltac:(apply fits_opt; intros x; apply fits_target).
  next_field Hs Hw
    ltac:(apply fits_opt; intros x; apply fits_target).
  next_field Hs Hw
    ltac:(apply fits_all; intros x _; apply fits_target).
  next_field Hs Hw
    ltac:(apply fits_all; intros x _; apply fits_service).
  next_field Hs Hw
    ltac:(apply fits_all; intros x _; apply fits_string).
  next_field Hs Hw
    ltac:(apply fits_all; intros x _; apply fits_string).
  next_field Hs Hw
    ltac:(apply fits_all; intros x _; apply fits_string).
  next_field Hs Hw
    ltac:(apply fits_all; intros x _; apply fits_tagged_ret,
                                        Location_size).
  next_field Hs Hw
    ltac:(apply fits_all; intros x Hx; apply fits_magnet, Z.ltb_lt,
                                         (Hnin x Hx)).
  next_field Hs Hw
    ltac:(apply fits_all; intros x _; apply fits_tagged_ret, DS_size).
  next_field Hs Hw
    ltac:(apply fits_all; intros x _; apply fits_tls).
  next_field Hs Hw
    ltac:(apply fits_all; intros x _; apply fits_tagged_ret, SSH_size).
  next_field Hs Hw
    ltac:(apply fits_all; intros x _; apply fits_tagged_ret, SSH_size).
  next_field Hs Hw
    ltac:(apply fits_all; intros x _; apply fits_addr).
  next_field Hs Hw
    ltac:(apply fits_all; intros x _; apply fits_tagged_ret,
                                        Extra_size).
  clear Hnin. unfold ret in Hs, Hw.
  apply inr_inj in Hs. apply inr_inj in Hw. rewrite <- Hs, <- Hw.
  count_bytes. rewrite <- getSize_toWriter. lia.
Qed.

(** [toRaw] throws only when [getSize] or [toWriter] does: the check
    of the bytes written against the size never fails. *)
Lemma toRaw_is_toWriter r :
  nin_fits r = true ->
  toRaw r = (_ <- getSize r (compress r) ;; toWriter r (compress r)).
Proof.
  intros Hnin. unfold toRaw. cbv zeta.
  destruct (getSize r (compress r)) as [e|n] eqn:Es; [reflexivity|].
  cbn [bind].
  destruct (toWriter r (compress r)) as [e|bs] eqn:Ew; [reflexivity|].
  cbn [bind].
  rewrite (getSize_exact r (compress r) Hnin Es Ew), Z.eqb_refl.
  reflexivity.
Qed.

End SizeExact.
(* ===================================================================== *)
(** ** An extra entry whose type is a tag of the reader *)
(* ===================================================================== *)

Lemma is_nil_app A (xs : list A) x : WireSpec.is_nil (xs ++ [x]) = false.
Proof. destruct xs; reflexivity. Qed.

(** Closes [only_extras (push x r) = false] for a push into a field
    other than [extra]. *)
Ltac busy :=
  unfold WireSpec.only_extras;
  match goal with
  | |- context [HSKRecord.hosts (_ _ ?r)] => destruct r
  end;
  cbn [HSKRecord.hosts HSKRecord.canonical HSKRecord.delegate HSKRecord.ns
       HSKRecord.service HSKRecord.url HSKRecord.email HSKRecord.text
       HSKRecord.location HSKRecord.magnet HSKRecord.ds HSKRecord.tls
       HSKRecord.ssh HSKRecord.pgp HSKRecord.addr HSKRecord.extra
       HSKRecord.push_hosts HSKRecord.set_canonical
       HSKRecord.set_delegate HSKRecord.push_ns HSKRecord.push_service
       HSKRecord.push_url HSKRecord.push_email HSKRecord.push_text
       HSKRecord.push_location HSKRecord.push_magnet HSKRecord.push_ds
       HSKRecord.push_tls HSKRecord.push_ssh HSKRecord.push_pgp
       HSKRecord.push_addr HSKRecord.is_set negb];
  rewrite ?is_nil_app, ?andb_false_r; reflexivity.

(** A branch of [readItem] that ends in such a push. *)
Ltac busy_branch :=
  cbn [orb];
  repeat (eapply yields_rbind; [apply yields_any|]; intros ? _);
  apply yields_rret; busy.

Section KnownExtra.
Context {W : Collaborators}.
Import Bufio HSKRecord Spec WireSpec.

(** Every turn of the loop but the [default] one leaves an entry that
    is no extra; the [default] one removes none. *)
Lemma readItem_busy d r ty :
  rtypes.known ty = true \/ only_extras r = false ->
  yields (fun r' => only_extras r' = false) (readItem d r ty).
Proof.
  intros Hk. unfold readItem.
  destruct (Z.eqb_spec ty rtypes.INET4); [busy_branch|].
  destruct (Z.eqb_spec ty rtypes.INET6); [busy_branch|].
  destruct (Z.eqb_spec ty rtypes.ONION); [busy_branch|].
  destruct (Z.eqb_spec ty rtypes.ONIONNG); [busy_branch|].
  destruct (Z.eqb_spec ty rtypes.INAME); [busy_branch|].
  destruct (Z.eqb_spec ty rtypes.HNAME); [busy_branch|].
  destruct (Z.eqb_spec ty rtypes.CANONICAL); [busy_branch|].
  destruct (Z.eqb_spec ty rtypes.DELEGATE); [busy_branch|].
  destruct (Z.eqb_spec ty rtypes.NS); [busy_branch|].
  destruct (Z.eqb_spec ty rtypes.SERVICE); [busy_branch|].
  destruct (Z.eqb_spec ty rtypes.URL); [busy_branch|].
  destruct (Z.eqb_spec ty rtypes.EMAIL); [busy_branch|].
  destruct (Z.eqb_spec ty rtypes.TEXT); [busy_branch|].
  destruct (Z.eqb_spec ty rtypes.LOCATION); [busy_branch|].
  destruct (Z.eqb_spec ty rtypes.MAGNET); [busy_branch|].
  destruct (Z.eqb_spec ty rtypes.DS); [busy_branch|].
  destruct (Z.eqb_spec ty rtypes.TLS); [busy_branch|].
  destruct (Z.eqb_spec ty rtypes.SSH); [busy_branch|].
  destruct (Z.eqb_spec ty rtypes.PGP); [busy_branch|].
  destruct (Z.eqb_spec ty rtypes.ADDR); [busy_branch|].
  cbn [orb].
  eapply yields_rbind; [apply yields_any|]. intros x _.
  apply yields_rret. destruct Hk as [Hk|Hr].
  - exfalso. unfold rtypes.known in Hk.
    unfold rtypes.INET4, rtypes.INET6, rtypes.ONION, rtypes.ONIONNG,
      rtypes.INAME, rtypes.HNAME, rtypes.CANONICAL, rtypes.DELEGATE,
      rtypes.NS, rtypes.SERVICE, rtypes.URL, rtypes.EMAIL, rtypes.TEXT,
      rtypes.LOCATION, rtypes.MAGNET, rtypes.DS, rtypes.TLS, rtypes.SSH,
      rtypes.PGP, rtypes.ADDR in *.
    apply orb_true_iff in Hk. destruct Hk as [Hk|Hk];
      apply andb_true_iff in Hk; destruct Hk as [H1 H2];
      apply Z.leb_le in H1, H2; lia.
  - destruct r. exact Hr.
Qed.

(** Once an entry that is no extra is there, it stays. *)
Lemma loop_busy fuel : forall d r bs r',
  only_extras r = false ->
  loop fuel d r bs = Some (inr r') -> only_extras r' = false.
Proof.
  induction fuel as [|fuel IH]; intros d r bs r' Hr H; cbn [loop] in H.
  - destruct (left bs =? 0); [|discriminate].
    unfold ret in H. congruence.
  - destruct (left bs =? 0); [unfold ret in H; congruence|].
    destruct (step d r bs) as [e | [r1 bs1]] eqn:E; [discriminate|].
    eapply IH; [|exact H].
    unfold step, rbind in E.
    destruct (readU8 bs) as [e | [ty bs0]]; [discriminate|].
    eapply readItem_busy; [right; exact Hr|exact E].
Qed.

(** The loop at a tag byte the reader has a [case] for. *)
Lemma loop_known_tag fuel d r ty bs r' :
  rtypes.known ty = true -> 0 <= ty < 256 ->
  loop fuel d r (u8 ty :: bs) = Some (inr r') ->
  only_extras r' = false.
Proof.
  intros Hk Hty H. destruct fuel as [|fuel]; cbn [loop] in H.
  - discriminate H.
  - replace (left (u8 ty :: bs) =? 0) with false in H
      by (symmetry; apply Z.eqb_neq; unfold left;
          cbn [List.length]; lia).
    rewrite step_cons, (byte_val_tag Hty) in H.
    destruct (readItem d r ty bs) as [e | [r1 bs1]] eqn:E;
      [discriminate|].
    eapply loop_busy; [|exact H].
    eapply readItem_busy; [left; exact Hk|exact E].
Qed.

(** Turns that do not throw carry the result of the loop along. *)
Lemma reaches_loop d st st1 :
  reaches d st st1 ->
  forall fuel r',
    loop fuel d (fst st) (snd st) = Some (inr r') ->
    exists fuel1, loop fuel1 d (fst st1) (snd st1) = Some (inr r').
Proof.
  induction 1 as [st|r bs r1 bs1 st Hs Hr IH]; intros fuel r' H.
  - exists fuel. exact H.
  - cbn [fst snd] in *. destruct fuel as [|fuel]; cbn [loop] in H.
    + destruct bs as [|b bs]; [discriminate Hs|].
      discriminate H.
    + destruct bs as [|b bs]; [discriminate Hs|].
      replace (left (b :: bs) =? 0) with false in H
        by (symmetry; apply Z.eqb_neq; unfold left;
            cbn [List.length]; lia).
      rewrite Hs in H. apply (IH fuel r' H).
Qed.

Lemma known_u8 ty : rtypes.known ty = true -> 0 <= ty < 256.
Proof.
  unfold rtypes.known. intros Hk.
  apply orb_true_iff in Hk. destruct Hk as [Hk|Hk];
    apply andb_true_iff in Hk; destruct Hk as [H1 H2];
    apply Z.leb_le in H1, H2; lia.
Qed.

Lemma writeAll_app_inv A (f : A -> result (list byte)) xs ys bs :
  writeAll f (xs ++ ys) = inr bs ->
  exists a b,
    writeAll f xs = inr a /\ writeAll f ys = inr b /\ bs = a ++ b.
Proof.
  revert bs. induction xs as [|x xs IH]; intros bs H;
    cbn [writeAll app] in *.
  - exists [], bs. repeat split. exact H.
  - destruct (f x) as [e|bx]; [discriminate|]. cbn [bind] in *.
    destruct (writeAll f (xs ++ ys)) as [e|rest]; [discriminate|].
    cbn [bind] in H. unfold ret in H. apply inr_inj in H. subst bs.
    destruct (IH rest eq_refl) as (a & b & -> & Hb & ->).
    exists (bx ++ a), b. cbn [bind]. unfold ret.
    rewrite app_assoc. repeat split. exact Hb.
Qed.

(** What [toWriter] writes for a record of extras only. *)
Lemma toWriter_of_extras t0 xs c bs :
  toWriter (of_extras t0 xs) c = inr bs ->
  exists items,
    writeAll (fun x => tagged (Extra.type x) (ret (Extra.toWriter x))) xs
    = inr items
    /\ bs = writeU8 0 ++ writeU16 (JS.ushr t0 6) ++ Compress.toWriter c
            ++ items.
Proof.
  unfold toWriter, of_extras.
  cbn [version ttl hosts canonical delegate ns service url email text
       location magnet ds tls ssh pgp addr extra writeAll writeOpt
       bind ret].
  destruct (writeAll _ xs) as [e|items]; [discriminate|].
  cbn [bind app]. intros H. exists items. split; [reflexivity|].
  unfold ret in H. symmetry. congruence.
Qed.

(** A record of extras one of which has the type of a tag the reader
    has a [case] for, behind extras that are read back: when it is
    written and the bytes are read, what is returned holds an entry
    that is no extra. *)
Lemma known_extra_read_back t0 xs1 x xs2 bs r' :
  forallb extra_ok xs1 = true -> rtypes.known (Extra.type x) = true ->
  toRaw (of_extras t0 (xs1 ++ x :: xs2)) = inr bs ->
  fromRaw bs = inr r' ->
  only_extras r' = false.
Proof.
  intros H1 Hk He Hd. apply toRaw_toWriter in He.
  set (c := compress (of_extras t0 (xs1 ++ x :: xs2))) in *.
  assert (Hc : table_ok c) by apply table_ok_compress.
  destruct (toWriter_of_extras _ _ _ He) as (items & Hw & ->).
  assert (F1 : Forall (item_ok c
                (fun x => tagged (Extra.type x) (ret (Extra.toWriter x)))
                (fun x => ret (1 + Extra.getSize x)) push_extra) xs1).
  { eapply Forall_forallb; [|exact H1].
    intros y Hy. apply extra_item; assumption. }
  apply segment in F1. destruct F1 as (b1 & W1 & _ & R1).
  destruct (writeAll_app_inv _ _ _ Hw) as (a & b2 & Wa & W2 & ->).
  rewrite W1 in Wa. apply inr_inj in Wa. subst a.
  cbn [writeAll] in W2. unfold tagged at 1 in W2.
  cbn [bind ret] in W2.
  match type of W2 with
  | context [writeAll ?f xs2] =>
      destruct (writeAll f xs2) as [e|b3]; [discriminate W2|]
  end.
  cbn [bind] in W2. unfold ret in W2. apply inr_inj in W2. subst b2.
  unfold fromRaw, fromReader in Hd.
  rewrite header_written in Hd by exact Hc.
  destruct (loop _ c _ _) as [[e|r2]|] eqn:El; try discriminate.
  apply inr_inj in Hd. subst r2.
  destruct (reaches_loop (R1 (set_ttl (ttl_read_back t0) new) _) _ El)
    as (fuel1 & Hl).
  cbn [fst snd] in Hl. unfold writeU8 in Hl.
  rewrite <- !app_assoc in Hl. cbn [app] in Hl.
  eapply loop_known_tag; [exact Hk|apply known_u8, Hk|exact Hl].
Qed.

End KnownExtra.
(* ===================================================================== *)
(** ** Further properties of the JSON form *)
(* ===================================================================== *)

Section JsonProperties.
Context {W : Collaborators}.
Import HSKRecord Spec JsonSpec.

(** X6.  [SSH.fromJSON] (and [PGP.fromJSON], the same method) applied
    to the output of [toJSON] returns the entry when its two numbers
    fit a byte and the number that the hexadecimal text of the
    fingerprint converts to, shifted right by one, is at most 255; it
    throws an assertion error otherwise.  The check is on the text as
    a number, not on its length. *)
Theorem X6_SSH_json_round_trip (x : SSH.t) :
  SSH.fromJSON (SSH.toJSON x)
  = if in_u8 (SSH.algorithm x) && in_u8 (SSH.type x)
       && (JS.ushr (JS_stringToUint32 (Enc.hex_string (SSH.fingerprint x)))
                   1 <=? 255)
    then inr x else inl AssertionError.
Proof. apply SSH_fromJSON_toJSON. Qed.

(** X7.  [Extra.fromJSON] applied to the output of [toJSON] returns the
    entry when its type fits a byte and the number that the
    hexadecimal text of the data converts to, shifted right by one, is
    at most 255; it throws an assertion error otherwise. *)
Theorem X7_Extra_json_round_trip (x : Extra.t) :
  Extra.fromJSON (Extra.toJSON x)
  = if in_u8 (Extra.type x)
       && (JS.ushr (JS_stringToUint32 (Enc.hex_string (Extra.data x)))
                   1 <=? 255)
    then inr x else inl AssertionError.
Proof. apply Extra_fromJSON_toJSON. Qed.

(** X8.  [DS.fromJSON] applied to the output of [toJSON] returns the
    entry when the key tag fits 16 bits, the algorithm and digest type
    fit a byte and the digest is at most 255 bytes long; it throws an
    assertion error otherwise. *)
Theorem X8_DS_json_round_trip (x : DS.t) :
  len8 (DS.digest x) < 2 ^ 31 ->
  DS.fromJSON (DS.toJSON x)
  = if in_u16 (DS.keyTag x) && in_u8 (DS.algorithm x)
       && in_u8 (DS.digestType x) && short (DS.digest x)
    then inr x else inl AssertionError.
Proof. apply DS_fromJSON_toJSON. Qed.

(** X9.  [Location.fromJSON] applied to the output of [toJSON] returns
    the entry when version, size and the two precisions fit a byte
    and latitude, longitude and altitude are unsigned 32-bit numbers;
    it throws an assertion error otherwise. *)
Theorem X9_Location_json_round_trip (x : Location.t) :
  Location.fromJSON (Location.toJSON x)
  = if in_u8 (Location.version x) && in_u8 (Location.size x)
       && in_u8 (Location.horizPre x) && in_u8 (Location.vertPre x)
       && in_u32 (Location.latitude x) && in_u32 (Location.longitude x)
       && in_u32 (Location.altitude x)
    then inr x else inl AssertionError.
Proof. apply Location_fromJSON_toJSON. Qed.

(** X10.  A magnet entry is read back from its link
    [magnet:?xt=urn:<nid>:<nin>] exactly when neither part holds a
    colon or an ampersand and each part is at most 255 characters
    long. *)
Theorem X10_Magnet_text_round_trip (x : Magnet.t) :
  Magnet.fromJSON (Magnet.toJSON x) = inr x
  <-> free_of magnet_sep (Magnet.nid x)
      && free_of magnet_sep (Magnet.nin x)
      && short_str (Magnet.nid x) && short_str (Magnet.nin x) = true.
Proof.
  split.
  - intros H. exact (Magnet_fromString_parts _ H).
  - intros H. exact (Magnet_fromString_toString x H).
Qed.

(** X11.  An address entry is read back from its text
    [<currency>:<address>] exactly when neither part holds a colon,
    the currency is at most 63 characters long and the address at
    most 255. *)
Theorem X11_Addr_text_round_trip (x : Addr.t) :
  Addr.fromJSON (Addr.toJSON x) = inr x
  <-> free_of addr_sep (Addr.currency x)
      && free_of addr_sep (Addr.address x)
      && (String.length (Addr.currency x) <=? 63)%nat
      && short_str (Addr.address x) = true.
Proof.
  split.
  - intros H. exact (Addr_fromString_parts _ H).
  - intros H. exact (Addr_fromString_toString x H).
Qed.

(** X12.  [Target.fromString] on a string that binet classifies as a
    name, that [util.isName] accepts and that is not a next-generation
    onion name: the target is of name kind, its text ends with [.h]
    when its type is HNAME and with [.i] when it is INAME (the suffix
    is appended when the trimmed string has neither), and its DNS form
    is the trimmed string with [.i] removed and a dot appended. *)
Theorem X12_Target_fromString_name (x0 : Target.t) (str : string) :
  IP_getStringType str = ST_NAME ->
  util_isName str = true ->
  onion_isNGString str = false ->
  exists t,
    Target.fromString x0 str = inr t
    /\ Target.isName t = true
    /\ JS.endsWith (Target.target t)
         (if Target.isHSK t then HSKP else ICANNP) = true
    /\ Target.toDNS t
       = (let s := util_trimFQDN str in
          if JS.endsWith s HSKP then s ++ "."
          else if JS.endsWith s ICANNP
               then JS.slice_to_minus (String.length ICANNP) s ++ "."
               else s ++ ".")%string.
Proof.
  intros Hty Hname Hng. cbv zeta.
  rewrite (fromString_name x0 str Hty Hname Hng). cbv zeta.
  destruct (JS.endsWith (util_trimFQDN str) HSKP) eqn:Eh.
  - eexists. split; [reflexivity|]. repeat split. exact Eh.
  - destruct (JS.endsWith (util_trimFQDN str) ICANNP) eqn:Ei.
    + eexists. split; [reflexivity|]. repeat split. exact Ei.
    + eexists. split; [reflexivity|]. repeat split.
      * apply endsWith_append.
      * unfold Target.toDNS.
        cbn [Target.isHSK Target.isICANN Target.type Target.target].
        change (rtypes.INAME =? rtypes.HNAME) with false.
        change (rtypes.INAME =? rtypes.INAME) with true. cbv iota.
        rewrite slice_append. reflexivity.
Qed.

(** X13.  A record with no TLS and no service entry, with version 0,
    an unsigned 32-bit TTL and every entry within the checks of the
    [fromJSON] of its class is read back from its JSON form:
    [fromJSON(toJSON(name))] returns the record, whatever the name. *)
Theorem X13_json_round_trip (r : t) (name : string) :
  json_ok r = true -> fromJSON new (toJSON r name) = inr r.
Proof. apply fromJSON_toJSON_ok. Qed.

End JsonProperties.

(* ===================================================================== *)
(** ** Further properties of the DNS synthesizer *)
(* ===================================================================== *)

Section DnsProperties.
Context {W : Collaborators}.
Import HSKRecord Synth Spec DnsSpec.

(** X14.  Every resource record of a message [toDNS] returns, in any
    of its three sections, carries the TTL of the record set. *)
Theorem X14_toDNS_ttl (r : t) (name : string) (type : Z) (naked : bool)
    (res : Message.t) :
  toDNS r name type naked = inr res ->
  Forall (fun rr => RR.ttl rr = ttl r) (sections res).
Proof.
  intros H. eapply Forall_impl; [|exact (toDNS_built _ _ _ _ H)].
  intros rr [Ht _]. exact Ht.
Qed.

(** X15.  Every resource record of a message [toDNS] returns has one
    of the thirteen types the method builds, and none is an SSHFP
    record, whatever the query type and whatever the ssh list holds:
    the [switch] has no [case] that calls [toSSHFP]. *)
Theorem X15_toDNS_never_SSHFP (r : t) (name : string) (type : Z)
    (naked : bool) (res : Message.t) :
  toDNS r name type naked = inr res ->
  Forall (fun rr => In (RR.type rr) emitted_types
                    /\ RR.type rr <> types.SSHFP) (sections res).
Proof.
  intros H. eapply Forall_impl; [|exact (toDNS_built _ _ _ _ H)].
  intros rr [_ Hin]. split; [exact Hin|].
  intros E. rewrite E in Hin. unfold emitted_types in Hin.
  cbn [In] in Hin.
  repeat (destruct Hin as [Hin|Hin]; [discriminate Hin|]).
  exact Hin.
Qed.

(** X16.  For a name of at most one label, a message [toDNS] returns
    has [qr], [ad] and [aa] set, the EDNS option (4096, true), an
    empty authority section and an answer section that is never
    empty. *)
Theorem X16_authoritative_response (r : t) (name : string) (type : Z)
    (naked : bool) (res : Message.t) :
  (List.length (util_split name) <= 1)%nat ->
  toDNS r name type naked = inr res ->
  Message.qr res = true /\ Message.ad res = true /\ Message.aa res = true
  /\ Message.edns res = Some (4096, true)
  /\ Message.authority res = [] /\ Message.answer res <> [].
Proof. apply toDNS_authoritative. Qed.

(** X17.  With [naked] set, every glue record is named by a record of
    the section it supports: each record of [toNSIP] carries the name
    that an NS record of [toNS] has as its target, each record of
    [toMXIP] the exchange of an MX record of [toMX], and each record
    of [toSRVIP] the target of an SRV record of [toSRV]. *)
Theorem X17_glue_matches (r : t) (name : string) :
  (forall auth add,
      toNS r name true = inr auth -> toNSIP r name true = inr add ->
      Forall (fun g => exists n, In n auth
                                 /\ RR.data n = NSRecord (RR.name g)) add)
  /\ (forall ans add,
        toMX r name true = inr ans -> toMXIP r name true = inr add ->
        Forall (fun g => exists n, In n ans
                                   /\ exists p, RR.data n
                                                = MXRecord p (RR.name g))
               add)
  /\ (forall ans add,
        toSRV r name true = inr ans ->
        toSRVIP r name true false = inr add ->
        Forall (fun g => exists n, In n ans
                                   /\ exists p w po,
                                        RR.data n
                                        = SRVRecord p w (RR.name g) po)
               add).
Proof.
  split; [|split].
  - intros auth add. apply toNSIP_matches_toNS.
  - intros ans add. apply toMXIP_matches_toMX.
  - intros ans add. apply toSRVIP_matches_toSRV.
Qed.

(** X18.  [toDNS] returns a message, for every query type, when the
    name is fully qualified (and so is its last label, when it has
    more than one), canonical and delegate are targets of name kind
    when set, and binet decodes every inline address among the name
    servers and the service targets. *)
Theorem X18_toDNS_returns (r : t) (name : string) (type : Z)
    (naked : bool) :
  servable r = true ->
  util_isFQDN name = true ->
  ((1 < List.length (util_split name))%nat ->
   util_isFQDN (util_from name (util_split name) (-1)) = true) ->
  exists res, toDNS r name type naked = inr res.
Proof. apply toDNS_total. Qed.

(** X19.  A canonical target that is not of name kind makes a CNAME
    query on a name of at most one label throw an assertion error; a
    delegate target that is not of name kind, in a record without name
    servers, makes every query on a name of more than one label throw
    one. *)
Theorem X19_address_target_throws (r : t) (name : string) (type : Z)
    (naked : bool) (x : Target.t) :
  util_isFQDN name = true ->
  Target.isName x = false ->
  ((List.length (util_split name) <= 1)%nat ->
   canonical r = Some x ->
   toDNS r name types.CNAME naked = inl AssertionError)
  /\ ((1 < List.length (util_split name))%nat ->
      ns r = [] -> delegate r = Some x ->
      toDNS r name type naked = inl AssertionError).
Proof.
  intros Hfq Hx. split.
  - intros Hl Hc. unfold toDNS. rewrite Hfq. cbn [assert bind ret].
    replace (1 <? Z.of_nat (List.length (util_split name))) with false
      by (symmetry; apply Z.ltb_ge; lia).
    unfold dispatch.
    change (types.CNAME =? types.ANY) with false.
    change (types.CNAME =? types.A) with false.
    change (types.CNAME =? types.AAAA) with false.
    change (types.CNAME =? types.CNAME) with true. cbv iota.
    rewrite (toCNAME_not_name r name Hc Hx). reflexivity.
  - intros Hl Hns Hd. unfold toDNS. rewrite Hfq. cbn [assert bind ret].
    replace (1 <? Z.of_nat (List.length (util_split name))) with true
      by (symmetry; apply Z.ltb_lt; lia).
    unfold referral. rewrite Hns, Hd. cbn [nonempty is_set].
    rewrite (toDNAME_not_name r _ Hd Hx). reflexivity.
Qed.

End DnsProperties.

(* ===================================================================== *)
(** ** Further properties of the wire codec *)
(* ===================================================================== *)

Section WireProperties.
Context {W : Collaborators}.
Import Bufio HSKRecord Spec WireSpec.

(** X20.  Whatever the bytes, a record [fromRaw] returns has version
    0 and a TTL that is a multiple of 64 below 2^22; its hosts are of
    the types INET4, INET6, ONION and ONIONNG, and every other target
    of one of these or of INAME or HNAME; every number is within the
    width it was read from and every buffer at most 255 bytes long. *)
Theorem X20_fromRaw_shape (bs : list byte) (r : t) :
  fromRaw bs = inr r -> decoded_shape r = true.
Proof. apply fromRaw_shape. Qed.

(** X21.  The writer copies the version field into the first byte
    without a check and the reader refuses every first byte but 0: a
    record of the class [wire_ok] given a version between 1 and 255 is
    encoded, and decoding the bytes throws
    [Unknown serialization version]. *)
Theorem X21_version_written_unchecked (r : t) (v : Z) :
  wire_ok r = true -> 0 < v < 256 ->
  exists bs,
    toRaw (set_version v r) = inr bs
    /\ fromRaw bs = inl (Error ("Unknown serialization version: "
                                ++ JS.num_string v ++ ".")).
Proof.
  intros Hok Hv. destruct (encode_decode r Hok) as (bs & He & _).
  destruct (toRaw_version r v He) as (tl & _ & Hw).
  exists (writeU8 v ++ tl). split; [exact Hw|].
  apply fromRaw_version, Hv.
Qed.

(** X22.  Encoding and decoding a record of the class [wire_ok] twice
    gives the record back with its TTL reduced to the wire value: the
    second pass exchanges the bytes of every DS key tag again, and
    changes the TTL no further. *)
Theorem X22_second_round_trip (r : t) :
  wire_ok r = true ->
  exists bs1 r1 bs2,
    toRaw r = inr bs1 /\ fromRaw bs1 = inr r1
    /\ toRaw r1 = inr bs2
    /\ fromRaw bs2 = inr (set_ttl (ttl_read_back (ttl r)) r).
Proof.
  intros Hok. destruct (encode_decode r Hok) as (bs1 & He1 & Hd1).
  destruct (encode_decode (read_back r) (wire_ok_read_back r Hok))
    as (bs2 & He2 & Hd2).
  exists bs1, (read_back r), bs2. repeat split; try assumption.
  rewrite Hd2, (read_back_twice r Hok). reflexivity.
Qed.

(** X23.  A record that holds, among its hosts, canonical, delegate,
    name servers or service targets, a target whose type is none of
    INET4, INET6, ONION, ONIONNG, INAME and HNAME cannot be encoded:
    [toRaw] throws. *)
Theorem X23_unknown_target_type (r : t) (x : Target.t) :
  In x (targets r) -> target_kind x = false ->
  exists e, toRaw r = inl e.
Proof. apply toRaw_unknown_target. Qed.

(** X24.  A host is written behind its own type byte, and the reader
    takes the tags INAME and HNAME for the canonical name: a record
    whose hosts are addresses but for one target of name kind is
    encoded, and decoded into a record with that target as canonical
    and the other hosts, in order, as hosts. *)
Theorem X24_name_host_becomes_canonical (t0 : Z)
    (hs1 : list Target.t) (h : Target.t) (hs2 : list Target.t) :
  forallb host_ok hs1 = true -> forallb host_ok hs2 = true ->
  target_ok h = true -> Target.isName h = true ->
  exists bs,
    toRaw (of_hosts t0 (hs1 ++ h :: hs2)) = inr bs
    /\ fromRaw bs
       = inr (set_canonical (Some h)
                (of_hosts (ttl_read_back t0) (hs1 ++ hs2))).
Proof. apply name_host_read_back. Qed.

(** X25.  When the onion decoders return 10 and 33 bytes and the
    second part of every magnet is shorter than 2^32 characters, the
    bytes [toWriter] writes are as many as [getSize] announces, for
    every compressor; so the writer that [toRaw] allocates is filled
    exactly, and [toRaw] throws only what [getSize] or [toWriter]
    throws. *)
Theorem X25_size_announced_is_written (r : t) :
  (forall s b, onion_decode s = inr b -> len8 b = 10) ->
  (forall s b, onion_decodeNG s = inr b -> len8 b = 33) ->
  nin_fits r = true ->
  (forall c n bs,
      getSize r c = inr n -> toWriter r c = inr bs -> len8 bs = n)
  /\ toRaw r = (_ <- getSize r (compress r) ;; toWriter r (compress r)).
Proof.
  intros H10 H33 Hnin. split.
  - intros c n bs. apply (getSize_exact H10 H33 r c Hnin).
  - apply (toRaw_is_toWriter H10 H33 r Hnin).
Qed.

(** X26.  An extra entry is written behind its own type as the tag
    byte, and the reader dispatches on that byte: when a record of
    extras holds one whose type is a tag the reader has a [case] for
    (behind extras of other types that fit their widths), what
    [fromRaw] returns for the bytes of [toRaw], if it returns, holds
    an entry that is no extra, so it is no record of extras. *)
Theorem X26_known_type_extra_misread (t0 : Z) (xs1 : list Extra.t)
    (x : Extra.t) (xs2 : list Extra.t) (bs : list byte) (r' : t) :
  forallb extra_ok xs1 = true -> rtypes.known (Extra.type x) = true ->
  toRaw (of_extras t0 (xs1 ++ x :: xs2)) = inr bs ->
  fromRaw bs = inr r' ->
  only_extras r' = false /\ forall t1 xs, r' <> of_extras t1 xs.
Proof.
  intros H1 Hk He Hd.
  pose proof (@known_extra_read_back _ t0 xs1 x xs2 bs r' H1 Hk He Hd)
    as Hb.
  split; [exact Hb|]. intros t1 xs E. subst r'. discriminate Hb.
Qed.

(** X27.  [writeTarget] asserts that [IP.decode] gives four bytes for
    an INET4 target, while [sizeTarget] counts four bytes without
    decoding: a record that holds, among its hosts, canonical,
    delegate, name servers or service targets, an INET4 target whose
    text [IP.decode] rejects or turns into another number of bytes
    (the 16 bytes of the IPv4-mapped form, for one) cannot be encoded:
    [toRaw] throws. *)
Theorem X27_inet4_target_needs_four_bytes (r : t) (x : Target.t) :
  In x (targets r) -> Target.type x = rtypes.INET4 ->
  (forall ip, IP_decode (Target.target x) = inr ip -> len8 ip <> 4) ->
  exists e, toRaw r = inl e.
Proof. apply toRaw_inet4. Qed.

End WireProperties.
(* ===================================================================== *)
(** ** The further properties at concrete inputs *)
(* ===================================================================== *)

Section MoreConcrete.
Import HSKRecord Spec Synth JsonSpec DnsSpec WireSpec.
#[local] Existing Instance Sample.collaborators.

(** The fingerprint 12 34 has the text 1234, a number whose half is
    over 255: the entry does not survive its JSON form. *)
Lemma ssh_digits_json_throws :
  SSH.fromJSON (SSH.toJSON MoreInputs.digits_ssh) = inl AssertionError.
Proof. reflexivity. Qed.

(** A fingerprint of 300 bytes whose text is no number passes the
    check, which does not look at the length. *)
Lemma ssh_long_json_passes :
  SSH.fromJSON (SSH.toJSON (SSH.mk 1 1 (repeat xab 300)))
  = inr (SSH.mk 1 1 (repeat xab 300)).
Proof. vm_compute. reflexivity. Qed.

(** A colon in the first part of a magnet moves the split. *)
Lemma magnet_colon_json_differs :
  Magnet.fromJSON (Magnet.toJSON (Magnet.mk "a:b" "cd"))
  = inr (Magnet.mk "a" "b").
Proof. reflexivity. Qed.

(** An address that holds a colon gives three parts, and the check on
    their number throws. *)
Lemma addr_colon_json_throws :
  Addr.fromJSON (Addr.toJSON (Addr.mk "bch" "bitcoincash:qpm2"))
  = inl AssertionError.
Proof. reflexivity. Qed.

Lemma X8_DS_json_witness :
  len8 [xab; xcd] < 2 ^ 31
  /\ DS.fromJSON (DS.toJSON (DS.mk 1 8 2 [xab; xcd]))
     = inr (DS.mk 1 8 2 [xab; xcd]).
Proof.
  split; [reflexivity|].
  exact (X8_DS_json_round_trip (DS.mk 1 8 2 [xab; xcd]) eq_refl).
Defined.

Lemma X12_Target_fromString_witness :
  IP_getStringType "example.com" = ST_NAME
  /\ util_isName "example.com" = true
  /\ onion_isNGString "example.com" = false
  /\ exists t,
      Target.fromString Target.new "example.com" = inr t
      /\ Target.isName t = true
      /\ JS.endsWith (Target.target t)
           (if Target.isHSK t then HSKP else ICANNP) = true
      /\ Target.toDNS t = "example.com.".
Proof.
  split; [reflexivity|]. split; [reflexivity|]. split; [reflexivity|].
  exact (X12_Target_fromString_name Target.new "example.com"
           eq_refl eq_refl eq_refl).
Defined.

Lemma X13_json_round_trip_witness :
  json_ok MoreInputs.json_plain = true
  /\ fromJSON new (toJSON MoreInputs.json_plain "alice")
     = inr MoreInputs.json_plain.
Proof.
  split; [reflexivity|].
  exact (X13_json_round_trip MoreInputs.json_plain "alice" eq_refl).
Defined.

Lemma X14_toDNS_ttl_witness :
  exists res,
    toDNS Inputs.zone "example." types.NS false = inr res
    /\ Forall (fun rr => RR.ttl rr = 7200) (sections res).
Proof.
  eexists. split; [vm_compute; reflexivity|].
  apply (X14_toDNS_ttl Inputs.zone "example." types.NS false).
  vm_compute. reflexivity.
Defined.

Lemma X15_toDNS_never_SSHFP_witness :
  ssh MoreInputs.one_ssh <> []
  /\ exists res,
      toDNS MoreInputs.one_ssh "example." types.SSHFP false = inr res
      /\ Forall (fun rr => In (RR.type rr) emitted_types
                           /\ RR.type rr <> types.SSHFP) (sections res).
Proof.
  split; [discriminate|].
  eexists. split; [vm_compute; reflexivity|].
  apply (X15_toDNS_never_SSHFP MoreInputs.one_ssh "example." types.SSHFP
           false).
  vm_compute. reflexivity.
Defined.

Lemma X16_authoritative_response_witness :
  (List.length (util_split "example.") <= 1)%nat
  /\ exists res,
      toDNS MoreInputs.one_ssh "example." types.SSHFP false = inr res
      /\ Message.qr res = true /\ Message.ad res = true
      /\ Message.aa res = true
      /\ Message.edns res = Some (4096, true)
      /\ Message.authority res = [] /\ Message.answer res <> [].
Proof.
  split; [exact (le_n 1)|].
  eexists. split; [vm_compute; reflexivity|].
  apply (X16_authoritative_response (W := Sample.collaborators)
           MoreInputs.one_ssh "example." types.SSHFP false (le_n 1)).
  vm_compute. reflexivity.
Defined.

Lemma X17_glue_matches_witness :
  exists auth add,
    toNS Inputs.zone "example." true = inr auth
    /\ toNSIP Inputs.zone "example." true = inr add
    /\ add <> []
    /\ Forall (fun g => exists n, In n auth
                                  /\ RR.data n = NSRecord (RR.name g))
              add.
Proof.
  eexists. eexists.
  split; [vm_compute; reflexivity|].
  split; [vm_compute; reflexivity|].
  split; [discriminate|].
  apply (proj1 (X17_glue_matches Inputs.zone "example."));
    vm_compute; reflexivity.
Defined.

Lemma X18_toDNS_returns_witness :
  servable Inputs.zone = true
  /\ util_isFQDN "www.example." = true
  /\ util_isFQDN (util_from "www.example." (util_split "www.example.")
                    (-1)) = true
  /\ exists res, toDNS Inputs.zone "www.example." types.A false = inr res.
Proof.
  split; [reflexivity|]. split; [reflexivity|]. split; [reflexivity|].
  exact (X18_toDNS_returns (W := Sample.collaborators) Inputs.zone
           "www.example." types.A false eq_refl eq_refl
           (fun _ => eq_refl)).
Defined.

Lemma X19_address_target_throws_witness :
  util_isFQDN "example." = true
  /\ util_isFQDN "www.example." = true
  /\ Target.isName (Target.mk 1 "1.2.3.4") = false
  /\ toDNS MoreInputs.address_canonical "example." types.CNAME false
     = inl AssertionError
  /\ toDNS MoreInputs.address_delegate "www.example." types.A false
     = inl AssertionError.
Proof.
  split; [reflexivity|]. split; [reflexivity|]. split; [reflexivity|].
  split.
  - exact (proj1 (X19_address_target_throws (W := Sample.collaborators)
                    MoreInputs.address_canonical
                    "example." types.A false (Target.mk 1 "1.2.3.4")
                    eq_refl eq_refl)
             (le_n 1 : (List.length (util_split "example.") <= 1)%nat)
             eq_refl).
  - exact (proj2 (X19_address_target_throws (W := Sample.collaborators)
                    MoreInputs.address_delegate
                    "www.example." types.A false (Target.mk 1 "1.2.3.4")
                    eq_refl eq_refl)
             (le_n 2 : (1 < List.length (util_split "www.example."))%nat)
             eq_refl eq_refl).
Defined.

Lemma X20_fromRaw_shape_witness :
  exists r,
    fromRaw Inputs.unknown_tag_blob = inr r /\ decoded_shape r = true.
Proof.
  eexists. split; [vm_compute; reflexivity|].
  apply (X20_fromRaw_shape Inputs.unknown_tag_blob).
  vm_compute. reflexivity.
Defined.

Lemma X21_version_written_unchecked_witness :
  wire_ok Inputs.one_name = true /\ 0 < 1 < 256
  /\ exists bs,
      toRaw (set_version 1 Inputs.one_name) = inr bs
      /\ fromRaw bs = inl (Error "Unknown serialization version: 1.").
Proof.
  split; [reflexivity|]. split; [split; reflexivity|].
  exact (X21_version_written_unchecked (v := 1) Inputs.one_name
           eq_refl (conj eq_refl eq_refl)).
Defined.

Lemma X22_second_round_trip_witness :
  wire_ok Inputs.with_ds = true
  /\ exists bs1 r1 bs2,
      toRaw Inputs.with_ds = inr bs1 /\ fromRaw bs1 = inr r1
      /\ toRaw r1 = inr bs2
      /\ fromRaw bs2
         = inr (set_ttl (ttl_read_back (ttl Inputs.with_ds))
                  Inputs.with_ds).
Proof.
  split; [reflexivity|].
  exact (X22_second_round_trip Inputs.with_ds eq_refl).
Defined.

Lemma X23_unknown_target_type_witness :
  In (Target.mk 4 "x") (targets MoreInputs.odd_host)
  /\ target_kind (Target.mk 4 "x") = false
  /\ exists e, toRaw MoreInputs.odd_host = inl e.
Proof.
  split; [left; reflexivity|]. split; [reflexivity|].
  exact (X23_unknown_target_type MoreInputs.odd_host (Target.mk 4 "x")
           (or_introl eq_refl) eq_refl).
Defined.

Lemma X24_name_host_witness :
  forallb host_ok [] = true
  /\ target_ok (Target.mk 6 "example.com.i") = true
  /\ Target.isName (Target.mk 6 "example.com.i") = true
  /\ exists bs,
      toRaw (of_hosts 3600 ([] ++ Target.mk 6 "example.com.i" :: []))
      = inr bs
      /\ fromRaw bs
         = inr (set_canonical (Some (Target.mk 6 "example.com.i"))
                  (of_hosts (ttl_read_back 3600) ([] ++ []))).
Proof.
  split; [reflexivity|]. split; [reflexivity|]. split; [reflexivity|].
  exact (X24_name_host_becomes_canonical 3600 []
           (Target.mk 6 "example.com.i") [] eq_refl eq_refl eq_refl
           eq_refl).
Defined.

Lemma X25_size_announced_witness :
  nin_fits Inputs.plain = true
  /\ (forall c n bs,
         getSize Inputs.plain c = inr n ->
         toWriter Inputs.plain c = inr bs -> len8 bs = n)
  /\ toRaw Inputs.plain
     = (_ <- getSize Inputs.plain (compress Inputs.plain) ;;
        toWriter Inputs.plain (compress Inputs.plain)).
Proof.
  split; [reflexivity|].
  apply (X25_size_announced_is_written Inputs.plain).
  - intros s b H. discriminate H.
  - intros s b H. discriminate H.
  - reflexivity.
Defined.

Lemma X26_known_type_extra_witness :
  toRaw (of_extras 0 ([] ++ Extra.mk 1 [x0a; x0b] :: []))
  = inr [x00; x00; x00; x00; x01; x01; x02; x0a; x0b]
  /\ fromRaw [x00; x00; x00; x00; x01; x01; x02; x0a; x0b]
     = inr (of_hosts 0 [Target.mk 1 "1.2.10.11"])
  /\ only_extras (of_hosts 0 [Target.mk 1 "1.2.10.11"]) = false
  /\ forall t1 xs,
       of_hosts 0 [Target.mk 1 "1.2.10.11"] <> of_extras t1 xs.
Proof.
  split; [vm_compute; reflexivity|].
  split; [vm_compute; reflexivity|].
  apply (@X26_known_type_extra_misread Sample.collaborators 0 []
           (Extra.mk 1 [x0a; x0b]) []
           [x00; x00; x00; x00; x01; x01; x02; x0a; x0b]
           (of_hosts 0 [Target.mk 1 "1.2.10.11"]));
    vm_compute; reflexivity.
Defined.

Lemma X27_inet4_target_witness :
  In (Target.mk 1 "1.2.3.4") (targets Inputs.one_host)
  /\ Target.type (Target.mk 1 "1.2.3.4") = rtypes.INET4
  /\ IP_decode "1.2.3.4"
     = inr [x00; x00; x00; x00; x00; x00; x00; x00; x00; x00; xff; xff;
            x01; x02; x03; x04]
  /\ exists e, toRaw Inputs.one_host = inl e.
Proof.
  split; [left; reflexivity|]. split; [reflexivity|].
  split; [reflexivity|].
  apply (@X27_inet4_target_needs_four_bytes Sample.collaborators
           Inputs.one_host (Target.mk 1 "1.2.3.4")).
  - left. reflexivity.
  - reflexivity.
  - intros ip H.
    assert (Hip : ip = Sample.mapped [x01; x02; x03; x04])
      by (vm_compute in H |- *; congruence).
    subst ip. discriminate.
Defined.

End MoreConcrete.
